(* ===== verification/_CoqProject ===== *)
-Q . S2P
Prelude.v
Protocol.v
Stream.v
Parser.v
TxQueue.v
Link.v
CLink.v
Serial.v
Chan.v
Mcu.v
McuSession.v
Pty.v
Tcp.v
TcpSource.v
TcpDest.v
TcpTunnel.v
TcpSession.v
TcpClient.v
TcpService.v
Cli.v
Logging.v
Discovery.v
Daemon.v
DaemonProofs.v
DaemonFlow.v
Channels.v
Shift.v
DaemonTrace.v
DaemonRuns.v
LinkSession.v
TcpOverflow.v
LinkTcp.v
LinkRuns.v
TcpRuns.v
Mpsc.v
Framing.v
AsyncPort.v
Dictionary.v
WindlassCli.v
Relay.v
Slots.v
Transparent.v
SmartRelay.v
Bridge.v
