(* ===== verification/Prelude.v ===== *)
(** * Verification of pik1: the serialmux link multiplexer and the windlass bridge

    ** The program

    [src/serialmux-rs] builds two programs that connect the Klipper firmware host
    with printer MCUs over one USB serial link.  Each runs once at the exporter
    (the side with the MCUs) and once at the host (the side with Klipper).

    - [serialmux] ([main.rs], [daemon.rs], [channel.rs], [protocol.rs],
      [serial.rs]) is a single-threaded [mio] event loop.  The daemon owns the
      link, a transmit ring buffer and a frame parser, and a map of channels: a
      UART or a PTY for an MCU, a listening or a connecting side of a TCP tunnel.
      A channel never touches the link; it enqueues frames on the queue it is lent
      and the daemon routes the frames of the peer back to channels by id.
    - [windlass_bridge] ([bin/windlass_bridge.rs], [windlass/]) is a set of tasks
      connected by unbounded queues.  In transparent mode it relays whole Klipper
      frames; in smart mode the exporter ends the transport session with the MCU
      and the host plays the MCU, answering [identify] from a dictionary that the
      exporter sends ahead on a control channel.

    ** Files, in dependency order

    - [Prelude] (this file): slices and indices that can panic, lemmas on lists,
      tactics, the hint databases.
    - [Protocol]: constants, frame layout, [build_frame]; the checksum class [Crc32].
    - [Stream]: the specification of parsing, [scan], on unbounded byte strings.
    - [Parser]: [FrameParser] ([feed], [drain_frames], [consume], [reset]) over its
      fixed array, and its refinement of [scan].
    - [TxQueue]: the ring buffer ([enqueue], [drain_to_fd], [reset]), its refinement
      of a bounded FIFO; the interface [TxQueueOps]/[TxQueueLaws] the daemon uses.
    - [Link]: the queue, the wire and the parser composed.
    - [CLink]: the wire layer of the C program, [src/src/serialmux.c]: [fp_feed],
      [txq_push], [txq_drain], [enqueue_frame].
    - [Serial]: [serial.rs], descriptors, ports, PTYs; the trace of system calls.
    - [Chan]: tokens, the [Channel] trait as a class with [ChannelLaws] and [Timely],
      registry helpers, histories of a channel ([chan_run]).
    - [Mcu], [Pty], [Tcp], [TcpSource], [TcpDest]: the four channel types of
      [channel.rs], a Module each for the operations and one for the proofs;
      [McuSession], [TcpSession]: what a UART and a TCP connection are given over a
      history, [TcpClient], [TcpService]: what the two TCP sides send for a connection
      and what its client is given; [TcpTunnel]: the two TCP sides composed.
    - [Cli]: the command line of [main.rs], from strings to [Args].
    - [Logging]: [logging.rs], the layers of the log and their installation, the first
      thing both programs do.
    - [Discovery]: the sysfs scans of [serial.rs] and [windlass/mod.rs], the
      preparation of socket paths.
    - [Daemon]: [daemon.rs], every handler and the loop; [DaemonProofs]: its
      invariant and what follows; [DaemonFlow]: the timeout of [poll], the keepalive
      and what [last_tx] records, the back-off, routing, reading.
    - [Channels]: [Box<dyn Channel>] as the sum of the four types, [build_channels],
      [main], and the theorem on the whole program; [DaemonRuns]: concrete runs.
    - [Shift]: the class [ChannelShift]: what a channel does does not depend on what
      it has already sent.
    - [DaemonTrace]: a run of the daemon as a sequence of acts ([performs], [acts])
      and what their record determines; [LinkSession]: two daemons, each with a run
      of its own, joined by a link; [LinkTcp]: a TCP connection through both, and
      [TcpOverflow] what it loses when the queue is full;
      [LinkRuns], [TcpRuns]: exporters and hosts, concretely.
    - [Mpsc]: the interface of the unbounded queues.
    - [Framing]: [windlass/framing.rs], the interface [Decoder]/[DecoderLaws].
    - [Dictionary]: the dictionary transfer and the virtual MCU's dispatch
      ([smart_exporter.rs], [smart_host.rs]).
    - [AsyncPort]: [windlass/async_serial.rs], the opening of a port and its polls.
    - [WindlassCli]: the command line of [bin/windlass_bridge.rs].
    - [Relay]: the tasks around the link and around one end of a channel, shared by
      the bridge's programs; [Slots]: the clients of a channel on the host.
    - [Transparent]: [windlass/exporter.rs] and [windlass/host.rs];
      [SmartRelay]: the tasks of [smart_exporter.rs] and [smart_host.rs];
      [Bridge]: [main] of [bin/windlass_bridge.rs], which starts one of the four.

    Definitions keep the names of the source; a method [m] of a struct [S] is [m] in
    a Module named after [S], which takes the struct as [self].

    ** How the code is modelled

    - Bytes and lengths are [Z] with explicit ranges ([u8], [bytes_ok]).  An index
      out of a slice, a subtraction of [usize] below zero or a failed [unwrap]
      is [None], the panic; theorems show that it does not occur.  The slot
      counter of [TcpSource] wraps as in a release build.  In the dispatch of the
      virtual MCU the sum of two [u32] is a [usize] of 64 bits, which cannot wrap.
    - Times are nanoseconds in [Z].  One invocation of a handler sees one value of
      the clock.
    - The operating system answers through arguments: [SerialSys] and [PortSys] for
      opening a device, [Sysfs] for a look at the USB devices, [SocketSys] for a
      socket, [Env] for a channel, [DEnv] for a handler of the daemon, finite
      lists of results for loops that read, accept or write until [WouldBlock].
      What is asked of the system is kept in order in a trace ([World]), one for
      the link and one for the channels, so that leaks of descriptors and wrong
      registrations are visible.  Where the code ignores the result of a
      reregistration, what the trace says of a registration is what was last asked
      for.
    - A channel's calls to the transmit queue are kept as a list of frames that the
      daemon enqueues in order: a channel never looks at the queue.
    - The [HashMap] of channels is an association list in the order of iteration,
      which is arbitrary; the model takes the order of insertion, and the theorems on
      the daemon hold for channels inserted in any order.  That channel ids are
      distinct is what the command line checks ([validate_unique_channel_ids]).
    - The daemon's loop is a list of passes, each a poll result: arbitrary events,
      arbitrary answers.  Loops inside an operation get fuel from their own
      measure: the input length for [feed] and the parser's loops, the buffer
      length for the decoders, the number of bytes for the chunking loops.  Each is
      shown to be enough: the refinement theorems state [Some], with no
      assumption that the loop returns.
    - The bridge's tasks interleave between turns: an operation of [Transparent] or
      [SmartRelay] is one turn of one task's loop ([Event]), and the theorems hold
      after any schedule.  A turn not possible is [None].  A few fields record
      what an end has read or written, only for the statements: [input], [output],
      [calls], [relayed], [sent], [from_mcu], [to_mcu], [fetched].
    - [FramedRead] appends what it reads and decodes until the decoder asks for more,
      then reads again ([framed] in [Framing]); a [BytesMut] is a list.
    - Whitespace in [trim] is ASCII; strings are strings of bytes.

    Code that is not in the repository is a parameter, with what the program
    relies on as the laws of a class: [Crc32] (the checksum crate), [Mpsc] and
    [MpscLaws] (unbounded queues), [Vlq] and [VlqLaws] (the integer encoding of the
    Klipper protocol library), [Anchor] and [AnchorLaws] (its transport), [Runtime]
    and [RuntimeLaws] (the buffers and the readiness of the asynchronous runtime).  Each has
    a concrete instance, on which the witnesses run.

    ** What the theorems show

    - Frames and the link: the parser is equivalent to a one-pass specification,
      does not depend on how the stream is cut, recovers from noise, and inverts
      [build_frame] ([Stream], [Parser]); the ring buffer is a bounded FIFO
      ([TxQueue]); the two composed deliver what was accepted, in order ([Link]).
    - Channels: invariants after every history ([Mcu], [Pty], [TcpSource], [TcpDest]);
      deadlines and announcements of the MCU channel; the PTY channel as
      a session; agreement of the exporter's MCU channel with the host's PTY channel;
      losslessness of the TCP tunnel.
    - The daemon: no handler panics and the invariant holds whatever the system
      answers; the bytes on the link are a stream of whole frames that begins with
      [F_HELLO]; no pending write is left unregistered; backpressure agrees with
      the queue; handshake, back-off, routing; a ping is never early; [poll] sleeps
      past nothing the timers would do, with one exception, and there is no busy loop
      ([DaemonProofs], [DaemonFlow]); the whole program with the channels of the
      command line, from the strings given to it ([Channels]).
    - The two ends: a record of what an end did, true to what the system's reads
      returned, accounts for the bytes it wrote, the frames its channels were handed
      and the state each is in; whatever it queues
      is a frame the protocol knows.  Two ends joined by a link that delivers bytes
      in order both come up, hand each channel a beginning of what the far side's
      channel had queued, Klipper an unbroken run of what its MCU sent, and the
      MCU's UART one of what Klipper sent; a TCP service gets exactly what was read
      from the clients of its slot since one was accepted there, and the client a piece
      of what was read from its services ([DaemonTrace], [McuSession], [TcpSession],
      [TcpClient], [TcpService], [LinkSession], [LinkTcp]).
    - The C program: its parser is equivalent to the Rust one; while its queue has
      room the frames it sends are what the Rust program would send, and either
      parser delivers them; without room it leaves a part of a frame ([CLink]).
    - Command lines: exactly the meaningful specifications are accepted, and each is
      what its printed form parses to ([Cli], [WindlassCli]); the bridge starts the
      program asked for, on the device asked for, exactly when the system grants what
      it needs, in a state its theorems are about ([Bridge]).
    - The port of the bridge is opened entirely or not at all, leaks nothing, and is
      a stream of exactly what the system hands over ([AsyncPort]).
    - Framing of the bridge: round trips whatever the reads, recovery after noise
      within one frame's length; what is returned are unbroken, disjoint pieces of the
      input, in order ([Framing]).
    - The dictionary: it arrives whole whatever crosses the link meanwhile, and
      [identify] gives all of it ([Dictionary]).
    - The bridge over any schedule: end-to-end delivery in both directions, at most
      one client per frame, nothing lost while nothing fails, and in smart mode
      the right dictionary for each channel ([Transparent], [SmartRelay]).

    ** What modelling showed

    Each is a lemma of the development unless it is only a matter of a comment.

    - Any frame or channel event refreshes [last_tx], so [F_PING] can be put off for
      ever and the peer drop a healthy link ([DaemonFlow], [ping_suppressed]).
    - [open_pty_raw] leaks two descriptors when configuring fails ([Pty],
      [pty_leaks_on_termios_error]).
    - A connection accepted under backpressure is read ([TcpSource],
      [accepted_while_paused]).
    - [F_TCONN] for a slot that still drains is ignored and the data of the new
      connection goes to the old one ([TcpDest], [dest_reused_id]).
    - A [tcp] specification with extra parts is accepted ([Cli], [tcp_extra_parts]);
      the documented range of channel ids, 0-255, is that of neither program
      ([WindlassCli], [reserved_id]).
    - A restarted exporter's dictionary is appended to the fragments of the
      unfinished transfer ([Dictionary], [gather_stale]).
    - [ttyACM10] is preferred to [ttyACM2] ([Discovery], [ttyACM10_first]).
    - A device that hangs up never ends the stream of its port ([AsyncPort],
      [hangup_never_ends]).
    - A second call of [init] is not the no-op its comment says: it makes the
      directory and starts another appender; and log files are written without
      being asked for, to the default directory ([Logging]).
    - A log directory that is there and cannot be written to ends both programs with
      a panic; one that cannot be made does not ([Logging], [unwritable_panics]).
    - Before the handshake [poll] does not reckon with the keepalive, and a silent link
      is dropped up to a second late ([DaemonRuns], [late_before_handshake]).
    - Only an error of the link's reader ends the transparent exporter
      ([Transparent], [exporter_stops]).
    - One readable event of a TCP connection can bring more than the queue holds; the
      frames it does not take are lost from the middle of the stream and the
      connection goes on ([TcpOverflow], [overflow_loses_data]).
    - The C program queues a frame in three pieces and looks at no result, so that a
      nearly full queue is left with a torn frame ([CLink], [enqueue_frame_torn]).

    ** Not modelled

    - When [mio] reports an event: the theorems hold for any events, so nothing is
      claimed about edge-triggered readiness beyond registrations.
    - The log lines (the standard error is taken to be writable), and the filter,
      appender and journald layer of the third-party crates, which are arguments of
      [Logging]; how the command line is split into values and
      what the help says ([clap]); the exit status.
    - Fairness of the runtime's scheduler: delivery of everything is stated for
      states in which the queues have been emptied.
    - Klipper and the MCUs, except as the far side of a statement.
    - The C program in [src/src] beyond its wire layer and its table-driven CRC-32
      (which is the concrete checksum of the runs): its event loop, its command line
      and [channels.c] do the work of the Rust daemon and channels, which replace
      them; a C end of the link is covered as far as what it puts on the wire and
      what it makes of what it reads. *)
From Stdlib Require Import ZArith Lia.
From stdpp Require Import base option numbers list.

Local Open Scope Z_scope.

(** ** Machine integers and Rust slices

    Bytes are integers [0 <= b < 256]; a [&[u8]] is a [list Z].  Indices and
    lengths are [usize] values, kept as [Z].  A Rust operation that can panic
    (an index or range outside the slice, a subtraction below zero) returns
    [None]; the theorems show where that cannot happen. *)

Definition u8 (b : Z) : Prop := 0 <= b < 256.
Definition bytes_ok (l : list Z) : Prop := Forall u8 l.

Definition zlen {A} (l : list A) : Z := Z.of_nat (length l).
Definition ztake {A} (n : Z) (l : list A) : list A := take (Z.to_nat n) l.
Definition zdrop {A} (n : Z) (l : list A) : list A := drop (Z.to_nat n) l.

(** [l[i]] *)
Definition idx {A} (l : list A) (i : Z) : option A :=
  if 0 <=? i then l !! Z.to_nat i else None.

(** [&l[a..b]] *)
Definition slice {A} (l : list A) (a b : Z) : option (list A) :=
  if (0 <=? a) && (a <=? b) && (b <=? zlen l)
  then Some (ztake (b - a) (zdrop a l)) else None.

(** [l[a..a + d.len()].copy_from_slice(d)] *)
Definition blit {A} (l : list A) (a : Z) (d : list A) : option (list A) :=
  if (0 <=? a) && (a + zlen d <=? zlen l)
  then Some (ztake a l ++ d ++ zdrop (a + zlen d) l) else None.

(** [l.copy_within(a..b, dst)] *)
Definition copy_within {A} (l : list A) (a b dst : Z) : option (list A) :=
  s ← slice l a b; blit l dst s.

(** [l.drain(..n)]: the elements that remain. *)
Definition drain_front {A} (l : list A) (n : Z) : option (list A) :=
  if (0 <=? n) && (n <=? zlen l) then Some (zdrop n l) else None.

(** [a - b] on [usize]. *)
Definition usub (a b : Z) : option Z := if b <=? a then Some (a - b) else None.

(** [v.is_empty()] *)
Definition is_empty {A} (l : list A) : bool :=
  match l with [] => true | _ => false end.

(** [z.to_le_bytes()] for an [8*n]-bit unsigned integer, and its inverse. *)
Fixpoint to_le_bytes (n : nat) (z : Z) : list Z :=
  match n with
  | O => []
  | S n' => Z.land z 255 :: to_le_bytes n' (Z.shiftr z 8)
  end.

Fixpoint from_le_bytes (l : list Z) : Z :=
  match l with
  | [] => 0
  | b :: l' => Z.lor b (Z.shiftl (from_le_bytes l') 8)
  end.

(** [Result<A, std::io::Error>], the errors by the distinctions the code makes. *)
Inductive Errno :=
  | EAGAIN | EWOULDBLOCK | EIO | EINTR
  | InvalidInput | AlreadyExists | NotFound
  | EOTHER (code : Z).

Inductive io (A : Type) := Ok (a : A) | Err (e : Errno).
Arguments Ok {A} a.
Arguments Err {A} e.

#[export] Instance Errno_eq_dec : EqDecision Errno.
Proof. solve_decision. Defined.

(** ** Automation *)

Create HintDb zlist.
Create Rewrite HintDb zlist.

Ltac zbool :=
  repeat match goal with
  | H : (_ && _)%bool = true |- _ => apply andb_true_iff in H as [? ?]
  | H : (_ && _)%bool = false |- _ => apply andb_false_iff in H
  | H : (_ || _)%bool = false |- _ => apply orb_false_iff in H as [? ?]
  | H : negb _ = true |- _ => apply negb_true_iff in H
  | H : negb _ = false |- _ => apply negb_false_iff in H
  | H : (_ <=? _) = true |- _ => apply Z.leb_le in H
  | H : (_ <=? _) = false |- _ => apply Z.leb_gt in H
  | H : (_ <? _) = true |- _ => apply Z.ltb_lt in H
  | H : (_ <? _) = false |- _ => apply Z.ltb_ge in H
  | H : (_ =? _) = true |- _ => apply Z.eqb_eq in H
  | H : (_ =? _) = false |- _ => apply Z.eqb_neq in H
  end.

(** Decide every boolean test of the goal on [Z] whose outcome [lia] knows. *)
Ltac zdecide :=
  repeat match goal with
  | |- context [?a <=? ?b] =>
      first [ rewrite (proj2 (Z.leb_le a b)) by lia
            | rewrite (proj2 (Z.leb_gt a b)) by lia ]
  | |- context [?a <? ?b] =>
      first [ rewrite (proj2 (Z.ltb_lt a b)) by lia
            | rewrite (proj2 (Z.ltb_ge a b)) by lia ]
  | |- context [?a =? ?b] =>
      first [ rewrite (proj2 (Z.eqb_eq a b)) by lia
            | rewrite (proj2 (Z.eqb_neq a b)) by lia ]
  end; cbn [andb orb negb].

(** The bytes of a concrete list are bytes. *)
Ltac solve_bytes :=
  repeat match goal with
  | |- _ /\ _ => split
  | |- bytes_ok _ => unfold bytes_ok
  | |- Forall _ [] => apply Forall_nil_2
  | |- Forall _ (_ :: _) => apply Forall_cons
  | |- u8 _ => unfold u8; cbn
  end; lia.

(** ** Lemmas on slices *)

Section Slices.
Context {A : Type}.
Implicit Types l d : list A.

Lemma zlen_nonneg l : 0 <= zlen l.
Proof. unfold zlen. lia. Qed.

Lemma zlen_nil : zlen (@nil A) = 0.
Proof. reflexivity. Qed.

Lemma zlen_cons x l : zlen (x :: l) = 1 + zlen l.
Proof. unfold zlen. cbn [length]. lia. Qed.

Lemma zlen_app l d : zlen (l ++ d) = zlen l + zlen d.
Proof. unfold zlen. rewrite length_app. lia. Qed.

Lemma zlen_ztake n l : 0 <= n <= zlen l -> zlen (ztake n l) = n.
Proof. unfold zlen, ztake. intros. rewrite length_take. lia. Qed.

Lemma zlen_zdrop n l : 0 <= n <= zlen l -> zlen (zdrop n l) = zlen l - n.
Proof. unfold zlen, zdrop. intros. rewrite length_drop. lia. Qed.

Lemma zlen_replicate n (x : A) : 0 <= n -> zlen (replicate (Z.to_nat n) x) = n.
Proof. unfold zlen. intros. rewrite length_replicate. lia. Qed.

Lemma zlen_0_nil l : zlen l = 0 -> l = [].
Proof. destruct l; [done | rewrite zlen_cons; pose proof (zlen_nonneg l); lia]. Qed.

Lemma ztake_zdrop n l : ztake n l ++ zdrop n l = l.
Proof. apply take_drop. Qed.

Lemma zdrop_0 l : zdrop 0 l = l.
Proof. reflexivity. Qed.

Lemma ztake_0 l : ztake 0 l = [].
Proof. reflexivity. Qed.

Lemma ztake_all n l : zlen l <= n -> ztake n l = l.
Proof. unfold zlen, ztake. intros. apply take_ge. lia. Qed.

Lemma zdrop_all n l : zlen l <= n -> zdrop n l = [].
Proof. unfold zlen, zdrop. intros. apply drop_ge. lia. Qed.

Lemma ztake_app n l d : zlen l = n -> ztake n (l ++ d) = l.
Proof. unfold zlen, ztake. intros. apply take_app_length'. lia. Qed.

Lemma zdrop_app n l d : zlen l = n -> zdrop n (l ++ d) = d.
Proof. unfold zlen, zdrop. intros. apply drop_app_length'. lia. Qed.

Lemma ztake_app_le n l d : n <= zlen l -> ztake n (l ++ d) = ztake n l.
Proof. unfold zlen, ztake. intros. apply take_app_le. lia. Qed.

Lemma zdrop_app_le n l d : n <= zlen l -> zdrop n (l ++ d) = zdrop n l ++ d.
Proof. unfold zlen, zdrop. intros. apply drop_app_le. lia. Qed.

Lemma zdrop_zdrop m n l : 0 <= m -> 0 <= n -> zdrop m (zdrop n l) = zdrop (n + m) l.
Proof. unfold zdrop. intros. rewrite drop_drop. f_equal. lia. Qed.

Lemma ztake_ztake m n l : ztake m (ztake n l) = ztake (m `min` n) l.
Proof. unfold ztake. rewrite take_take. f_equal. lia. Qed.

Lemma ztake_zdrop_comm m n l :
  0 <= m -> 0 <= n -> ztake m (zdrop n l) = zdrop n (ztake (n + m) l).
Proof.
  unfold ztake, zdrop. intros. rewrite take_drop_commute. do 2 f_equal. lia.
Qed.

Lemma idx_lookup l i : 0 <= i -> idx l i = l !! Z.to_nat i.
Proof. unfold idx. intros. by zdecide. Qed.

Lemma idx_Some l i : 0 <= i < zlen l -> exists x, idx l i = Some x.
Proof.
  intros. rewrite idx_lookup by lia. apply lookup_lt_is_Some_2.
  unfold zlen in *. lia.
Qed.

Lemma idx_app_l l d i : i < zlen l -> idx (l ++ d) i = idx l i.
Proof.
  intros. unfold idx. destruct (0 <=? i) eqn:E; [|done]. zbool.
  apply lookup_app_l. unfold zlen in *. lia.
Qed.

Lemma idx_app_r l d i : zlen l <= i -> idx (l ++ d) i = idx d (i - zlen l).
Proof.
  intros. pose proof (zlen_nonneg l). rewrite !idx_lookup by lia.
  rewrite lookup_app_r by (unfold zlen in *; lia). f_equal. unfold zlen in *. lia.
Qed.

Lemma idx_cons_0 x l : idx (x :: l) 0 = Some x.
Proof. reflexivity. Qed.

Lemma idx_cons_S (b : A) l i : 0 < i -> idx (b :: l) i = idx l (i - 1).
Proof. intros. apply (idx_app_r [b]). unfold zlen; cbn [length]; lia. Qed.

Lemma idx_ztake l n i : i < n -> idx (ztake n l) i = idx l i.
Proof.
  intros. unfold idx, ztake. destruct (0 <=? i) eqn:E; [|done]. zbool.
  apply lookup_take_lt. lia.
Qed.

Lemma slice_eq l a b :
  0 <= a <= b -> b <= zlen l -> slice l a b = Some (ztake (b - a) (zdrop a l)).
Proof. intros. unfold slice. by zdecide. Qed.

Lemma slice_mid l d r a b :
  zlen l = a -> zlen l + zlen d = b -> slice (l ++ d ++ r) a b = Some d.
Proof.
  intros <- <-. pose proof (zlen_nonneg l). pose proof (zlen_nonneg d).
  pose proof (zlen_nonneg r). rewrite slice_eq by (rewrite ?zlen_app; lia).
  rewrite zdrop_app by done. f_equal. apply ztake_app. lia.
Qed.

Lemma slice_prefix d r b : zlen d = b -> slice (d ++ r) 0 b = Some d.
Proof. intros. apply (slice_mid [] d r); [done|]. by rewrite zlen_nil, Z.add_0_l. Qed.

Lemma slice_suffix l d a b :
  zlen l = a -> zlen l + zlen d = b -> slice (l ++ d) a b = Some d.
Proof. intros. rewrite <- (app_nil_r d) at 1. by apply slice_mid. Qed.

Lemma slice_length l a b s : slice l a b = Some s -> zlen s = b - a.
Proof.
  unfold slice. case_match eqn:E; [|done]. zbool. intros [= <-].
  rewrite zlen_ztake; [done|]. rewrite zlen_zdrop; lia.
Qed.

Lemma blit_eq l a d :
  0 <= a -> a + zlen d <= zlen l ->
  blit l a d = Some (ztake a l ++ d ++ zdrop (a + zlen d) l).
Proof. intros. unfold blit. by zdecide. Qed.

Lemma blit_length l a d l' : blit l a d = Some l' -> zlen l' = zlen l.
Proof.
  unfold blit. case_match eqn:E; [|done]. zbool. intros [= <-].
  pose proof (zlen_nonneg d).
  rewrite !zlen_app, zlen_ztake, zlen_zdrop; lia.
Qed.

Lemma is_empty_spec l : is_empty l = true <-> l = [].
Proof. destruct l; done. Qed.

Lemma is_empty_zlen l : is_empty l = (zlen l =? 0).
Proof.
  destruct l; [done|]. rewrite zlen_cons. pose proof (zlen_nonneg l).
  cbn [is_empty]. by zdecide.
Qed.

Lemma drain_front_eq l n :
  0 <= n <= zlen l -> drain_front l n = Some (zdrop n l).
Proof. intros. unfold drain_front. by zdecide. Qed.

Lemma usub_eq a b : b <= a -> usub a b = Some (a - b).
Proof. intros. unfold usub. by zdecide. Qed.

End Slices.

#[export] Hint Rewrite @zlen_nil @zlen_cons @zlen_app : zlist.
#[export] Hint Resolve zlen_nonneg : zlist.

(** Arithmetic on the lengths of the goal's lists. *)
Ltac zl :=
  autorewrite with zlist in *;
  repeat match goal with
  | |- context [zlen ?l] =>
      lazymatch goal with
      | _ : 0 <= zlen l |- _ => fail
      | _ => pose proof (zlen_nonneg l)
      end
  | _ : context [zlen ?l] |- _ =>
      lazymatch goal with
      | _ : 0 <= zlen l |- _ => fail
      | _ => pose proof (zlen_nonneg l)
      end
  end; lia.

(** ** Lists of bytes *)

Lemma bytes_ok_cons b l : bytes_ok (b :: l) -> u8 b /\ bytes_ok l.
Proof. apply Forall_cons. Qed.

Lemma bytes_ok_concat (ls : list (list Z)) : bytes_ok (concat ls) <-> Forall bytes_ok ls.
Proof.
  unfold bytes_ok. induction ls as [|l ls IH]; cbn [concat]; [split; constructor|].
  by rewrite Forall_app, Forall_cons, IH.
Qed.

(** ** Little-endian integers *)

Lemma land_255 z : Z.land z 255 = z mod 256.
Proof. change 255 with (Z.ones 8). by rewrite Z.land_ones by lia. Qed.

Lemma lor_shiftl_8 b z : u8 b -> Z.lor b (Z.shiftl z 8) = b + 256 * z.
Proof.
  intros [? ?]. rewrite Z.shiftl_mul_pow2 by lia. change (2 ^ 8) with 256.
  rewrite <- Z.lxor_lor, <- Z.add_nocarry_lxor; [lia| |];
    apply Z.bits_inj'; intros n Hn; rewrite Z.land_spec, Z.bits_0;
    change 256 with (2 ^ 8); (destruct (Z.lt_ge_cases n 8);
    [ rewrite Z.mul_pow2_bits_low by lia; apply andb_false_r
    | rewrite (Z.bits_above_log2 b); [done|lia|] ]);
    (destruct (Z.eq_dec b 0) as [->|];
     [ cbn; lia | apply Z.log2_lt_pow2; [lia|];
       apply Z.lt_le_trans with (2 ^ 8); [cbn; lia | apply Z.pow_le_mono_r; lia] ]).
Qed.

Lemma to_le_bytes_length n z : length (to_le_bytes n z) = n.
Proof. revert z; induction n; intros; cbn; auto. Qed.

Lemma zlen_to_le_bytes n z : zlen (to_le_bytes n z) = Z.of_nat n.
Proof. unfold zlen. by rewrite to_le_bytes_length. Qed.

Lemma to_le_bytes_ok n z : bytes_ok (to_le_bytes n z).
Proof.
  revert z; induction n; intros; cbn; constructor; [|apply IHn].
  rewrite land_255. unfold u8. pose proof (Z.mod_pos_bound z 256). lia.
Qed.

Lemma from_to_le_bytes n z :
  0 <= z < 2 ^ (8 * Z.of_nat n) -> from_le_bytes (to_le_bytes n z) = z.
Proof.
  revert z; induction n; intros z Hz.
  - cbn in Hz. cbn. lia.
  - cbn [to_le_bytes from_le_bytes]. rewrite lor_shiftl_8.
    2:{ rewrite land_255. unfold u8. pose proof (Z.mod_pos_bound z 256). lia. }
    rewrite land_255, Z.shiftr_div_pow2 by lia. change (2 ^ 8) with 256.
    rewrite IHn.
    + pose proof (Z.div_mod z 256). lia.
    + replace (2 ^ (8 * Z.of_nat (S n))) with (256 * 2 ^ (8 * Z.of_nat n)) in Hz.
      2:{ change 256 with (2 ^ 8). rewrite <- Z.pow_add_r by lia. f_equal. lia. }
      split; [apply Z.div_pos; lia | apply Z.div_lt_upper_bound; lia].
Qed.

Lemma to_from_le_bytes l :
  bytes_ok l -> to_le_bytes (length l) (from_le_bytes l) = l.
Proof.
  induction 1 as [|b l Hb Hl IH]; [done|].
  cbn [length to_le_bytes from_le_bytes]. rewrite lor_shiftl_8 by done.
  rewrite land_255, Z.shiftr_div_pow2 by lia. change (2 ^ 8) with 256.
  assert ((b + 256 * from_le_bytes l) mod 256 = b) as ->.
  { rewrite Z.add_comm, Z.mul_comm, Z.add_comm, Z.mod_add by lia.
    apply Z.mod_small. apply Hb. }
  assert ((b + 256 * from_le_bytes l) / 256 = from_le_bytes l) as ->.
  { rewrite Z.mul_comm, Z.div_add by lia. rewrite Z.div_small; [lia|apply Hb]. }
  by rewrite IH.
Qed.

#[export] Hint Resolve to_le_bytes_ok : zlist.
#[export] Hint Rewrite zlen_to_le_bytes : zlist.

Lemma from_le_bytes_nonneg l : bytes_ok l -> 0 <= from_le_bytes l.
Proof.
  induction 1 as [|b l [Hb _] Hl IH]; cbn [from_le_bytes]; [done|].
  rewrite Z.lor_nonneg, Z.shiftl_nonneg. done.
Qed.

Lemma app_same_nil {A} (l d : list A) : l = l ++ d -> d = [].
Proof.
  intros E%(f_equal length). rewrite length_app in E. destruct d; [done|]. cbn in E. lia.
Qed.
