(* ===== verification/Protocol.v ===== *)
(** * Wire protocol: constants and the frame builder ([serialmux-rs/src/protocol.rs])

    A frame is [AA 55 ftype channel len_lo len_hi payload crc0..crc3].  The
    checksum is the [crc32fast] crate's [hash]; the model is parametric in it
    (class [Crc32]), the crate's result being a [u32].  The instance
    [crc32_buf] is the zlib checksum of the C implementation
    ([src/src/serialmux.h]), which the Rust protocol must agree with. *)
From Stdlib Require Import ZArith Lia.
From stdpp Require Import base option numbers list.
From S2P Require Import Prelude.

Local Open Scope Z_scope.

Definition HDR_SIZE : Z := 6.
Definition CRC_SIZE : Z := 4.
Definition MAX_PAYLOAD : Z := 16 * 1024.
Definition MAX_FRAME : Z := HDR_SIZE + MAX_PAYLOAD + CRC_SIZE.

Definition F_DATA : Z := 0x01.
Definition F_FLUSH : Z := 0x02.
Definition F_READY : Z := 0x03.
Definition F_HELLO : Z := 0x05.
Definition F_ACK : Z := 0x06.
Definition F_TCONN : Z := 0x10.
Definition F_TDATA : Z := 0x11.
Definition F_TCLOSE : Z := 0x12.
Definition F_PING : Z := 0x20.
Definition F_PONG : Z := 0x21.

Definition KLIPPER_SYNC : Z := 0x7E.

Definition LINK_HIGH_WATER : Z := 512 * 1024.
Definition LINK_LOW_WATER : Z := 256 * 1024.
Definition LINK_TXBUF_SIZE : Z := LINK_HIGH_WATER + MAX_FRAME + 64.
Definition PARSER_BUF_CAP : Z := MAX_FRAME + 64.

(** [crc32fast::hash]: a function from byte slices to [u32]. *)
Class Crc32 := {
  crc32_hash : list Z -> Z;
  crc32_hash_u32 : forall l, 0 <= crc32_hash l < 2 ^ 32;
}.

(** A parsed frame: type, channel, payload. *)
Definition frame : Type := Z * Z * list Z.

Definition build_frame `{Crc32} (ftype channel : Z) (payload : list Z) : list Z :=
  let length := zlen payload in
  if MAX_PAYLOAD <? length then []
  else
    let crc := crc32_hash payload in
    [0xAA; 0x55; ftype; channel] ++ to_le_bytes 2 length ++ payload
      ++ to_le_bytes 4 crc.

Definition build `{Crc32} (f : frame) : list Z :=
  let '(ftype, channel, payload) := f in build_frame ftype channel payload.

(** The frames the builder accepts, and those with byte-valued fields. *)
Definition frame_fits (f : frame) : Prop := zlen f.2 <= MAX_PAYLOAD.
Definition frame_bytes (f : frame) : Prop :=
  u8 f.1.1 /\ u8 f.1.2 /\ bytes_ok f.2.

(** The checksum of the C implementation: [crc32_init] and [crc32_buf]. *)
Fixpoint crc32_shift (k : nat) (c : Z) : Z :=
  match k with
  | O => c
  | S k' =>
      crc32_shift k'
        (if Z.testbit c 0 then Z.lxor 0xEDB88320 (Z.shiftr c 1) else Z.shiftr c 1)
  end.

Definition g_crc32_tbl : list Z :=
  map (fun i => crc32_shift 8 (Z.of_nat i)) (seq 0 256).

Definition crc32_step (crc b : Z) : Z :=
  Z.lxor (nth (Z.to_nat (Z.land (Z.lxor crc b) 0xFF)) g_crc32_tbl 0)
         (Z.shiftr crc 8).

Definition crc32_buf (data : list Z) : Z :=
  Z.land (Z.lxor (fold_left crc32_step data 0xFFFFFFFF) 0xFFFFFFFF) 0xFFFFFFFF.

Lemma crc32_buf_u32 l : 0 <= crc32_buf l < 2 ^ 32.
Proof.
  unfold crc32_buf. generalize (Z.lxor (fold_left crc32_step l 0xFFFFFFFF) 0xFFFFFFFF).
  intros z. change 0xFFFFFFFF with (Z.ones 32).
  rewrite Z.land_ones by lia. apply Z.mod_pos_bound. lia.
Qed.

Definition crc32_zlib : Crc32 :=
  {| crc32_hash := crc32_buf; crc32_hash_u32 := crc32_buf_u32 |}.

(** The published check value of CRC-32/ISO-HDLC on ["123456789"]. *)
Example crc32_check_value :
  crc32_buf [0x31; 0x32; 0x33; 0x34; 0x35; 0x36; 0x37; 0x38; 0x39] = 0xCBF43926.
Proof. vm_compute. reflexivity. Qed.

(** ** The layout of a built frame *)

Section Layout.
Context `{Crc32}.

Lemma build_frame_fits ft ch pl :
  zlen pl <= MAX_PAYLOAD ->
  build_frame ft ch pl =
    0xAA :: 0x55 :: ft :: ch :: to_le_bytes 2 (zlen pl) ++ pl
      ++ to_le_bytes 4 (crc32_hash pl).
Proof. intros. unfold build_frame. by zdecide. Qed.

Lemma build_frame_oversize ft ch pl :
  MAX_PAYLOAD < zlen pl -> build_frame ft ch pl = [].
Proof. intros. unfold build_frame. by zdecide. Qed.

Lemma build_frame_length ft ch pl :
  zlen pl <= MAX_PAYLOAD ->
  zlen (build_frame ft ch pl) = HDR_SIZE + zlen pl + CRC_SIZE.
Proof. intros. rewrite build_frame_fits by done. unfold HDR_SIZE, CRC_SIZE. zl. Qed.

Lemma build_frame_bound ft ch pl : zlen (build_frame ft ch pl) <= MAX_FRAME.
Proof.
  destruct (Z.le_gt_cases (zlen pl) MAX_PAYLOAD).
  - rewrite build_frame_length by done. unfold MAX_FRAME. lia.
  - by rewrite build_frame_oversize.
Qed.

(** The two length bytes of a header, decoded as the parser decodes them. *)
Lemma header_length n :
  0 <= n <= MAX_PAYLOAD ->
  exists lo hi, to_le_bytes 2 n = [lo; hi] /\ Z.lor lo (Z.shiftl hi 8) = n.
Proof.
  intros Hn. exists (Z.land n 255), (Z.land (Z.shiftr n 8) 255). split; [done|].
  rewrite lor_shiftl_8.
  - rewrite !land_255, Z.shiftr_div_pow2 by lia. change (2 ^ 8) with 256.
    rewrite (Z.mod_small (n / 256)).
    + pose proof (Z.div_mod n 256). lia.
    + unfold MAX_PAYLOAD in Hn. split; [apply Z.div_pos; lia|].
      apply Z.div_lt_upper_bound; lia.
  - rewrite land_255. unfold u8. pose proof (Z.mod_pos_bound n 256). lia.
Qed.

(** Conversely two bytes are the encoding of the length they decode to. *)
Lemma header_length_inv lo hi :
  u8 lo -> u8 hi ->
  0 <= Z.lor lo (Z.shiftl hi 8) /\
  to_le_bytes 2 (Z.lor lo (Z.shiftl hi 8)) = [lo; hi].
Proof.
  intros Hlo Hhi.
  assert (Hl : bytes_ok [lo; hi]) by (constructor; [done|constructor; done]).
  pose proof (to_from_le_bytes [lo; hi] Hl) as Hr.
  cbn [from_le_bytes length] in Hr.
  rewrite Z.shiftl_0_l, Z.lor_0_r in Hr. split; [|done].
  rewrite lor_shiftl_8 by done. unfold u8 in *. lia.
Qed.

Lemma crc_roundtrip l :
  from_le_bytes (to_le_bytes 4 (crc32_hash l)) = crc32_hash l.
Proof. apply from_to_le_bytes, crc32_hash_u32. Qed.

Lemma build_frame_bytes_ok f : frame_bytes f -> bytes_ok (build f).
Proof.
  destruct f as [[ft ch] pl]. intros (Hf & Hc & Hp). cbn in Hf, Hc, Hp.
  cbn [build]. destruct (Z.le_gt_cases (zlen pl) MAX_PAYLOAD).
  - rewrite build_frame_fits by done. unfold bytes_ok, u8 in *.
    repeat (apply Forall_cons; split; [lia|]).
    apply Forall_app; split; [apply to_le_bytes_ok|].
    apply Forall_app; split; [done|apply to_le_bytes_ok].
  - rewrite build_frame_oversize by done. constructor.
Qed.

End Layout.

(** Side conditions on concrete frames and byte strings. *)
Ltac concrete_frames :=
  repeat match goal with
  | |- Forall _ [] => apply Forall_nil_2
  | |- Forall _ (_ :: _) => apply Forall_cons
  | |- _ /\ _ => split
  | |- frame_fits _ => vm_compute; discriminate
  | |- frame_bytes _ => unfold frame_bytes; cbn [fst snd]
  | |- bytes_ok (_ :: _) => apply Forall_cons
  | |- bytes_ok [] => apply Forall_nil_2
  | |- Forall u8 ?l => let l' := eval vm_compute in l in change (Forall u8 l')
  | |- bytes_ok ?l => let l' := eval vm_compute in l in change (bytes_ok l')
  | |- u8 _ => vm_compute; split; congruence
  end.
