(* ===== verification/Stream.v ===== *)
(** * The link as a byte stream: the abstract specification of frame parsing

    [scan] reads the frames of an unbounded byte string and returns what is
    left over.  It is the promise [FrameParser] (file Parser) implements on a
    fixed buffer: [scan] does not depend on how the stream is cut into reads
    ([scan_app]), gives back every frame of a stream of built frames
    ([scan_build_all]) also behind noise ([scan_noise]), and invents none
    ([scan_sound]). *)
From Stdlib Require Import ZArith Lia.
From stdpp Require Import base option numbers list.
From S2P Require Import Prelude Protocol.

Local Open Scope Z_scope.

Module Stream.

Definition is_magic (x y : Z) : bool := (x =? 0xAA) && (y =? 0x55).

(** The suffix that starts at the first magic pair. *)
Fixpoint seek (b : list Z) : option (list Z) :=
  match b with
  | x :: ((y :: _) as r) => if is_magic x y then Some b else seek r
  | _ => None
  end.

(** What is kept of a string without a magic pair: its last byte. *)
Definition leftover (b : list Z) : list Z :=
  match last b with Some x => [x] | None => [] end.

Inductive outcome :=
  | Wait (rest : list Z)
  | Advance (f : option frame) (rest : list Z).

Definition parse_header `{Crc32} (m : list Z) : outcome :=
  match m with
  | _ :: _ :: ftype :: channel :: lo :: hi :: body =>
      let length := Z.lor lo (Z.shiftl hi 8) in
      if MAX_PAYLOAD <? length then Advance None (zdrop 2 m)
      else if zlen body <? length + CRC_SIZE then Wait m
      else if crc32_hash (ztake length body)
                =? from_le_bytes (ztake CRC_SIZE (zdrop length body))
      then Advance (Some (ftype, channel, ztake length body))
             (zdrop (length + CRC_SIZE) body)
      else Advance None (zdrop 2 m)
  | _ => Wait m
  end.

Definition scan_step `{Crc32} (b : list Z) : outcome :=
  match seek b with
  | None => Wait (leftover b)
  | Some m => parse_header m
  end.

Fixpoint scan_fuel `{Crc32} (n : nat) (b : list Z) : list frame * list Z :=
  match n with
  | O => ([], b)
  | S n' =>
      match scan_step b with
      | Wait r => ([], r)
      | Advance o r => let '(fs, r') := scan_fuel n' r in (option_list o ++ fs, r')
      end
  end.

Definition scan `{Crc32} (b : list Z) : list frame * list Z :=
  scan_fuel (S (length b)) b.

(** ** The magic search *)

Lemma is_magic_spec x y : is_magic x y = true <-> x = 0xAA /\ y = 0x55.
Proof. unfold is_magic. rewrite andb_true_iff, !Z.eqb_eq. done. Qed.

Lemma seek_Some b m :
  seek b = Some m -> exists g r, b = g ++ m /\ m = 0xAA :: 0x55 :: r.
Proof.
  induction b as [|x [|y r] IH]; cbn; try done.
  destruct (is_magic x y) eqn:E.
  - intros [= <-]. apply is_magic_spec in E as [-> ->]. by exists [], r.
  - intros Hs. destruct (IH Hs) as (g & r' & Heq & ->).
    exists (x :: g), r'. split; [|done]. cbn. by rewrite <- Heq.
Qed.

Lemma seek_magic r : seek (0xAA :: 0x55 :: r) = Some (0xAA :: 0x55 :: r).
Proof. reflexivity. Qed.

Lemma seek_cons2 x y r :
  seek (x :: y :: r) = if is_magic x y then Some (x :: y :: r) else seek (y :: r).
Proof. reflexivity. Qed.

Lemma seek_app b m d : seek b = Some m -> seek (b ++ d) = Some (m ++ d).
Proof.
  induction b as [|x [|y r] IH]; try done.
  cbn [app]. rewrite !seek_cons2. destruct (is_magic x y); [by intros [= <-]|].
  intros Hs. by apply IH.
Qed.

Lemma leftover_cons2 x y r : leftover (x :: y :: r) = leftover (y :: r).
Proof. reflexivity. Qed.

Lemma seek_None_app b d :
  seek b = None -> seek (b ++ d) = seek (leftover b ++ d).
Proof.
  induction b as [|x [|y r] IH]; [done|done|].
  cbn [app]. rewrite !seek_cons2, leftover_cons2. destruct (is_magic x y); [done|].
  intros Hs. by apply IH.
Qed.

Lemma leftover_app b d :
  leftover (leftover b ++ d) = leftover (b ++ d).
Proof.
  unfold leftover. destruct d as [|x d].
  - rewrite !app_nil_r. by destruct (last b).
  - rewrite (last_app_cons b). destruct (last b); [|done].
    by rewrite (last_app_cons [z]).
Qed.

Lemma leftover_length b : (length (leftover b) <= length b)%nat.
Proof. unfold leftover. destruct b using rev_ind; [done|]. rewrite last_snoc, length_app. cbn. lia. Qed.

Lemma leftover_suffix b : exists g, b = g ++ leftover b.
Proof.
  unfold leftover. destruct b as [|x b _] using rev_ind; [by exists []|].
  exists b. by rewrite last_snoc.
Qed.

Section Scan.
Context `{Crc32}.

(** ** One step *)

Lemma parse_header_progress m o r :
  parse_header m = Advance o r -> (length r < length m)%nat.
Proof.
  unfold parse_header. do 6 (destruct m as [|? m]; [done|]).
  unfold zdrop. repeat case_match; intros [= <- <-]; rewrite ?length_drop; cbn; lia.
Qed.

Lemma scan_step_progress b o r :
  scan_step b = Advance o r -> (length r < length b)%nat.
Proof.
  unfold scan_step. destruct (seek b) as [m|] eqn:Hs; [|done].
  intros Hp%parse_header_progress. apply seek_Some in Hs as (g & ? & -> & _).
  rewrite length_app. lia.
Qed.

Lemma scan_fuel_enough n1 n2 b :
  (length b < n1)%nat -> (length b < n2)%nat -> scan_fuel n1 b = scan_fuel n2 b.
Proof.
  revert n2 b; induction n1 as [|n1 IH]; intros [|n2] b; try lia.
  intros H1 H2. cbn [scan_fuel]. destruct (scan_step b) as [|o r] eqn:E; [done|].
  apply scan_step_progress in E. by rewrite (IH n2 r) by lia.
Qed.

Lemma scan_unfold b :
  scan b = match scan_step b with
           | Wait r => ([], r)
           | Advance o r => let '(fs, r') := scan r in (option_list o ++ fs, r')
           end.
Proof.
  unfold scan at 1. cbn [scan_fuel].
  destruct (scan_step b) as [|o r] eqn:E; [done|].
  apply scan_step_progress in E. unfold scan.
  by rewrite (scan_fuel_enough (length b) (S (length r))) by lia.
Qed.

(** ** The result does not depend on how the stream is cut *)

Lemma header_nonneg lo hi : u8 lo -> u8 hi -> 0 <= Z.lor lo (Z.shiftl hi 8).
Proof. intros. by apply header_length_inv. Qed.

Lemma parse_header_app m d o r :
  bytes_ok m ->
  parse_header m = Advance o r -> parse_header (m ++ d) = Advance o (r ++ d).
Proof.
  unfold parse_header. intros Hb. do 6 (destruct m as [|? m]; [done|]).
  assert (0 <= Z.lor z3 (Z.shiftl z4 8)) as Hn.
  { unfold bytes_ok in Hb. rewrite !Forall_cons in Hb. apply header_nonneg; tauto. }
  cbn [app]. revert Hn. generalize (Z.lor z3 (Z.shiftl z4 8)) as n. intros n Hn.
  destruct (MAX_PAYLOAD <? n); [intros [= <- <-]; done|].
  destruct (zlen m <? n + CRC_SIZE) eqn:Em; [done|]. zbool.
  unfold CRC_SIZE in *. rewrite zlen_app. pose proof (zlen_nonneg d).
  assert ((zlen m + zlen d <? n + 4) = false) as -> by (zdecide; done).
  rewrite ztake_app_le, zdrop_app_le, ztake_app_le, zdrop_app_le
    by (rewrite ?zlen_zdrop; lia).
  case_match; intros [= <- <-]; done.
Qed.

Lemma parse_header_wait m r : parse_header m = Wait r -> r = m.
Proof.
  unfold parse_header. do 6 (destruct m as [|? m]; [by intros [= <-]|]).
  repeat case_match; by intros [= <-].
Qed.

(** A step that advances does not look at what follows; a step that waits
    leaves what it needs to decide. *)
Lemma scan_step_app b d o r :
  bytes_ok b -> scan_step b = Advance o r -> scan_step (b ++ d) = Advance o (r ++ d).
Proof.
  unfold scan_step. intros Hb. destruct (seek b) as [m|] eqn:Hs; [|done].
  rewrite (seek_app b m d Hs). apply parse_header_app.
  apply seek_Some in Hs as (g & ? & -> & _). by apply Forall_app in Hb as [_ ?].
Qed.

Lemma scan_step_wait_app b d r :
  scan_step b = Wait r -> scan_step (b ++ d) = scan_step (r ++ d).
Proof.
  unfold scan_step. destruct (seek b) as [m|] eqn:Hs.
  - intros ->%parse_header_wait. rewrite (seek_app b m d Hs).
    apply seek_Some in Hs as (g & t & -> & ->). cbn [app]. by rewrite seek_magic.
  - intros [= <-]. rewrite (seek_None_app b d Hs).
    destruct (seek (leftover b ++ d)); [done|]. by rewrite leftover_app.
Qed.

Lemma scan_wait_app b d r : scan_step b = Wait r -> scan (b ++ d) = scan (r ++ d).
Proof. intros Hw. by rewrite scan_unfold, (scan_step_wait_app _ _ _ Hw), <- scan_unfold. Qed.

Lemma parse_header_suffix m o r : parse_header m = Advance o r -> exists g, m = g ++ r.
Proof.
  unfold parse_header. do 6 (destruct m as [|? m]; [done|]).
  assert (forall n l, exists g : list Z, l = g ++ zdrop n l) as Hd.
  { intros n l. exists (ztake n l). by rewrite ztake_zdrop. }
  repeat case_match; intros [= <- <-].
  1,3: by exists [z; z0].
  destruct (Hd (Z.lor z3 (Z.shiftl z4 8) + CRC_SIZE) m) as [g Hg].
  exists (z :: z0 :: z1 :: z2 :: z3 :: z4 :: g). cbn. by rewrite <- Hg.
Qed.

Lemma scan_step_suffix b o r : scan_step b = Advance o r -> exists g, b = g ++ r.
Proof.
  unfold scan_step. destruct (seek b) as [m|] eqn:Hs; [|done].
  intros (g & Hm)%parse_header_suffix. apply seek_Some in Hs as (g' & ? & -> & _).
  exists (g' ++ g). by rewrite <- app_assoc, <- Hm.
Qed.

Lemma scan_step_bytes_ok b o r : bytes_ok b -> scan_step b = Advance o r -> bytes_ok r.
Proof. intros Hb (g & ->)%scan_step_suffix. by apply Forall_app in Hb as [_ ?]. Qed.

(** Induction along the steps of [scan]. *)
Lemma scan_ind (P : list Z -> Prop) :
  (forall b r, scan_step b = Wait r -> P b) ->
  (forall b o r, scan_step b = Advance o r -> P r -> P b) ->
  forall b, P b.
Proof.
  intros Hw Ha b. remember (length b) as n eqn:Hn. revert b Hn.
  induction n as [n IH] using lt_wf_ind. intros b ->.
  destruct (scan_step b) as [|o r] eqn:E; [by eapply Hw|].
  eapply Ha; [done|]. apply scan_step_progress in E as Hl. by apply (IH (length r)).
Qed.

Theorem scan_app b d :
  bytes_ok b ->
  scan (b ++ d) =
    let '(fs, r) := scan b in let '(fs', r') := scan (r ++ d) in (fs ++ fs', r').
Proof.
  induction b as [b r Hw|b o r Ha IH] using scan_ind; intros Hb.
  - rewrite (scan_wait_app _ _ _ Hw), (scan_unfold b), Hw. by destruct (scan (r ++ d)).
  - rewrite (scan_unfold (b ++ d)), (scan_step_app _ _ _ _ Hb Ha), (scan_unfold b), Ha.
    rewrite IH by (by eapply scan_step_bytes_ok). destruct (scan r) as [fs r'].
    destruct (scan (r' ++ d)) as [fs' r'']. by rewrite app_assoc.
Qed.

(** ** Frames are read back *)

Lemma parse_header_build f rest :
  frame_fits f -> parse_header (build f ++ rest) = Advance (Some f) rest.
Proof.
  destruct f as [[ft ch] pl]. unfold frame_fits. cbn [snd build]. intros Hf.
  rewrite build_frame_fits by done. pose proof (zlen_nonneg pl).
  destruct (header_length (zlen pl)) as (lo & hi & -> & Hlen); [lia|].
  cbn [app]. unfold parse_header. rewrite Hlen.
  assert ((MAX_PAYLOAD <? zlen pl) = false) as -> by (by zdecide).
  assert (zlen (to_le_bytes 4 (crc32_hash pl)) = CRC_SIZE) as Hc by done.
  rewrite <- !app_assoc. pose proof (zlen_nonneg rest).
  assert ((zlen (pl ++ to_le_bytes 4 (crc32_hash pl) ++ rest)
             <? zlen pl + CRC_SIZE) = false) as ->
    by (rewrite !zlen_app; zdecide; done).
  rewrite ztake_app, zdrop_app, ztake_app by done.
  rewrite crc_roundtrip, Z.eqb_refl. f_equal.
  rewrite app_assoc. apply zdrop_app. rewrite zlen_app. lia.
Qed.

Lemma build_magic f :
  frame_fits f -> exists r, build f = 0xAA :: 0x55 :: r.
Proof.
  destruct f as [[ft ch] pl]. intros Hf. cbn [build].
  rewrite build_frame_fits by done. eauto.
Qed.

Lemma scan_build f rest :
  frame_fits f -> scan (build f ++ rest) = (f :: (scan rest).1, (scan rest).2).
Proof.
  intros Hf. rewrite scan_unfold. unfold scan_step.
  assert (seek (build f ++ rest) = Some (build f ++ rest)) as ->.
  { destruct (build_magic f Hf) as [r ->]. apply seek_magic. }
  rewrite parse_header_build by done. by destruct (scan rest).
Qed.

Lemma scan_nil : scan [] = ([], []).
Proof. reflexivity. Qed.

Lemma scan_build_all fs rest :
  Forall frame_fits fs ->
  scan (concat (map build fs) ++ rest) = (fs ++ (scan rest).1, (scan rest).2).
Proof.
  induction 1 as [|f fs Hf Hfs IH]; cbn [map concat app].
  - by destruct (scan rest).
  - rewrite <- app_assoc, scan_build, IH by done. done.
Qed.

(** Noise without a magic pair in front of a frame is skipped. *)
Lemma seek_noise noise r :
  seek noise = None -> seek (noise ++ 0xAA :: 0x55 :: r) = Some (0xAA :: 0x55 :: r).
Proof.
  intros Hn. rewrite seek_None_app by done. unfold leftover.
  destruct (last noise) as [x|]; [|apply seek_magic].
  cbn [app]. rewrite seek_cons2. unfold is_magic.
  change (0xAA =? 0x55) with false. rewrite andb_false_r. apply seek_magic.
Qed.

Lemma scan_noise noise f rest :
  seek noise = None -> frame_fits f ->
  scan (noise ++ build f ++ rest) = scan (build f ++ rest).
Proof.
  intros Hn Hf. rewrite scan_unfold, (scan_unfold (build f ++ rest)).
  unfold scan_step. destruct (build_magic f Hf) as [r ->]. cbn [app].
  by rewrite seek_noise, seek_magic.
Qed.

(** ** No frame is invented *)

(** [carved b fs r]: [b] is the frames [fs] as built, in order, with arbitrary
    bytes between them, followed by the bytes [r]. *)
Inductive carved : list Z -> list frame -> list Z -> Prop :=
  | carved_rest g r : carved (g ++ r) [] r
  | carved_frame g f b fs r :
      frame_fits f -> carved b fs r -> carved (g ++ build f ++ b) (f :: fs) r.

Lemma carved_gap g b fs r : carved b fs r -> carved (g ++ b) fs r.
Proof.
  intros Hc. destruct Hc; rewrite app_assoc; by constructor.
Qed.

Lemma parse_header_sound m f r :
  bytes_ok m -> (exists t, m = 0xAA :: 0x55 :: t) ->
  parse_header m = Advance (Some f) r -> frame_fits f /\ m = build f ++ r.
Proof.
  intros Hb [t ->]. unfold parse_header.
  do 4 (destruct t as [|? t]; [done|]).
  unfold bytes_ok in Hb. rewrite !Forall_cons in Hb.
  destruct Hb as (_ & _ & _ & _ & Hlo & Hhi & Ht).
  destruct (header_length_inv z1 z2 Hlo Hhi) as [Hn Hle].
  revert Hn Hle. generalize (Z.lor z1 (Z.shiftl z2 8)) as n. intros n Hn Hle.
  destruct (MAX_PAYLOAD <? n) eqn:En; [done|].
  destruct (zlen t <? n + CRC_SIZE) eqn:Et; [done|]. zbool.
  destruct (crc32_hash _ =? _) eqn:Ec; [|done]. zbool. intros [= <- <-].
  unfold CRC_SIZE in *. assert (zlen (ztake n t) = n) as Hpl by (apply zlen_ztake; lia).
  split; [unfold frame_fits; cbn [snd]; lia|].
  cbn [build]. rewrite build_frame_fits by lia. rewrite Hpl, Hle, Ec. cbn [app].
  do 6 f_equal. pose proof (zlen_zdrop n t ltac:(lia)) as Hd.
  assert (zlen (ztake 4 (zdrop n t)) = 4) as Hcl by (apply zlen_ztake; lia).
  assert (bytes_ok (ztake 4 (zdrop n t))) as Hcb
    by (by apply Forall_take, Forall_drop).
  pose proof (to_from_le_bytes _ Hcb) as Hcr.
  replace (length (ztake 4 (zdrop n t))) with 4%nat in Hcr by (unfold zlen in Hcl; lia).
  rewrite Hcr, <- app_assoc, <- (zdrop_zdrop 4 n) by lia.
  by rewrite !ztake_zdrop.
Qed.

Theorem scan_sound b : bytes_ok b -> carved b (scan b).1 (scan b).2.
Proof.
  induction b as [b r Hw|b o r Ha IH] using scan_ind; intros Hb; rewrite scan_unfold.
  - rewrite Hw. cbn [fst snd]. revert Hw. unfold scan_step.
    destruct (seek b) as [m|] eqn:Hs.
    + intros ->%parse_header_wait. apply seek_Some in Hs as (g & t & -> & ->).
      constructor.
    + intros [= <-]. destruct (leftover_suffix b) as [g Hg]. rewrite Hg at 1. constructor.
  - rewrite Ha. specialize (IH (scan_step_bytes_ok _ _ _ Hb Ha)).
    destruct (scan r) as [fs r'] eqn:Er. cbn [fst snd] in *.
    destruct o as [f|]; cbn [option_list app].
    + revert Ha. unfold scan_step. destruct (seek b) as [m|] eqn:Hs; [|done].
      apply seek_Some in Hs as (g & t & -> & Hm). intros Hp.
      apply Forall_app in Hb as [_ Hb].
      destruct (parse_header_sound m f r) as [Hf ->]; [done|by exists t|done|].
      by constructor.
    + destruct (scan_step_suffix _ _ _ Ha) as [g ->]. by apply carved_gap.
Qed.

(** The frames carved out of bytes are frames of bytes. *)
Lemma carved_frames b fs r :
  carved b fs r -> bytes_ok b -> Forall (fun f => frame_fits f /\ frame_bytes f) fs.
Proof.
  induction 1 as [|g f b fs r Hf Hc IH]; intros Hb; [constructor|].
  apply Forall_app in Hb as [_ [Hf' Hb]%Forall_app]. constructor; [|auto].
  split; [done|]. destruct f as [[ft ch] pl]. cbn [build] in Hf'.
  rewrite build_frame_fits in Hf' by done. rewrite !Forall_cons in Hf'.
  destruct Hf' as (_ & _ & ? & ? & [_ [? _]%Forall_app]%Forall_app). done.
Qed.

(** ** What is left over is shorter than a frame *)

Lemma parse_header_wait_bound m r : parse_header m = Wait r -> zlen r < MAX_FRAME.
Proof.
  unfold parse_header, MAX_FRAME, HDR_SIZE, CRC_SIZE, MAX_PAYLOAD.
  do 6 (destruct m as [|? m]; [by intros [= <-]|]).
  repeat case_match; intros [= <-]; zbool; zl.
Qed.

Lemma scan_rest_bound b : zlen (scan b).2 < MAX_FRAME.
Proof.
  induction b as [b r Hw|b o r Ha IH] using scan_ind; rewrite scan_unfold.
  - rewrite Hw. cbn [snd]. revert Hw. unfold scan_step. destruct (seek b).
    + apply parse_header_wait_bound.
    + intros [= <-]. unfold leftover. by destruct (last b).
  - rewrite Ha. by destruct (scan r).
Qed.

(** The rest is stuck: scanning it again yields no frame. *)
Lemma scan_rest_stuck b : bytes_ok b -> scan (scan b).2 = ([], (scan b).2).
Proof.
  induction b as [b r Hw|b o r Ha IH] using scan_ind; intros Hb; rewrite (scan_unfold b).
  - rewrite Hw. cbn [snd].
    rewrite <- (app_nil_r r) at 1. rewrite <- (scan_wait_app _ _ _ Hw), app_nil_r.
    by rewrite scan_unfold, Hw.
  - rewrite Ha. specialize (IH (scan_step_bytes_ok _ _ _ Hb Ha)). by destruct (scan r).
Qed.

Lemma scan_rest_bytes_ok b : bytes_ok b -> bytes_ok (scan b).2.
Proof.
  intros Hb. pose proof (scan_sound b Hb) as Hc. revert Hc Hb.
  generalize (scan b).1, (scan b).2. intros fs r.
  induction 1 as [g r|g f b' fs r Hf Hc IH]; intros Hb.
  - by apply Forall_app in Hb as [_ ?].
  - apply IH. apply Forall_app in Hb as [_ Hb]. by apply Forall_app in Hb as [_ ?].
Qed.

End Scan.
End Stream.
