(* ===== verification/Parser.v ===== *)
(** * The streaming frame parser ([FrameParser] of [serialmux-rs/src/protocol.rs])

    The staging buffer is the fixed array of the code: [buf] has
    [PARSER_BUF_CAP] bytes, the first [len] are valid, and every access goes
    through the checked slice operations of Prelude, so that a result [Some]
    says that no index was out of range.  The loops are given fuel from their
    own measure (the valid length, the input length); [feed_refines_scan] shows
    that it always suffices and that the parser computes [Stream.scan]. *)
From Stdlib Require Import ZArith Lia.
From stdpp Require Import base option numbers list.
From S2P Require Import Prelude Protocol Stream.

Local Open Scope Z_scope.

Module FrameParser.

Record t := mk { buf : list Z; len : Z }.

Definition new : t := mk (replicate (Z.to_nat PARSER_BUF_CAP) 0) 0.

Definition reset (self : t) : t := mk self.(buf) 0.

(** [while i + 1 < self.len && !(buf[i] == 0xAA && buf[i + 1] == 0x55) { i += 1 }] *)
Fixpoint find_magic (fuel : nat) (buf : list Z) (len i : Z) : option Z :=
  match fuel with
  | O => None
  | S fuel' =>
      if i + 1 <? len then
        b0 ← idx buf i;
        if b0 =? 0xAA then
          b1 ← idx buf (i + 1);
          if b1 =? 0x55 then Some i else find_magic fuel' buf len (i + 1)
        else find_magic fuel' buf len (i + 1)
      else Some i
  end.

(** One iteration of the loop of [drain_frames]: [break], or [continue] with
    the frame handed to the callback, if any. *)
Inductive step :=
  | Break (self : t)
  | Continue (f : option frame) (self : t).

(** [self.buf.copy_within(from..self.len, 0); self.len -= from] *)
Definition consume (self : t) (from : Z) : option t :=
  b ← copy_within self.(buf) from self.(len) 0;
  n ← usub self.(len) from;
  Some (mk b n).

(** The part of an iteration after the magic pair was moved to the front. *)
Definition parse_front `{Crc32} (self : t) : option step :=
  if self.(len) <? HDR_SIZE then Some (Break self)
  else
    ftype ← idx self.(buf) 2;
    channel ← idx self.(buf) 3;
    lo ← idx self.(buf) 4;
    hi ← idx self.(buf) 5;
    let length := Z.lor lo (Z.shiftl hi 8) in
    if MAX_PAYLOAD <? length then
      self ← consume self 2; Some (Continue None self)
    else
      let total := HDR_SIZE + length + CRC_SIZE in
      if self.(len) <? total then Some (Break self)
      else
        crc_bytes ← slice self.(buf) (HDR_SIZE + length) (HDR_SIZE + length + 4);
        let crc_rx := from_le_bytes crc_bytes in
        body ← slice self.(buf) HDR_SIZE (HDR_SIZE + length);
        let crc_calc := crc32_hash body in
        if negb (crc_calc =? crc_rx) then
          self ← consume self 2; Some (Continue None self)
        else
          payload ← slice self.(buf) HDR_SIZE (HDR_SIZE + length);
          self ← consume self total;
          Some (Continue (Some (ftype, channel, payload)) self).

Definition drain_step `{Crc32} (self : t) : option step :=
  if self.(len) <? 2 then Some (Break self)
  else
    i ← find_magic (S (Z.to_nat self.(len))) self.(buf) self.(len) 0;
    if self.(len) <=? i + 1 then
      last ← idx self.(buf) (self.(len) - 1);
      b ← blit self.(buf) 0 [last];
      Some (Break (mk b 1))
    else
      self ← (if 0 <? i then consume self i else Some self);
      parse_front self.

Section Callback.
Context {S : Type} (cb : S -> Z -> Z -> list Z -> S).

(** The callback is a state transformer on the data it captures. *)
Definition call (s : S) (o : option frame) : S :=
  match o with
  | Some (ftype, channel, payload) => cb s ftype channel payload
  | None => s
  end.

Fixpoint drain_loop `{Crc32} (fuel : nat) (self : t) (s : S) : option (t * S) :=
  match fuel with
  | O => None
  | Datatypes.S fuel' =>
      r ← drain_step self;
      match r with
      | Break self => Some (self, s)
      | Continue f self => drain_loop fuel' self (call s f)
      end
  end.

Definition drain_frames `{Crc32} (self : t) (s : S) : option (t * S) :=
  drain_loop (Datatypes.S (Z.to_nat self.(len))) self s.

Fixpoint feed_loop `{Crc32} (fuel : nat) (self : t) (s : S) (data : list Z) (pos : Z)
  : option (t * S) :=
  if pos <? zlen data then
    match fuel with
    | O => None
    | Datatypes.S fuel' =>
        space ← usub PARSER_BUF_CAP self.(len);
        let copy := Z.min (zlen data - pos) space in
        if copy =? 0 then Some (self, s)
        else
          chunk ← slice data pos (pos + copy);
          b ← blit self.(buf) self.(len) chunk;
          '(self, s) ← drain_frames (mk b (self.(len) + copy)) s;
          feed_loop fuel' self s data (pos + copy)
    end
  else Some (self, s).

Definition feed `{Crc32} (self : t) (s : S) (data : list Z) : option (t * S) :=
  feed_loop (length data) self s data 0.

End Callback.

(** The callback of the daemon's [link_read]: [frames.push(...)]. *)
Definition push (fs : list frame) (ftype channel : Z) (payload : list Z) : list frame :=
  fs ++ [(ftype, channel, payload)].

Definition feed_frames `{Crc32} (self : t) (data : list Z) : option (t * list frame) :=
  feed push self [] data.

(** ** The abstraction: the valid bytes *)

(** [rep p v]: the valid bytes of [p] are [v] and its buffer is well formed. *)
Definition rep (self : t) (v : list Z) : Prop :=
  exists junk, self.(buf) = v ++ junk /\ self.(len) = zlen v /\
    zlen self.(buf) = PARSER_BUF_CAP /\ bytes_ok self.(buf).

Lemma rep_new : rep new [].
Proof.
  exists (replicate (Z.to_nat PARSER_BUF_CAP) 0).
  split; [done|]. split; [done|]. split; [by apply zlen_replicate|].
  apply Forall_replicate. unfold u8. lia.
Qed.

Lemma rep_reset p v : rep p v -> rep (reset p) [].
Proof. intros (j & ? & ? & ? & ?). by exists (buf p). Qed.

Lemma rep_bytes_ok p v : rep p v -> bytes_ok v.
Proof. intros (j & Hb & _ & _ & Hok). rewrite Hb in Hok. by apply Forall_app in Hok as [? _]. Qed.

Lemma rep_len p v : rep p v -> len p = zlen v /\ zlen v <= PARSER_BUF_CAP.
Proof. intros (j & Hb & Hl & Hc & _). split; [done|]. rewrite Hb in Hc. zl. Qed.

(** Sliding the valid bytes to the front drops their prefix. *)
Lemma rep_consume p g v :
  rep p (g ++ v) -> exists p', consume p (zlen g) = Some p' /\ rep p' v.
Proof.
  intros (j & Hb & Hl & Hc & Hok). unfold consume, copy_within.
  rewrite Hb, Hl, <- app_assoc, (slice_mid g v j) by zl. cbn [mbind option_bind].
  rewrite blit_eq by zl. cbn [mbind option_bind].
  rewrite usub_eq by zl. cbn [mbind option_bind]. eexists. split; [done|].
  exists (zdrop (0 + zlen v) (g ++ v ++ j)). cbn [buf len].
  split; [done|]. split; [zl|]. rewrite Hb, <- app_assoc in Hc, Hok. split.
  - rewrite ztake_0. cbn [app]. rewrite zlen_app, zlen_zdrop; zl.
  - apply Forall_app. split; [|apply Forall_app; split].
    + constructor.
    + by repeat apply Forall_app in Hok as [? Hok].
    + by apply Forall_drop.
Qed.

(** ** The magic search *)

Lemma find_magic_spec junk fuel g w :
  (length w < fuel)%nat ->
  exists i, find_magic fuel ((g ++ w) ++ junk) (zlen (g ++ w)) (zlen g) = Some i /\
    match Stream.seek w with
    | Some m => exists g', g ++ w = g' ++ m /\ i = zlen g' /\ 2 <= zlen m
    | None => zlen (g ++ w) <= i + 1
    end.
Proof.
  revert g w; induction fuel as [|fuel IH]; intros g w Hf; [lia|].
  cbn [find_magic]. destruct w as [|x [|y r]].
  - exists (zlen g). split; [|cbn; zl]. by rewrite app_nil_r; zdecide.
  - exists (zlen g). split; [|cbn; zl]. rewrite zlen_app, zlen_cons, zlen_nil. by zdecide.
  - rewrite Stream.seek_cons2.
    assert (zlen g + 1 < zlen (g ++ x :: y :: r)) as Hlt by zl.
    rewrite (proj2 (Z.ltb_lt _ _) Hlt).
    assert (forall k, idx ((g ++ x :: y :: r) ++ junk) (zlen g + Z.of_nat k)
                      = (x :: y :: r ++ junk) !! k) as Hidx.
    { intros k. rewrite <- app_assoc, idx_app_r by lia.
      rewrite idx_lookup by lia. f_equal. lia. }
    pose proof (Hidx 0%nat) as Hx. pose proof (Hidx 1%nat) as Hy. change (Z.of_nat 0) with 0 in Hx. change (Z.of_nat 1) with 1 in Hy.
    cbn [lookup list_lookup] in Hx, Hy.
    rewrite Z.add_0_r in Hx. rewrite Hx, Hy. cbn [mbind option_bind].
    specialize (IH (g ++ [x]) (y :: r) ltac:(cbn in *; lia)).
    replace ((g ++ [x]) ++ y :: r) with (g ++ x :: y :: r) in IH
      by (by rewrite <- app_assoc).
    replace (zlen (g ++ [x])) with (zlen g + 1) in IH by zl.
    unfold Stream.is_magic. destruct (x =? 0xAA); [|exact IH].
    destruct (y =? 0x55); [|exact IH]. cbn [andb].
    exists (zlen g). split; [done|]. exists g. repeat split; zl.
Qed.

Section Refinement.
Context `{Crc32}.

(** ** One iteration refines one step of the specification *)

Definition step_refines (o : Stream.outcome) (s : step) : Prop :=
  match o, s with
  | Stream.Wait r, Break p => rep p r
  | Stream.Advance f r, Continue f' p => f = f' /\ rep p r
  | _, _ => False
  end.

Lemma rep_idx p v i : rep p v -> 0 <= i < zlen v -> idx (buf p) i = idx v i.
Proof. intros (j & -> & _) Hi. apply idx_app_l. lia. Qed.

Lemma rep_slice p u v w a b :
  rep p (u ++ v ++ w) -> zlen u = a -> zlen u + zlen v = b -> slice (buf p) a b = Some v.
Proof. intros (j & -> & _) Ha Hb. rewrite <- app_assoc, <- app_assoc. by apply slice_mid. Qed.

Lemma parse_front_skip p x y m :
  rep p (x :: y :: m) ->
  exists s, (self ← consume p 2; Some (Continue None self)) = Some s /\
    step_refines (Stream.Advance None (zdrop 2 (x :: y :: m))) s.
Proof.
  intros Hr. destruct (rep_consume p [x; y] m Hr) as (p' & Hc & Hr').
  change (zlen [x; y]) with 2 in Hc. rewrite Hc. by eexists.
Qed.

Lemma parse_front_refines p m :
  rep p m -> exists s, parse_front p = Some s /\ step_refines (Stream.parse_header m) s.
Proof.
  intros Hr. pose proof (rep_len _ _ Hr) as [Hl _]. pose proof (rep_bytes_ok _ _ Hr) as Hb.
  unfold parse_front, Stream.parse_header. rewrite Hl. unfold HDR_SIZE.
  do 6 (destruct m as [|? m]; [exists (Break p); done|]).
  rewrite !(rep_idx _ _ _ Hr) by zl. autorewrite with zlist.
  pose proof (zlen_nonneg m). zdecide.
  assert (0 <= Z.lor z3 (Z.shiftl z4 8)) as Hn.
  { unfold bytes_ok in Hb. rewrite !Forall_cons in Hb. apply Stream.header_nonneg; tauto. }
  change (idx (z :: z0 :: z1 :: z2 :: z3 :: z4 :: m) 2) with (Some z1).
  change (idx (z :: z0 :: z1 :: z2 :: z3 :: z4 :: m) 3) with (Some z2).
  change (idx (z :: z0 :: z1 :: z2 :: z3 :: z4 :: m) 4) with (Some z3).
  change (idx (z :: z0 :: z1 :: z2 :: z3 :: z4 :: m) 5) with (Some z4).
  cbn [mbind option_bind]. revert Hn. generalize (Z.lor z3 (Z.shiftl z4 8)) as n.
  intros n Hn. destruct (MAX_PAYLOAD <? n); [by apply parse_front_skip|].
  unfold CRC_SIZE. destruct (zlen m <? n + 4) eqn:Em; zbool.
  { zdecide. by eexists. }
  zdecide. set (pl := ztake n m). set (cb := ztake 4 (zdrop n m)).
  assert (zlen pl = n) as Hpl by (apply zlen_ztake; lia).
  assert (zlen cb = 4) as Hcb by (apply zlen_ztake; rewrite zlen_zdrop; lia).
  set (rest := zdrop (n + 4) m).
  assert (m = pl ++ cb ++ rest) as Hm.
  { unfold pl, cb, rest. rewrite <- (zdrop_zdrop 4 n) by lia. by rewrite !ztake_zdrop. }
  set (hd := [z; z0; z1; z2; z3; z4]).
  assert (rep p (hd ++ pl ++ cb ++ rest)) as Hr1 by (rewrite <- Hm; exact Hr).
  assert (rep p ((hd ++ pl) ++ cb ++ rest)) as Hr2 by (by rewrite <- app_assoc).
  assert (rep p ((hd ++ pl ++ cb) ++ rest)) as Hr3 by (by rewrite <- !app_assoc).
  assert (zlen hd = 6) as Hhd by done.
  rewrite (rep_slice _ _ _ _ (6 + n) (6 + n + 4) Hr2) by zl.
  rewrite (rep_slice _ _ _ _ 6 (6 + n) Hr1) by zl. cbn [mbind option_bind].
  destruct (crc32_hash pl =? from_le_bytes cb); cbn [negb].
  - destruct (rep_consume _ _ _ Hr3) as (p' & Hc & Hr').
    replace (zlen (hd ++ pl ++ cb)) with (6 + n + 4) in Hc by zl. rewrite Hc.
    by eexists.
  - by apply parse_front_skip.
Qed.

Lemma drain_step_refines p v :
  rep p v ->
  exists s, drain_step p = Some s /\ step_refines (Stream.scan_step v) s.
Proof.
  intros Hr. pose proof (rep_len _ _ Hr) as [Hl Hcap]. unfold drain_step. rewrite Hl.
  destruct (zlen v <? 2) eqn:E2; zbool.
  { exists (Break p). split; [done|]. destruct v as [|x [|y v]]; [done|done|zl]. }
  pose proof Hr as (j & Hb & _ & Hc & Hok).
  destruct (find_magic_spec j (S (Z.to_nat (zlen v))) [] v) as (i & Hi & Hm);
    [unfold zlen; lia|].
  cbn [app] in Hi, Hm. change (zlen (@nil Z)) with 0 in Hi.
  rewrite Hb, Hi. cbn [mbind option_bind].
  unfold Stream.scan_step.
  destruct (Stream.seek v) as [m|] eqn:Hs.
  - destruct Hm as (g & -> & -> & H2).
    assert ((zlen (g ++ m) <=? zlen g + 1) = false) as -> by (apply Z.leb_gt; zl).
    assert (exists p', (if 0 <? zlen g then consume p (zlen g) else Some p) = Some p'
                       /\ rep p' m) as (p' & -> & Hr').
    { destruct (0 <? zlen g) eqn:Eg; [by apply rep_consume|]. zbool.
      exists p. split; [done|]. by rewrite (zlen_0_nil g) in Hr by zl. }
    cbn [mbind option_bind]. apply (parse_front_refines p' m Hr').
  - rewrite (proj2 (Z.leb_le _ _) Hm).
    destruct v as [|x v _] using rev_ind; [done|].
    assert (idx ((v ++ [x]) ++ j) (zlen (v ++ [x]) - 1) = Some x) as ->.
    { rewrite <- app_assoc, idx_app_r by zl.
      replace (zlen (v ++ [x]) - 1 - zlen v) with 0 by zl. done. }
    cbn [mbind option_bind]. rewrite Hb in Hc, Hok.
    rewrite blit_eq by zl. cbn [mbind option_bind].
    eexists. split; [done|]. unfold Stream.leftover. rewrite last_snoc.
    exists (zdrop 1 ((v ++ [x]) ++ j)). cbn [step_refines buf len]. split; [done|].
    split; [done|]. split; [rewrite ztake_0; cbn [app]; rewrite zlen_cons, zlen_zdrop; zl|].
    rewrite ztake_0. cbn [app]. apply Forall_cons. split; [|by apply Forall_drop].
    apply Forall_app in Hok as [Hok _]. apply Forall_app in Hok as [_ Hok].
    by apply Forall_cons in Hok as [? _].
Qed.

(** ** The whole parser *)

Definition run_cb {S} (cb : S -> Z -> Z -> list Z -> S) (s : S) (fs : list frame) : S :=
  fold_left (fun s f => call cb s (Some f)) fs s.

Lemma run_cb_push acc fs : run_cb push acc fs = acc ++ fs.
Proof.
  unfold run_cb. revert acc; induction fs as [|[[ft ch] pl] fs IH]; intros acc.
  - by rewrite app_nil_r.
  - cbn [fold_left call]. rewrite IH. unfold push. by rewrite <- app_assoc.
Qed.

Lemma drain_loop_refines {S} (cb : S -> Z -> Z -> list Z -> S) fuel p v s :
  rep p v -> (length v < fuel)%nat ->
  exists p', drain_loop cb fuel p s = Some (p', run_cb cb s (Stream.scan v).1) /\
    rep p' (Stream.scan v).2.
Proof.
  revert p v s; induction fuel as [|fuel IH]; intros p v s Hr Hf; [lia|].
  cbn [drain_loop]. destruct (drain_step_refines p v Hr) as (st & -> & Hst).
  cbn [mbind option_bind]. rewrite Stream.scan_unfold.
  destruct (Stream.scan_step v) as [r|o r] eqn:E, st as [p'|o' p']; try done.
  - by exists p'.
  - destruct Hst as [<- Hr']. apply Stream.scan_step_progress in E.
    destruct (IH p' r (call cb s o) Hr' ltac:(lia)) as (p'' & -> & Hr'').
    exists p''. destruct (Stream.scan r) as [fs r']. by destruct o.
Qed.

Lemma drain_frames_refines {S} (cb : S -> Z -> Z -> list Z -> S) p v s :
  rep p v ->
  exists p', drain_frames cb p s = Some (p', run_cb cb s (Stream.scan v).1) /\
    rep p' (Stream.scan v).2.
Proof.
  intros Hr. pose proof (rep_len _ _ Hr) as [Hl _].
  apply drain_loop_refines; [done|]. rewrite Hl. unfold zlen. lia.
Qed.

(** [ready p v]: between two calls of [feed] the valid bytes [v] hold no
    complete frame. *)
Definition ready (self : t) (v : list Z) : Prop :=
  rep self v /\ Stream.scan v = ([], v).

Lemma ready_new : ready new [].
Proof. split; [apply rep_new | done]. Qed.

Lemma ready_reset p v : ready p v -> ready (reset p) [].
Proof. intros [Hr _]. split; [by eapply rep_reset | done]. Qed.

(** A ready parser has room for more than the guard margin. *)
Lemma ready_space p v : ready p v -> 64 < PARSER_BUF_CAP - len p.
Proof.
  intros [Hr Hs]. pose proof (rep_len _ _ Hr) as [-> _].
  pose proof (Stream.scan_rest_bound v) as Hb. rewrite Hs in Hb.
  unfold PARSER_BUF_CAP. cbn [snd] in Hb. lia.
Qed.

Lemma rep_extend p v d :
  rep p v -> bytes_ok d -> zlen v + zlen d <= PARSER_BUF_CAP ->
  exists b, blit (buf p) (len p) d = Some b /\ rep (mk b (len p + zlen d)) (v ++ d).
Proof.
  intros (j & Hb & Hl & Hc & Hok) Hd Hfit. pose proof (zlen_nonneg v).
  rewrite blit_eq by lia. eexists. split; [done|].
  rewrite Hb, Hl, ztake_app by done. rewrite Hb in Hc, Hok. rewrite zlen_app in Hc.
  exists (zdrop (zlen v + zlen d) (v ++ j)). cbn [buf len].
  split; [by rewrite app_assoc|]. split; [zl|]. split.
  - rewrite !zlen_app, zlen_zdrop; zl.
  - apply Forall_app in Hok as [Hv Hj].
    apply Forall_app; split; [done|]. apply Forall_app; split; [done|].
    by apply Forall_drop, Forall_app.
Qed.

Lemma ready_scan p v : rep p (Stream.scan v).2 -> bytes_ok v -> ready p (Stream.scan v).2.
Proof. intros Hr Hv. split; [done|]. by apply Stream.scan_rest_stuck. Qed.

Lemma feed_loop_refines {S} (cb : S -> Z -> Z -> list Z -> S) fuel p v s data pos :
  ready p v -> bytes_ok data -> 0 <= pos <= zlen data ->
  zlen data - pos <= Z.of_nat fuel ->
  exists p',
    feed_loop cb fuel p s data pos =
      Some (p', run_cb cb s (Stream.scan (v ++ zdrop pos data)).1) /\
    ready p' (Stream.scan (v ++ zdrop pos data)).2.
Proof.
  revert p v s pos; induction fuel as [|fuel IH]; intros p v s pos Hrd Hd Hpos Hf;
    pose proof (ready_space _ _ Hrd) as Hsp; pose proof Hrd as [Hr Hs].
  - assert (pos = zlen data) as -> by lia. cbn [feed_loop]. rewrite Z.ltb_irrefl.
    exists p. by rewrite zdrop_all, app_nil_r, Hs by lia.
  - cbn [feed_loop]. destruct (pos <? zlen data) eqn:E; zbool.
    2:{ exists p. by rewrite zdrop_all, app_nil_r, Hs by lia. }
    pose proof (rep_len _ _ Hr) as [Hl _]. rewrite usub_eq by lia. cbn [mbind option_bind].
    set (copy := Z.min _ _). assert (0 < copy /\ pos + copy <= zlen data) as [Hc1 Hc2] by lia.
    rewrite (proj2 (Z.eqb_neq copy 0)) by lia. rewrite slice_eq by lia.
    replace (pos + copy - pos) with copy by lia. cbn [mbind option_bind].
    set (chunk := ztake copy (zdrop pos data)).
    assert (zlen chunk = copy) as Hck by (apply zlen_ztake; rewrite zlen_zdrop; lia).
    assert (bytes_ok chunk) as Hckok by (by apply Forall_take, Forall_drop).
    destruct (rep_extend p v chunk Hr Hckok ltac:(lia)) as (b & -> & Hr1).
    rewrite Hck in Hr1. cbn [mbind option_bind].
    destruct (drain_frames_refines cb _ _ s Hr1) as (p1 & -> & Hr2). cbn [mbind option_bind].
    pose proof (rep_bytes_ok _ _ Hr1) as Hok1. pose proof (ready_scan _ _ Hr2 Hok1) as Hrd1.
    destruct (IH p1 _ (run_cb cb s (Stream.scan (v ++ chunk)).1) (pos + copy) Hrd1 Hd)
      as (p2 & -> & Hrd2); [lia..|].
    assert (v ++ zdrop pos data = (v ++ chunk) ++ zdrop (pos + copy) data) as ->.
    { rewrite <- app_assoc. unfold chunk. rewrite <- (zdrop_zdrop copy pos) by lia.
      by rewrite ztake_zdrop. }
    exists p2. rewrite (Stream.scan_app (v ++ chunk)) by done.
    destruct (Stream.scan (v ++ chunk)) as [fs r]. cbn [fst snd] in *.
    destruct (Stream.scan (r ++ _)) as [fs' r']. split; [|done].
    unfold run_cb in *. cbn [fst]. by rewrite fold_left_app.
Qed.

Lemma feed_frames_refines p v data :
  ready p v -> bytes_ok data ->
  exists p', feed_frames p data = Some (p', (Stream.scan (v ++ data)).1) /\
    ready p' (Stream.scan (v ++ data)).2.
Proof.
  intros Hr Hd.
  destruct (feed_loop_refines push (length data) p v [] data 0 Hr Hd) as (p' & Hf & Hr').
  - pose proof (zlen_nonneg data). lia.
  - unfold zlen. lia.
  - rewrite zdrop_0 in *. exists p'. split; [|done]. unfold feed_frames, feed.
    by rewrite Hf, run_cb_push.
Qed.

(** A sequence of reads: [feed] once per chunk. *)
Fixpoint feed_chunks (self : t) (chunks : list (list Z)) : option (t * list frame) :=
  match chunks with
  | [] => Some (self, [])
  | c :: cs =>
      '(self, fs) ← feed_frames self c;
      '(self, fs') ← feed_chunks self cs;
      Some (self, fs ++ fs')
  end.

Lemma feed_chunks_refines p v chunks :
  ready p v -> Forall bytes_ok chunks ->
  exists p', feed_chunks p chunks = Some (p', (Stream.scan (v ++ concat chunks)).1) /\
    ready p' (Stream.scan (v ++ concat chunks)).2.
Proof.
  intros Hr Hc. revert p v Hr; induction Hc as [|c cs Hc Hcs IH]; intros p v Hr.
  - exists p. destruct Hr as [Hr Hs]. cbn [feed_chunks concat]. by rewrite app_nil_r, Hs.
  - cbn [feed_chunks concat]. destruct (feed_frames_refines p v c Hr Hc) as (p1 & -> & Hr1).
    cbn [mbind option_bind]. destruct (IH p1 _ Hr1) as (p2 & -> & Hr2).
    cbn [mbind option_bind]. exists p2.
    assert (bytes_ok (v ++ c)) as Hok.
    { apply Forall_app; split; [|done]. destruct Hr as [Hr _]. by eapply rep_bytes_ok. }
    rewrite app_assoc, (Stream.scan_app (v ++ c)) by done.
    destruct (Stream.scan (v ++ c)) as [fs r]. cbn [fst snd] in *.
    by destruct (Stream.scan (r ++ concat cs)).
Qed.

Lemma concat_bytes_ok chunks : bytes_ok (concat chunks) -> Forall bytes_ok chunks.
Proof.
  induction chunks as [|c cs IH]; cbn [concat]; [constructor|].
  intros [? ?]%Forall_app. constructor; auto.
Qed.

Lemma build_all_bytes_ok fs : Forall frame_bytes fs -> bytes_ok (concat (map build fs)).
Proof.
  induction 1; cbn [map concat]; [constructor|].
  apply Forall_app. split; [by apply build_frame_bytes_ok | done].
Qed.

(** ** The properties of the parser *)

(** C18: On a parser between two reads, [feed] panics on no input, terminates,
    and hands the callback exactly the frames the specification [Stream.scan]
    finds in the bytes still buffered followed by the new input, in order; the
    bytes it keeps are the ones [scan] leaves over. *)
Theorem feed_refines_scan {S} (cb : S -> Z -> Z -> list Z -> S) p v s data :
  ready p v -> bytes_ok data ->
  exists p',
    feed cb p s data = Some (p', run_cb cb s (Stream.scan (v ++ data)).1) /\
    ready p' (Stream.scan (v ++ data)).2.
Proof.
  intros Hr Hd. pose proof (zlen_nonneg data).
  destruct (feed_loop_refines cb (length data) p v s data 0 Hr Hd) as (p' & Hf & Hr');
    [lia | unfold zlen; lia |].
  rewrite zdrop_0 in *. by exists p'.
Qed.

(** C19: A stream of built frames is read back frame by frame, whatever the
    boundaries of the reads, and leaves the parser empty. *)
Theorem feed_roundtrip fs chunks :
  Forall frame_fits fs -> Forall frame_bytes fs ->
  concat chunks = concat (map build fs) ->
  exists p', feed_chunks new chunks = Some (p', fs) /\ ready p' [].
Proof.
  intros Hf Hb Heq. pose proof (build_all_bytes_ok _ Hb) as Hok.
  destruct (feed_chunks_refines new [] chunks ready_new) as (p' & Hfd & Hr).
  - apply concat_bytes_ok. by rewrite Heq.
  - cbn [app] in *. rewrite Heq, <- (app_nil_r (concat _)) in Hfd, Hr.
    rewrite Stream.scan_build_all in Hfd, Hr by done.
    rewrite Stream.scan_nil in *. cbn [fst snd] in *. rewrite app_nil_r in Hfd. eauto.
Qed.

(** No frame is invented: the frames a sequence of reads delivers lie in the
    received bytes as built, in order and disjoint, in front of the bytes the
    parser still holds. *)
Theorem feed_sound p v chunks p' fs :
  ready p v -> Forall bytes_ok chunks ->
  feed_chunks p chunks = Some (p', fs) ->
  exists rest, ready p' rest /\ Stream.carved (v ++ concat chunks) fs rest.
Proof.
  intros Hr Hc Hf. destruct (feed_chunks_refines p v chunks Hr Hc) as (p1 & Hf' & Hr').
  rewrite Hf in Hf'. injection Hf' as -> ->. eexists. split; [done|].
  apply Stream.scan_sound, Forall_app. split.
  - destruct Hr as [Hr _]. by eapply rep_bytes_ok.
  - clear -Hc. induction Hc; cbn [concat]; [constructor | by apply Forall_app].
Qed.

(** How a byte stream is cut into reads changes neither the frames delivered
    nor the bytes kept. *)
Theorem feed_chunking_irrelevant p v cs1 cs2 :
  ready p v -> bytes_ok (concat cs1) -> concat cs1 = concat cs2 ->
  exists p1 p2 fs rest,
    feed_chunks p cs1 = Some (p1, fs) /\ feed_chunks p cs2 = Some (p2, fs) /\
    ready p1 rest /\ ready p2 rest.
Proof.
  intros Hr Hb Heq.
  destruct (feed_chunks_refines p v cs1 Hr) as (p1 & H1 & R1); [by apply concat_bytes_ok|].
  destruct (feed_chunks_refines p v cs2 Hr) as (p2 & H2 & R2).
  { apply concat_bytes_ok. by rewrite <- Heq. }
  rewrite <- Heq in *. eauto 10.
Qed.

(** The parser resynchronises: noise without a magic pair is dropped and the
    frame behind it is delivered alone. *)
Theorem feed_skips_noise p noise f :
  ready p [] -> bytes_ok noise -> Stream.seek noise = None ->
  frame_fits f -> frame_bytes f ->
  exists p', feed_frames p (noise ++ build f) = Some (p', [f]) /\ ready p' [].
Proof.
  intros Hr Hn Hs Hf Hb. destruct (feed_frames_refines p [] (noise ++ build f) Hr)
    as (p' & Hfd & Hrd).
  { apply Forall_app; split; [done | by apply build_frame_bytes_ok]. }
  cbn [app] in *. rewrite <- (app_nil_r (build f)) in Hfd, Hrd.
  rewrite Stream.scan_noise, Stream.scan_build, Stream.scan_nil in Hfd, Hrd by done.
  rewrite app_nil_r in Hfd. eauto.
Qed.

(** A frame the parser must reject: a length field above [MAX_PAYLOAD], or a
    checksum that is not the payload's. *)
Inductive corrupt : list Z -> Prop :=
  | corrupt_length ft ch lo hi body :
      MAX_PAYLOAD < Z.lor lo (Z.shiftl hi 8) ->
      corrupt (0xAA :: 0x55 :: ft :: ch :: lo :: hi :: body)
  | corrupt_crc ft ch payload crc :
      zlen payload <= MAX_PAYLOAD -> length crc = 4%nat ->
      from_le_bytes crc <> crc32_hash payload ->
      corrupt (0xAA :: 0x55 :: ft :: ch :: to_le_bytes 2 (zlen payload) ++ payload ++ crc).

Lemma corrupt_rejected m rest :
  corrupt m -> Stream.parse_header (m ++ rest) = Stream.Advance None (zdrop 2 m ++ rest).
Proof.
  destruct 1 as [ft ch lo hi body Hl|ft ch pl crc Hp Hc Hne]; cbn [app].
  - unfold Stream.parse_header. by rewrite (proj2 (Z.ltb_lt _ _) Hl).
  - destruct (header_length (zlen pl)) as (lo & hi & -> & Hlen);
      [pose proof (zlen_nonneg pl); lia|].
    cbn [app]. unfold Stream.parse_header. rewrite Hlen.
    rewrite (proj2 (Z.ltb_ge _ _)) by lia. rewrite <- app_assoc.
    assert (zlen crc = CRC_SIZE) as Hcl by (unfold zlen; rewrite Hc; done).
    rewrite (proj2 (Z.ltb_ge _ _)) by zl.
    rewrite ztake_app, zdrop_app, ztake_app by done.
    rewrite (proj2 (Z.eqb_neq _ _)) by done.
    unfold zdrop. change (Z.to_nat 2) with 2%nat. cbn [drop app]. by rewrite <- app_assoc.
Qed.

(** A corrupt frame is not delivered and costs only its own bytes: when it
    holds no second magic pair, the frame that follows it is delivered. *)
Theorem feed_recovers_from_corruption p bad f :
  ready p [] -> corrupt bad -> bytes_ok bad -> Stream.seek (zdrop 2 bad) = None ->
  frame_fits f -> frame_bytes f ->
  exists p', feed_frames p (bad ++ build f) = Some (p', [f]) /\ ready p' [].
Proof.
  intros Hr Hc Hb Hs Hf Hfb. destruct (feed_frames_refines p [] (bad ++ build f) Hr)
    as (p' & Hfd & Hrd).
  { apply Forall_app; split; [done | by apply build_frame_bytes_ok]. }
  cbn [app] in *. pose proof (corrupt_rejected bad (build f) Hc) as Hrej.
  rewrite Stream.scan_unfold in Hfd, Hrd. unfold Stream.scan_step in Hfd, Hrd.
  assert (Stream.seek (bad ++ build f) = Some (bad ++ build f)) as Hsk by (by destruct Hc).
  rewrite Hsk, Hrej, <- (app_nil_r (build f)) in Hfd, Hrd.
  rewrite Stream.scan_noise, Stream.scan_build, Stream.scan_nil in Hfd, Hrd by done.
  rewrite app_nil_r in Hfd. eauto.
Qed.

End Refinement.
(** ** Witnesses *)

Section Witnesses.
#[local] Existing Instance crc32_zlib.

Definition wire1 : list Z := build_frame F_DATA 7 [0x61; 0x62; 0x63].

Lemma feed_refines_scan_witness :
  exists p', feed push new [] wire1 = Some (p', [(F_DATA, 7, [0x61; 0x62; 0x63])]).
Proof.
  destruct (feed_refines_scan push new [] [] wire1) as (p' & Hf & _).
  - apply ready_new.
  - apply (build_frame_bytes_ok (F_DATA, 7, [0x61; 0x62; 0x63])).
    concrete_frames.
  - exists p'. rewrite Hf. vm_compute. reflexivity.
Defined.

Lemma feed_roundtrip_witness :
  exists p', feed_chunks new [[0xAA]; [0x55; 0x20; 0; 0; 0; 0]; [0; 0; 0] ++ wire1]
    = Some (p', [(F_PING, 0, []); (F_DATA, 7, [0x61; 0x62; 0x63])]) /\ ready p' [].
Proof.
  apply (feed_roundtrip [(F_PING, 0, []); (F_DATA, 7, [0x61; 0x62; 0x63])]).
  - concrete_frames.
  - concrete_frames.
  - vm_compute. reflexivity.
Defined.

Lemma feed_sound_witness :
  exists p' rest, feed_chunks new [[1; 2]; wire1] = Some (p', [(F_DATA, 7, [0x61; 0x62; 0x63])]) /\
    Stream.carved (1 :: 2 :: wire1) [(F_DATA, 7, [0x61; 0x62; 0x63])] rest.
Proof.
  assert (Forall bytes_ok [[1; 2]; wire1]) as Hb by (concrete_frames).
  destruct (feed_chunks_refines new [] [[1; 2]; wire1] ready_new Hb) as (p' & Hf & _).
  destruct (feed_sound new [] [[1; 2]; wire1] p' _ ready_new Hb Hf) as (rest & _ & Hc).
  exists p', rest. split.
  - rewrite Hf. vm_compute. reflexivity.
  - revert Hc. cbn [app concat]. rewrite app_nil_r.
    assert (((Stream.scan (1 :: 2 :: wire1)).1) = [(F_DATA, 7, [0x61; 0x62; 0x63])]) as ->;
      [vm_compute; reflexivity | done].
Defined.

Lemma feed_chunking_irrelevant_witness :
  exists p1 p2 fs rest,
    feed_chunks new [wire1] = Some (p1, fs) /\
    feed_chunks new [take 5 wire1; drop 5 wire1] = Some (p2, fs) /\
    ready p1 rest /\ ready p2 rest.
Proof.
  apply (feed_chunking_irrelevant new []).
  - apply ready_new.
  - concrete_frames.
  - vm_compute. reflexivity.
Defined.

Lemma feed_skips_noise_witness :
  exists p', feed_frames new ([0x00; 0x11; 0xAA; 0x99] ++ build (F_DATA, 7, [0x61; 0x62; 0x63]))
    = Some (p', [(F_DATA, 7, [0x61; 0x62; 0x63])]) /\ ready p' [].
Proof.
  apply feed_skips_noise.
  - apply ready_new.
  - concrete_frames.
  - reflexivity.
  - concrete_frames.
  - concrete_frames.
Defined.

(** The two corrupt frames of the source's unit tests. *)
Lemma feed_recovers_from_corruption_witness :
  (exists p', feed_frames new ([0xAA; 0x55; F_DATA; 9; 0x01; 0x80] ++ build (F_DATA, 3, [0x6F; 0x6B]))
    = Some (p', [(F_DATA, 3, [0x6F; 0x6B])]) /\ ready p' []) /\
  (exists p', feed_frames new
     ((0xAA :: 0x55 :: F_DATA :: 1 :: to_le_bytes 2 3 ++ [0x62; 0x61; 0x64] ++ [1; 2; 3; 4])
        ++ build (F_DATA, 2, [0x6F; 0x6B]))
    = Some (p', [(F_DATA, 2, [0x6F; 0x6B])]) /\ ready p' []).
Proof.
  split; apply feed_recovers_from_corruption; try apply ready_new;
    try reflexivity; concrete_frames.
  - by apply corrupt_length.
  - apply (corrupt_crc F_DATA 1 [0x62; 0x61; 0x64] [1; 2; 3; 4]);
      [vm_compute; discriminate | reflexivity | vm_compute; discriminate].
Defined.

End Witnesses.

End FrameParser.
