(* ===== verification/TxQueue.v ===== *)
(** * The transmit queue ([TxQueue] of [serialmux-rs/src/protocol.rs])

    The ring buffer is the fixed array of the code with its [head] and [tail].
    [contents] is its abstraction, the queued bytes in order; each operation
    implements the operation of a bounded byte FIFO ([enqueue_spec],
    [drain_spec]).  The class [TxQueueOps] is the interface the daemon uses,
    [TxQueueLaws] what it relies on; the ring buffer and the plain FIFO are its
    two instances. *)
From Stdlib Require Import ZArith Lia.
From stdpp Require Import base option numbers list.
From S2P Require Import Prelude Protocol.

Local Open Scope Z_scope.

(** The result of [write(2)]: the number of bytes taken, or the [errno].  The
    system call takes no more than it is offered. *)
Definition write_oracle : Type := list Z -> io Z.

Definition write_ok (w : write_oracle) : Prop :=
  forall d n, w d = Ok n -> 0 <= n <= zlen d.

Definition would_block (e : Errno) : bool :=
  bool_decide (e = EAGAIN) || bool_decide (e = EWOULDBLOCK).

Module TxQueue.

Record t := mk { buf : list Z; head : Z; tail : Z }.

Definition new : t := mk (replicate (Z.to_nat LINK_TXBUF_SIZE) 0) 0 0.

Definition reset (self : t) : t := mk self.(buf) 0 0.

Definition used (self : t) : Z :=
  (self.(tail) + LINK_TXBUF_SIZE - self.(head)) mod LINK_TXBUF_SIZE.

Definition is_empty (self : t) : bool := self.(head) =? self.(tail).

Definition enqueue (self : t) (data : list Z) : option t :=
  let n := zlen data in
  if n =? 0 then Some self
  else
    free ← usub (LINK_TXBUF_SIZE - 1) (used self);
    if free <? n then Some self
    else
      space_to_end ← usub LINK_TXBUF_SIZE self.(tail);
      b ← (if n <=? space_to_end then blit self.(buf) self.(tail) data
           else
             first ← slice data 0 space_to_end;
             second ← slice data space_to_end n;
             b ← blit self.(buf) self.(tail) first;
             blit b 0 second);
      Some (mk b self.(head) ((self.(tail) + n) mod LINK_TXBUF_SIZE)).

(** The queue after the call, its result, and the bytes the call put on the
    wire. *)
Definition drain_to_fd (self : t) (write : write_oracle)
  : option (t * io bool * list Z) :=
  if is_empty self then Some (self, Ok true, [])
  else
    let head := self.(head) in
    let tail := self.(tail) in
    let avail := if head <=? tail then tail - head else LINK_TXBUF_SIZE - head in
    segment ← slice self.(buf) head (head + avail);
    match write segment with
    | Err e => Some (self, if would_block e then Ok false else Err e, [])
    | Ok written =>
        let self' := mk self.(buf) ((head + written) mod LINK_TXBUF_SIZE) tail in
        Some (self', Ok (is_empty self'), ztake written segment)
    end.

(** ** The abstraction: a bounded FIFO of bytes *)

Definition wf (self : t) : Prop :=
  zlen self.(buf) = LINK_TXBUF_SIZE /\
  0 <= self.(head) < LINK_TXBUF_SIZE /\ 0 <= self.(tail) < LINK_TXBUF_SIZE.

Definition contents (self : t) : list Z :=
  if self.(head) <=? self.(tail)
  then ztake (self.(tail) - self.(head)) (zdrop self.(head) self.(buf))
  else zdrop self.(head) self.(buf) ++ ztake self.(tail) self.(buf).

End TxQueue.

(** The operations of the FIFO the ring buffer implements. *)
Definition fifo_push (l d : list Z) : list Z :=
  if zlen d <=? LINK_TXBUF_SIZE - 1 - zlen l then l ++ d else l.

(** [fifo_drain l r wire l']: a drain of [l] with result [r] sent [wire]. *)
Inductive fifo_drain : list Z -> io bool -> list Z -> list Z -> Prop :=
  | drain_empty : fifo_drain [] (Ok true) [] []
  | drain_blocked l : l <> [] -> fifo_drain l (Ok false) [] l
  | drain_error l e : l <> [] -> would_block e = false -> fifo_drain l (Err e) [] l
  | drain_sent wire l' :
      wire ++ l' <> [] -> fifo_drain (wire ++ l') (Ok (is_empty l')) wire l'.

Module TxQueueProofs.
Import TxQueue.

Lemma size_pos : 0 < LINK_TXBUF_SIZE.
Proof. done. Qed.

(** The two shapes of the ring: the queued bytes lie in one piece, or wrap. *)
Inductive layout : t -> list Z -> Prop :=
  | layout_flat a l f h tl :
      h = zlen a -> tl = zlen a + zlen l ->
      zlen a + zlen l + zlen f = LINK_TXBUF_SIZE -> 0 < zlen f ->
      layout (mk (a ++ l ++ f) h tl) l
  | layout_wrap c1 c2 f h tl :
      h = zlen c2 + zlen f -> tl = zlen c2 ->
      zlen c2 + zlen f + zlen c1 = LINK_TXBUF_SIZE -> 0 < zlen f -> 0 < zlen c1 ->
      layout (mk (c2 ++ f ++ c1) h tl) (c1 ++ c2).

Lemma layout_wf q l : layout q l -> wf q.
Proof. unfold wf. destruct 1; cbn [buf head tail]; zl. Qed.

Lemma layout_contents q l : layout q l -> contents q = l.
Proof.
  unfold contents. destruct 1; subst; cbn [buf head tail].
  - rewrite (proj2 (Z.leb_le _ _)) by zl. rewrite zdrop_app by done.
    replace (zlen a + zlen l - zlen a) with (zlen l) by lia. by apply ztake_app.
  - rewrite (proj2 (Z.leb_gt _ _)) by lia.
    rewrite app_assoc at 1. rewrite zdrop_app by zl. by rewrite ztake_app.
Qed.

Lemma wf_layout q : wf q -> layout q (contents q).
Proof.
  destruct q as [b h tl]. intros (Hb & Hh & Ht). cbn [buf head tail] in *.
  unfold contents. cbn [buf head tail]. destruct (h <=? tl) eqn:E; zbool.
  - set (l := ztake (tl - h) (zdrop h b)).
    assert (zlen l = tl - h) by (apply zlen_ztake; rewrite zlen_zdrop; lia).
    assert (b = ztake h b ++ l ++ zdrop tl b) as Hs.
    { unfold l. replace tl with (h + (tl - h)) at 2 by lia.
      rewrite <- (zdrop_zdrop (tl - h) h) by lia. by rewrite !ztake_zdrop. }
    rewrite Hs at 1. constructor; rewrite ?zlen_ztake, ?zlen_zdrop; lia.
  - set (f := ztake (h - tl) (zdrop tl b)).
    assert (zlen f = h - tl) by (apply zlen_ztake; rewrite zlen_zdrop; lia).
    assert (b = ztake tl b ++ f ++ zdrop h b) as Hs.
    { unfold f. replace h with (tl + (h - tl)) at 2 by lia.
      rewrite <- (zdrop_zdrop (h - tl) tl) by lia. by rewrite !ztake_zdrop. }
    rewrite Hs at 1. constructor; rewrite ?zlen_ztake, ?zlen_zdrop; lia.
Qed.

Lemma wf_new : wf new.
Proof. split; [by apply zlen_replicate|]. cbn. pose proof size_pos. lia. Qed.

Lemma contents_new : contents new = [].
Proof. reflexivity. Qed.

Lemma wf_reset q : wf q -> wf (reset q).
Proof. intros (? & _ & _). pose proof size_pos. split; [done|]. cbn. lia. Qed.

Lemma contents_reset q : contents (reset q) = [].
Proof. reflexivity. Qed.

Lemma layout_used q l : layout q l -> used q = zlen l.
Proof.
  unfold used. destruct 1; subst; cbn [buf head tail].
  - replace (zlen a + zlen l + LINK_TXBUF_SIZE - zlen a)
      with (zlen l + 1 * LINK_TXBUF_SIZE) by lia.
    rewrite Z.mod_add by done. apply Z.mod_small. zl.
  - rewrite zlen_app.
    rewrite Z.mod_small by (pose proof (zlen_nonneg c2); lia). lia.
Qed.

Lemma layout_bound q l : layout q l -> zlen l <= LINK_TXBUF_SIZE - 1.
Proof. destruct 1; zl. Qed.

Lemma layout_is_empty q l : layout q l -> is_empty q = Prelude.is_empty l.
Proof.
  unfold is_empty. rewrite is_empty_zlen. destruct 1; subst; cbn [head tail].
  - destruct (zlen l =? 0) eqn:E; zbool; [apply Z.eqb_eq | apply Z.eqb_neq]; lia.
  - rewrite !(proj2 (Z.eqb_neq _ _)); [done|zl|zl].
Qed.

(** Replacing the bytes behind a prefix of known length. *)
Lemma blit_mid {A} (a m m' r : list A) :
  zlen m = zlen m' -> blit (a ++ m ++ r) (zlen a) m' = Some (a ++ m' ++ r).
Proof.
  intros Hm. rewrite blit_eq by zl. rewrite ztake_app by done.
  rewrite (app_assoc a m r), zdrop_app by zl. done.
Qed.

Lemma blit_part {A} (a f d : list A) :
  zlen d <= zlen f ->
  blit (a ++ f) (zlen a) d = Some (a ++ d ++ zdrop (zlen d) f).
Proof.
  intros Hd. pose proof (zlen_nonneg d). rewrite <- (ztake_zdrop (zlen d) f) at 1.
  apply blit_mid. apply zlen_ztake. lia.
Qed.

(** The two copies of data that wraps around. *)
Lemma blit_around {A} (a f d : list A) :
  zlen f < zlen d -> zlen d <= zlen f + zlen a ->
  exists d1 d2, d = d1 ++ d2 /\ zlen d1 = zlen f /\
    slice d 0 (zlen f) = Some d1 /\ slice d (zlen f) (zlen d) = Some d2 /\
    blit (a ++ f) (zlen a) d1 = Some (a ++ d1) /\
    blit (a ++ d1) 0 d2 = Some (d2 ++ zdrop (zlen d2) (a ++ d1)).
Proof.
  intros Hlt Hle.
  assert (exists d1 d2, d = d1 ++ d2 /\ zlen d1 = zlen f) as (d1 & d2 & -> & Hd1).
  { exists (ztake (zlen f) d), (zdrop (zlen f) d). rewrite ztake_zdrop.
    split; [done|]. apply zlen_ztake. pose proof (zlen_nonneg f). lia. }
  rewrite zlen_app in *. exists d1, d2. split; [done|]. split; [done|].
  rewrite slice_prefix, slice_suffix by zl. split; [done|]. split; [done|]. split.
  - rewrite blit_part by lia. by rewrite zdrop_all, app_nil_r by lia.
  - apply (blit_part [] (a ++ d1) d2). zl.
Qed.

Lemma mod_wrap x : LINK_TXBUF_SIZE <= x < 2 * LINK_TXBUF_SIZE ->
  x mod LINK_TXBUF_SIZE = x - LINK_TXBUF_SIZE.
Proof.
  intros. symmetry. apply (Z.mod_unique _ _ 1); lia.
Qed.

Lemma enqueue_layout q l d :
  layout q l -> exists q', enqueue q d = Some q' /\ layout q' (fifo_push l d).
Proof.
  intros Hq. pose proof (layout_used _ _ Hq) as Hu. pose proof (layout_bound _ _ Hq) as Hb.
  unfold enqueue, fifo_push. rewrite Hu, (usub_eq (LINK_TXBUF_SIZE - 1)) by lia. cbn [mbind option_bind].
  pose proof (zlen_nonneg d). pose proof (zlen_nonneg l).
  destruct (zlen d =? 0) eqn:E0; zbool.
  { rewrite (zlen_0_nil d), app_nil_r by done. exists q. split; [done|]. by case_match. }
  destruct (LINK_TXBUF_SIZE - 1 - zlen l <? zlen d) eqn:Ef; zbool.
  { rewrite (proj2 (Z.leb_gt _ _)) by lia. by exists q. }
  rewrite (proj2 (Z.leb_le _ _)) by lia.
  destruct Hq as [a l f h tl -> -> Hsz Hf|c1 c2 f h tl -> -> Hsz Hf Hc]; cbn [buf head tail].
  - rewrite usub_eq by zl. cbn [mbind option_bind].
    destruct (zlen d <=? _) eqn:Es; zbool.
    + rewrite (app_assoc a l f). replace (zlen a + zlen l) with (zlen (a ++ l)) by zl.
      rewrite blit_part by lia. cbn [mbind option_bind]. eexists. split; [done|].
      rewrite zlen_app in *. destruct (Z.eq_dec (zlen d) (zlen f)) as [Hdf|Hdf].
      * rewrite zdrop_all, app_nil_r by lia.
        replace (zlen a + zlen l + zlen d) with LINK_TXBUF_SIZE by lia.
        rewrite Z.mod_same by done.
        replace ((a ++ l) ++ d) with ([] ++ a ++ (l ++ d)) by (by rewrite <- !app_assoc).
        rewrite <- (app_nil_r (l ++ d)) at 2. constructor; zl.
      * rewrite Z.mod_small by zl. rewrite <- app_assoc, (app_assoc l d).
        constructor; rewrite ?zlen_zdrop; zl.
    + replace (LINK_TXBUF_SIZE - (zlen a + zlen l)) with (zlen f) in * by lia.
      rewrite (app_assoc a l f). replace (zlen a + zlen l) with (zlen (a ++ l)) by zl.
      destruct (blit_around (a ++ l) f d) as (d1 & d2 & -> & Hd1 & -> & -> & E1 & E2); [zl..|].
      cbn [mbind option_bind]. rewrite E1. cbn [mbind option_bind]. rewrite E2. cbn [mbind option_bind].
      rewrite !zlen_app in *. eexists. split; [done|]. rewrite mod_wrap by zl.
      rewrite <- app_assoc, (zdrop_app_le _ a) by lia. rewrite (app_assoc l d1 d2).
      constructor; rewrite ?zlen_app, ?zlen_zdrop; zl.
  - rewrite usub_eq by zl. cbn [mbind option_bind].
    rewrite (proj2 (Z.leb_le _ _)) by zl. rewrite zlen_app in *.
    rewrite blit_part by zl. cbn [mbind option_bind]. eexists. split; [done|].
    rewrite zdrop_app_le by lia. rewrite Z.mod_small by zl.
    rewrite <- (app_assoc c1 c2 d), (app_assoc c2 d).
    constructor; rewrite ?zlen_app, ?zlen_zdrop; zl.
Qed.

(** A drain writes from the segment [c1] at the head; [c2] is what wraps around. *)
Lemma drain_segment q c1 c2 w :
  write_ok w -> is_empty q = false ->
  slice (buf q) (head q)
    (head q + (if head q <=? tail q then tail q - head q else LINK_TXBUF_SIZE - head q)) = Some c1 ->
  layout q (c1 ++ c2) ->
  (forall s r, c1 = s ++ r ->
     layout (mk (buf q) ((head q + zlen s) mod LINK_TXBUF_SIZE) (tail q)) (r ++ c2)) ->
  c1 <> [] ->
  exists q' r wire l', drain_to_fd q w = Some (q', r, wire) /\ layout q' l' /\
    fifo_drain (c1 ++ c2) r wire l'.
Proof.
  intros Hw He Hs Hq Hlay Hne. unfold drain_to_fd. rewrite He, Hs. cbn [mbind option_bind].
  destruct (w c1) as [n|e] eqn:Ew.
  - apply Hw in Ew.
    assert (zlen (ztake n c1) = n) as Hn by (by apply zlen_ztake).
    pose proof (Hlay (ztake n c1) (zdrop n c1) ltac:(by rewrite ztake_zdrop)) as Hq'.
    rewrite Hn in Hq'. eexists _, _, (ztake n c1), (zdrop n c1 ++ c2).
    split; [reflexivity|]. split; [exact Hq'|].
    rewrite (layout_is_empty _ _ Hq').
    replace (c1 ++ c2) with (ztake n c1 ++ (zdrop n c1 ++ c2)) by by rewrite app_assoc, ztake_zdrop.
    constructor. rewrite app_assoc, ztake_zdrop. by destruct c1.
  - eexists _, _, [], (c1 ++ c2). split; [reflexivity|]. split; [done|].
    destruct (would_block e) eqn:Eb; constructor; try done; by destruct c1.
Qed.

Lemma drain_layout q l w :
  layout q l -> write_ok w ->
  exists q' r wire l', drain_to_fd q w = Some (q', r, wire) /\ layout q' l' /\
    fifo_drain l r wire l'.
Proof.
  intros Hq Hw. pose proof (layout_is_empty _ _ Hq) as He.
  destruct (Prelude.is_empty l) eqn:E.
  { apply is_empty_spec in E as ->. unfold drain_to_fd. rewrite He.
    exists q, (Ok true), [], []. repeat split; [done|constructor]. }
  assert (l <> []) as Hne by (by intros ->). clear E. pose proof Hq as Hlay.
  destruct Hq as [a l f h tl -> -> Hsz Hf|c1 c2 f h tl -> -> Hsz Hf Hc].
  - pose proof (drain_segment (mk (a ++ l ++ f) (zlen a) (zlen a + zlen l)) l [] w) as Hs.
    rewrite app_nil_r in Hs. apply Hs; try done; cbn [buf head tail].
    + rewrite (proj2 (Z.leb_le _ _)) by zl. apply slice_mid; lia.
    + intros s r ->. rewrite app_nil_r, Z.mod_small by zl.
      rewrite <- app_assoc, (app_assoc a s). constructor; rewrite ?zlen_app; zl.
  - apply drain_segment; try done; cbn [buf head tail].
    + rewrite (proj2 (Z.leb_gt _ _)) by lia. rewrite app_assoc. apply slice_suffix; zl.
    + intros s r ->. destruct (Z.eq_dec (zlen r) 0) as [Hr|Hr].
      * apply zlen_0_nil in Hr as ->. rewrite !app_nil_r in *.
        replace (zlen c2 + zlen f + zlen s) with LINK_TXBUF_SIZE by lia.
        rewrite Z.mod_same by done.
        apply (layout_flat [] c2 (f ++ s)); rewrite ?zlen_app, ?zlen_nil; zl.
      * rewrite zlen_app in *. rewrite Z.mod_small by zl. rewrite (app_assoc f s).
        constructor; rewrite ?zlen_app; zl.
    + by intros ->.
Qed.

(** A [write] that takes all it is offered. *)
Definition takes_all (w : write_oracle) : Prop := forall d, w d = Ok (zlen d).

Lemma takes_all_ok w : takes_all w -> write_ok w.
Proof. intros Hw d n. rewrite Hw. intros [= <-]. pose proof (zlen_nonneg d). lia. Qed.

(** One drain empties a queue that does not wrap, and unwraps one that does. *)
Lemma drain_takes_all q l w :
  layout q l -> takes_all w ->
  exists q' r wire l', drain_to_fd q w = Some (q', r, wire) /\ layout q' l' /\ l = wire ++ l' /\
    (head q <= tail q -> l' = []) /\ (tail q < head q -> head q' <= tail q').
Proof.
  intros Hq Hw. destruct (drain_layout q l w Hq (takes_all_ok w Hw))
    as (q' & r & wire & l' & E & Hq' & Hf).
  exists q', r, wire, l'. split; [done|]. split; [done|].
  assert (l = wire ++ l') as Hl by (by destruct Hf). split; [done|].
  assert (l = [] \/ l <> []) as [->|Hne] by (destruct l; auto).
  { symmetry in Hl. apply app_eq_nil in Hl as [_ ->]. split; [done|]. intros Hlt.
    inversion Hq; subst; cbn [head tail] in *; [zl|].
    apply (f_equal zlen) in H. rewrite zlen_app, zlen_nil in H. zl. }
  revert E. unfold drain_to_fd. rewrite (layout_is_empty _ _ Hq).
  assert (Prelude.is_empty l = false) as -> by by destruct l.
  destruct Hq as [a l f h tl -> -> Hsz Hfr|c1 c2 f h tl -> -> Hsz Hfr Hc]; cbn [buf head tail].
  - rewrite (proj2 (Z.leb_le _ _)) by zl. rewrite slice_mid by lia. cbn [mbind option_bind].
    rewrite Hw. rewrite ztake_all by lia. intros [= _ _ <-]. split; [|zl].
    intros _. apply (app_same_nil l). by rewrite <- Hl.
  - rewrite (proj2 (Z.leb_gt _ _)) by lia. rewrite app_assoc.
    rewrite (slice_suffix (c2 ++ f) c1) by zl. cbn [mbind option_bind].
    rewrite Hw. intros [= <- _ _]. cbn [head tail]. split; [zl|]. intros _.
    replace (zlen c2 + zlen f + zlen c1) with LINK_TXBUF_SIZE by lia.
    rewrite Z.mod_same by done. zl.
Qed.

(** ** The properties of the ring buffer *)

(** C20: [enqueue] never panics and implements the push of a bounded FIFO: the
    data is appended whole, or dropped whole when it does not fit, the free
    byte of the ring included; [used] and [is_empty] report the FIFO. *)
Theorem enqueue_refines_fifo q d :
  wf q ->
  exists q', enqueue q d = Some q' /\ wf q' /\
    contents q' = fifo_push (contents q) d /\
    used q' = zlen (contents q') /\
    is_empty q' = Prelude.is_empty (contents q').
Proof.
  intros Hq%wf_layout. destruct (enqueue_layout _ _ d Hq) as (q' & He & Hq').
  exists q'. split; [done|]. split; [by eapply layout_wf|].
  rewrite (layout_contents _ _ Hq'), (layout_used _ _ Hq'), (layout_is_empty _ _ Hq').
  done.
Qed.

(** [drain_to_fd] never panics and implements the drain of a FIFO: the bytes
    the call wrote are a prefix of the queued bytes, the rest stays queued in
    order, and the result tells whether the queue is now empty. *)
Theorem drain_refines_fifo q w :
  wf q -> write_ok w ->
  exists q' r wire, drain_to_fd q w = Some (q', r, wire) /\ wf q' /\
    fifo_drain (contents q) r wire (contents q').
Proof.
  intros Hq%wf_layout Hw. destruct (drain_layout _ _ w Hq Hw) as (q' & r & wire & l' & Hd & Hl & Hf).
  exists q', r, wire. split; [done|]. split; [by eapply layout_wf|].
  by rewrite (layout_contents _ _ Hl).
Qed.

(** The queue is emptied: while the descriptor takes what it is offered, at
    most two drains (the ring may wrap) put exactly the queued bytes on the wire,
    in order, and leave the queue empty. *)
Theorem drain_flushes q w :
  wf q -> takes_all w ->
  exists q1 r1 s1 q2 r2 s2,
    drain_to_fd q w = Some (q1, r1, s1) /\ drain_to_fd q1 w = Some (q2, r2, s2) /\
    s1 ++ s2 = contents q /\ is_empty q2 = true /\ used q2 = 0.
Proof.
  intros Hq%wf_layout Hw.
  destruct (drain_takes_all _ _ w Hq Hw) as (q1 & r1 & s1 & l1 & E1 & Hq1 & Hl1 & Hf1 & Hw1).
  destruct (drain_takes_all _ _ w Hq1 Hw) as (q2 & r2 & s2 & l2 & E2 & Hq2 & Hl2 & Hf2 & _).
  assert (l2 = []) as ->.
  { destruct (Z.le_gt_cases (head q) (tail q)) as [Hle|Hgt]; [|auto].
    rewrite (Hf1 Hle) in Hl2. symmetry in Hl2. by apply app_eq_nil in Hl2 as [_ ?]. }
  exists q1, r1, s1, q2, r2, s2. split; [done|]. split; [done|].
  rewrite (layout_is_empty _ _ Hq2), (layout_used _ _ Hq2).
  rewrite app_nil_r in Hl2. by rewrite Hl1, Hl2.
Qed.

(** Below the high-water mark no frame is ever dropped: a built frame of any
    size is appended, and the queue stays within its capacity. *)
Theorem enqueue_below_high_water `{Crc32} q ftype channel payload :
  wf q -> used q <= LINK_HIGH_WATER ->
  exists q', enqueue q (build_frame ftype channel payload) = Some q' /\ wf q' /\
    contents q' = contents q ++ build_frame ftype channel payload /\
    used q' <= LINK_TXBUF_SIZE - 1.
Proof.
  intros Hq Hu. pose proof (wf_layout _ Hq) as Hl. rewrite (layout_used _ _ Hl) in Hu.
  destruct (enqueue_layout _ _ (build_frame ftype channel payload) Hl) as (q' & He & Hl').
  exists q'. split; [done|]. split; [by eapply layout_wf|].
  rewrite (layout_used _ _ Hl'). pose proof (layout_bound _ _ Hl') as Hb.
  rewrite (layout_contents _ _ Hl'). split; [|done].
  unfold fifo_push. rewrite (proj2 (Z.leb_le _ _)); [done|].
  pose proof (build_frame_bound ftype channel payload). unfold LINK_TXBUF_SIZE. lia.
Qed.

(** The wrap-around of the unit test [tx_queue_wraps_on_enqueue]. *)
Definition near_end : t :=
  mk (buf new) (LINK_TXBUF_SIZE - 2) (LINK_TXBUF_SIZE - 2).

Lemma wf_near_end : wf near_end.
Proof. split; [apply wf_new|]. split; vm_compute; split; congruence. Qed.

Lemma contents_near_end : contents near_end = [].
Proof.
  unfold contents. rewrite (proj2 (Z.leb_le _ _)) by (vm_compute; discriminate).
  replace (tail near_end - head near_end) with 0 by (unfold near_end; cbn [head tail]; lia).
  apply ztake_0.
Qed.

Lemma enqueue_refines_fifo_witness :
  exists q', enqueue near_end [1; 2; 3; 4] = Some q' /\ contents q' = [1; 2; 3; 4] /\
    used q' = 4.
Proof.
  destruct (enqueue_refines_fifo near_end [1; 2; 3; 4] wf_near_end)
    as (q' & He & _ & Hc & Hu & _).
  rewrite contents_near_end in Hc. exists q'.
  split; [exact He|]. rewrite Hc in Hu. split; [exact Hc | exact Hu].
Defined.

Definition take_three : write_oracle := fun d => Ok (Z.min 3 (zlen d)).

Lemma take_three_ok : write_ok take_three.
Proof. intros d n [= <-]. pose proof (zlen_nonneg d). lia. Qed.

Lemma drain_refines_fifo_witness :
  exists q' r wire, drain_to_fd near_end take_three = Some (q', r, wire) /\ wf q' /\
    fifo_drain [] r wire (contents q').
Proof.
  rewrite <- contents_near_end.
  exact (drain_refines_fifo near_end take_three wf_near_end take_three_ok).
Defined.

(** Four queued bytes, two on each side of the end. *)
Definition wrapped : t := mk (buf new) (LINK_TXBUF_SIZE - 2) 2.

Lemma wf_wrapped : wf wrapped.
Proof. split; [apply wf_new|]. split; vm_compute; split; congruence. Qed.

Lemma drain_flushes_witness :
  exists q1 r1 s1 q2 r2 s2,
    drain_to_fd wrapped (fun d => Ok (zlen d)) = Some (q1, r1, s1) /\
    drain_to_fd q1 (fun d => Ok (zlen d)) = Some (q2, r2, s2) /\
    s1 ++ s2 = contents wrapped /\ is_empty q2 = true /\ used q2 = 0.
Proof. exact (drain_flushes wrapped (fun d => Ok (zlen d)) wf_wrapped (fun d => eq_refl)). Defined.

Lemma enqueue_below_high_water_witness :
  exists q', enqueue new (@build_frame crc32_zlib F_READY 1 []) = Some q' /\ wf q' /\
    contents q' = [] ++ @build_frame crc32_zlib F_READY 1 [] /\
    used q' <= LINK_TXBUF_SIZE - 1.
Proof.
  apply (@enqueue_below_high_water crc32_zlib new F_READY 1 []); [apply wf_new|].
  vm_compute. discriminate.
Defined.

End TxQueueProofs.

(** ** The interface of the daemon's transmit queue *)

Class TxQueueOps (Q : Type) := {
  txq_new : Q;
  txq_reset : Q -> Q;
  txq_used : Q -> Z;
  txq_is_empty : Q -> bool;
  txq_enqueue : Q -> list Z -> option Q;
  txq_drain : Q -> write_oracle -> option (Q * io bool * list Z);
}.

Class TxQueueLaws (Q : Type) `{TxQueueOps Q} := {
  txq_holds : Q -> list Z -> Prop;
  txq_holds_new : txq_holds txq_new [];
  txq_holds_reset q l : txq_holds q l -> txq_holds (txq_reset q) [];
  txq_holds_used q l : txq_holds q l -> txq_used q = zlen l;
  txq_holds_is_empty q l : txq_holds q l -> txq_is_empty q = is_empty l;
  txq_holds_bound q l : txq_holds q l -> zlen l <= LINK_TXBUF_SIZE - 1;
  txq_holds_enqueue q l d :
    txq_holds q l -> exists q', txq_enqueue q d = Some q' /\ txq_holds q' (fifo_push l d);
  txq_holds_drain q l w :
    txq_holds q l -> write_ok w ->
    exists q' r wire l', txq_drain q w = Some (q', r, wire) /\ txq_holds q' l' /\
      fifo_drain l r wire l';
}.

#[export] Instance ring_ops : TxQueueOps TxQueue.t := {
  txq_new := TxQueue.new;
  txq_reset := TxQueue.reset;
  txq_used := TxQueue.used;
  txq_is_empty := TxQueue.is_empty;
  txq_enqueue := TxQueue.enqueue;
  txq_drain := TxQueue.drain_to_fd;
}.

#[export] Instance ring_laws : TxQueueLaws TxQueue.t.
Proof.
  refine {| txq_holds := TxQueueProofs.layout |}; unfold txq_new, txq_reset, ring_ops.
  - rewrite <- TxQueueProofs.contents_new.
    apply TxQueueProofs.wf_layout, TxQueueProofs.wf_new.
  - intros q l Hq. rewrite <- (TxQueueProofs.contents_reset q).
    by eapply TxQueueProofs.wf_layout, TxQueueProofs.wf_reset, TxQueueProofs.layout_wf.
  - exact TxQueueProofs.layout_used.
  - exact TxQueueProofs.layout_is_empty.
  - exact TxQueueProofs.layout_bound.
  - exact TxQueueProofs.enqueue_layout.
  - exact TxQueueProofs.drain_layout.
Defined.

(** The FIFO itself, executable. *)
Definition fifo_drain_fn (l : list Z) (write : write_oracle)
  : option (list Z * io bool * list Z) :=
  match l with
  | [] => Some ([], Ok true, [])
  | _ =>
      match write l with
      | Err e => Some (l, if would_block e then Ok false else Err e, [])
      | Ok n => Some (zdrop n l, Ok (is_empty (zdrop n l)), ztake n l)
      end
  end.

Definition fifo_ops : TxQueueOps (list Z) := {|
  txq_new := [];
  txq_reset := fun _ => [];
  txq_used := zlen;
  txq_is_empty := is_empty;
  txq_enqueue := fun l d => Some (fifo_push l d);
  txq_drain := fifo_drain_fn;
|}.

Lemma fifo_push_bound l d :
  zlen l <= LINK_TXBUF_SIZE - 1 -> zlen (fifo_push l d) <= LINK_TXBUF_SIZE - 1.
Proof. intros. unfold fifo_push. case_match eqn:E; [zbool; zl | done]. Qed.

Lemma fifo_drain_fn_spec l w :
  write_ok w -> exists r wire l', fifo_drain_fn l w = Some (l', r, wire) /\
    fifo_drain l r wire l'.
Proof.
  intros Hw. unfold fifo_drain_fn. destruct l as [|x l].
  - eexists _, _, _. split; [done | constructor].
  - destruct (w (x :: l)) as [n|e] eqn:E.
    + eexists _, _, _. split; [done|].
      rewrite <- (ztake_zdrop n (x :: l)) at 1. constructor. by rewrite ztake_zdrop.
    + eexists _, _, _. split; [done|]. destruct (would_block e) eqn:Eb; by constructor.
Qed.

Lemma fifo_drain_app l r wire l' : fifo_drain l r wire l' -> l = wire ++ l'.
Proof. by destruct 1. Qed.

Definition fifo_laws : @TxQueueLaws (list Z) fifo_ops.
Proof.
  refine {| txq_holds := fun (q l : list Z) => q = l /\ zlen l <= LINK_TXBUF_SIZE - 1 |};
    cbn [txq_new txq_reset txq_used txq_is_empty txq_enqueue txq_drain fifo_ops].
  - done.
  - done.
  - by intros q l [-> _].
  - by intros q l [-> _].
  - by intros q l [_ ?].
  - intros q l d [-> Hb]. eexists. split; [done|]. split; [done|]. by apply fifo_push_bound.
  - intros q l w [-> Hb] Hw. destruct (fifo_drain_fn_spec l w Hw) as (r & wire & l' & Hd & Hf).
    exists l', r, wire, l'. split; [done|]. split; [|done]. split; [done|].
    apply fifo_drain_app in Hf as ->. zl.
Defined.
