(* ===== verification/Link.v ===== *)
(** * End to end over the link: transmit queue, wire, parser

    The sender pushes built frames into its transmit queue and drains it with
    [write(2)] calls of any length; the receiver reads the wire in chunks of
    any length.  [link_transport] says that the receiver sees a prefix of the
    accepted frames, in order, each whole, and all of them once the queue has
    run empty. *)
From Stdlib Require Import ZArith Lia.
From stdpp Require Import base option numbers list.
From S2P Require Import Prelude Protocol Stream Parser TxQueue.

Local Open Scope Z_scope.

(** What a daemon does to its transmit queue: the pushes of [dispatch_frame]
    and of the channels, the drains of [link_write]. *)
Inductive txop :=
  | Push (f : frame)
  | Drain (w : write_oracle).

Definition txop_ok (o : txop) : Prop :=
  match o with
  | Push f => frame_fits f /\ frame_bytes f
  | Drain w => write_ok w
  end.

(** What a reader finds in a beginning of a stream of frames. *)
Lemma wire_scan `{Crc32} fs wire l :
  Forall frame_fits fs -> Forall frame_bytes fs -> concat (map build fs) = wire ++ l ->
  bytes_ok wire /\ (Stream.scan wire).1 `prefix_of` fs /\ (l = [] -> (Stream.scan wire).1 = fs).
Proof.
  intros Hf Hb Heq.
  pose proof (FrameParser.build_all_bytes_ok _ Hb) as Hok. rewrite Heq in Hok.
  apply Forall_app in Hok as [Hw _]. split; [done|].
  pose proof (Stream.scan_build_all fs [] Hf) as Hall.
  rewrite app_nil_r, Heq, Stream.scan_nil in Hall. cbn [fst snd] in Hall.
  rewrite app_nil_r in Hall. split.
  - rewrite Stream.scan_app in Hall by done.
    destruct (Stream.scan wire) as [fs' r]. destruct (Stream.scan (r ++ l)) as [fs2 r'].
    injection Hall as <- _. by apply prefix_app_r.
  - intros ->. rewrite app_nil_r in Hall. by rewrite Hall.
Qed.

Section Sender.
Context `{Crc32} {Q : Type} `{TxQueueLaws Q}.

(** The queue after the operations, the bytes put on the wire, and the frames
    the queue had room for. *)
Fixpoint run_sender (q : Q) (ops : list txop) : option (Q * list Z * list frame) :=
  match ops with
  | [] => Some (q, [], [])
  | Push f :: ops =>
      let room := zlen (build f) <=? LINK_TXBUF_SIZE - 1 - txq_used q in
      q ← txq_enqueue q (build f);
      '(q, wire, acc) ← run_sender q ops;
      Some (q, wire, if room then f :: acc else acc)
  | Drain w :: ops =>
      '(q, _, sent) ← txq_drain q w;
      '(q, wire, acc) ← run_sender q ops;
      Some (q, sent ++ wire, acc)
  end.

Lemma run_sender_spec q l ops :
  txq_holds q l -> Forall txop_ok ops ->
  exists q' wire acc l', run_sender q ops = Some (q', wire, acc) /\ txq_holds q' l' /\
    l ++ concat (map build acc) = wire ++ l' /\
    Forall frame_fits acc /\ Forall frame_bytes acc.
Proof.
  intros Hq Hops. revert q l Hq; induction Hops as [|[f|w] ops Ho Hops IH]; intros q l Hq.
  - exists q, [], [], l. cbn. by rewrite app_nil_r.
  - destruct Ho as [Hfit Hby]. cbn [run_sender].
    rewrite (txq_holds_used _ _ Hq).
    destruct (txq_holds_enqueue q l (build f) Hq) as (q1 & -> & Hq1). cbn [mbind option_bind].
    destruct (IH _ _ Hq1) as (q' & wire & acc & l' & -> & Hq' & Heq & Hf & Hb).
    cbn [mbind option_bind]. exists q', wire.
    unfold fifo_push in Heq. destruct (zlen (build f) <=? _).
    + exists (f :: acc), l'. cbn [map concat]. rewrite app_assoc. eauto 10.
    + exists acc, l'. eauto 10.
  - cbn [run_sender].
    destruct (txq_holds_drain q l w Hq Ho) as (q1 & r & sent & l1 & -> & Hq1 & Hd).
    cbn [mbind option_bind].
    destruct (IH _ _ Hq1) as (q' & wire & acc & l' & -> & Hq' & Heq & Hf & Hb).
    cbn [mbind option_bind]. apply fifo_drain_app in Hd as ->.
    exists q', (sent ++ wire), acc, l'. split; [done|]. split; [done|].
    rewrite <- !app_assoc, Heq. done.
Qed.

(** The link transports frames: whatever the sender pushes, however the
    operating system splits the writes and the reads, the receiver's parser
    delivers whole frames, a prefix of those the transmit queue accepted and in
    their order, and all of them when the queue has drained. *)
Theorem link_transport ops q wire acc chunks :
  Forall txop_ok ops ->
  run_sender txq_new ops = Some (q, wire, acc) ->
  concat chunks = wire ->
  exists p delivered,
    FrameParser.feed_chunks FrameParser.new chunks = Some (p, delivered) /\
    delivered `prefix_of` acc /\
    (txq_is_empty q = true -> delivered = acc).
Proof.
  intros Hops Hrun Hch.
  destruct (run_sender_spec txq_new [] ops txq_holds_new Hops)
    as (q' & wire' & acc' & l' & Hrun' & Hq' & Heq & Hf & Hb).
  rewrite Hrun in Hrun'. injection Hrun' as <- <- <-. cbn [app] in Heq.
  destruct (wire_scan acc wire l') as (Hok & Hpre & Hall); [done..|].
  destruct (FrameParser.feed_chunks_refines FrameParser.new [] chunks FrameParser.ready_new)
    as (p & Hfeed & _).
  { apply FrameParser.concat_bytes_ok. by rewrite Hch. }
  cbn [app] in Hfeed. rewrite Hch in Hfeed. exists p, (Stream.scan wire).1.
  split; [done|]. split; [done|].
  rewrite (txq_holds_is_empty _ _ Hq'). by intros ->%is_empty_spec%Hall.
Qed.

End Sender.

(** A write of five bytes at most, then one of the whole rest. *)
Definition five : write_oracle := fun d => Ok (Z.min 5 (zlen d)).
Definition all : write_oracle := fun d => Ok (zlen d).

Definition link_example : list txop :=
  [Push (F_HELLO, 0, []); Drain five; Push (F_DATA, 1, [0x7E; 1; 2]); Drain all].

Lemma five_ok : write_ok five.
Proof. intros d n [= <-]. pose proof (zlen_nonneg d). lia. Qed.

Lemma all_ok : write_ok all.
Proof. intros d n [= <-]. pose proof (zlen_nonneg d). lia. Qed.

Lemma link_example_ok : Forall txop_ok link_example.
Proof.
  repeat apply Forall_cons_2; try apply Forall_nil_2;
    first [apply five_ok | apply all_ok | split; concrete_frames].
Qed.

Definition link_example_wire : list Z :=
  @build_frame crc32_zlib F_HELLO 0 [] ++ @build_frame crc32_zlib F_DATA 1 [0x7E; 1; 2].

Lemma link_transport_witness :
  exists p delivered,
    @FrameParser.feed_chunks crc32_zlib FrameParser.new
      [take 12 link_example_wire; drop 12 link_example_wire] = Some (p, delivered) /\
    delivered `prefix_of` [(F_HELLO, 0, []); (F_DATA, 1, [0x7E; 1; 2])] /\
    (true = true -> delivered = [(F_HELLO, 0, []); (F_DATA, 1, [0x7E; 1; 2])]).
Proof.
  apply (@link_transport crc32_zlib (list Z) fifo_ops fifo_laws link_example []
    link_example_wire [(F_HELLO, 0, []); (F_DATA, 1, [0x7E; 1; 2])]).
  - exact link_example_ok.
  - vm_compute. reflexivity.
  - vm_compute. reflexivity.
Defined.
