(* ===== verification/CLink.v ===== *)
(** * The wire layer of the C implementation ([src/serialmux.c], [src/serialmux.h])

    The C program speaks the same protocol, so one end of a link may run it and the
    other the Rust one.  Here are its frame parser ([fp_feed]), its ring buffer
    ([txq_push], [txq_drain]) and the frames it queues ([enqueue_frame]).  Its
    [frame_parser_t] and [link_txq_t] have the fields of the Rust structures; an
    access out of the bounds of a buffer, or a [size_t] that would wrap, is [None].
    [fp_feed] delivers what [FrameParser.feed] delivers; a queue with room for the
    frames puts on the wire what the Rust one does; without room, the C queue is left
    with a part of a frame. *)
From Stdlib Require Import ZArith Lia.
From stdpp Require Import base option numbers list.
From S2P Require Import Prelude Protocol Stream Parser TxQueue Link.

Local Open Scope Z_scope.

Module SerialmuxC.
Import FrameParser.

#[local] Existing Instance crc32_zlib.

(** ** [fp_feed] *)

(** [!(fp->buf[i] == 0xAA && fp->buf[i+1] == 0x55)], negated. *)
Definition at_magic (buf : list Z) (i : Z) : option bool :=
  b0 ← idx buf i;
  if b0 =? 0xAA then b1 ← idx buf (i + 1); Some (b1 =? 0x55) else Some false.

Fixpoint magic_from (fuel : nat) (buf : list Z) (len i : Z) : option Z :=
  match fuel with
  | O => None
  | S fuel =>
      if i + 1 <? len then
        found ← at_magic buf i;
        if (found : bool) then Some i else magic_from fuel buf len (i + 1)
      else Some i
  end.

(** [memmove(fp->buf, fp->buf + from, fp->len - from); fp->len -= from] *)
Definition fp_shift (fp : t) (from : Z) : option t :=
  n ← usub (len fp) from;
  bytes ← slice (buf fp) from (from + n);
  b ← blit (buf fp) 0 bytes;
  Some (mk b n).

(** From the header, at the front of the buffer, on. *)
Definition fp_header (fp : t) : option step :=
  if len fp <? HDR_SIZE then Some (Break fp)
  else
    ftype ← idx (buf fp) 2;
    channel ← idx (buf fp) 3;
    length_le ← slice (buf fp) 4 6;
    let length := from_le_bytes length_le in
    if MAX_PAYLOAD <? length then
      fp ← fp_shift fp 2; Some (Continue None fp)
    else
      let total := HDR_SIZE + length + CRC_SIZE in
      if len fp <? total then Some (Break fp)
      else
        crc_le ← slice (buf fp) (HDR_SIZE + length) (HDR_SIZE + length + 4);
        payload ← slice (buf fp) HDR_SIZE (HDR_SIZE + length);
        if negb (crc32_buf payload =? from_le_bytes crc_le) then
          fp ← fp_shift fp 2; Some (Continue None fp)
        else
          fp ← fp_shift fp total;
          Some (Continue (Some (ftype, channel, payload)) fp).

(** One round of [while (fp->len >= 2)]. *)
Definition fp_step (fp : t) : option step :=
  if 2 <=? len fp then
    i ← magic_from (S (Z.to_nat (len fp))) (buf fp) (len fp) 0;
    if len fp <=? i + 1 then
      last ← idx (buf fp) (len fp - 1);
      b ← blit (buf fp) 0 [last];
      Some (Break (mk b 1))
    else
      fp ← (if 0 <? i then fp_shift fp i else Some fp);
      fp_header fp
  else Some (Break fp).

Section Callback.
Context {D : Type} (on_frame : D -> Z -> Z -> list Z -> D).

Fixpoint fp_parse (fuel : nat) (fp : t) (d : D) : option (t * D) :=
  match fuel with
  | O => None
  | S fuel =>
      r ← fp_step fp;
      match r with
      | Break fp => Some (fp, d)
      | Continue f fp => fp_parse fuel fp (call on_frame d f)
      end
  end.

(** [while (pos < n)]; no test ends the loop when nothing can be copied. *)
Fixpoint fp_fill (fuel : nat) (fp : t) (d : D) (data : list Z) (pos : Z) : option (t * D) :=
  if pos <? zlen data then
    match fuel with
    | O => None
    | S fuel =>
        space ← usub (MAX_FRAME + 64) (len fp);
        let copy := zlen data - pos in
        let copy := if space <? copy then space else copy in
        bytes ← slice data pos (pos + copy);
        b ← blit (buf fp) (len fp) bytes;
        let fp := mk b (len fp + copy) in
        '(fp, d) ← fp_parse (S (Z.to_nat (len fp))) fp d;
        fp_fill fuel fp d data (pos + copy)
    end
  else Some (fp, d).

Definition fp_feed (fp : t) (d : D) (data : list Z) : option (t * D) :=
  fp_fill (length data) fp d data 0.

End Callback.

(** ** [link_txq_t] *)

Definition txq_used (q : TxQueue.t) : Z :=
  (TxQueue.tail q + LINK_TXBUF_SIZE - TxQueue.head q) mod LINK_TXBUF_SIZE.

Definition txq_empty (q : TxQueue.t) : bool := TxQueue.head q =? TxQueue.tail q.

Definition txq_push (q : TxQueue.t) (data : list Z) : option (TxQueue.t * Z) :=
  let n := zlen data in
  free ← usub (LINK_TXBUF_SIZE - 1) (txq_used q);
  if free <? n then Some (q, -1)
  else
    space_to_end ← usub LINK_TXBUF_SIZE (TxQueue.tail q);
    b ← (if n <=? space_to_end then blit (TxQueue.buf q) (TxQueue.tail q) data
         else
           first ← slice data 0 space_to_end;
           second ← slice data space_to_end n;
           b ← blit (TxQueue.buf q) (TxQueue.tail q) first;
           blit b 0 second);
    Some (TxQueue.mk b (TxQueue.head q) ((TxQueue.tail q + n) mod LINK_TXBUF_SIZE), 0).

(** The queue, the result and the bytes [write] took. *)
Definition txq_drain (q : TxQueue.t) (write : write_oracle) : option (TxQueue.t * Z * list Z) :=
  if txq_empty q then Some (q, 1, [])
  else
    let head := TxQueue.head q in
    let tail := TxQueue.tail q in
    let avail := if head <=? tail then tail - head else LINK_TXBUF_SIZE - head in
    segment ← slice (TxQueue.buf q) head (head + avail);
    match write segment with
    | Err e => Some (q, if would_block e then 0 else -1, [])
    | Ok written =>
        let q := TxQueue.mk (TxQueue.buf q) ((head + written) mod LINK_TXBUF_SIZE) tail in
        Some (q, if txq_empty q then 1 else 0, ztake written segment)
    end.

(** ** [enqueue_frame] *)

(** The fields of [daemon_t] it changes; [link_out] says whether the link is
    registered for [EPOLLOUT]. *)
Record daemon_t := mkD {
  txq : TxQueue.t;
  last_tx_ms : Z;
  link_in_epoll : bool;
  link_out : bool;
}.

Definition hdr (ftype channel plen : Z) : list Z :=
  [0xAA; 0x55; ftype; channel; Z.land plen 0xFF; Z.shiftr plen 8].

Definition crc_b (payload : list Z) : list Z :=
  let crc := if zlen payload =? 0 then 0 else crc32_buf payload in
  map (fun k => Z.land (Z.shiftr crc k) 0xFF) [0; 8; 16; 24].

(** The results of [txq_push] are not looked at. *)
Definition enqueue_frame (d : daemon_t) (ftype channel : Z) (payload : list Z) (now_ms : Z)
  : option daemon_t :=
  let plen := zlen payload in
  '(q, _) ← txq_push (txq d) (hdr ftype channel plen);
  '(q, _) ← (if plen =? 0 then Some (q, 0) else txq_push q payload);
  '(q, _) ← txq_push q (crc_b payload);
  Some (mkD q now_ms (link_in_epoll d) (link_in_epoll d || link_out d)).

(** The frames are sent and the queue drained, in any order, at the given times; the
    last component says whether each frame found room. *)
Fixpoint c_sender (d : daemon_t) (ops : list (txop * Z)) : option (daemon_t * list Z * bool) :=
  match ops with
  | [] => Some (d, [], true)
  | (Push f, now_ms) :: ops =>
      let room := zlen (build f) <=? LINK_TXBUF_SIZE - 1 - txq_used (txq d) in
      d ← enqueue_frame d f.1.1 f.1.2 f.2 now_ms;
      '(d, wire, roomy) ← c_sender d ops;
      Some (d, wire, room && roomy)
  | (Drain w, _) :: ops =>
      '(q, _, sent) ← txq_drain (txq d) w;
      '(d, wire, roomy) ← c_sender (mkD q (last_tx_ms d) (link_in_epoll d) (link_out d)) ops;
      Some (d, sent ++ wire, roomy)
  end.

(** The frames pushed. *)
Definition pushed (ops : list (txop * Z)) : list frame :=
  ops ≫= fun o => match o.1 with Push f => [f] | Drain _ => [] end.

(** A sequence of reads of the link, each handed to [fp_feed]. *)
Fixpoint fp_reads {D} (on_frame : D -> Z -> Z -> list Z -> D) (fp : t) (d : D)
    (chunks : list (list Z)) : option (t * D) :=
  match chunks with
  | [] => Some (fp, d)
  | c :: cs => '(fp, d) ← fp_feed on_frame fp d c; fp_reads on_frame fp d cs
  end.

(** ** The parser *)

Lemma magic_from_find fuel b l i : magic_from fuel b l i = find_magic fuel b l i.
Proof.
  revert i; induction fuel as [|fuel IH]; intros i; [done|]. cbn [magic_from find_magic].
  destruct (i + 1 <? l); [|done]. unfold at_magic.
  destruct (idx b i) as [x|]; [|done]. cbn [mbind option_bind].
  destruct (x =? 0xAA); cbn [mbind option_bind]; [|apply IH].
  destruct (idx b (i + 1)) as [y|]; [|done]. cbn [mbind option_bind].
  destruct (y =? 0x55); [done | apply IH].
Qed.

Lemma fp_shift_consume fp from : from <= len fp -> fp_shift fp from = consume fp from.
Proof.
  intros Hf. unfold fp_shift, consume, copy_within. rewrite usub_eq by done.
  cbn [mbind option_bind]. replace (from + (len fp - from)) with (len fp) by lia.
  destruct (slice _ _ _); [|done]. cbn [mbind option_bind].
  by destruct (blit _ _ _).
Qed.

(** The two bytes of the length, read at once or one by one. *)
Lemma length_bytes fp v lo hi :
  rep fp v -> 6 <= zlen v -> idx (buf fp) 4 = Some lo -> idx (buf fp) 5 = Some hi ->
  slice (buf fp) 4 6 = Some [lo; hi] /\ from_le_bytes [lo; hi] = Z.lor lo (Z.shiftl hi 8).
Proof.
  intros Hr Hv. rewrite !(rep_idx _ _ _ Hr) by lia.
  do 6 (destruct v as [|? v]; [exfalso; revert Hv; zl|]).
  intros [= ->] [= ->]. split.
  - by apply (rep_slice fp [z; z0; z1; z2] [lo; hi] v).
  - cbn [from_le_bytes]. by rewrite Z.shiftl_0_l, Z.lor_0_r.
Qed.

Lemma fp_header_same fp v : rep fp v -> fp_header fp = parse_front fp.
Proof.
  intros Hr. pose proof (rep_len _ _ Hr) as [Hl _]. unfold fp_header, parse_front, HDR_SIZE.
  destruct (len fp <? 6) eqn:E6; [done|]. zbool.
  destruct (idx (buf fp) 2) as [ft|]; [|done]. destruct (idx (buf fp) 3) as [ch|]; [|done].
  cbn [mbind option_bind].
  assert (is_Some (idx (buf fp) 4) /\ is_Some (idx (buf fp) 5)) as [[lo Hlo] [hi Hhi]].
  { split; rewrite (rep_idx _ _ _ Hr) by lia; apply idx_Some; lia. }
  destruct (length_bytes fp v lo hi Hr ltac:(lia) Hlo Hhi) as [-> El].
  rewrite Hlo, Hhi. cbn [mbind option_bind]. rewrite El, !fp_shift_consume by lia.
  assert (0 <= Z.lor lo (Z.shiftl hi 8)) as Hn.
  { pose proof (rep_bytes_ok _ _ Hr) as Hb. rewrite (rep_idx _ _ _ Hr) in Hlo by lia.
    rewrite (rep_idx _ _ _ Hr) in Hhi by lia.
    unfold idx in Hlo, Hhi. unfold bytes_ok in Hb. rewrite Forall_lookup in Hb.
    apply Stream.header_nonneg; eapply Hb; [exact Hlo | exact Hhi]. }
  revert Hn. generalize (Z.lor lo (Z.shiftl hi 8)). intros n Hn.
  destruct (MAX_PAYLOAD <? n); [done|]. destruct (len fp <? 6 + n + CRC_SIZE) eqn:Et; [done|].
  destruct (slice _ (6 + n) _) as [cb|]; [|done]. cbn [mbind option_bind].
  destruct (slice _ 6 (6 + n)) as [pl|]; [|done]. cbn [mbind option_bind].
  unfold crc32_hash, crc32_zlib. destruct (negb _); [done|]. zbool.
  by rewrite fp_shift_consume by lia.
Qed.

Lemma fp_step_same fp v : rep fp v -> fp_step fp = drain_step fp.
Proof.
  intros Hr. pose proof (rep_len _ _ Hr) as [Hl _]. unfold fp_step, drain_step.
  replace (2 <=? len fp) with (negb (len fp <? 2)) by (destruct (len fp <? 2) eqn:E; zbool; zdecide; done).
  destruct (len fp <? 2) eqn:E2; [done|]. cbn [negb]. rewrite magic_from_find. zbool.
  pose proof Hr as (j & Hb & _ & _).
  destruct (find_magic_spec j (S (Z.to_nat (zlen v))) [] v) as (i & Hi & Hm);
    [unfold zlen; lia|].
  cbn [app] in Hi, Hm. change (zlen (@nil Z)) with 0 in Hi. rewrite Hl in *. rewrite Hb, Hi, <- Hb.
  cbn [mbind option_bind]. destruct (zlen v <=? i + 1) eqn:Ei; [done|]. zbool.
  rewrite fp_shift_consume by lia.
  destruct (Stream.seek v) as [m|]; [|lia]. destruct Hm as (g & -> & -> & _).
  destruct (0 <? zlen g) eqn:Eg; cbn [mbind option_bind].
  - destruct (rep_consume _ _ _ Hr) as (p' & -> & Hr'). cbn [mbind option_bind].
    by eapply fp_header_same.
  - by eapply fp_header_same.
Qed.

Section Parsing.
Context {D : Type} (cb : D -> Z -> Z -> list Z -> D).

Lemma fp_parse_same fuel fp v d : rep fp v -> fp_parse cb fuel fp d = drain_loop cb fuel fp d.
Proof.
  revert fp v d; induction fuel as [|fuel IH]; intros fp v d Hr; [done|].
  cbn [fp_parse drain_loop]. rewrite (fp_step_same fp v Hr).
  destruct (drain_step_refines fp v Hr) as (s & -> & Hs). cbn [mbind option_bind].
  destruct s as [fp'|f fp']; [done|]. destruct (Stream.scan_step v); [done|].
  destruct Hs as [_ Hr']. by eapply IH.
Qed.

Lemma fp_fill_same fuel fp v d data pos :
  ready fp v -> bytes_ok data -> 0 <= pos ->
  fp_fill cb fuel fp d data pos = feed_loop cb fuel fp d data pos.
Proof.
  revert fp v d pos; induction fuel as [|fuel IH]; intros fp v d pos Hrd Hd Hp;
    cbn [fp_fill feed_loop]; destruct (pos <? zlen data) eqn:E; try done. zbool.
  pose proof (ready_space _ _ Hrd) as Hsp. pose proof Hrd as [Hr _].
  pose proof (rep_len _ _ Hr) as [Hl _]. change (MAX_FRAME + 64) with PARSER_BUF_CAP.
  rewrite usub_eq by lia. cbn [mbind option_bind].
  set (space := PARSER_BUF_CAP - len fp) in *.
  replace (if space <? zlen data - pos then space else zlen data - pos)
    with (Z.min (zlen data - pos) space) by (destruct (space <? zlen data - pos) eqn:Es; zbool; lia).
  set (copy := Z.min _ _). rewrite (proj2 (Z.eqb_neq copy 0)) by lia.
  rewrite slice_eq by lia. cbn [mbind option_bind].
  replace (pos + copy - pos) with copy by lia.
  set (chunk := ztake copy (zdrop pos data)).
  assert (zlen chunk = copy) as Hck by (apply zlen_ztake; rewrite zlen_zdrop; lia).
  assert (bytes_ok chunk) as Hckok by (by apply Forall_take, Forall_drop).
  destruct (rep_extend fp v chunk Hr Hckok ltac:(lia)) as (b & -> & Hr1).
  rewrite Hck in Hr1. cbn [mbind option_bind]. unfold drain_frames.
  rewrite (fp_parse_same _ _ _ _ Hr1).
  destruct (drain_frames_refines cb _ _ d Hr1) as (p1 & E1 & Hr2).
  unfold drain_frames in E1. rewrite E1. cbn [mbind option_bind].
  apply (IH p1 (Stream.scan (v ++ chunk)).2); [|done|lia].
  apply ready_scan; [done | by eapply rep_bytes_ok].
Qed.

Lemma fp_feed_refines fp v (d : D) data :
  ready fp v -> bytes_ok data ->
  exists fp', fp_feed cb fp d data = Some (fp', run_cb cb d (Stream.scan (v ++ data)).1) /\
    ready fp' (Stream.scan (v ++ data)).2.
Proof.
  intros Hr Hd. unfold fp_feed. rewrite (fp_fill_same _ fp v) by done.
  destruct (feed_loop_refines cb (length data) fp v d data 0 Hr Hd) as (p' & Hf & Hr').
  - pose proof (zlen_nonneg data). lia.
  - unfold zlen. lia.
  - rewrite zdrop_0 in *. by exists p'.
Qed.

(** C21: The C parser and the Rust one: in the same state between two reads, given the
    same bytes, [fp_feed] hands its callback the frames that [FrameParser.feed] hands
    its own, in the same order, and ends in the same state, which is again one between
    two reads; it returns, with no access out of the buffer, although nothing ends its
    loop when no byte can be copied. *)
Theorem fp_feed_equiv fp v (d : D) data :
  ready fp v -> bytes_ok data ->
  fp_feed cb fp d data = feed cb fp d data /\
  exists fp' d' v', fp_feed cb fp d data = Some (fp', d') /\ ready fp' v'.
Proof.
  intros Hr Hd. destruct (fp_feed_refines fp v d data Hr Hd) as (fp' & E & Hr').
  split; [|by eexists fp', _, _]. unfold fp_feed, feed. by rewrite (fp_fill_same _ fp v).
Qed.

End Parsing.

(** ** The queue *)

Import TxQueueProofs.

Lemma txq_push_layout q l data :
  layout q l -> exists q', layout q' (fifo_push l data) /\
    txq_push q data = Some (q', if zlen data <=? LINK_TXBUF_SIZE - 1 - zlen l then 0 else -1).
Proof.
  intros Hq. pose proof (layout_used _ _ Hq) as Hu. pose proof (layout_bound _ _ Hq) as Hb.
  destruct (enqueue_layout q l data Hq) as (q' & E & Hq'). unfold TxQueue.enqueue in E.
  unfold txq_push, txq_used. unfold TxQueue.used in Hu, E. rewrite Hu in E |- *.
  rewrite (usub_eq (LINK_TXBUF_SIZE - 1)) in E by lia. rewrite (usub_eq (LINK_TXBUF_SIZE - 1)) by lia. cbn [mbind option_bind] in *.
  replace (zlen data <=? LINK_TXBUF_SIZE - 1 - zlen l)
    with (negb (LINK_TXBUF_SIZE - 1 - zlen l <? zlen data)) by
    (destruct (_ <? zlen data) eqn:F; zbool; zdecide; done).
  destruct (zlen data =? 0) eqn:E0; zbool.
  - (* nothing to copy *)
    pose proof (zlen_nonneg l). rewrite E0. zdecide. exists q. split; [congruence|].
    rewrite (zlen_0_nil data E0). apply layout_wf in Hq as (Hbuf & Hh & Ht).
    rewrite usub_eq by lia. cbn [mbind option_bind]. zdecide.
    rewrite blit_eq by zl. cbn [mbind option_bind app]. rewrite zlen_nil, Z.add_0_r, ztake_zdrop, Z.mod_small by lia.
    by destruct q.
  - destruct (_ <? zlen data); [exists q; split; [congruence | done]|].
    destruct (usub _ _) as [sp|]; [|done]. cbn [mbind option_bind negb] in *.
    exists q'. split; [done|]. destruct (if zlen data <=? sp then _ else _); [|done].
    cbn [mbind option_bind] in *. congruence.
Qed.

(** The results of [txq_drain] are those of [drain_to_fd]. *)
Definition drained (r : io bool) : Z :=
  match r with Ok true => 1 | Ok false => 0 | Err _ => -1 end.

Lemma txq_drain_same q w :
  txq_drain q w = '(q', r, sent) ← TxQueue.drain_to_fd q w; Some (q', drained r, sent).
Proof.
  unfold txq_drain, TxQueue.drain_to_fd, txq_empty, TxQueue.is_empty.
  destruct (TxQueue.head q =? TxQueue.tail q); [done|].
  destruct (slice _ _ _) as [seg|]; [|done]. cbn [mbind option_bind].
  destruct (w seg) as [n|e]; cbn [mbind option_bind].
  - unfold drained. cbn [TxQueue.head TxQueue.tail]. by destruct (_ mod _ =? _).
  - by destruct (would_block e).
Qed.

(** ** The frames *)

Lemma crc_b_bytes pl : crc_b pl = to_le_bytes 4 (crc32_buf pl).
Proof.
  unfold crc_b. destruct (zlen pl =? 0) eqn:E; zbool.
  - by rewrite (zlen_0_nil pl E).
  - cbn [map to_le_bytes]. by rewrite !Z.shiftr_shiftr, Z.shiftr_0_r by lia.
Qed.

Lemma hdr_bytes ft ch n :
  0 <= n <= MAX_PAYLOAD -> hdr ft ch n = [0xAA; 0x55; ft; ch] ++ to_le_bytes 2 n.
Proof.
  intros Hn. unfold hdr. cbn [app to_le_bytes]. do 6 f_equal.
  rewrite land_255, Z.mod_small; [done|]. rewrite Z.shiftr_div_pow2 by lia.
  unfold MAX_PAYLOAD in Hn. split; [apply Z.div_pos; lia | apply Z.div_lt_upper_bound; lia].
Qed.

(** The three pieces make the frame the Rust program builds. *)
Lemma pieces_build ft ch pl :
  zlen pl <= MAX_PAYLOAD -> hdr ft ch (zlen pl) ++ pl ++ crc_b pl = build (ft, ch, pl).
Proof.
  intros Hf. pose proof (zlen_nonneg pl). unfold build.
  rewrite build_frame_fits, hdr_bytes, crc_b_bytes by done. by rewrite <- app_assoc.
Qed.

Lemma fifo_push_nil l : fifo_push l [] = l.
Proof. unfold fifo_push. rewrite app_nil_r. by case_match. Qed.

(** What is queued: each piece that fits. *)
Definition push_pieces (l : list Z) (ft ch : Z) (pl : list Z) : list Z :=
  fifo_push (fifo_push (fifo_push l (hdr ft ch (zlen pl))) pl) (crc_b pl).

Lemma enqueue_frame_pieces d l ft ch pl now :
  layout (txq d) l -> exists q, layout q (push_pieces l ft ch pl) /\
    enqueue_frame d ft ch pl now =
      Some (mkD q now (link_in_epoll d) (link_in_epoll d || link_out d)).
Proof.
  intros Hq. unfold enqueue_frame, push_pieces.
  destruct (txq_push_layout _ _ (hdr ft ch (zlen pl)) Hq) as (q1 & Hq1 & ->). cbn [mbind option_bind].
  assert (exists q2 r, layout q2 (fifo_push (fifo_push l (hdr ft ch (zlen pl))) pl) /\
    (if zlen pl =? 0 then Some (q1, 0) else txq_push q1 pl) = Some (q2, r)) as (q2 & r & Hq2 & ->).
  { destruct (zlen pl =? 0) eqn:E; zbool.
    - exists q1, 0. split; [|done]. apply zlen_0_nil in E as ->. by rewrite fifo_push_nil.
    - destruct (txq_push_layout _ _ pl Hq1) as (q2 & Hq2 & ->). eauto. }
  cbn [mbind option_bind]. destruct (txq_push_layout _ _ (crc_b pl) Hq2) as (q3 & Hq3 & ->).
  by exists q3.
Qed.

Lemma fifo_push_fits l d : zlen l + zlen d <= LINK_TXBUF_SIZE - 1 -> fifo_push l d = l ++ d.
Proof. intros. unfold fifo_push. by zdecide. Qed.

Lemma push_pieces_room l f :
  frame_fits f -> zlen (build f) <= LINK_TXBUF_SIZE - 1 - zlen l ->
  push_pieces l f.1.1 f.1.2 f.2 = l ++ build f.
Proof.
  destruct f as [[ft ch] pl]. intros Hf. cbn [fst snd]. unfold frame_fits in Hf. cbn [snd] in Hf.
  rewrite <- pieces_build by done. rewrite !zlen_app. intros Hr. unfold push_pieces.
  pose proof (zlen_nonneg pl). pose proof (zlen_nonneg (crc_b pl)).
  rewrite (fifo_push_fits l) by lia. rewrite (fifo_push_fits _ pl) by (rewrite zlen_app; lia).
  rewrite fifo_push_fits by (rewrite !zlen_app; lia). by rewrite <- !app_assoc.
Qed.

(** A frame for which the queue has no room: when at least [CRC_SIZE] bytes are
    free but not as many as the frame has, [enqueue_frame] leaves a part of the frame
    in the queue, where the Rust queue takes none of it; the bytes that were queued
    before are kept. *)
Theorem enqueue_frame_torn d l f now :
  layout (txq d) l -> frame_fits f ->
  CRC_SIZE <= LINK_TXBUF_SIZE - 1 - zlen l < zlen (build f) ->
  exists d' part, enqueue_frame d f.1.1 f.1.2 f.2 now = Some d' /\ layout (txq d') (l ++ part) /\
    part <> [] /\ zlen part < zlen (build f) /\ fifo_push l (build f) = l.
Proof.
  intros Hq Hf Hroom. destruct (enqueue_frame_pieces d l f.1.1 f.1.2 f.2 now Hq) as (q & Hq' & ->).
  pose proof (layout_bound _ _ Hq') as Hb.
  assert (exists part, push_pieces l f.1.1 f.1.2 f.2 = l ++ part /\ part <> []) as (part & E & Hne).
  { unfold push_pieces. assert (zlen (crc_b f.2) = 4) as Hc by done.
    assert (forall m, m <> [] -> exists part, fifo_push (l ++ m) (crc_b f.2) = l ++ part /\ part <> []) as Hm.
    { intros m Hm. unfold fifo_push. case_match; [|by exists m].
      exists (m ++ crc_b f.2). rewrite <- app_assoc. split; [done|]. by destruct m. }
    destruct f as [[ft ch] pl]. cbn [fst snd] in *. unfold fifo_push at 3. case_match eqn:E1.
    - unfold fifo_push at 2. case_match; [rewrite <- app_assoc|]; by apply Hm.
    - unfold fifo_push at 2. case_match.
      + destruct pl as [|x pl]; [|by apply Hm]. rewrite app_nil_r, fifo_push_fits by (rewrite Hc; unfold CRC_SIZE in *; lia).
        by exists (crc_b []).
      + rewrite fifo_push_fits by (rewrite Hc; unfold CRC_SIZE in *; lia). by exists (crc_b pl). }
  rewrite E in Hq', Hb. rewrite zlen_app in Hb. eexists _, part. split; [done|]. split; [done|].
  split; [done|]. split; [lia|]. unfold fifo_push. by zdecide.
Qed.

(** ** The C program's frames on the wire *)

Lemma pushed_ok ops :
  Forall (fun o => txop_ok o.1) ops ->
  Forall frame_fits (pushed ops) /\ Forall frame_bytes (pushed ops).
Proof.
  induction 1 as [|[[f|w] now] ops Ho _ [IH1 IH2]]; [done| |done].
  destruct Ho. split; by apply Forall_cons.
Qed.

Lemma c_sender_spec d l ops :
  layout (txq d) l -> Forall (fun o => txop_ok o.1) ops ->
  exists d' wire roomy l', c_sender d ops = Some (d', wire, roomy) /\ layout (txq d') l' /\
    (roomy = true -> l ++ concat (map build (pushed ops)) = wire ++ l').
Proof.
  intros Hq Ho. revert d l Hq; induction Ho as [|[[f|w] now] ops Hop Ho IH]; intros d l Hq.
  - exists d, [], true, l. cbn. by rewrite app_nil_r.
  - destruct Hop as [Hfit _]. cbn [c_sender]. change (txq_used (txq d)) with (TxQueue.used (txq d)).
    rewrite (layout_used _ _ Hq).
    destruct (enqueue_frame_pieces d l f.1.1 f.1.2 f.2 now Hq) as (q & Hq' & ->). cbn [mbind option_bind].
    destruct (IH (mkD q now (link_in_epoll d) (link_in_epoll d || link_out d)) _ Hq')
      as (d' & wire & roomy & l' & -> & Hl' & Heq). cbn [mbind option_bind].
    eexists d', wire, _, l'. split; [done|]. split; [done|]. intros [Hroom Hr]%andb_true_iff. zbool.
    rewrite push_pieces_room in Heq by done. rewrite <- (Heq Hr), <- app_assoc. done.
  - cbn [c_sender]. rewrite txq_drain_same.
    destruct (drain_layout _ _ w Hq Hop) as (q & r & sent & l1 & -> & Hq' & Hd).
    cbn [mbind option_bind]. destruct (IH (mkD q (last_tx_ms d) (link_in_epoll d) (link_out d)) _ Hq')
      as (d' & wire & roomy & l' & -> & Hl' & Heq). cbn [mbind option_bind].
    eexists d', (sent ++ wire), _, l'. split; [done|]. split; [done|]. intros Hr.
    apply fifo_drain_app in Hd as ->. rewrite <- !app_assoc. f_equal. by apply Heq.
Qed.

Lemma fp_reads_refines fp v fs chunks :
  ready fp v -> Forall bytes_ok chunks ->
  exists fp', fp_reads push fp fs chunks = Some (fp', fs ++ (Stream.scan (v ++ concat chunks)).1) /\
    ready fp' (Stream.scan (v ++ concat chunks)).2.
Proof.
  intros Hr Hc. revert fp v fs Hr; induction Hc as [|c cs Hc Hcs IH]; intros fp v fs Hr.
  { exists fp. destruct Hr as [Hr Hs]. cbn [fp_reads concat]. by rewrite !app_nil_r, Hs, app_nil_r. }
  cbn [fp_reads concat]. destruct (fp_feed_refines push fp v fs c Hr Hc) as (p1 & -> & Hr1).
  rewrite run_cb_push. cbn [mbind option_bind]. destruct (IH p1 _ (fs ++ (Stream.scan (v ++ c)).1) Hr1) as (p2 & -> & Hr2).
  exists p2. assert (bytes_ok (v ++ c)) as Hok.
  { apply Forall_app; split; [|done]. destruct Hr as [Hr _]. by eapply rep_bytes_ok. }
  rewrite app_assoc, (Stream.scan_app (v ++ c)) by done.
  destruct (Stream.scan (v ++ c)) as [fs1 r]. cbn [fst snd] in *.
  destruct (Stream.scan (r ++ concat cs)) as [fs2 r2]. cbn [fst snd] in *. by rewrite <- app_assoc.
Qed.

(** C22: A C program at one end: whatever it sends, [c_sender] returns; and if its queue
    had room for each frame, however the writes and the reads split the bytes, the Rust
    parser and the C one both deliver the same whole frames, a prefix of those it sent,
    in order, and all of them once its queue is empty. *)
Theorem c_link_interop d ops :
  layout (txq d) [] -> Forall (fun o => txop_ok o.1) ops ->
  exists d' wire roomy, c_sender d ops = Some (d', wire, roomy) /\
    (roomy = true -> forall chunks, concat chunks = wire -> exists p fp delivered,
      feed_chunks new chunks = Some (p, delivered) /\
      fp_reads push new [] chunks = Some (fp, delivered) /\
      delivered `prefix_of` pushed ops /\
      (txq_empty (txq d') = true -> delivered = pushed ops)).
Proof.
  intros Hq Ho. destruct (c_sender_spec d [] ops Hq Ho) as (d' & wire & roomy & l' & E & Hl & Heq).
  exists d', wire, roomy. split; [done|]. intros Hr chunks Hch. specialize (Heq Hr). cbn [app] in Heq.
  destruct (pushed_ok ops Ho) as [Hf Hb].
  destruct (wire_scan _ _ _ Hf Hb Heq) as (Hok & Hpre & Hall). rewrite <- Hch in Hok.
  apply concat_bytes_ok in Hok.
  destruct (feed_chunks_refines new [] chunks ready_new Hok) as (p & Hp & _).
  destruct (fp_reads_refines new [] [] chunks ready_new Hok) as (fp & Hfp & _).
  cbn [app] in Hp, Hfp. rewrite Hch in Hp, Hfp. exists p, fp, (Stream.scan wire).1.
  do 3 (split; [done|]). change (txq_empty (txq d')) with (TxQueue.is_empty (txq d')).
  rewrite (layout_is_empty _ _ Hl). by intros ->%is_empty_spec%Hall.
Qed.

(** Frames that all fit in the queue at once find room. *)
Lemma c_sender_roomy d l ops d' wire roomy :
  layout (txq d) l -> Forall (fun o => txop_ok o.1) ops ->
  zlen l + zlen (concat (map build (pushed ops))) <= LINK_TXBUF_SIZE - 1 ->
  c_sender d ops = Some (d', wire, roomy) -> roomy = true.
Proof.
  intros Hq Ho. revert d l d' wire roomy Hq.
  induction Ho as [|[[f|w] now] ops Hop Ho IH]; intros d l d' wire roomy Hq Hz.
  - by intros [= _ _ <-].
  - destruct Hop as [Hfit _]. cbn [c_sender]. change (txq_used (txq d)) with (TxQueue.used (txq d)).
    rewrite (layout_used _ _ Hq). destruct (enqueue_frame_pieces d l f.1.1 f.1.2 f.2 now Hq) as (q & Hq' & ->).
    change (pushed ((Push f, now) :: ops)) with (f :: pushed ops) in Hz. cbn [map concat] in Hz.
    rewrite zlen_app in Hz. pose proof (zlen_nonneg (concat (map build (pushed ops)))).
    zdecide. rewrite push_pieces_room in Hq' by (try done; lia). cbn [mbind option_bind].
    intros ([[d1 w1] r1] & E & [= _ _ <-])%bind_Some. eapply (IH (mkD q now (link_in_epoll d) (link_in_epoll d || link_out d)) (l ++ build f) _ _ _ Hq'); [rewrite zlen_app; lia | exact E].
  - cbn [c_sender]. rewrite txq_drain_same.
    destruct (drain_layout _ _ w Hq Hop) as (q & r & sent & l1 & -> & Hq' & Hd). cbn [mbind option_bind].
    intros ([[d1 w1] r1] & E & [= _ _ <-])%bind_Some. apply fifo_drain_app in Hd as ->.
    rewrite zlen_app in Hz. pose proof (zlen_nonneg sent).
    change (pushed ((Drain w, now) :: ops)) with (pushed ops) in Hz.
    eapply (IH (mkD q (last_tx_ms d) (link_in_epoll d) (link_out d)) l1 _ _ _ Hq'); [lia | exact E].
Qed.

(** ** Witnesses *)

Lemma fp_feed_equiv_witness :
  fp_feed push new [] (wire1 ++ [0xAA; 0x55; 1]) = feed push new [] (wire1 ++ [0xAA; 0x55; 1]).
Proof.
  apply (fp_feed_equiv push new [] [] (wire1 ++ [0xAA; 0x55; 1])).
  - apply ready_new.
  - apply Forall_app. split; [|solve_bytes].
    apply (build_frame_bytes_ok (F_DATA, 7, [0x61; 0x62; 0x63])). concrete_frames.
Defined.

(** Eight bytes are free, and a keepalive has ten. *)
Definition nearly_full : daemon_t :=
  let n := Z.to_nat (LINK_TXBUF_SIZE - 9) in
  mkD (TxQueue.mk ([] ++ replicate n 0 ++ replicate 9 0) 0 (LINK_TXBUF_SIZE - 9)) 0 true false.

Lemma nearly_full_layout :
  layout (txq nearly_full) (replicate (Z.to_nat (LINK_TXBUF_SIZE - 9)) 0).
Proof.
  assert (0 <= LINK_TXBUF_SIZE - 9) as Hp by (by vm_compute).
  assert (zlen (replicate 9 0) = 9) as H9 by done.
  apply layout_flat; rewrite ?zlen_replicate, ?H9, ?zlen_nil by exact Hp; first [done | lia].
Qed.

Lemma enqueue_frame_torn_witness :
  exists d' part, enqueue_frame nearly_full F_PING 0 [] 7 = Some d' /\
    layout (txq d') (replicate (Z.to_nat (LINK_TXBUF_SIZE - 9)) 0 ++ part) /\
    part <> [] /\ zlen part < 10.
Proof.
  destruct (enqueue_frame_torn nearly_full (replicate (Z.to_nat (LINK_TXBUF_SIZE - 9)) 0)
    (F_PING, 0, []) 7) as (d' & part & E & Hl & Hn & Hz & _).
  - apply nearly_full_layout.
  - by vm_compute.
  - assert (0 <= LINK_TXBUF_SIZE - 9) as Hp by (by vm_compute).
    rewrite zlen_replicate by exact Hp. change (zlen (build (F_PING, 0, []))) with 10.
    unfold CRC_SIZE. lia.
  - exists d', part. split; [exact E|]. split; [exact Hl|]. split; [exact Hn | exact Hz].
Defined.

Definition c_start : daemon_t := mkD TxQueue.new 0 true false.

Lemma c_start_layout : layout (txq c_start) [].
Proof. rewrite <- contents_new. apply wf_layout, wf_new. Qed.

Definition c_sends : list (txop * Z) := map (fun o => (o, 5)) link_example.

Lemma c_link_interop_witness :
  exists d' wire p fp delivered, c_sender c_start c_sends = Some (d', wire, true) /\
    feed_chunks new [wire] = Some (p, delivered) /\
    fp_reads push new [] [wire] = Some (fp, delivered) /\
    delivered `prefix_of` [(F_HELLO, 0, []); (F_DATA, 1, [0x7E; 1; 2])].
Proof.
  assert (Forall (fun o => txop_ok o.1) c_sends) as Ho.
  { apply Forall_map. eapply Forall_impl; [apply link_example_ok|]. done. }
  destruct (c_link_interop c_start c_sends c_start_layout Ho) as (d' & wire & roomy & E & Hall).
  assert (roomy = true) as Hr.
  { eapply c_sender_roomy; [exact c_start_layout | exact Ho | | exact E]. by vm_compute. }
  destruct (Hall Hr [wire] (app_nil_r wire)) as (p & fp & delivered & Hp & Hfp & Hpre & _).
  exists d', wire, p, fp, delivered. rewrite Hr in E.
  split; [exact E|]. split; [exact Hp|]. split; [exact Hfp | exact Hpre].
Defined.

End SerialmuxC.
