(* ===== verification/Serial.v ===== *)
(** * Serial ports, PTYs and file descriptors ([serialmux-rs/src/serial.rs])

    System calls are answered by an oracle ([SerialSys], [io] results); what the
    code asks of the operating system and of the [mio] registry is recorded in
    order in a trace ([World]). *)
From Stdlib Require Import ZArith Lia.
From stdpp Require Import base option numbers list strings.
From S2P Require Import Prelude Protocol TxQueue.

Local Open Scope Z_scope.

Definition RawFd : Type := Z.

(** [mio::Interest]: never empty. *)
Inductive Interest := READABLE | WRITABLE | READ_WRITE.

Definition interest_or (i j : Interest) : Interest :=
  match i, j with
  | READABLE, READABLE => READABLE
  | WRITABLE, WRITABLE => WRITABLE
  | _, _ => READ_WRITE
  end.

Definition is_readable (i : Interest) : bool :=
  match i with WRITABLE => false | _ => true end.
Definition is_writable (i : Interest) : bool :=
  match i with READABLE => false | _ => true end.

(** [nix::sys::termios]: the baud rates and the attributes the code sets. *)
Inductive BaudRate :=
  | B1200 | B2400 | B4800 | B9600 | B19200 | B38400
  | B57600 | B115200 | B230400 | B460800 | B921600.

Inductive ControlFlag := CREAD | CLOCAL | CS8.

Record Termios := {
  input_flags : list Z;
  output_flags : list Z;
  control_flags : list ControlFlag;
  local_flags : list Z;
  vmin : Z;
  vtime : Z;
  speed : option BaudRate;
}.

(** The requests the program makes, in order. *)
Inductive SysCall :=
  | RegAdd (fd : RawFd) (token : Z) (i : Interest)
  | RegMod (fd : RawFd) (token : Z) (i : Interest)
  | RegDel (fd : RawFd)
  | OpenFd (fd : RawFd)
  | CloseFd (fd : RawFd)
  | WriteFd (fd : RawFd) (taken : list Z)
  | TcSetAttr (fd : RawFd) (attrs : Termios)
  | RemoveFile (path : string)
  | Symlink (target link : string).

Definition World : Type := list SysCall.

Definition emit (w : World) (c : SysCall) : World := w ++ [c].

(** The answers of the operating system to one call of a helper below. *)
Record SerialSys := {
  sys_open : io RawFd;
  sys_tcgetattr : io Termios;
  sys_cfsetspeed : io unit;
  sys_tcsetattr : io unit;
  sys_openpty : io (RawFd * RawFd);
  sys_getfl : io Z;
  sys_setfl : io unit;
  sys_readlink : io string;
}.

Definition set_nonblock (s : SerialSys) (fd : RawFd) : io unit :=
  match s.(sys_getfl) with
  | Err e => Err e
  | Ok flags => s.(sys_setfl)
  end.

Definition close_raw (fd : RawFd) (w : World) : World := emit w (CloseFd fd).

(** The bytes [read(2)] put in the buffer, or its [errno]. *)
Definition read_nonblock (r : io (list Z)) : io (option (list Z)) :=
  match r with
  | Err e => if would_block e then Ok None else Err e
  | Ok data => Ok (Some data)
  end.

Definition write_nonblock (w : write_oracle) (buf : list Z) : io Z :=
  match w buf with
  | Err e => if would_block e then Ok 0 else Err e
  | Ok n => Ok n
  end.

Definition baud_to_speed (baud : Z) : option BaudRate :=
  match baud with
  | 1200 => Some B1200
  | 2400 => Some B2400
  | 4800 => Some B4800
  | 9600 => Some B9600
  | 19200 => Some B19200
  | 38400 => Some B38400
  | 57600 => Some B57600
  | 115200 => Some B115200
  | 230400 => Some B230400
  | 460800 => Some B460800
  | 921600 => Some B921600
  | _ => None
  end.

Definition apply_termios (s : SerialSys) (fd : RawFd) (baud : Z) (w : World)
  : io unit * World :=
  match baud_to_speed baud with
  | None => (Err InvalidInput, w)
  | Some sp =>
      match s.(sys_tcgetattr) with
      | Err e => (Err e, w)
      | Ok attrs =>
          let attrs := {|
            input_flags := [];
            output_flags := [];
            control_flags := [CREAD; CLOCAL; CS8];
            local_flags := [];
            vmin := 0;
            vtime := 0;
            speed := speed attrs;
          |} in
          match s.(sys_cfsetspeed) with
          | Err e => (Err e, w)
          | Ok _ =>
              let attrs := {|
                input_flags := input_flags attrs;
                output_flags := output_flags attrs;
                control_flags := control_flags attrs;
                local_flags := local_flags attrs;
                vmin := vmin attrs;
                vtime := vtime attrs;
                speed := Some sp;
              |} in
              let w := emit w (TcSetAttr fd attrs) in
              match s.(sys_tcsetattr) with
              | Err e => (Err e, w)
              | Ok _ => (Ok tt, w)
              end
          end
      end
  end.

(** [CString::new] fails on an interior NUL. *)
Fixpoint has_nul (s : string) : bool :=
  match s with
  | EmptyString => false
  | String c s' => Ascii.eqb c Ascii.zero || has_nul s'
  end.

Definition open_serial_fd (s : SerialSys) (dev : string) (baud : Z) (w : World)
  : io RawFd * World :=
  if has_nul dev then (Err InvalidInput, w)
  else
    match s.(sys_open) with
    | Err e => (Err e, w)
    | Ok fd =>
        let w := emit w (OpenFd fd) in
        let '(r, w) := apply_termios s fd baud w in
        match r with
        | Err e => (Err e, close_raw fd w)
        | Ok _ => (Ok fd, w)
        end
    end.

Definition open_pty_raw (s : SerialSys) (baud : Z) (w : World)
  : io (RawFd * RawFd) * World :=
  match s.(sys_openpty) with
  | Err e => (Err e, w)
  | Ok (master_fd, slave_fd) =>
      let w := emit (emit w (OpenFd master_fd)) (OpenFd slave_fd) in
      let '(r, w) := apply_termios s slave_fd baud w in
      match r with
      | Err e => (Err e, w)
      | Ok _ =>
          match set_nonblock s master_fd with
          | Err e => (Err e, w)
          | Ok _ => (Ok (master_fd, slave_fd), w)
          end
      end
  end.

Definition pty_slave_name (s : SerialSys) (slave_fd : RawFd) : io string := s.(sys_readlink).

(** ** What a trace amounts to *)

(** The interest last requested for [fd], [None] when it is not registered.  A
    descriptor loses its registration when it is closed, and one just opened has
    none. *)
Definition reg_effect (fd : RawFd) (r : option (Z * Interest)) (c : SysCall)
  : option (Z * Interest) :=
  match c with
  | RegAdd fd' t i | RegMod fd' t i => if fd' =? fd then Some (t, i) else r
  | RegDel fd' | CloseFd fd' | OpenFd fd' => if fd' =? fd then None else r
  | _ => r
  end.

Definition registered (w : World) (fd : RawFd) : option (Z * Interest) :=
  fold_left (reg_effect fd) w None.

(** The descriptors the trace opened and did not close. *)
Definition fd_effect (fds : list RawFd) (c : SysCall) : list RawFd :=
  match c with
  | OpenFd fd => fds ++ [fd]
  | CloseFd fd => filter (fun x => x <> fd) fds
  | _ => fds
  end.

Definition open_fds (w : World) : list RawFd := fold_left fd_effect w [].

Arguments emit : simpl never.
Arguments registered : simpl never.
Arguments open_fds : simpl never.

Lemma registered_emit w c fd : registered (emit w c) fd = reg_effect fd (registered w fd) c.
Proof. unfold registered, emit. by rewrite fold_left_app. Qed.

Lemma open_fds_emit w c : open_fds (emit w c) = fd_effect (open_fds w) c.
Proof. unfold open_fds, emit. by rewrite fold_left_app. Qed.

#[export] Hint Rewrite registered_emit open_fds_emit : zlist.

(** The bytes the descriptor has been given since it was opened, in order. *)
Definition write_effect (fd : RawFd) (l : list Z) (c : SysCall) : list Z :=
  match c with
  | WriteFd fd' d => if fd' =? fd then l ++ d else l
  | OpenFd fd' => if fd' =? fd then [] else l
  | _ => l
  end.

Definition written (w : World) (fd : RawFd) : list Z := fold_left (write_effect fd) w [].

Arguments written : simpl never.

Lemma written_emit w c fd : written (emit w c) fd = write_effect fd (written w fd) c.
Proof. unfold written, emit. by rewrite fold_left_app. Qed.

(** Whether the link the trace last made or removed at [path] is there. *)
Definition link_effect (path : string) (present : bool) (c : SysCall) : bool :=
  match c with
  | Symlink _ link => if String.eqb link path then true else present
  | RemoveFile link => if String.eqb link path then false else present
  | _ => present
  end.

Definition link_present (w : World) (path : string) : bool :=
  fold_left (link_effect path) w false.

Arguments link_present : simpl never.

Lemma link_present_emit w c path :
  link_present (emit w c) path = link_effect path (link_present w path) c.
Proof. unfold link_present, emit. by rewrite fold_left_app. Qed.

#[export] Hint Rewrite written_emit link_present_emit : zlist.

(** An operating system that grants everything, for concrete runs. *)
Definition granting (fd : RawFd) : SerialSys := {|
  sys_open := Ok fd;
  sys_tcgetattr := Ok {| input_flags := [1]; output_flags := [1]; control_flags := [];
                         local_flags := [2]; vmin := 1; vtime := 0; speed := None |};
  sys_cfsetspeed := Ok tt;
  sys_tcsetattr := Ok tt;
  sys_openpty := Ok (fd, fd + 1);
  sys_getfl := Ok 2;
  sys_setfl := Ok tt;
  sys_readlink := Ok "/dev/pts/3"%string;
|}.

Lemma apply_termios_trace s fd baud w r w' :
  apply_termios s fd baud w = (r, w') ->
  open_fds w' = open_fds w /\ (forall fd', registered w' fd' = registered w fd') /\
  (forall fd', written w' fd' = written w fd') /\
  (forall path, link_present w' path = link_present w path).
Proof.
  unfold apply_termios. repeat case_match; intros [= <- <-]; try done.
  all: repeat split; intros; by autorewrite with zlist.
Qed.

Lemma open_serial_fd_trace s dev baud w r w' :
  open_serial_fd s dev baud w = (r, w') ->
  match r with
  | Ok fd => open_fds w' = open_fds w ++ [fd] /\ registered w' fd = None /\
             (forall fd', fd' <> fd -> registered w' fd' = registered w fd') /\
             written w' fd = []
  | Err _ => (forall fd, fd ∈ open_fds w' -> fd ∈ open_fds w) /\
             forall fd', registered w fd' = None -> registered w' fd' = None
  end.
Proof.
  unfold open_serial_fd. destruct (has_nul dev); [intros [= <- <-]; done|].
  destruct (sys_open s) as [fd|e]; [|intros [= <- <-]; done].
  destruct (apply_termios s fd baud (emit w (OpenFd fd))) as [r0 w0] eqn:Ea.
  apply apply_termios_trace in Ea as (Ho & Hr & Hw & _). autorewrite with zlist in Ho. cbn in Ho.
  destruct r0; intros [= <- <-].
  - split; [done|]. split; [|split; [intros fd' Hne|]]; rewrite ?Hr, ?Hw;
      autorewrite with zlist; cbn.
    + by rewrite Z.eqb_refl.
    + by rewrite (proj2 (Z.eqb_neq fd fd')) by congruence.
    + by rewrite Z.eqb_refl.
  - unfold close_raw. split.
    + intros fd'. autorewrite with zlist. cbn [fd_effect]. rewrite Ho.
      rewrite list_elem_of_filter, elem_of_app, list_elem_of_singleton. tauto.
    + intros fd' Hn. autorewrite with zlist. cbn. case_match; [done|].
      rewrite Hr. autorewrite with zlist. cbn. by case_match.
Qed.

(** Both descriptors of a pseudo terminal stay open when a later step fails:
    what is returned on success, and what is left behind on failure. *)
Lemma open_pty_raw_trace s baud w r w' :
  open_pty_raw s baud w = (r, w') ->
  (forall path, link_present w' path = link_present w path) /\
  match r with
  | Ok (m, sl) =>
      open_fds w' = open_fds w ++ [m; sl] /\ registered w' m = None /\ written w' m = []
  | Err _ =>
      match sys_openpty s with
      | Ok (m, sl) => open_fds w' = open_fds w ++ [m; sl]
      | Err _ => w' = w
      end
  end.
Proof.
  unfold open_pty_raw. destruct (sys_openpty s) as [[m sl]|e]; [|by intros [= <- <-]].
  destruct (apply_termios _ _ _ _) as [r0 w0] eqn:Ea.
  apply apply_termios_trace in Ea as (Ho & Hr & Hw & Hl).
  autorewrite with zlist in Ho. cbn [fd_effect] in Ho.
  assert (open_fds w0 = open_fds w ++ [m; sl]) as Hof by by rewrite Ho, <- app_assoc.
  assert (forall path, link_present w0 path = link_present w path) as Hlp.
  { intros path. rewrite Hl. by autorewrite with zlist. }
  assert (registered w0 m = None /\ written w0 m = []) as [Hrm Hwm].
  { rewrite Hr, Hw. autorewrite with zlist. cbn. rewrite Z.eqb_refl. by destruct (sl =? m). }
  destruct r0; [|by intros [= <- <-]].
  destruct (set_nonblock s m); by intros [= <- <-].
Qed.
