(* ===== verification/Chan.v ===== *)
(** * The channel interface ([serialmux-rs/src/channel.rs], shared parts)

    mio tokens, the [Channel] trait as a class with its laws, the registry
    helpers, and what the channels have in common.  A channel only ever calls
    [txq.enqueue(&build_frame(..))] on the queue it is lent: the model keeps
    these calls, in order, as a list of frames, which the daemon ([Daemon.v])
    enqueues.  Times are [Instant]s in nanoseconds; one invocation of a channel
    sees one value of the clock. *)
From Stdlib Require Import ZArith Lia.
From stdpp Require Import base option numbers list strings.
From S2P Require Import Prelude Protocol TxQueue Serial.

Local Open Scope Z_scope.

(** ** Token layout *)

Definition TOKEN_LINK : Z := 0.
Definition TCP_BASE : Z := 64.
Definition MAX_CHANNEL_ID : Z := 62.
Definition MAX_TCP_CONNS : Z := 256.

(** The [debug_assert!] on the id holds for every channel ([ch_inv_id]). *)
Definition primary_token (ch_id : Z) : Z := ch_id + 1.

Definition tcp_slot_token (ch_id slot : Z) : Z := TCP_BASE + ch_id * MAX_TCP_CONNS + slot.

(** [as u8] truncates. *)
Definition channel_id_for_token (token : Z) : option Z :=
  if token =? 0 then None
  else if token <=? 63 then Some ((token - 1) mod 256)
  else
    let id := (token - TCP_BASE) / MAX_TCP_CONNS in
    if id <=? MAX_CHANNEL_ID then Some (id mod 256) else None.

Lemma channel_id_primary id :
  0 <= id <= MAX_CHANNEL_ID -> channel_id_for_token (primary_token id) = Some id.
Proof.
  unfold channel_id_for_token, primary_token, MAX_CHANNEL_ID. intros. zdecide.
  f_equal. rewrite Z.mod_small; lia.
Qed.

Lemma channel_id_slot id slot :
  0 <= id <= MAX_CHANNEL_ID -> 0 <= slot < MAX_TCP_CONNS ->
  channel_id_for_token (tcp_slot_token id slot) = Some id.
Proof.
  unfold channel_id_for_token, tcp_slot_token, MAX_CHANNEL_ID, TCP_BASE, MAX_TCP_CONNS.
  intros. assert ((64 + id * 256 + slot - 64) / 256 = id) as ->.
  { replace (64 + id * 256 + slot - 64) with (slot + id * 256) by lia.
    by rewrite Z.div_add, Z.div_small by lia. }
  zdecide. by rewrite Z.mod_small by lia.
Qed.

(** The slot [tcp_event] recovers from its token. *)
Lemma slot_of_token id slot :
  0 <= id -> 0 <= slot < MAX_TCP_CONNS ->
  usub (tcp_slot_token id slot) TCP_BASE = Some (id * MAX_TCP_CONNS + slot) /\
  (id * MAX_TCP_CONNS + slot) mod MAX_TCP_CONNS = slot.
Proof.
  unfold tcp_slot_token, MAX_TCP_CONNS, TCP_BASE. intros. split.
  - rewrite usub_eq by lia. f_equal. lia.
  - rewrite Z.add_comm, Z.mod_add, Z.mod_small by lia. done.
Qed.

(** The tokens of a channel: its primary fd, and its 256 connection slots. *)
Definition channel_token (id token : Z) : Prop :=
  token = primary_token id \/ exists slot, 0 <= slot < MAX_TCP_CONNS /\ token = tcp_slot_token id slot.

Lemma channel_token_id id token :
  0 <= id <= MAX_CHANNEL_ID -> channel_token id token ->
  channel_id_for_token token = Some id /\ token <> TOKEN_LINK.
Proof.
  intros Hid [->|(slot & Hs & ->)].
  - split; [by apply channel_id_primary | unfold primary_token, TOKEN_LINK; lia].
  - split; [by apply channel_id_slot |].
    unfold tcp_slot_token, TOKEN_LINK, TCP_BASE, MAX_TCP_CONNS in *. lia.
Qed.

(** Every event is routed to the channel that owns it: for the channel ids
    the command line admits, the tokens of a channel map back to that channel
    and never to the link, and every mapped token below the end of the slot
    range is a token of the channel it maps to; so no two channels share a
    token. *)
Theorem token_routing token id :
  0 <= token < TCP_BASE + (MAX_CHANNEL_ID + 1) * MAX_TCP_CONNS ->
  (channel_id_for_token token = Some id <->
   0 <= id <= MAX_CHANNEL_ID /\ channel_token id token /\ token <> TOKEN_LINK).
Proof.
  intros Ht. split.
  - unfold channel_id_for_token, channel_token, primary_token, tcp_slot_token, TOKEN_LINK,
      MAX_CHANNEL_ID, TCP_BASE, MAX_TCP_CONNS in *.
    destruct (token =? 0) eqn:E0; [done|]. destruct (token <=? 63) eqn:E1; zbool.
    + intros [= <-]. rewrite Z.mod_small by lia. split; [lia|]. split; [left; lia | lia].
    + pose proof (Z.div_mod (token - 64) 256 ltac:(lia)) as Hd.
      pose proof (Z.mod_pos_bound (token - 64) 256 ltac:(lia)).
      destruct (_ / 256 <=? 62) eqn:E2; [|done]. zbool. intros [= <-].
      assert (0 <= (token - 64) / 256) by (apply Z.div_pos; lia).
      rewrite Z.mod_small by lia. split; [lia|]. split; [|lia]. right.
      exists ((token - 64) mod 256). split; lia.
  - intros (Hid & Htok & _). by apply channel_token_id.
Qed.

Lemma token_routing_witness :
  0 <= 576 < TCP_BASE + (MAX_CHANNEL_ID + 1) * MAX_TCP_CONNS /\
  (channel_id_for_token 576 = Some 2 <->
   0 <= 2 <= MAX_CHANNEL_ID /\ channel_token 2 576 /\ 576 <> TOKEN_LINK).
Proof.
  split; [vm_compute; split; congruence|].
  apply (token_routing 576 2). vm_compute. split; congruence.
Defined.

(** ** What a channel does to its surroundings *)

(** Frames passed to [txq.enqueue], and the requests to the system. *)
Record Fx := mkFx { fx_tx : list frame; fx_sys : World }.

Definition fx0 : Fx := mkFx [] [].
Definition enqueue (fx : Fx) (f : frame) : Fx := mkFx (fx_tx fx ++ [f]) (fx_sys fx).
Definition syscall (fx : Fx) (c : SysCall) : Fx := mkFx (fx_tx fx) (emit (fx_sys fx) c).

(** A failed registration is only logged. *)
Definition reg_add (fx : Fx) (fd : RawFd) (token : Z) (i : Interest) : Fx :=
  syscall fx (RegAdd fd token i).
Definition reg_mod (fx : Fx) (fd : RawFd) (token : Z) (i : Interest) : Fx :=
  syscall fx (RegMod fd token i).
Definition reg_del (fx : Fx) (fd : RawFd) : Fx := syscall fx (RegDel fd).

(** The answers of the system to one invocation: the clock, the calls of
    [serial.rs], [read]/[write] on the fd or stream concerned, the results of
    the [accept] and stream [read] loops (which end with [WouldBlock] when the
    list is used up), and of the single calls of the TCP channels. *)
Record Env := {
  env_now : Z;
  env_serial : SerialSys;
  env_read : io (list Z);
  env_write : write_oracle;
  env_symlink : io unit;
  env_accepts : list (io RawFd);
  env_reads : list (io (list Z));
  env_register : RawFd -> io unit;
  env_parse_addr : io unit;
  env_connect : io RawFd;
  env_peer_addr : io unit;
}.

(** The sizes of the read buffers of [uart_read]/[handle_event] and of the TCP
    loops. *)
Definition READ_BUF : Z := 4096.
Definition TCP_READ_BUF : Z := 65536.

Definition read_ok (cap : Z) (r : io (list Z)) : Prop :=
  match r with Ok d => zlen d <= cap /\ bytes_ok d | Err _ => True end.

Record env_ok (e : Env) : Prop := {
  env_read_ok : read_ok READ_BUF (env_read e);
  env_write_ok : write_ok (env_write e);
  env_reads_ok : Forall (read_ok TCP_READ_BUF) (env_reads e);
}.

(** Writes that fail only for want of room. *)
Definition soft_writes (e : Env) : Prop :=
  forall d er, env_write e d = Err er -> would_block er = true.

(** A system for concrete runs: it grants everything, takes all it is offered,
    and has [read] to read. *)
Definition sample_env (now : Z) (read : list Z) : Env := {|
  env_now := now;
  env_serial := granting 7;
  env_read := Ok read;
  env_write := fun d => Ok (zlen d);
  env_symlink := Ok tt;
  env_accepts := [Ok 9];
  env_reads := [Ok read];
  env_register := fun _ => Ok tt;
  env_parse_addr := Ok tt;
  env_connect := Ok 9;
  env_peer_addr := Ok tt;
|}.

Lemma sample_env_ok now read :
  zlen read <= READ_BUF -> bytes_ok read -> env_ok (sample_env now read).
Proof.
  intros Hl Hb. constructor; cbn.
  - done.
  - intros d n [= <-]. pose proof (zlen_nonneg d). lia.
  - apply Forall_singleton. cbn. unfold READ_BUF, TCP_READ_BUF in *. split; [lia | done].
Qed.

(** ** The trait *)

Class Channel (C : Type) := {
  channel_id : C -> Z;
  on_frame : C -> Z -> list Z -> Env -> Fx -> option (C * Fx);
  on_link_connect : C -> Env -> Fx -> option (C * Fx);
  on_link_disconnect : C -> Env -> Fx -> option (C * Fx);
  tick : C -> Z -> Env -> Fx -> option (C * Fx);
  next_deadline : C -> option Z;
  handle_event : C -> Z -> bool -> bool -> Env -> Fx -> option (C * Fx);
  close : C -> Env -> Fx -> option (C * Fx);
  pause_source_reads : C -> Env -> Fx -> option (C * Fx);
  resume_source_reads : C -> Env -> Fx -> option (C * Fx);
}.

(** The calls the daemon can make. *)
Inductive input :=
  | InFrame (ftype : Z) (payload : list Z)
  | InConnect
  | InDisconnect
  | InTick (now : Z)
  | InEvent (token : Z) (readable writable : bool)
  | InClose
  | InPause
  | InResume.

Definition chan_step `{Channel C} (c : C) (i : input) (e : Env) (fx : Fx) : option (C * Fx) :=
  match i with
  | InFrame ft pl => on_frame c ft pl e fx
  | InConnect => on_link_connect c e fx
  | InDisconnect => on_link_disconnect c e fx
  | InTick now => tick c now e fx
  | InEvent t r w => handle_event c t r w e fx
  | InClose => close c e fx
  | InPause => pause_source_reads c e fx
  | InResume => resume_source_reads c e fx
  end.

(** A history of calls. *)
Fixpoint chan_run `{Channel C} (c : C) (fx : Fx) (h : list (input * Env)) : option (C * Fx) :=
  match h with
  | [] => Some (c, fx)
  | (i, e) :: h => '(c, fx) ← chan_step c i e fx; chan_run c fx h
  end.

Definition payload_ok (i : input) : Prop :=
  match i with InFrame _ pl => zlen pl <= MAX_PAYLOAD /\ bytes_ok pl | _ => True end.

Definition hist_ok (h : input * Env) : Prop := env_ok h.2 /\ payload_ok h.1.

(** What [pause_source_reads] and [resume_source_reads] do to the flag. *)
Definition paused_after (i : input) (paused : bool) : bool :=
  match i with InPause => true | InResume => false | _ => paused end.

(** The calls after which a channel whose link is down may have something to
    send again. *)
Definition wakes (i : input) : bool :=
  match i with InFrame _ _ | InConnect => true | _ => false end.

(** The types of the daemon's own frames, and of those of the channels. *)
Definition is_control (ft : Z) : bool :=
  (ft =? F_PING) || (ft =? F_PONG) || (ft =? F_HELLO) || (ft =? F_ACK).

Definition is_channel_type (ft : Z) : bool :=
  (ft =? F_DATA) || (ft =? F_FLUSH) || (ft =? F_READY) ||
  (ft =? F_TCONN) || (ft =? F_TDATA) || (ft =? F_TCLOSE).

Definition channel_type (ft : Z) : Prop := is_channel_type ft = true.

Lemma channel_type_spec ft : channel_type ft -> u8 ft /\ is_control ft = false.
Proof.
  unfold channel_type, is_channel_type. rewrite !orb_true_iff, !Z.eqb_eq.
  by intros [[[[[-> | ->] | ->] | ->] | ->] | ->].
Qed.

(** The frames a call may enqueue: of the channel and of one of its types, of
    bytes, and not too large for [build_frame]. *)

Definition payload_fits (pl : list Z) : Prop := zlen pl <= MAX_PAYLOAD /\ bytes_ok pl.

Definition frame_of (id : Z) (f : frame) : Prop :=
  f.1.2 = id /\ channel_type f.1.1 /\ payload_fits f.2.

Lemma payload_fits_nil : payload_fits [].
Proof. by split; [|apply Forall_nil_2]. Qed.

Lemma payload_fits_suffix l1 l2 : payload_fits (l1 ++ l2) -> payload_fits l2.
Proof.
  intros [Hl [_ Hb]%Forall_app]. rewrite zlen_app in Hl. pose proof (zlen_nonneg l1).
  split; [lia | done].
Qed.

Lemma frame_of_fits id f : frame_of id f -> 0 <= id <= MAX_CHANNEL_ID -> frame_fits f /\ frame_bytes f.
Proof.
  intros (<- & [Hf _]%channel_type_spec & Hl & Hb) Hid. split; [done|]. split; [done|]. split; [|done].
  unfold MAX_CHANNEL_ID, u8 in *. lia.
Qed.

(** The token of an event is one the channel registered. *)
Definition input_ok {C} (token : C -> Z -> Prop) (c : C) (i : input) : Prop :=
  payload_ok i /\ match i with InEvent t _ _ => token c t | _ => True end.

(** What the daemon relies on.  [ch_quiet c]: the link is down as far as [c]
    knows, and [c] sends nothing until it is told otherwise. *)
Definition step_ok {C} `{Channel C} (inv quiet : C -> Prop) (paused : C -> bool)
  (c : C) (i : input) (fx : Fx) (r : option (C * Fx)) : Prop :=
  exists c' fx' sent,
    r = Some (c', fx') /\ inv c' /\ channel_id c' = channel_id c /\
    paused c' = paused_after i (paused c) /\
    fx_tx fx' = fx_tx fx ++ sent /\
    Forall (frame_of (channel_id c)) sent /\
    (wakes i = false -> quiet c \/ i = InDisconnect -> sent = [] /\ quiet c').

Class ChannelLaws (C : Type) `{Channel C} := {
  ch_inv : C -> Prop;
  ch_quiet : C -> Prop;
  ch_paused : C -> bool;
  ch_token : C -> Z -> Prop;
  ch_inv_id c : ch_inv c -> 0 <= channel_id c <= MAX_CHANNEL_ID;
  ch_token_owned c t : ch_inv c -> ch_token c t -> channel_token (channel_id c) t;
  ch_step c i e fx :
    ch_inv c -> env_ok e -> input_ok ch_token c i ->
    step_ok ch_inv ch_quiet ch_paused c i fx (chan_step c i e fx);
  ch_token_stable c i e fx c' fx' t :
    chan_step c i e fx = Some (c', fx') -> ch_inv c -> ch_inv c' ->
    channel_id c' = channel_id c -> ch_token c t -> ch_token c' t;
}.

(** What the timeout of [poll] relies on: nothing is to be done for a channel before
    the deadline it reports. *)
Class Timely (C : Type) `{Channel C} :=
  tick_idle c now e fx :
    (forall dl, next_deadline c = Some dl -> now < dl) -> tick c now e fx = Some (c, fx).

(** A frame as the daemon hands it to its channel. *)
Definition frame_input (f : frame) : input := InFrame f.1.1 f.2.

Section Runs.
Context {C} `{Channel C}.

Lemma chan_run_app c fx h h' :
  chan_run c fx (h ++ h') = '(c, fx) ← chan_run c fx h; chan_run c fx h'.
Proof.
  revert c fx. induction h as [|[i e] h IH]; intros c fx; [done|]. cbn.
  destruct (chan_step c i e fx) as [[c1 fx1]|]; [|done]. cbn. apply IH.
Qed.

(** A property of the channel and of what it did, kept by every call, holds
    after every history; and no call panics. *)
Lemma chan_run_ind (P : C -> Fx -> Prop) (ok : input * Env -> Prop) :
  (forall c i e fx, P c fx -> ok (i, e) ->
     exists c' fx', chan_step c i e fx = Some (c', fx') /\ P c' fx') ->
  forall h c fx, P c fx -> Forall ok h ->
    exists c' fx', chan_run c fx h = Some (c', fx') /\ P c' fx'.
Proof.
  intros Hstep h. induction h as [|[i e] h IH]; intros c fx HP Hok.
  - by exists c, fx.
  - apply Forall_cons in Hok as [Hi Hok].
    destruct (Hstep c i e fx HP Hi) as (c1 & fx1 & E & HP1).
    cbn [chan_run]. rewrite E. cbn [mbind option_bind]. by apply IH.
Qed.

End Runs.

(** What a call did to the queue it was lent. *)
Definition sent_by (id : Z) (live : bool) (fx fx' : Fx) : Prop :=
  exists sent, fx_tx fx' = fx_tx fx ++ sent /\ Forall (frame_of id) sent /\
    (live = false -> sent = []).

Lemma sent_by_refl id live fx fx' : fx_tx fx' = fx_tx fx -> sent_by id live fx fx'.
Proof. intros E. exists []. by rewrite app_nil_r. Qed.

Lemma sent_by_trans id live fx1 fx2 fx3 :
  sent_by id live fx1 fx2 -> sent_by id live fx2 fx3 -> sent_by id live fx1 fx3.
Proof.
  intros (s1 & E1 & F1 & L1) (s2 & E2 & F2 & L2). exists (s1 ++ s2). split.
  - by rewrite E2, E1, app_assoc.
  - split; [by apply Forall_app|]. intros Hl. by rewrite L1, L2.
Qed.

Lemma sent_by_enqueue id fx ft pl :
  channel_type ft -> payload_fits pl -> sent_by id true fx (enqueue fx (ft, id, pl)).
Proof.
  intros Hft Hp. exists [(ft, id, pl)]. split; [done|]. split; [|done].
  by apply Forall_singleton.
Qed.

Lemma sent_by_if id up fx ft pl :
  channel_type ft -> payload_fits pl ->
  sent_by id up fx (if up then enqueue fx (ft, id, pl) else fx).
Proof. intros. destruct up; [by apply sent_by_enqueue | by apply sent_by_refl]. Qed.

Lemma fx_sys_if (up : bool) fx f : fx_sys (if up then enqueue fx f else fx) = fx_sys fx.
Proof. by destruct up. Qed.

Create HintDb chan.

(** ** Interest in a descriptor *)

(** The [interest] of [update_interest] in the two serial channels. *)
Definition wanted_interest (bp_paused : bool) (txbuf : list Z) : option Interest :=
  let interest := if bp_paused then None else Some READABLE in
  if negb (is_empty txbuf)
  then Some (match interest with None => WRITABLE | Some i => interest_or i WRITABLE end)
  else interest.

(** Its last statement: the registry calls and the new [fd_in_sel]. *)
Definition apply_interest (interest : option Interest) (in_sel : bool)
  (fd : RawFd) (token : Z) (fx : Fx) : bool * Fx :=
  match interest, in_sel with
  | None, true => (false, reg_del fx fd)
  | None, false => (false, fx)
  | Some i, false => (true, reg_add fx fd token i)
  | Some i, true => (true, reg_mod fx fd token i)
  end.

(** The registration of [fd] is at least what is wanted: readable exactly when
    not paused, writable whenever bytes wait. *)
Definition covers (bp_paused : bool) (txbuf : list Z) (in_sel : bool) (token : Z)
  (r : option (Z * Interest)) : Prop :=
  match r with
  | Some (t, i) =>
      in_sel = true /\ t = token /\ is_readable i = negb bp_paused /\
      (txbuf <> [] -> is_writable i = true)
  | None => in_sel = false /\ bp_paused = true /\ txbuf = []
  end.

Lemma apply_interest_covers bp txbuf in_sel fd token fx in_sel' fx' :
  apply_interest (wanted_interest bp txbuf) in_sel fd token fx = (in_sel', fx') ->
  (in_sel = false -> registered (fx_sys fx) fd = None) ->
  fx_tx fx' = fx_tx fx /\ covers bp txbuf in_sel' token (registered (fx_sys fx') fd).
Proof.
  unfold apply_interest, wanted_interest.
  destruct bp, txbuf, in_sel; cbn; intros [= <- <-] Hreg; unfold reg_add, reg_mod, reg_del;
    cbn; autorewrite with zlist; cbn; rewrite ?Z.eqb_refl, ?Hreg by done; done.
Qed.

(** Bytes no longer waiting leave the registration sufficient. *)
Lemma covers_cleared bp txbuf in_sel token r :
  covers bp txbuf in_sel token r -> covers bp [] in_sel token r.
Proof. unfold covers. destruct r as [[t i]|]; [intros (? & ? & ? & _) | intros (? & ? & _)]; done. Qed.

(** ** TCP helpers *)

Definition pack_cid (cid : Z) : list Z := to_le_bytes 2 cid.

Definition unpack_cid (payload : list Z) : option (Z * list Z) :=
  if zlen payload <? 2 then None
  else
    match payload with
    | b0 :: b1 :: data => Some (from_le_bytes [b0; b1], data)
    | _ => None
    end.

Definition CONN_HIGH_WATER : Z := 256 * 1024.

(** [stream] is the descriptor of the [TcpStream]; dropping it closes it. *)
Record TcpConn := mkConn {
  stream : RawFd;
  txbuf : list Z;
  connecting : bool;
  in_sel : bool;
  close_pending : bool;
}.

Lemma unpack_pack_cid cid data :
  0 <= cid < 2 ^ 16 -> unpack_cid (pack_cid cid ++ data) = Some (cid, data).
Proof.
  intros Hc. unfold unpack_cid, pack_cid. pose proof (zlen_nonneg data).
  rewrite (proj2 (Z.ltb_ge _ _)) by (cbn [to_le_bytes app]; rewrite !zlen_cons; lia).
  cbn [to_le_bytes app].
  pose proof (from_to_le_bytes 2 cid) as Hr. cbn [to_le_bytes] in Hr. rewrite Hr; [done|].
  cbn. lia.
Qed.

Lemma unpack_cid_nonneg pl cid data : unpack_cid pl = Some (cid, data) -> bytes_ok pl -> 0 <= cid.
Proof.
  unfold unpack_cid. destruct (zlen pl <? 2); [done|]. destruct pl as [|b0 [|b1 pl]]; try done.
  intros [= <- <-] Hb. change (0 <= from_le_bytes [b0; b1]). apply from_le_bytes_nonneg.
  apply Forall_cons in Hb as [? Hb]. apply Forall_cons in Hb as [? _].
  by repeat apply Forall_cons_2.
Qed.

Lemma unpack_pack_nil cid : 0 <= cid < 2 ^ 16 -> unpack_cid (pack_cid cid) = Some (cid, []).
Proof. intros. rewrite <- (app_nil_r (pack_cid cid)). by apply unpack_pack_cid. Qed.
