(* ===== verification/Mcu.v ===== *)
(** * The exporter's MCU channel ([McuChannel] of [serialmux-rs/src/channel.rs])

    UART bytes become [F_DATA] frames once the Klipper sync byte has been seen;
    the far side is told of it with [F_READY], and of a reset with [F_FLUSH].
    [chan_run] over this channel's instance gives its histories; the theorems
    hold after every history from [new]. *)
From Stdlib Require Import ZArith Lia.
From stdpp Require Import base option numbers list strings.
From S2P Require Import Prelude Protocol TxQueue Serial Chan.

Local Open Scope Z_scope.

(** Durations in nanoseconds. *)
Definition secs (n : Z) : Z := n * 1000000000.
Definition millis (n : Z) : Z := n * 1000000.

(** [now.duration_since(t)] saturates at zero. *)
Definition duration_since (now t : Z) : Z := Z.max 0 (now - t).

Module McuChannel.

Inductive McuState := Init | Active | Resetting.

#[global] Instance McuState_eq_dec : EqDecision McuState.
Proof. solve_decision. Defined.

Record t := mk {
  ch_id : Z;
  device : string;
  baud : Z;
  state : McuState;
  fd : option RawFd;
  fd_in_sel : bool;
  txbuf : list Z;
  last_rx : option Z;
  reopen_at : option Z;
  bp_paused : bool;
  link_up : bool;
}.

Definition set_state v (s : t) := mk (ch_id s) (device s) (baud s) v (fd s)
  (fd_in_sel s) (txbuf s) (last_rx s) (reopen_at s) (bp_paused s) (link_up s).
Definition set_fd v (s : t) := mk (ch_id s) (device s) (baud s) (state s) v
  (fd_in_sel s) (txbuf s) (last_rx s) (reopen_at s) (bp_paused s) (link_up s).
Definition set_fd_in_sel v (s : t) := mk (ch_id s) (device s) (baud s) (state s) (fd s)
  v (txbuf s) (last_rx s) (reopen_at s) (bp_paused s) (link_up s).
Definition set_txbuf v (s : t) := mk (ch_id s) (device s) (baud s) (state s) (fd s)
  (fd_in_sel s) v (last_rx s) (reopen_at s) (bp_paused s) (link_up s).
Definition set_last_rx v (s : t) := mk (ch_id s) (device s) (baud s) (state s) (fd s)
  (fd_in_sel s) (txbuf s) v (reopen_at s) (bp_paused s) (link_up s).
Definition set_reopen_at v (s : t) := mk (ch_id s) (device s) (baud s) (state s) (fd s)
  (fd_in_sel s) (txbuf s) (last_rx s) v (bp_paused s) (link_up s).
Definition set_bp_paused v (s : t) := mk (ch_id s) (device s) (baud s) (state s) (fd s)
  (fd_in_sel s) (txbuf s) (last_rx s) (reopen_at s) v (link_up s).
Definition set_link_up v (s : t) := mk (ch_id s) (device s) (baud s) (state s) (fd s)
  (fd_in_sel s) (txbuf s) (last_rx s) (reopen_at s) (bp_paused s) v.

Definition RESET_SILENCE : Z := secs 5.
Definition REOPEN_DELAY : Z := secs 2.

Definition update_interest (self : t) (fx : Fx) : t * Fx :=
  match fd self with
  | None => (self, fx)
  | Some f =>
      let interest := wanted_interest (bp_paused self) (txbuf self) in
      let token := primary_token (ch_id self) in
      let '(sel, fx) := apply_interest interest (fd_in_sel self) f token fx in
      (set_fd_in_sel sel self, fx)
  end.

Definition open_uart (self : t) (e : Env) (fx : Fx) : t * Fx :=
  let '(r, w) := open_serial_fd (env_serial e) (device self) (baud self) (fx_sys fx) in
  let fx := mkFx (fx_tx fx) w in
  match r with
  | Ok f => update_interest (set_fd_in_sel false (set_fd (Some f) self)) fx
  | Err _ => (set_reopen_at (Some (env_now e + REOPEN_DELAY)) self, fx)
  end.

Definition close_uart (self : t) (fx : Fx) : t * Fx :=
  match fd self with
  | Some f =>
      let fx := if fd_in_sel self then reg_del fx f else fx in
      let fx := mkFx (fx_tx fx) (close_raw f (fx_sys fx)) in
      (set_fd_in_sel false (set_fd None self), fx)
  | None => (set_fd_in_sel false self, fx)
  end.

Definition transition (new_state : McuState) (self : t) (fx : Fx) : t * Fx :=
  if bool_decide (new_state = state self) then (self, fx)
  else
    let self := set_state new_state self in
    match new_state with
    | Resetting =>
        let self := set_txbuf [] (set_last_rx None self) in
        (self, if link_up self then enqueue fx (F_FLUSH, ch_id self, []) else fx)
    | Active =>
        (self, if link_up self then enqueue fx (F_READY, ch_id self, []) else fx)
    | Init => (self, fx)
    end.

(** [data.iter().position(|&b| b == KLIPPER_SYNC)] *)
Fixpoint position_sync (data : list Z) : option Z :=
  match data with
  | [] => None
  | b :: data' => if b =? KLIPPER_SYNC then Some 0 else Z.succ <$> position_sync data'
  end.

Definition uart_read (self : t) (e : Env) (fx : Fx) : option (t * Fx) :=
  match fd self with
  | None => Some (self, fx)
  | Some f =>
      match read_nonblock (env_read e) with
      | Ok None => Some (self, fx)
      | Ok (Some data) =>
          if zlen data =? 0 then Some (self, fx)
          else
            let self := set_last_rx (Some (env_now e)) self in
            match state self with
            | Init | Resetting =>
                match position_sync data with
                | Some i =>
                    let '(self, fx) := transition Active self fx in
                    if link_up self
                    then s ← slice data i (zlen data);
                         Some (self, enqueue fx (F_DATA, ch_id self, s))
                    else Some (self, fx)
                | None => Some (self, fx)
                end
            | Active =>
                Some (self, if link_up self then enqueue fx (F_DATA, ch_id self, data) else fx)
            end
      | Err _ =>
          let '(self, fx) := close_uart self fx in
          let '(self, fx) := transition Resetting self fx in
          Some (set_reopen_at (Some (env_now e + secs 1)) self, fx)
      end
  end.

Definition uart_drain (self : t) (e : Env) (fx : Fx) : option (t * Fx) :=
  match fd self with
  | None => Some (self, fx)
  | Some f =>
      if is_empty (txbuf self) then Some (self, fx)
      else
        '(self, fx) ← (match write_nonblock (env_write e) (txbuf self) with
             | Ok n =>
                 if n =? 0 then Some (self, fx)
                 else
                   rest ← drain_front (txbuf self) n;
                   Some (set_txbuf rest self,
                         syscall fx (WriteFd f (ztake n (txbuf self))))
             | Err _ => Some (set_txbuf [] self, fx)
             end);
        Some (update_interest self fx)
  end.

Definition new (ch_id : Z) (device : string) (baud : Z) (e : Env) (fx : Fx) : t * Fx :=
  let ch := mk ch_id device baud Init None false [] None None false false in
  open_uart ch e fx.

Definition on_frame (self : t) (ftype : Z) (payload : list Z) (e : Env) (fx : Fx)
  : option (t * Fx) :=
  if ftype =? F_DATA then
    if bool_decide (fd self = None) || negb (bool_decide (state self = Active))
    then Some (self, fx)
    else uart_drain (set_txbuf (txbuf self ++ payload) self) e fx
  else Some (self, fx).

Definition on_link_connect (self : t) (e : Env) (fx : Fx) : option (t * Fx) :=
  let self := set_link_up true self in
  if bool_decide (state self = Active)
  then Some (self, enqueue fx (F_READY, ch_id self, []))
  else Some (self, enqueue fx (F_FLUSH, ch_id self, [])).

Definition on_link_disconnect (self : t) (e : Env) (fx : Fx) : option (t * Fx) :=
  Some (update_interest (set_txbuf [] (set_link_up false self)) fx).

Definition tick (self : t) (now : Z) (e : Env) (fx : Fx) : option (t * Fx) :=
  match fd self with
  | None =>
      if match reopen_at self with None => false | Some at_ => at_ <=? now end
      then Some (open_uart (set_reopen_at None self) e fx)
      else Some (self, fx)
  | Some _ =>
      if bool_decide (state self = Active) then
        match last_rx self with
        | Some last =>
            if RESET_SILENCE <? duration_since now last
            then Some (transition Resetting self fx)
            else Some (self, fx)
        | None => Some (self, fx)
        end
      else Some (self, fx)
  end.

Definition next_deadline (self : t) : option Z :=
  match fd self with
  | None => reopen_at self
  | Some _ =>
      if bool_decide (state self = Active)
      then (fun at_ => at_ + RESET_SILENCE) <$> last_rx self
      else None
  end.

Definition handle_event (self : t) (token : Z) (readable writable : bool) (e : Env) (fx : Fx)
  : option (t * Fx) :=
  '(self, fx) ← (if readable then uart_read self e fx else Some (self, fx));
  if writable then uart_drain self e fx else Some (self, fx).

Definition close (self : t) (e : Env) (fx : Fx) : option (t * Fx) :=
  Some (close_uart self fx).

Definition pause_source_reads (self : t) (e : Env) (fx : Fx) : option (t * Fx) :=
  if negb (bp_paused self) then Some (update_interest (set_bp_paused true self) fx)
  else Some (self, fx).

Definition resume_source_reads (self : t) (e : Env) (fx : Fx) : option (t * Fx) :=
  if bp_paused self then Some (update_interest (set_bp_paused false self) fx)
  else Some (self, fx).

End McuChannel.

#[export] Instance mcu_channel : Channel McuChannel.t := {
  channel_id := McuChannel.ch_id;
  on_frame := McuChannel.on_frame;
  on_link_connect := McuChannel.on_link_connect;
  on_link_disconnect := McuChannel.on_link_disconnect;
  tick := McuChannel.tick;
  next_deadline := McuChannel.next_deadline;
  handle_event := McuChannel.handle_event;
  close := McuChannel.close;
  pause_source_reads := McuChannel.pause_source_reads;
  resume_source_reads := McuChannel.resume_source_reads;
}.

(** ** What the far side is told *)

(** The state last announced by the frames: [Some true] after [F_READY],
    [Some false] after [F_FLUSH]. *)
Definition announce (a : option bool) (f : frame) : option bool :=
  if f.1.1 =? F_READY then Some true
  else if f.1.1 =? F_FLUSH then Some false
  else a.

Definition announced (fs : list frame) : option bool := fold_left announce fs None.

(** Data is only sent once the far side has been told that the MCU is ready. *)
Definition data_after_ready (fs : list frame) : Prop :=
  forall l1 f l2, fs = l1 ++ f :: l2 -> f.1.1 = F_DATA -> announced l1 = Some true.

Arguments announced : simpl never.

Lemma announced_snoc fs f : announced (fs ++ [f]) = announce (announced fs) f.
Proof. unfold announced. by rewrite fold_left_app. Qed.

Lemma data_after_ready_snoc fs f :
  data_after_ready fs -> (f.1.1 = F_DATA -> announced fs = Some true) ->
  data_after_ready (fs ++ [f]).
Proof.
  intros Hd Hf l1 g l2 E Hg. destruct l2 as [|x l2 _] using rev_ind.
  - apply app_inj_tail in E as [-> <-]. by apply Hf.
  - rewrite app_comm_cons, app_assoc in E. apply app_inj_tail in E as [-> ->].
    by eapply Hd.
Qed.

Module McuProofs.
Import McuChannel.

(** The invariant between the parts of a call, where the registration may lag. *)
Record core (s : t) (fx : Fx) : Prop := {
  core_id : 0 <= ch_id s <= MAX_CHANNEL_ID;
  core_sel : fd s = None -> fd_in_sel s = false;
  core_reg : forall f, fd s = Some f -> fd_in_sel s = false -> registered (fx_sys fx) f = None;
  core_idle : state s <> Active -> txbuf s = [];
  core_watch : state s = Active -> is_Some (last_rx s);
  core_told : link_up s = true ->
    announced (fx_tx fx) = Some (bool_decide (state s = Active));
  core_data : data_after_ready (fx_tx fx);
}.

(** The registration of the UART is what the state asks for. *)
Definition armed (s : t) (fx : Fx) : Prop :=
  forall f, fd s = Some f ->
    covers (bp_paused s) (txbuf s) (fd_in_sel s) (primary_token (ch_id s))
      (registered (fx_sys fx) f).

Definition inv (s : t) (fx : Fx) : Prop := core s fx /\ armed s fx.

(** What every operation leaves alone, or only extends. *)
Definition delta (s : t) (fx : Fx) (s' : t) (fx' : Fx) : Prop :=
  ch_id s' = ch_id s /\ bp_paused s' = bp_paused s /\ link_up s' = link_up s /\
  sent_by (ch_id s) (link_up s) fx fx'.

Lemma delta_trans s1 fx1 s2 fx2 s3 fx3 :
  delta s1 fx1 s2 fx2 -> delta s2 fx2 s3 fx3 -> delta s1 fx1 s3 fx3.
Proof.
  intros (I1 & B1 & L1 & S1) (I2 & B2 & L2 & S2). unfold delta.
  rewrite I2, B2, L2. rewrite I1, L1 in S2. repeat split; try done.
  by eapply sent_by_trans.
Qed.

Lemma delta_refl s fx s' fx' :
  ch_id s' = ch_id s -> bp_paused s' = bp_paused s -> link_up s' = link_up s ->
  fx_tx fx' = fx_tx fx -> delta s fx s' fx'.
Proof. intros. repeat split; try done. by apply sent_by_refl. Qed.

Lemma update_interest_inv s fx s' fx' :
  core s fx -> update_interest s fx = (s', fx') ->
  inv s' fx' /\ s' = set_fd_in_sel (fd_in_sel s') s /\ fx_tx fx' = fx_tx fx.
Proof.
  intros Hc. unfold update_interest. destruct (fd s) as [f|] eqn:Ef.
  - destruct (apply_interest _ _ _ _ _) as [sel fx1] eqn:Ea. intros [= <- <-].
    apply apply_interest_covers in Ea as [Etx Hcov]; [|intros; by eapply core_reg].
    destruct Hc as [Hid Hsel Hreg Hidle Hw Htold Hdata]. split; [split|].
    + constructor; cbn; rewrite ?Etx; try done.
      * by rewrite Ef.
      * intros g Hg ->. rewrite Ef in Hg. injection Hg as <-.
        unfold covers in Hcov. by destruct (registered _ f) as [[]|]; [destruct Hcov|].
    + intros g Hg. cbn in Hg |- *. by rewrite Ef in Hg; injection Hg as <-.
    + done.
  - intros [= <- <-]. split; [split; [done|]|].
    + intros g Hg. by rewrite Ef in Hg.
    + by destruct s.
Qed.

Lemma update_interest_delta s fx s' fx' :
  update_interest s fx = (s', fx') -> delta s fx s' fx'.
Proof.
  unfold update_interest, apply_interest. repeat case_match; intros [= <- <-]; simplify_eq;
    by apply delta_refl.
Qed.

Lemma transition_delta st s fx s' fx' :
  transition st s fx = (s', fx') -> delta s fx s' fx' /\ state s' = st.
Proof.
  unfold transition. case_bool_decide; [|destruct st]; intros [= <- <-];
    (split; [|done]); try (by apply delta_refl); repeat split; try apply sent_by_if;
    first [done | apply payload_fits_nil].
Qed.

Lemma close_uart_delta s fx s' fx' : close_uart s fx = (s', fx') -> delta s fx s' fx'.
Proof.
  unfold close_uart. destruct (fd s); [destruct (fd_in_sel s)|]; intros [= <- <-];
    by apply delta_refl.
Qed.

Lemma open_uart_delta s e fx s' fx' : open_uart s e fx = (s', fx') -> delta s fx s' fx'.
Proof.
  unfold open_uart. destruct (open_serial_fd _ _ _ _) as [[f|er] w]; [|intros [= <- <-]].
  - intros (I & B & L & S)%update_interest_delta. by repeat split.
  - by apply delta_refl.
Qed.

Lemma transition_inv st s fx s' fx' :
  inv s fx -> st <> Init -> (st = Active -> is_Some (last_rx s)) ->
  transition st s fx = (s', fx') -> inv s' fx'.
Proof.
  intros [Hc Ha] Hst Hlast. unfold transition. case_bool_decide as E.
  { by intros [= <- <-]. }
  pose proof Hc as [Hid Hsel Hreg Hidle Hw Htold Hdata]. unfold armed in Ha.
  destruct st; [done| |]; intros [= <- <-];
    (split; [constructor|]); unfold armed; cbn; rewrite ?fx_sys_if; try done.
  - intros ->. cbn. by rewrite announced_snoc.
  - destruct (link_up s); [by apply data_after_ready_snoc | done].
  - intros ->. cbn. by rewrite announced_snoc.
  - destruct (link_up s); [by apply data_after_ready_snoc | done].
  - intros f Hf. by eapply covers_cleared, Ha.
Qed.

Lemma core_sys s fx w : fd s = None -> core s fx -> core s (mkFx (fx_tx fx) w).
Proof. intros Hn [? ? ? ? ? ? ?]. constructor; try done. cbn. congruence. Qed.

Lemma open_uart_inv s e fx s' fx' :
  core s fx -> fd s = None -> open_uart s e fx = (s', fx') -> inv s' fx'.
Proof.
  intros Hc Hn. unfold open_uart.
  destruct (open_serial_fd _ _ _ _) as [[f|er] w] eqn:Eo;
    apply open_serial_fd_trace in Eo.
  - destruct Eo as (_ & Hf & _). intros Hu.
    eapply update_interest_inv in Hu as [Hinv _]; [done|].
    destruct Hc as [? ? ? ? ? ? ?]. constructor; cbn; try done. by intros g [= <-].
  - intros [= <- <-]. apply (core_sys s fx w Hn) in Hc. split.
    + destruct Hc as [? ? ? ? ? ? ?]. by constructor.
    + intros g Hg. cbn in Hg. congruence.
Qed.

Lemma close_uart_inv s fx s' fx' : core s fx -> close_uart s fx = (s', fx') -> inv s' fx'.
Proof.
  intros [? ? ? ? ? ? ?]. unfold close_uart. destruct (fd s) as [f|] eqn:Ef.
  - assert (fx_tx (if fd_in_sel s then reg_del fx f else fx) = fx_tx fx) as Etx
      by by case_match.
    intros [= <- <-]. split; [constructor|]; cbn; rewrite ?Etx; done.
  - intros [= <- <-]. split; [constructor|]; cbn; try done; [congruence|].
    intros g Hg. cbn in Hg. congruence.
Qed.

Lemma position_sync_spec data :
  match position_sync data with
  | Some i => exists pre post, data = pre ++ KLIPPER_SYNC :: post /\ i = zlen pre /\
                KLIPPER_SYNC ∉ pre
  | None => KLIPPER_SYNC ∉ data
  end.
Proof.
  induction data as [|b data IH]; cbn [position_sync]; [by apply not_elem_of_nil|].
  destruct (b =? KLIPPER_SYNC) eqn:E; zbool.
  - exists [], data. split; [by rewrite E|]. split; [done|]. apply not_elem_of_nil.
  - destruct (position_sync data) as [i|]; cbn.
    + destruct IH as (pre & post & -> & -> & Hp). exists (b :: pre), post.
      split; [done|]. split; [rewrite zlen_cons; lia|]. by apply not_elem_of_cons.
    + by apply not_elem_of_cons.
Qed.

Lemma inv_enqueue s fx f :
  inv s fx -> f.1.1 = F_DATA -> link_up s = true -> state s = Active ->
  inv s (enqueue fx f).
Proof.
  intros [[? ? ? ? ? Htold ?] Ha] Hf Hl Hs. split; [|done]. constructor; try done; cbn.
  - intros _. rewrite announced_snoc, Htold by done. unfold announce. by rewrite Hf.
  - apply data_after_ready_snoc; [done|]. intros _. by rewrite Htold, Hs.
Qed.

Lemma mcu_inv_last_rx s fx v :
  inv s fx -> inv (set_last_rx (Some v) s) fx.
Proof. intros [[? ? ? ? ? ? ?] Ha]. split; [by constructor | done]. Qed.

Lemma inv_reopen_at s fx v : inv s fx -> inv (set_reopen_at v s) fx.
Proof. intros [[? ? ? ? ? ? ?] Ha]. split; [by constructor | done]. Qed.

Lemma tell_data_inv s fx pl :
  inv s fx -> state s = Active ->
  inv s (if link_up s then enqueue fx (F_DATA, ch_id s, pl) else fx).
Proof. intros Hi Ha. destruct (link_up s) eqn:E; [by apply inv_enqueue | done]. Qed.

Lemma tell_data_delta s fx pl :
  payload_fits pl ->
  delta s fx s (if link_up s then enqueue fx (F_DATA, ch_id s, pl) else fx).
Proof. intros Hp. repeat split. by apply sent_by_if. Qed.

(** A call that panics nowhere, sends only its own frames, and keeps the
    invariant. *)
Definition good (s : t) (fx : Fx) (r : option (t * Fx)) : Prop :=
  exists s' fx', r = Some (s', fx') /\ delta s fx s' fx' /\ (inv s fx -> inv s' fx').

Lemma good_some s fx s' fx' :
  delta s fx s' fx' -> (inv s fx -> inv s' fx') -> good s fx (Some (s', fx')).
Proof. intros. by exists s', fx'. Qed.

Lemma good_same s fx : good s fx (Some (s, fx)).
Proof. apply good_some; [by apply delta_refl | done]. Qed.

Lemma good_bind s fx r k :
  good s fx r -> (forall s1 fx1, good s1 fx1 (k (s1, fx1))) -> good s fx (r ≫= k).
Proof.
  intros (s1 & fx1 & -> & Hd & Hi) Hk. cbn.
  destruct (Hk s1 fx1) as (s2 & fx2 & -> & Hd2 & Hi2).
  apply good_some; [by eapply delta_trans | auto].
Qed.

Lemma uart_read_sync s e fx data :
  state s <> Active -> payload_fits data ->
  let s0 := set_last_rx (Some (env_now e)) s in
  good s fx
    (match position_sync data with
     | Some i =>
         let '(self, fx) := transition Active s0 fx in
         if link_up self
         then s ← slice data i (zlen data); Some (self, enqueue fx (F_DATA, ch_id self, s))
         else Some (self, fx)
     | None => Some (s0, fx)
     end).
Proof.
  intros Ea Hfit s0. pose proof (position_sync_spec data) as Hp.
  destruct (position_sync data) as [i|];
    [|apply good_some; [by apply delta_refl | apply mcu_inv_last_rx]].
  destruct Hp as (pre & post & -> & -> & _).
  destruct (transition Active s0 fx) as [s1 fx1] eqn:Et.
  rewrite slice_suffix by (done || zl). cbn [mbind option_bind].
  pose proof (transition_delta _ _ _ _ _ Et) as [Hd Ha].
  assert (payload_fits (KLIPPER_SYNC :: post)) as Hpl by by eapply payload_fits_suffix.
  assert (inv s fx -> inv s1 fx1) as Hi.
  { intros Hi. apply (transition_inv Active s0 fx); [by apply mcu_inv_last_rx | done | | done].
    by eexists. }
  pose proof (tell_data_delta s1 fx1 _ Hpl) as Hd1.
  pose proof (fun H => tell_data_inv s1 fx1 (KLIPPER_SYNC :: post) (Hi H) Ha) as Hi1.
  destruct (link_up s1); apply good_some; try done. by eapply delta_trans.
Qed.

Lemma uart_read_good s e fx : env_ok e -> good s fx (uart_read s e fx).
Proof.
  intros He. unfold uart_read. destruct (fd s) as [f|]; [|by apply good_same].
  unfold read_nonblock. pose proof (env_read_ok e He) as Hr.
  destruct (env_read e) as [data|er].
  - destruct (zlen data =? 0); [by apply good_same|].
    assert (payload_fits data) as Hfit.
    { destruct Hr as [Hcap Hb]. unfold READ_BUF in Hcap. split; [unfold MAX_PAYLOAD; lia | done]. }
    cbn [state set_last_rx].
    pose proof (uart_read_sync s e fx data) as Hsync.
    destruct (state s) eqn:Ea; [by apply Hsync | | by apply Hsync].
    apply good_some.
    + apply (tell_data_delta (set_last_rx (Some (env_now e)) s)). done.
    + intros Hi. apply (mcu_inv_last_rx _ _ (env_now e)) in Hi. by apply tell_data_inv.
  - destruct (would_block er); [by apply good_same|].
    destruct (close_uart s fx) as [s1 fx1] eqn:Ec.
    destruct (transition Resetting s1 fx1) as [s2 fx2] eqn:Et. apply good_some.
    + eapply delta_trans; [by eapply close_uart_delta|].
      by destruct (transition_delta _ _ _ _ _ Et).
    + intros [Hc _]. apply inv_reopen_at. eapply (transition_inv Resetting s1 fx1);
        [by eapply close_uart_inv | done..].
Qed.

Lemma core_txbuf s fx v :
  core s fx -> (state s <> Active -> v = []) -> core (set_txbuf v s) fx.
Proof. intros [? ? ? ? ? ? ?] Hv. by constructor. Qed.

Lemma registered_write fx f d g :
  registered (fx_sys (syscall fx (WriteFd f d))) g = registered (fx_sys fx) g.
Proof. cbn. by autorewrite with zlist. Qed.

Lemma core_write s fx f d : core s fx -> core s (syscall fx (WriteFd f d)).
Proof.
  intros [? ? ? ? ? ? ?]. constructor; try done. intros. rewrite registered_write. eauto.
Qed.

Lemma good_update s fx s1 fx1 :
  delta s fx s1 fx1 -> (inv s fx -> core s1 fx1) -> good s fx (Some (update_interest s1 fx1)).
Proof.
  intros Hd Hc. destruct (update_interest s1 fx1) as [s2 fx2] eqn:Eu. apply good_some.
  - eapply delta_trans; [done|]. by eapply update_interest_delta.
  - intros Hi. by eapply update_interest_inv in Eu as [? _]; [|by apply Hc].
Qed.

(** [s0] before the payload of a frame was appended to [txbuf]. *)
Lemma uart_drain_good s0 fx0 s e fx :
  delta s0 fx0 s fx -> (inv s0 fx0 -> core s fx /\ (txbuf s = [] -> armed s fx)) ->
  env_ok e -> good s0 fx0 (uart_drain s e fx).
Proof.
  intros Hd Hi He. unfold uart_drain. destruct (fd s) as [f|] eqn:Ef.
  2: { apply good_some; [done|]. intros [Hc _]%Hi. split; [done|]. intros g Hg. congruence. }
  destruct (txbuf s) as [|b tx] eqn:Etx; cbn [is_empty].
  { apply good_some; [done|]. intros [Hc Ha]%Hi. split; [done | by apply Ha]. }
  assert (inv s0 fx0 -> core s fx /\ state s = Active) as Hact.
  { intros [Hc _]%Hi. split; [done|]. destruct (decide (state s = Active)) as [|n]; [done|].
    by rewrite (core_idle _ _ Hc n) in Etx. }
  unfold write_nonblock. pose proof (env_write_ok e He) as Hw.
  destruct (env_write e (b :: tx)) as [n|er] eqn:Ew.
  - apply Hw in Ew. destruct (n =? 0); [by apply good_update; [|intros [? _]%Hact]|].
    rewrite drain_front_eq by done. cbn [mbind option_bind].
    apply good_update; [done|]. intros [Hc Ha]%Hact.
    apply core_txbuf; [by apply core_write | done].
  - destruct (would_block er); cbn; [by apply good_update; [|intros [? _]%Hact]|].
    apply good_update; [done|]. intros [Hc Ha]%Hact. by apply core_txbuf.
Qed.

Definition link_after (i : input) (up : bool) : bool :=
  match i with InConnect => true | InDisconnect => false | _ => up end.

(** One call of the daemon, whatever it is. *)
Definition stepped (s : t) (i : input) (fx : Fx) (r : option (t * Fx)) : Prop :=
  exists s' fx', r = Some (s', fx') /\
    ch_id s' = ch_id s /\ bp_paused s' = paused_after i (bp_paused s) /\
    link_up s' = link_after i (link_up s) /\
    sent_by (ch_id s) (link_after i (link_up s)) fx fx' /\
    (inv s fx -> inv s' fx').

Lemma good_stepped s i fx r :
  good s fx r -> paused_after i (bp_paused s) = bp_paused s ->
  link_after i (link_up s) = link_up s -> stepped s i fx r.
Proof.
  intros (s' & fx' & -> & (I & B & L & S) & Hi) Hp Hl. exists s', fx'.
  rewrite Hp, Hl. done.
Qed.

(** The flag changes first, then the registration follows. *)
Lemma update_stepped s s1 i fx fx1 :
  ch_id s1 = ch_id s -> bp_paused s1 = paused_after i (bp_paused s) ->
  link_up s1 = link_after i (link_up s) -> fx_tx fx1 = fx_tx fx ->
  (inv s fx -> core s1 fx1) -> stepped s i fx (Some (update_interest s1 fx1)).
Proof.
  intros I B L T Hc. destruct (update_interest s1 fx1) as [s2 fx2] eqn:Eu.
  pose proof (update_interest_delta _ _ _ _ Eu) as (I2 & B2 & L2 & S2).
  exists s2, fx2. rewrite I2, B2, L2. split; [done|]. split; [done|]. split; [done|].
  split; [done|]. split.
  - rewrite <- L, <- I. eapply sent_by_trans; [by apply sent_by_refl | done].
  - intros Hi. by destruct (update_interest_inv _ _ _ _ (Hc Hi) Eu).
Qed.

Lemma mcu_connect s e fx : stepped s InConnect fx (chan_step s InConnect e fx).
Proof.
  cbn. unfold on_link_connect. cbn [state set_link_up].
  assert (forall ft, ft = F_READY /\ state s = Active \/ ft = F_FLUSH /\ state s <> Active ->
    stepped s InConnect fx (Some (set_link_up true s, enqueue fx (ft, ch_id s, [])))) as H.
  { intros ft Hft. eexists _, _. split; [done|]. cbn. split; [done|]. split; [done|].
    split; [done|]. split.
    { apply sent_by_enqueue; [|apply payload_fits_nil].
      by destruct Hft as [[-> _]|[-> _]]. }
    intros [[? ? ? ? ? ? ?] Ha]. split; [|done]. constructor; try done; cbn.
    - intros _. rewrite announced_snoc.
      destruct Hft as [[-> Hs]|[-> Hs]]; cbn; by case_bool_decide.
    - apply data_after_ready_snoc; [done|]. cbn. by destruct Hft as [[-> _]|[-> _]]. }
  case_bool_decide; apply H; auto.
Qed.

Lemma mcu_tick s now e fx : env_ok e -> stepped s (InTick now) fx (chan_step s (InTick now) e fx).
Proof.
  intros He.
  apply good_stepped; [|done..]. cbn. unfold tick.
  destruct (fd s) as [f|] eqn:Ef.
  + case_bool_decide; [|by apply good_same]. destruct (last_rx s); [|by apply good_same].
    destruct (RESET_SILENCE <? _); [|by apply good_same].
    destruct (transition Resetting s fx) as [s1 fx1] eqn:Et.
    apply good_some; [by destruct (transition_delta _ _ _ _ _ Et)|].
    intros Hi. by apply (transition_inv Resetting s fx).
  + destruct (match reopen_at s with None => false | Some at_ => at_ <=? now end);
      [|by apply good_same].
    destruct (open_uart (set_reopen_at None s) e fx) as [s1 fx1] eqn:Eo.
    apply good_some; [by apply open_uart_delta in Eo|].
    intros Hi. by eapply open_uart_inv; [apply inv_reopen_at| |].
Qed.

Lemma mcu_step s i e fx :
  env_ok e -> payload_ok i -> stepped s i fx (chan_step s i e fx).
Proof.
  intros He Hp. destruct i as [ft pl| | |now|tok r w| | |]; cbn [chan_step].
  - apply good_stepped; [|done..]. cbn. unfold on_frame.
    destruct (ft =? F_DATA); [|by apply good_same].
    do 2 case_bool_decide; cbn; try by apply good_same.
    apply uart_drain_good; [by apply delta_refl | | done]. intros [Hc Ha]. split.
    + by apply core_txbuf.
    + cbn. intros [Ht ->]%app_eq_nil. unfold armed. cbn. by rewrite app_nil_r.
  - exact (mcu_connect s e fx).
  - apply update_stepped; try done. intros [[? ? ? ? ? ? ?] _]. by constructor.
  - exact (mcu_tick s now e fx He).
  - apply good_stepped; [|done..]. cbn. unfold handle_event.
    apply good_bind.
    + destruct r; [by apply uart_read_good | by apply good_same].
    + intros s1 fx1. destruct w; [|by apply good_same].
      apply uart_drain_good; [by apply delta_refl | by intros [? ?] | done].
  - apply good_stepped; [|done..]. cbn. unfold close.
    destruct (close_uart s fx) as [s1 fx1] eqn:Ec.
    apply good_some; [by eapply close_uart_delta|]. intros [Hc _]. by eapply close_uart_inv.
  - cbn. unfold pause_source_reads. destruct (bp_paused s) eqn:E; cbn.
    + by apply good_stepped; [apply good_same | rewrite E |].
    + apply update_stepped; try done. intros [[? ? ? ? ? ? ?] _]. by constructor.
  - cbn. unfold resume_source_reads. destruct (bp_paused s) eqn:E; cbn.
    + apply update_stepped; try done. intros [[? ? ? ? ? ? ?] _]. by constructor.
    + by apply good_stepped; [apply good_same | rewrite E |].
Qed.

Lemma mcu_inv_new id dev baud e s fx :
  0 <= id <= MAX_CHANNEL_ID -> new id dev baud e fx0 = (s, fx) -> inv s fx.
Proof.
  intros Hid. unfold new. apply open_uart_inv; [|done]. constructor; try done.
  intros l1 f l2 E. by destruct l1.
Qed.

Lemma mcu_run id dev baud e0 h :
  0 <= id <= MAX_CHANNEL_ID -> Forall hist_ok h ->
  exists c fx, chan_run (new id dev baud e0 fx0).1 (new id dev baud e0 fx0).2 h = Some (c, fx) /\
    inv c fx.
Proof.
  intros Hid Hh. destruct (new id dev baud e0 fx0) as [c0 fx1] eqn:En.
  apply mcu_inv_new in En; [|done]. apply (chan_run_ind inv hist_ok); try done.
  intros c i e fx Hi [He Hp].
  destruct (mcu_step c i e fx He Hp) as (c' & fx' & -> & _ & _ & _ & _ & Hinv). eauto.
Qed.

(** C27: Whatever happens to it, the MCU channel never panics and tells the far
    side the truth: while the link is up the last [F_READY]/[F_FLUSH] it sent
    says whether the MCU is active, and every [F_DATA] frame it ever sent came
    after an [F_READY] not yet followed by an [F_FLUSH]. *)
Theorem mcu_announces id dev baud e0 h :
  0 <= id <= MAX_CHANNEL_ID -> Forall hist_ok h ->
  exists c fx, chan_run (new id dev baud e0 fx0).1 (new id dev baud e0 fx0).2 h = Some (c, fx) /\
    (link_up c = true -> announced (fx_tx fx) = Some (bool_decide (state c = Active))) /\
    data_after_ready (fx_tx fx).
Proof.
  intros Hid Hh. destruct (mcu_run id dev baud e0 h Hid Hh) as (c & fx & -> & [[? ? ? ? ? ? ?] _]).
  by exists c, fx.
Qed.

(** The UART is polled for exactly what the channel needs, after every
    history: an open UART is registered for reading if and only if reads are
    not paused, for writing whenever bytes wait for it, not registered at all
    only when paused with nothing to write; a closed one has no registration
    pending; and bytes wait only while the MCU is active. *)
Theorem mcu_registration id dev baud e0 h :
  0 <= id <= MAX_CHANNEL_ID -> Forall hist_ok h ->
  exists c fx, chan_run (new id dev baud e0 fx0).1 (new id dev baud e0 fx0).2 h = Some (c, fx) /\
    (forall f, fd c = Some f ->
       covers (bp_paused c) (txbuf c) (fd_in_sel c) (primary_token (ch_id c))
         (registered (fx_sys fx) f)) /\
    (fd c = None -> fd_in_sel c = false) /\
    (state c <> Active -> txbuf c = []).
Proof.
  intros Hid Hh. destruct (mcu_run id dev baud e0 h Hid Hh) as (c & fx & -> & [[? ? ? ? ? ? ?] Ha]).
  by exists c, fx.
Qed.

(** The bytes from the first sync byte on. *)
Fixpoint from_sync (data : list Z) : list Z :=
  match data with
  | [] => []
  | b :: data' => if b =? KLIPPER_SYNC then data else from_sync data'
  end.

Lemma from_sync_app pre post :
  KLIPPER_SYNC ∉ pre -> from_sync (pre ++ KLIPPER_SYNC :: post) = KLIPPER_SYNC :: post.
Proof.
  induction pre as [|b pre IH]; cbn [app from_sync]; [done|].
  intros [Hb Hp]%not_elem_of_cons. rewrite (proj2 (Z.eqb_neq _ _)) by congruence. auto.
Qed.

Lemma from_sync_none data : KLIPPER_SYNC ∉ data -> from_sync data = [].
Proof.
  induction data as [|b data IH]; cbn [from_sync]; [done|].
  intros [Hb Hp]%not_elem_of_cons. rewrite (proj2 (Z.eqb_neq _ _)) by congruence. auto.
Qed.

(** What a readable UART makes of the bytes read, in every state: an active
    MCU's bytes are forwarded whole; before that everything up to the first
    sync byte is discarded, and the sync byte makes the MCU active, which the
    far side learns before it gets the bytes; with the link down nothing is
    sent; and the silence clock is restarted. *)
Theorem mcu_forwards s e fx f data :
  fd s = Some f -> env_read e = Ok data -> data <> [] ->
  let active := bool_decide (state s = Active) in
  let payload := if active then data else from_sync data in
  exists s',
    uart_read s e fx = Some (s', mkFx
      (fx_tx fx ++
       (if link_up s && negb (is_empty payload)
        then (if active then [] else [(F_READY, ch_id s, [])]) ++ [(F_DATA, ch_id s, payload)]
        else []))
      (fx_sys fx)) /\
    last_rx s' = Some (env_now e) /\ fd s' = Some f /\ txbuf s' = txbuf s /\
    state s' = (if is_empty payload then state s else Active).
Proof.
  intros Hf Hr Hne. unfold uart_read. rewrite Hf, Hr. cbn [read_nonblock].
  destruct (zlen data =? 0) eqn:Ez; [by zbool; apply zlen_0_nil in Ez|]. cbn [state set_last_rx].
  pose proof (position_sync_spec data) as Hp.
  case_bool_decide as Ha; cbn zeta.
  - rewrite Ha. eexists. destruct data; [done|]. cbn [is_empty negb app]. cbn.
    rewrite andb_true_r. destruct fx, (link_up s); cbn; rewrite ?app_nil_r; done.
  - destruct (position_sync data) as [i|].
    + destruct Hp as (pre & post & -> & -> & Hpre). rewrite from_sync_app by done.
      rewrite slice_suffix by (done || zl). cbn [mbind option_bind is_empty negb].
      rewrite andb_true_r. unfold transition. cbn [state set_last_rx].
      rewrite bool_decide_eq_false_2 by congruence.
      destruct fx, (state s), (link_up s) eqn:El; try done; cbn; rewrite El; eexists; split;
        unfold enqueue; cbn; rewrite <- ?app_assoc, ?app_nil_r; done.
    + rewrite from_sync_none by done. cbn [is_empty negb]. rewrite andb_false_r, app_nil_r.
      destruct fx, (state s) eqn:Es; try done; by eexists.
Qed.

(** The deadline the channel reports is the moment its tick acts: before it
    a tick changes nothing; once it has passed, a tick of an open channel
    declares the silent MCU reset (flushing the host when the link is up and
    dropping what was waiting for the UART), and a tick of a closed one tries to
    open the UART and, should that fail, reports the next deadline. *)
Theorem mcu_deadline s now e fx d :
  next_deadline s = Some d ->
  (now < d -> tick s now e fx = Some (s, fx)) /\
  (d < now -> is_Some (fd s) ->
     exists s', tick s now e fx = Some (s',
         if link_up s then enqueue fx (F_FLUSH, ch_id s, []) else fx) /\
       state s' = Resetting /\ txbuf s' = [] /\ fd s' = fd s /\ next_deadline s' = None) /\
  (d <= now -> fd s = None ->
     exists s' fx', tick s now e fx = Some (s', fx') /\
       (is_Some (fd s') \/ next_deadline s' = Some (env_now e + REOPEN_DELAY))).
Proof.
  unfold next_deadline, tick. intros Hd. split; [|split].
  - intros Hlt. destruct (fd s) as [f|].
    + case_bool_decide; [|done]. destruct (last_rx s) as [l|]; [|done].
      injection Hd as <-. unfold duration_since. unfold RESET_SILENCE, secs in *. by zdecide.
    + rewrite Hd. by zdecide.
  - intros Hlt [f Ef]. rewrite Ef in *. case_bool_decide as Ha; [|done].
    destruct (last_rx s) as [l|]; [|done]. injection Hd as <-.
    unfold duration_since. unfold RESET_SILENCE, secs in *. zdecide.
    unfold transition. rewrite bool_decide_eq_false_2 by congruence.
    eexists. split; [reflexivity|]. cbn. by rewrite Ef.
  - intros Hle Ef. rewrite Ef in *. rewrite Hd. rewrite (proj2 (Z.leb_le _ _)) by lia.
    unfold open_uart. destruct (open_serial_fd _ _ _ _) as [[f|er] w].
    + unfold update_interest. cbn [fd set_fd set_fd_in_sel].
      destruct (apply_interest _ _ _ _ _). eexists _, _. split; [done|]. left. by eexists.
    + eexists _, _. split; [done|]. right. cbn. by rewrite Ef.
Qed.

Lemma update_interest_frame s fx s' fx' g :
  update_interest s fx = (s', fx') ->
  written (fx_sys fx') g = written (fx_sys fx) g /\ fx_tx fx' = fx_tx fx /\
  txbuf s' = txbuf s /\ state s' = state s /\ fd s' = fd s.
Proof.
  unfold update_interest, apply_interest, reg_add, reg_mod, reg_del.
  repeat case_match; intros [= <- <-]; simplify_eq; cbn; by autorewrite with zlist.
Qed.

(** Bytes for the UART are neither lost, repeated nor reordered by an
    [F_DATA] frame: what the UART has been given followed by what waits grows
    by exactly the payload, whatever part of it the write takes; only a failed
    write drops what waits, and without an open, active MCU the frame is
    ignored. *)
Theorem mcu_downlink s pl e fx :
  env_ok e ->
  exists s' fx', on_frame s F_DATA pl e fx = Some (s', fx') /\ fx_tx fx' = fx_tx fx /\
    match fd s, state s with
    | Some f, Active =>
        match env_write e (txbuf s ++ pl) with
        | Err er =>
            written (fx_sys fx') f = written (fx_sys fx) f /\
            txbuf s' = if would_block er then txbuf s ++ pl else []
        | Ok n =>
            written (fx_sys fx') f ++ txbuf s' = written (fx_sys fx) f ++ txbuf s ++ pl
        end
    | _, _ => s' = s /\ fx' = fx
    end.
Proof.
  intros He. unfold on_frame. cbn [Z.eqb F_DATA].
  destruct (fd s) as [f|] eqn:Ef; [|by exists s, fx].
  destruct (state s) eqn:Es; try by exists s, fx.
  cbn. unfold uart_drain.
  cbn [fd txbuf set_txbuf]. rewrite Ef. pose proof (env_write_ok e He) as Hw.
  destruct (txbuf s ++ pl) as [|b tx] eqn:Etx; cbn [is_empty].
  - eexists _, _. split; [reflexivity|]. split; [done|].
    destruct (env_write e []) as [n|er]; [done|]. cbn. by case_match.
  - unfold write_nonblock.
    assert (forall s1 fx1 (P : t -> Fx -> Prop),
      (forall s' fx', written (fx_sys fx') f = written (fx_sys fx1) f -> fx_tx fx' = fx_tx fx1 ->
         txbuf s' = txbuf s1 -> P s' fx') ->
      exists s' fx', Some (update_interest s1 fx1) = Some (s', fx') /\ P s' fx') as Hup.
    { intros s1 fx1 P HP. destruct (update_interest s1 fx1) as [s2 fx2] eqn:Eu.
      apply (update_interest_frame _ _ _ _ f) in Eu as (H1 & H2 & H3 & _).
      exists s2, fx2. split; [done|]. by apply HP. }
    destruct (env_write e (b :: tx)) as [n|er] eqn:Ew.
    + apply Hw in Ew. destruct (n =? 0) eqn:En.
      * by apply Hup; intros s' fx' -> -> ->.
      * rewrite drain_front_eq by done. cbn [mbind option_bind].
        apply Hup. intros s' fx' -> -> ->. cbn. autorewrite with zlist. cbn.
        rewrite Z.eqb_refl, <- app_assoc, ztake_zdrop. done.
    + destruct (would_block er); apply Hup; by intros s' fx' -> -> ->.
Qed.

(** While nobody calls [close], a closed UART has a time to be reopened at. *)
Definition will_reopen (s : t) : Prop := fd s = None -> is_Some (reopen_at s).

Definition same_fd (s s' : t) : Prop := fd s' = fd s /\ reopen_at s' = reopen_at s.

Lemma will_reopen_same s s' : same_fd s s' -> will_reopen s -> will_reopen s'.
Proof. unfold will_reopen. by intros [-> ->]. Qed.

Lemma update_interest_same s fx : same_fd s (update_interest s fx).1.
Proof. unfold update_interest, same_fd. by repeat case_match. Qed.

Lemma transition_same st s fx : same_fd s (transition st s fx).1.
Proof. unfold transition, same_fd. repeat case_match; done. Qed.

Lemma open_uart_reopens s e fx : fd s = None -> will_reopen (open_uart s e fx).1.
Proof.
  intros Hn. unfold open_uart, will_reopen. destruct (open_serial_fd _ _ _ _) as [[f|er] w].
  - pose proof (update_interest_same (set_fd_in_sel false (set_fd (Some f) s)) (mkFx (fx_tx fx) w))
      as [-> _]. done.
  - intros _. by eexists.
Qed.

Lemma uart_drain_same s e fx s' fx' : uart_drain s e fx = Some (s', fx') -> same_fd s s'.
Proof.
  unfold uart_drain. destruct (fd s); [|by intros [= <- <-]].
  destruct (is_empty (txbuf s)); [by intros [= <- <-]|].
  intros ([s1 fx1] & E & Hu)%bind_Some. injection Hu as Hu.
  assert (same_fd s s1) as [H1 H2].
  { destruct (write_nonblock _ _) as [n|]; [destruct (n =? 0)|]; simplify_eq; try done.
    apply bind_Some in E as (rest & _ & E). by simplify_eq. }
  pose proof (update_interest_same s1 fx1) as [H3 H4]. rewrite Hu in H3, H4.
  split; cbn in *; congruence.
Qed.

Lemma uart_read_reopens s e fx s' fx' :
  will_reopen s -> uart_read s e fx = Some (s', fx') -> will_reopen s'.
Proof.
  intros Hw. unfold uart_read. destruct (fd s) eqn:Ef; [|by intros [= <- <-]].
  destruct (read_nonblock _) as [[data|]|].
  - destruct (_ =? 0); [by intros [= <- <-]|].
    assert (forall st fx1, same_fd s (transition st (set_last_rx (Some (env_now e)) s) fx1).1)
      as Ht by (intros; apply (transition_same st (set_last_rx (Some (env_now e)) s))).
    specialize (Ht Active fx). cbn [state set_last_rx].
    destruct (state s); [|by intros [= <- <-]|].
    all: destruct (position_sync data); [|by intros [= <- <-]].
    all: destruct (transition _ _ _) as [s1 fx1]; cbn in Ht.
    all: destruct (link_up s1); [destruct (slice _ _ _); [|done]|]; cbn;
      intros [= <- <-]; by eapply will_reopen_same.
  - by intros [= <- <-].
  - destruct (close_uart s fx) as [s1 fx1]. destruct (transition Resetting s1 fx1).
    intros [= <- <-] _. by eexists.
Qed.

Lemma mcu_step_reopens s i e fx s' fx' :
  i <> InClose -> will_reopen s -> chan_step s i e fx = Some (s', fx') -> will_reopen s'.
Proof.
  intros Hi Hw. destruct i as [ft pl| | |now|tok r w| | |]; cbn; try done.
  - unfold on_frame. destruct (ft =? F_DATA); [|by intros [= <- <-]].
    case_match; [by intros [= <- <-]|]. intros E%uart_drain_same.
    by eapply will_reopen_same.
  - unfold on_link_connect. case_match; by intros [= <- <-].
  - unfold on_link_disconnect. intros [= E]. subst.
    pose proof (update_interest_same (set_txbuf [] (set_link_up false s)) fx) as Hs.
    rewrite E in Hs. by eapply will_reopen_same.
  - unfold tick. destruct (fd s) eqn:Ef.
    + repeat case_match; intros [= E]; simplify_eq; try done.
      pose proof (transition_same Resetting s fx) as Hs. rewrite E in Hs.
      by eapply will_reopen_same.
    + case_match; [|by intros [= <- <-]]. intros [= E].
      pose proof (open_uart_reopens (set_reopen_at None s) e fx Ef) as Hs. by rewrite E in Hs.
  - unfold handle_event.
    intros ([s1 fx1] & E & Hd)%bind_Some. assert (will_reopen s1).
    { destruct r; [by eapply uart_read_reopens|]. by simplify_eq. }
    destruct w; [|by simplify_eq]. apply uart_drain_same in Hd.
    by eapply will_reopen_same.
  - unfold pause_source_reads. case_match; [|by intros [= <- <-]]. intros [= E].
    pose proof (update_interest_same (set_bp_paused true s) fx) as Hs. rewrite E in Hs.
    by eapply will_reopen_same.
  - unfold resume_source_reads. case_match; [|by intros [= <- <-]]. intros [= E].
    pose proof (update_interest_same (set_bp_paused false s) fx) as Hs. rewrite E in Hs.
    by eapply will_reopen_same.
Qed.

(** A UART that could not be opened or that failed is always tried again:
    in every history in which nobody calls [close], a channel without an open
    UART has a deadline at which its tick reopens it. *)
Theorem mcu_reopens id dev baud e0 h :
  0 <= id <= MAX_CHANNEL_ID ->
  Forall (fun x => hist_ok x /\ x.1 <> InClose) h ->
  exists c fx, chan_run (new id dev baud e0 fx0).1 (new id dev baud e0 fx0).2 h = Some (c, fx) /\
    (fd c = None -> is_Some (next_deadline c)).
Proof.
  intros Hid Hh.
  destruct (chan_run_ind (fun c _ => will_reopen c) (fun x => hist_ok x /\ x.1 <> InClose))
    with (h := h) (c := (new id dev baud e0 fx0).1) (fx := (new id dev baud e0 fx0).2)
    as (c & fx & -> & Hw).
  - intros c i e fx Hw [[He Hp] Hi].
    destruct (mcu_step c i e fx He Hp) as (c' & fx' & E & _).
    exists c', fx'. split; [done|]. by eapply mcu_step_reopens.
  - by apply open_uart_reopens.
  - done.
  - exists c, fx. split; [done|]. unfold next_deadline. intros Hn. rewrite Hn. by apply Hw.
Qed.

(** ** The laws the daemon relies on *)

(** A new channel knows nothing of its MCU, and nothing waits for it. *)
Lemma new_idle id dev baud e fx : state (new id dev baud e fx).1 = Init /\
  txbuf (new id dev baud e fx).1 = [].
Proof.
  unfold new, open_uart. destruct (open_serial_fd _ _ _ _) as [[f|er] w]; [|done].
  destruct (update_interest _ _) as [s fx'] eqn:E.
  apply (update_interest_frame _ _ _ _ 0) in E as (_ & _ & Et & Es & _).
  cbn [fst]. by rewrite Et, Es.
Qed.

Lemma uart_drain_idle s e fx : txbuf s = [] -> uart_drain s e fx = Some (s, fx).
Proof. unfold uart_drain. intros ->. by destruct (fd s). Qed.

Lemma uart_read_empty s e fx s' fx' :
  txbuf s = [] -> uart_read s e fx = Some (s', fx') -> txbuf s' = [].
Proof.
  intros Ht. unfold uart_read, transition, close_uart. intros E.
  repeat (case_match; simplify_eq; try done); try (by apply bind_Some in E as (? & _ & [= <- _])).
Qed.

(** Nothing waits for the UART until a frame comes. *)
Lemma mcu_stays_empty s i e fx s' fx' :
  wakes i = false -> txbuf s = [] \/ i = InDisconnect ->
  chan_step s i e fx = Some (s', fx') -> txbuf s' = [].
Proof.
  assert (forall s1 fx1 s2 fx2, txbuf s1 = [] -> Some (update_interest s1 fx1) = Some (s2, fx2) ->
    txbuf s2 = []) as Hup.
  { intros s1 fx1 s2 fx2 Ht [= E]. apply (update_interest_frame _ _ _ _ 0) in E
      as (_ & _ & -> & _). done. }
  intros Hw Ht. destruct i as [ft pl| | |now|tok r w| | |]; try done; cbn.
  2-6: destruct Ht as [Ht|]; [|done].
  - by apply Hup.
  - unfold tick, transition, open_uart. intros E.
    repeat (case_match; simplify_eq; try done); by eapply Hup; [|by f_equal].
  - intros ([s1 fx1] & E1 & E)%bind_Some.
    assert (txbuf s1 = []) as Ht1.
    { destruct r; [by eapply uart_read_empty | by simplify_eq]. }
    destruct w; [rewrite uart_drain_idle in E by done|]; by simplify_eq.
  - unfold close, close_uart. case_match; by intros [= <- <-].
  - unfold pause_source_reads. case_match; [by apply Hup | by intros [= <- <-]].
  - unfold resume_source_reads. case_match; [by apply Hup | by intros [= <- <-]].
Qed.

#[global] Instance mcu_laws : ChannelLaws t.
Proof.
  refine {|
    ch_inv := fun s => 0 <= ch_id s <= MAX_CHANNEL_ID;
    ch_quiet := fun s => link_up s = false /\ txbuf s = [];
    ch_paused := bp_paused;
    ch_token := fun s tok => tok = primary_token (ch_id s);
  |}.
  - done.
  - intros c tok _ ->. by left.
  - intros c i e fx Hid He [Hp _].
    destruct (mcu_step c i e fx He Hp) as (c' & fx' & E & I & B & L & (sent & T & F & Q) & _).
    exists c', fx', sent. split; [done|]. split; [by rewrite I|]. do 4 (split; [done|]).
    intros Hw Hq. assert (link_after i (link_up c) = false) as Hl.
    { destruct Hq as [[Hq _] | ->]; [|done]. rewrite Hq. by destruct i. }
    rewrite L. split; [auto|]. split; [done|]. eapply mcu_stays_empty; [done| |exact E].
    destruct Hq as [[_ ?]|?]; auto.
  - intros c i e fx c' fx' tok _ _ _ Hid ->. cbn in Hid. by rewrite Hid.
Defined.

(** ** A run: sync, link, silence *)

Definition example_history : list (input * Env) :=
  [(InEvent 2 true false, sample_env 10 [1; 0x7E; 5]);
   (InConnect, sample_env 20 []);
   (InEvent 2 true false, sample_env 30 [6]);
   (InFrame F_DATA [8; 9], sample_env 40 [])].

Lemma example_history_ok : Forall (fun x => hist_ok x /\ x.1 <> InClose) example_history.
Proof.
  repeat apply Forall_cons_2; try apply Forall_nil_2; (split; [split|done]);
    try (apply sample_env_ok; [vm_compute; discriminate | solve_bytes]);
    try done; cbn; split; [vm_compute; discriminate | solve_bytes].
Qed.

Lemma example_hist_ok : Forall hist_ok example_history.
Proof. eapply Forall_impl; [apply example_history_ok|]. by intros x []. Qed.

Definition example_mcu : t * Fx := new 1 "/dev/ttyS0" 115200 (sample_env 0 []) fx0.

Lemma mcu_announces_witness :
  exists c fx, chan_run example_mcu.1 example_mcu.2 example_history = Some (c, fx) /\
    (link_up c = true -> announced (fx_tx fx) = Some (bool_decide (state c = Active))) /\
    data_after_ready (fx_tx fx).
Proof. apply mcu_announces; [done | apply example_hist_ok]. Defined.

Lemma mcu_registration_witness :
  exists c fx, chan_run example_mcu.1 example_mcu.2 example_history = Some (c, fx) /\
    (forall f, fd c = Some f ->
       covers (bp_paused c) (txbuf c) (fd_in_sel c) (primary_token (ch_id c))
         (registered (fx_sys fx) f)) /\
    (fd c = None -> fd_in_sel c = false) /\
    (state c <> Active -> txbuf c = []).
Proof. apply mcu_registration; [done | apply example_hist_ok]. Defined.

Lemma mcu_reopens_witness :
  exists c fx, chan_run example_mcu.1 example_mcu.2 example_history = Some (c, fx) /\
    (fd c = None -> is_Some (next_deadline c)).
Proof. apply mcu_reopens; [done | apply example_history_ok]. Defined.

Lemma mcu_forwards_witness :
  exists s', uart_read example_mcu.1 (sample_env 10 [1; 0x7E; 5]) example_mcu.2 =
    Some (s', mkFx [] (fx_sys example_mcu.2)) /\
    last_rx s' = Some 10 /\ fd s' = Some 7 /\ txbuf s' = [] /\ state s' = Active.
Proof.
  exact (mcu_forwards example_mcu.1 (sample_env 10 [1; 0x7E; 5]) example_mcu.2 7 [1; 0x7E; 5]
    eq_refl eq_refl ltac:(discriminate)).
Defined.

Definition active_mcu : t :=
  mk 1 "/dev/ttyS0" 115200 Active (Some 7) true [] (Some 10) None false true.

Lemma mcu_deadline_witness :
  next_deadline active_mcu = Some 5000000010 /\
  (5000000010 < 5000000011 -> is_Some (fd active_mcu) ->
   exists s', tick active_mcu 5000000011 (sample_env 0 []) fx0 =
      Some (s', enqueue fx0 (F_FLUSH, 1, [])) /\
     state s' = Resetting /\ txbuf s' = [] /\ fd s' = Some 7 /\ next_deadline s' = None).
Proof.
  split; [reflexivity|].
  apply (mcu_deadline active_mcu 5000000011 (sample_env 0 []) fx0 5000000010 eq_refl).
Defined.

Lemma mcu_downlink_witness :
  exists s' fx', on_frame active_mcu F_DATA [8; 9] (sample_env 0 []) fx0 = Some (s', fx') /\
    fx_tx fx' = [] /\ written (fx_sys fx') 7 ++ txbuf s' = [8; 9].
Proof.
  apply (mcu_downlink active_mcu [8; 9] (sample_env 0 []) fx0).
  apply sample_env_ok; [vm_compute; discriminate | solve_bytes].
Defined.
End McuProofs.
