(* ===== verification/McuSession.v ===== *)
(** * What the UART of an MCU is given

    While the MCU is active and the link is up, the bytes given to its UART and those
    that wait for it are the payloads of an unbroken run of [F_DATA] frames: the
    converse of the PTY's session ([Pty.v]), for the way from Klipper to the MCU. *)
From Stdlib Require Import ZArith Lia.
From stdpp Require Import base option numbers list strings.
From S2P Require Import Prelude Protocol Serial Chan Mcu.

Local Open Scope Z_scope.

Module McuSession.
Import McuChannel McuProofs.

(** The payload a call brings. *)
Definition brings (i : input) : list Z :=
  match i with InFrame ft pl => if ft =? F_DATA then pl else [] | _ => [] end.

Definition brought (h : list (input * Env)) : list Z := h ≫= fun x => brings x.1.

Lemma brought_app h1 h2 : brought (h1 ++ h2) = brought h1 ++ brought h2.
Proof. apply bind_app. Qed.

(** Bytes wait only for an active MCU, and an active MCU has its UART open. *)
Definition ready (s : t) : Prop :=
  (state s <> Active -> txbuf s = []) /\ (state s = Active -> is_Some (fd s)).

(** From [s] to [s'] the UART, if the MCU is active then, is given [data] to come
    after what it had been given and what waited for it. *)
Definition fed (s : t) (fx : Fx) (data : list Z) (s' : t) (fx' : Fx) : Prop :=
  (state s' <> Active -> txbuf s' = []) /\
  (state s' = Active -> exists f, fd s = Some f /\ fd s' = Some f /\
     written (fx_sys fx') f ++ txbuf s' = written (fx_sys fx) f ++ txbuf s ++ data).

Lemma fed_ready s fx data s' fx' : fed s fx data s' fx' -> ready s'.
Proof. intros [Hi Ha]. split; [done|]. intros (f & _ & -> & _)%Ha. by eexists. Qed.

Lemma fed_same s fx : ready s -> fed s fx [] s fx.
Proof. intros [Hi Ha]. split; [done|]. intros [f Ef]%Ha. exists f. by rewrite app_nil_r. Qed.

(** What leaves the UART's bytes, its descriptor and the state alone. *)
Lemma fed_frame s fx s' fx' :
  ready s -> state s' = state s -> fd s' = fd s -> txbuf s' = txbuf s ->
  (forall f, written (fx_sys fx') f = written (fx_sys fx) f) -> fed s fx [] s' fx'.
Proof.
  intros [Hi Ha] Es Ef Et Hw. unfold fed. rewrite Es, Ef, Et. split; [done|].
  intros [f E]%Ha. exists f. by rewrite Hw, app_nil_r.
Qed.

Lemma fed_idle s fx data s' fx' : state s' <> Active -> txbuf s' = [] -> fed s fx data s' fx'.
Proof. by split. Qed.

Lemma fed_update s fx s' fx' :
  ready s -> update_interest s fx = (s', fx') -> fed s fx [] s' fx'.
Proof.
  intros Hr E. assert (forall g, written (fx_sys fx') g = written (fx_sys fx) g) as Hw.
  { intros g. apply (update_interest_frame _ _ _ _ g E). }
  apply (update_interest_frame _ _ _ _ 0) in E as (_ & _ & ? & ? & ?). by apply fed_frame.
Qed.

(** ** The parts of a call *)

Lemma uart_drain_fed s e fx f s' fx' :
  fd s = Some f -> env_ok e -> soft_writes e -> uart_drain s e fx = Some (s', fx') ->
  state s' = state s /\ fd s' = Some f /\
  written (fx_sys fx') f ++ txbuf s' = written (fx_sys fx) f ++ txbuf s.
Proof.
  intros Ef He Hs. unfold uart_drain. rewrite Ef. pose proof (env_write_ok e He) as Hw.
  destruct (txbuf s) as [|b tx] eqn:Etx; cbn [is_empty]; [by intros [= <- <-]; rewrite Etx|].
  assert (forall s1 fx1, state s1 = state s -> fd s1 = Some f ->
    written (fx_sys fx1) f ++ txbuf s1 = written (fx_sys fx) f ++ b :: tx ->
    Some (update_interest s1 fx1) = Some (s', fx') ->
    state s' = state s /\ fd s' = Some f /\
    written (fx_sys fx') f ++ txbuf s' = written (fx_sys fx) f ++ b :: tx) as Hup.
  { intros s1 fx1 Es Ef1 E [= Eu]. apply (update_interest_frame _ _ _ _ f) in Eu
      as (-> & _ & -> & -> & ->). done. }
  unfold write_nonblock. destruct (env_write e (b :: tx)) as [n|er] eqn:Ew.
  - apply Hw in Ew. destruct (n =? 0); [by apply Hup; rewrite ?Etx|].
    rewrite drain_front_eq by done. cbn [mbind option_bind]. apply Hup; [done..|].
    cbn. autorewrite with zlist. cbn. by rewrite Z.eqb_refl, <- app_assoc, ztake_zdrop.
  - rewrite (Hs _ _ Ew). by apply Hup; rewrite ?Etx.
Qed.

Lemma fed_drain s fx s1 fx1 e s' fx' :
  fed s fx [] s1 fx1 -> env_ok e -> soft_writes e -> uart_drain s1 e fx1 = Some (s', fx') ->
  fed s fx [] s' fx'.
Proof.
  intros Hf He Hs Ed. destruct (decide (state s1 = Active)) as [Ha|Ha].
  - destruct (proj2 Hf Ha) as (f & Ef & Ef1 & E).
    destruct (uart_drain_fed _ _ _ _ _ _ Ef1 He Hs Ed) as (Es & Ef' & E').
    split; [congruence|]. intros _. exists f. by rewrite E'.
  - rewrite uart_drain_idle in Ed by by apply Hf. by injection Ed as <- <-.
Qed.

Lemma written_if (b : bool) fx f g :
  written (fx_sys (if b then enqueue fx g else fx)) f = written (fx_sys fx) f.
Proof. by destruct b. Qed.

Lemma fed_read s e fx s' fx' :
  ready s -> uart_read s e fx = Some (s', fx') -> fed s fx [] s' fx'.
Proof.
  intros Hr. unfold uart_read. destruct (fd s) as [f|] eqn:Ef;
    [|intros [= <- <-]; by apply fed_same].
  destruct (read_nonblock _) as [[data|]|].
  - destruct (_ =? 0); [intros [= <- <-]; by apply fed_same|].
    set (s0 := set_last_rx _ s).
    change (state s0) with (state s). destruct (state s) eqn:Es.
    2: { intros [= <- <-]. apply fed_frame; try done. intros g. apply written_if. }
    all: destruct (position_sync data); [|intros [= <- <-]; by apply fed_frame].
    all: unfold transition; change (state s0) with (state s); rewrite Es; case_bool_decide; [done|]; cbn.
    all: destruct (link_up s); [destruct (slice _ _ _); [|by intros [=]]|]; cbn; intros [= <- <-].
    all: split; [done|]; intros _; exists f; (split; [done|]); (split; [done|]); cbn;
      by rewrite app_nil_r.
  - intros [= <- <-]. by apply fed_same.
  - destruct (close_uart s fx) as [s1 fx1] eqn:Ec.
    destruct (transition Resetting s1 fx1) as [s2 fx2] eqn:Et. intros [= <- <-].
    assert (state s1 = state s /\ txbuf s1 = txbuf s) as [E1 E2].
    { revert Ec. unfold close_uart. rewrite Ef. by intros [= <- _]. }
    revert Et. unfold transition. rewrite E1. case_bool_decide as E; intros [= <- _]; cbn.
    + apply fed_idle; cbn; [congruence|]. rewrite E2. apply Hr. congruence.
    + by apply fed_idle.
Qed.

Lemma fed_tick s now e fx s' fx' :
  ready s -> tick s now e fx = Some (s', fx') -> fed s fx [] s' fx'.
Proof.
  intros Hr. unfold tick. destruct (fd s) as [f|] eqn:Ef.
  - case_bool_decide; [|intros [= <- <-]; by apply fed_same].
    destruct (last_rx s); [|intros [= <- <-]; by apply fed_same].
    destruct (_ <? _); [|intros [= <- <-]; by apply fed_same].
    unfold transition. case_bool_decide; intros [= <- <-]; [by apply fed_same | by apply fed_idle].
  - assert (state s <> Active) as Hn by (intros Ha; destruct (proj2 Hr Ha); congruence).
    destruct (match reopen_at s with None => false | Some _ => _ end);
      [|intros [= <- <-]; by apply fed_same].
    unfold open_uart. destruct (open_serial_fd _ _ _ _) as [[f|er] w].
    + intros [= E]. apply (update_interest_frame _ _ _ _ 0) in E as (_ & _ & Et & Es & _).
      apply fed_idle; [by rewrite Es | by rewrite Et; apply Hr].
    + intros [= <- <-]. apply fed_idle; [done | by apply Hr].
Qed.

Lemma fed_frame_in s ft pl e fx s' fx' :
  ready s -> env_ok e -> soft_writes e -> on_frame s ft pl e fx = Some (s', fx') ->
  fed s fx (if ft =? F_DATA then pl else []) s' fx'.
Proof.
  intros Hr He Hs. unfold on_frame. destruct (ft =? F_DATA); [|intros [= <- <-]; by apply fed_same].
  destruct (bool_decide (fd s = None) || _) eqn:Eg.
  - intros [= <- <-]. assert (state s <> Active) as Hn.
    { intros Ha. apply orb_true_iff in Eg as [E|E].
      - apply bool_decide_eq_true in E. destruct (proj2 Hr Ha). congruence.
      - apply negb_true_iff, bool_decide_eq_false in E. done. }
    by apply fed_idle, Hr.
  - apply orb_false_iff in Eg as [E1 E2]. apply bool_decide_eq_false in E1.
    apply negb_false_iff, bool_decide_eq_true in E2.
    destruct (fd s) as [f|] eqn:Ef; [|done]. intros Ed.
    destruct (uart_drain_fed (set_txbuf (txbuf s ++ pl) s) e fx f s' fx') as (Es & Ef' & E); try done.
    split; [intros Hn; by rewrite Es in Hn|]. intros _. by exists f.
Qed.

(** One call, whatever it is, other than the one that closes the channel. *)
Lemma mcu_step_fed s i e fx s' fx' :
  ready s -> env_ok e -> soft_writes e -> i <> InClose -> chan_step s i e fx = Some (s', fx') ->
  ready s' /\ txbuf s' = [] /\ link_up s' = false /\ fd s' = fd s \/ fed s fx (brings i) s' fx'.
Proof.
  intros Hr He Hs Hi. destruct i as [ft pl| | |now|tok r w| | |]; cbn [chan_step brings]; try done.
  - intros E. right. by eapply fed_frame_in.
  - intros E. right. cbn in E. unfold on_link_connect in E.
    case_bool_decide; injection E as <- <-; by apply fed_frame.
  - intros [= E]. left. pose proof E as E1.
    apply (update_interest_frame _ _ _ _ 0) in E1 as (_ & _ & Et & Es & Ef).
    split; [|split; [by rewrite Et | split; [|by rewrite Ef]]].
    + split; [by rewrite Et|]. rewrite Es, Ef. apply Hr.
    + pose proof (update_interest_delta _ _ _ _ E) as (_ & _ & Hl & _). by rewrite Hl.
  - intros E. right. by eapply fed_tick.
  - intros ([s1 fx1] & E1 & E)%bind_Some. right.
    assert (fed s fx [] s1 fx1) as Hf.
    { destruct r; [by eapply fed_read | injection E1 as <- <-; by apply fed_same]. }
    destruct w; [by eapply fed_drain | by injection E as <- <-].
  - intros E. right. cbn in E. unfold pause_source_reads in E.
    destruct (negb _); injection E as E; [|subst; by apply fed_same].
    by apply (fed_update (set_bp_paused true s)).
  - intros E. right. cbn in E. unfold resume_source_reads in E.
    destruct (bp_paused s); injection E as E; [|subst; by apply fed_same].
    by apply (fed_update (set_bp_paused false s)).
Qed.

(** ** Histories *)

(** A moment at which nothing waits for the UART: the MCU is not active, or the
    link is down. *)
Definition at_rest (s : t) : Prop :=
  txbuf s = [] /\ (state s <> Active \/ link_up s = false).

Definition undisturbed (x : input * Env) : Prop :=
  hist_ok x /\ soft_writes x.2 /\ x.1 <> InClose.

Lemma new_ready id dev baud e fx : ready (new id dev baud e fx).1.
Proof. unfold ready. destruct (new_idle id dev baud e fx) as [-> ->]. done. Qed.

Lemma new_rest id dev baud e fx : at_rest (new id dev baud e fx).1.
Proof. unfold at_rest. destruct (new_idle id dev baud e fx) as [-> ->]. split; [done | by left]. Qed.

(** After a history that started at rest, an active MCU's UART has been given, since
    some moment of rest, the payloads of the frames since then, but for what still
    waits. *)
Lemma mcu_session s fx h :
  ready s -> at_rest s -> Forall undisturbed h ->
  exists s' fx', chan_run s fx h = Some (s', fx') /\ ready s' /\
    (state s' = Active -> exists h1 h2 s1 fx1 f,
       h = h1 ++ h2 /\ chan_run s fx h1 = Some (s1, fx1) /\ at_rest s1 /\
       fd s1 = Some f /\ fd s' = Some f /\
       written (fx_sys fx') f ++ txbuf s' = written (fx_sys fx1) f ++ brought h2).
Proof.
  intros Hr Hrest. induction h as [|[i e] h IH] using rev_ind; intros Hh.
  { exists s, fx. split; [done|]. split; [done|]. intros [f Ef]%Hr.
    exists [], [], s, fx, f. cbn. rewrite (proj1 Hrest). done. }
  apply Forall_app in Hh as [Hh ([He Hp] & Hs & Hi)%Forall_singleton]. cbn [fst snd] in *.
  destruct (IH Hh) as (s1 & fx1 & E1 & Hr1 & Hall).
  destruct (mcu_step s1 i e fx1 He Hp) as (s2 & fx2 & E2 & _).
  assert (chan_run s fx (h ++ [(i, e)]) = Some (s2, fx2)) as E.
  { rewrite chan_run_app, E1. cbn. by rewrite E2. }
  exists s2, fx2. split; [done|].
  destruct (mcu_step_fed s1 i e fx1 s2 fx2 Hr1 He Hs Hi E2) as [(Hr2 & Ht & Hl & Hf)|Hfed].
  - split; [done|]. intros [f Ef]%Hr2. exists (h ++ [(i, e)]), [], s2, fx2, f.
    rewrite app_nil_r, Ht. split; [done|]. split; [done|]. split; [by split; [|right]|]. done.
  - split; [by eapply fed_ready|]. intros (f & Ef1 & Ef2 & Ew)%Hfed.
    destruct (decide (state s1 = Active)) as [Ha|Hn].
    + destruct (Hall Ha) as (h1 & h2 & s0 & fx0 & g & -> & E0 & Hr0 & Ef0 & Eg & Ew0).
      assert (g = f) as -> by congruence.
      exists h1, (h2 ++ [(i, e)]), s0, fx0, f. rewrite <- app_assoc. do 5 (split; [done|]).
      rewrite Ew, app_assoc, Ew0, brought_app, <- app_assoc. cbn. by rewrite app_nil_r.
    + pose proof (proj1 Hr1 Hn) as Ht. exists h, [(i, e)], s1, fx1, f.
      split; [done|]. split; [done|]. split; [by split; [|left]|]. split; [done|]. split; [done|].
      rewrite Ew, Ht. cbn. by rewrite app_nil_r.
Qed.

End McuSession.
