(* ===== verification/Pty.v ===== *)
(** * The host's PTY channel ([PtyChannel] of [serialmux-rs/src/channel.rs])

    The PTY exists while the far side says the MCU is ready: [F_READY] opens it,
    [F_FLUSH] and any change of the link close it. *)
From Stdlib Require Import ZArith Lia.
From stdpp Require Import base option numbers list strings.
From S2P Require Import Prelude Protocol TxQueue Serial Chan Mcu.

Local Open Scope Z_scope.

Module PtyChannel.

Record t := mk {
  ch_id : Z;
  symlink : string;
  baud : Z;
  master_fd : option RawFd;
  slave_fd : option RawFd;
  master_in_sel : bool;
  txbuf : list Z;
  bp_paused : bool;
}.

Definition set_fds m sl (s : t) := mk (ch_id s) (symlink s) (baud s) m sl
  (master_in_sel s) (txbuf s) (bp_paused s).
Definition set_master_in_sel v (s : t) := mk (ch_id s) (symlink s) (baud s)
  (master_fd s) (slave_fd s) v (txbuf s) (bp_paused s).
Definition set_txbuf v (s : t) := mk (ch_id s) (symlink s) (baud s)
  (master_fd s) (slave_fd s) (master_in_sel s) v (bp_paused s).
Definition set_bp_paused v (s : t) := mk (ch_id s) (symlink s) (baud s)
  (master_fd s) (slave_fd s) (master_in_sel s) (txbuf s) v.

Definition remove_symlink (self : t) (fx : Fx) : Fx :=
  syscall fx (RemoveFile (symlink self)).

Definition update_interest (self : t) (fx : Fx) : t * Fx :=
  match master_fd self with
  | None => (self, fx)
  | Some f =>
      let interest := wanted_interest (bp_paused self) (txbuf self) in
      let token := primary_token (ch_id self) in
      let '(sel, fx) := apply_interest interest (master_in_sel self) f token fx in
      (set_master_in_sel sel self, fx)
  end.

Definition close_fd (fx : Fx) (fd : RawFd) : Fx := syscall fx (CloseFd fd).

Definition open_pty (self : t) (e : Env) (fx : Fx) : t * Fx :=
  match master_fd self with
  | Some _ => (self, fx)
  | None =>
      let '(r, w) := open_pty_raw (env_serial e) (baud self) (fx_sys fx) in
      let fx := mkFx (fx_tx fx) w in
      match r with
      | Ok (master, slave) =>
          match pty_slave_name (env_serial e) slave with
          | Ok slave_path =>
              let fx := remove_symlink self fx in
              match env_symlink e with
              | Err _ => (self, close_fd (close_fd fx master) slave)
              | Ok _ =>
                  let fx := syscall fx (Symlink slave_path (symlink self)) in
                  let self := set_fds (Some master) (Some slave) self in
                  update_interest (set_master_in_sel false self) fx
              end
          | Err _ => (self, close_fd (close_fd fx master) slave)
          end
      | Err _ => (self, fx)
      end
  end.

Definition close_pty (self : t) (fx : Fx) : t * Fx :=
  let fx :=
    match master_fd self with
    | Some fd => close_fd (if master_in_sel self then reg_del fx fd else fx) fd
    | None => fx
    end in
  let fx := match slave_fd self with Some fd => close_fd fx fd | None => fx end in
  let self := set_txbuf [] (set_master_in_sel false (set_fds None None self)) in
  (self, remove_symlink self fx).

Definition pty_drain (self : t) (e : Env) (fx : Fx) : option (t * Fx) :=
  match master_fd self with
  | None => Some (self, fx)
  | Some f =>
      if is_empty (txbuf self) then Some (self, fx)
      else
        '(self, fx) ← (match write_nonblock (env_write e) (txbuf self) with
             | Ok n =>
                 if n =? 0 then Some (self, fx)
                 else
                   rest ← drain_front (txbuf self) n;
                   Some (set_txbuf rest self,
                         syscall fx (WriteFd f (ztake n (txbuf self))))
             | Err _ => Some (set_txbuf [] self, fx)
             end);
        Some (update_interest self fx)
  end.

Definition new (ch_id : Z) (symlink : string) (baud : Z) (fx : Fx) : t * Fx :=
  let ch := mk ch_id symlink baud None None false [] false in
  (ch, remove_symlink ch fx).

Definition on_frame (self : t) (ftype : Z) (payload : list Z) (e : Env) (fx : Fx)
  : option (t * Fx) :=
  if ftype =? F_FLUSH then Some (close_pty self fx)
  else if ftype =? F_READY then Some (open_pty self e fx)
  else if ftype =? F_DATA then
    match master_fd self with
    | Some _ => pty_drain (set_txbuf (txbuf self ++ payload) self) e fx
    | None => Some (self, fx)
    end
  else Some (self, fx).

Definition on_link_connect (self : t) (e : Env) (fx : Fx) : option (t * Fx) :=
  Some (close_pty self fx).

Definition on_link_disconnect (self : t) (e : Env) (fx : Fx) : option (t * Fx) :=
  Some (close_pty self fx).

Definition tick (self : t) (now : Z) (e : Env) (fx : Fx) : option (t * Fx) :=
  Some (self, fx).

Definition next_deadline (self : t) : option Z := None.

Definition pty_read (self : t) (e : Env) (fx : Fx) : t * Fx :=
  match read_nonblock (env_read e) with
  | Ok (Some data) =>
      if 0 <? zlen data then (self, enqueue fx (F_DATA, ch_id self, data)) else (self, fx)
  | Err er => if bool_decide (er = EIO) then close_pty self fx else (self, fx)
  | Ok None => (self, fx)
  end.

Definition handle_event (self : t) (token : Z) (readable writable : bool) (e : Env) (fx : Fx)
  : option (t * Fx) :=
  if readable then
    match master_fd self with
    | None => Some (self, fx)
    | Some fd =>
        let '(self, fx) := pty_read self e fx in
        if writable then pty_drain self e fx else Some (self, fx)
    end
  else if writable then pty_drain self e fx else Some (self, fx).

Definition close (self : t) (e : Env) (fx : Fx) : option (t * Fx) :=
  Some (close_pty self fx).

Definition pause_source_reads (self : t) (e : Env) (fx : Fx) : option (t * Fx) :=
  if negb (bp_paused self) then Some (update_interest (set_bp_paused true self) fx)
  else Some (self, fx).

Definition resume_source_reads (self : t) (e : Env) (fx : Fx) : option (t * Fx) :=
  if bp_paused self then Some (update_interest (set_bp_paused false self) fx)
  else Some (self, fx).

End PtyChannel.

#[export] Instance pty_channel : Channel PtyChannel.t := {
  channel_id := PtyChannel.ch_id;
  on_frame := PtyChannel.on_frame;
  on_link_connect := PtyChannel.on_link_connect;
  on_link_disconnect := PtyChannel.on_link_disconnect;
  tick := PtyChannel.tick;
  next_deadline := PtyChannel.next_deadline;
  handle_event := PtyChannel.handle_event;
  close := PtyChannel.close;
  pause_source_reads := PtyChannel.pause_source_reads;
  resume_source_reads := PtyChannel.resume_source_reads;
}.

Module PtyProofs.
Import PtyChannel.

Definition is_open (s : t) : bool := bool_decide (is_Some (master_fd s)).

(** The invariant between the parts of a call, where the registration may lag. *)
Record core (s : t) (fx : Fx) : Prop := {
  core_pair :
    match master_fd s, slave_fd s with
    | None, None => master_in_sel s = false /\ txbuf s = []
    | Some m, Some _ => master_in_sel s = false -> registered (fx_sys fx) m = None
    | _, _ => False
    end;
  core_link : link_present (fx_sys fx) (symlink s) = is_open s;
}.

Definition armed (s : t) (fx : Fx) : Prop :=
  forall m, master_fd s = Some m ->
    covers (bp_paused s) (txbuf s) (master_in_sel s) (primary_token (ch_id s))
      (registered (fx_sys fx) m).

Definition inv (s : t) (fx : Fx) : Prop := core s fx /\ armed s fx.

(** The channel holds exactly the descriptors the trace left open. *)
Definition owned (s : t) (fx : Fx) : Prop :=
  open_fds (fx_sys fx) =
    match master_fd s, slave_fd s with Some m, Some sl => [m; sl] | _, _ => [] end.

(** [o]: [None] while the PTY is closed, else the bytes for this session. *)
Definition session (s : t) (fx : Fx) (o : option (list Z)) : Prop :=
  match o with
  | None => master_fd s = None
  | Some b => exists m, master_fd s = Some m /\ written (fx_sys fx) m ++ txbuf s = b
  end.

(** The parts of the state no operation changes. *)
Definition same_id (s s' : t) : Prop :=
  ch_id s' = ch_id s /\ symlink s' = symlink s /\ baud s' = baud s.

Lemma update_interest_spec s fx s' fx' :
  update_interest s fx = (s', fx') ->
  s' = set_master_in_sel (master_in_sel s') s /\ fx_tx fx' = fx_tx fx /\
  open_fds (fx_sys fx') = open_fds (fx_sys fx) /\
  (forall m, written (fx_sys fx') m = written (fx_sys fx) m) /\
  (forall p, link_present (fx_sys fx') p = link_present (fx_sys fx) p) /\
  (core s fx -> inv s' fx').
Proof.
  unfold update_interest. destruct (master_fd s) as [m|] eqn:Em.
  - destruct (apply_interest _ _ _ _ _) as [sel fx1] eqn:Ea. intros [= <- <-].
    assert (open_fds (fx_sys fx1) = open_fds (fx_sys fx) /\
      (forall m, written (fx_sys fx1) m = written (fx_sys fx) m) /\
      (forall p, link_present (fx_sys fx1) p = link_present (fx_sys fx) p)) as (Ho & Hw & Hl).
    { unfold apply_interest, reg_add, reg_mod, reg_del in Ea.
      repeat case_match; injection Ea as <- <-; repeat split; intros; cbn;
        by autorewrite with zlist. }
    split; [done|]. split.
    { unfold apply_interest in Ea. by repeat case_match; simplify_eq. }
    do 3 (split; [done|]). intros [Hp Hlk]. rewrite Em in Hp.
    destruct (slave_fd s) as [sl|] eqn:Esl; [|done].
    apply apply_interest_covers in Ea as [_ Hc]; [|done]. split; [constructor|].
    + cbn. rewrite Em, Esl. intros ->. unfold covers in Hc.
      by destruct (registered _ m) as [[]|]; [destruct Hc|].
    + cbn. by rewrite Hl.
    + intros g Hg. cbn in Hg |- *. congruence.
  - intros [= <- <-]. split; [by destruct s|]. do 4 (split; [done|]).
    intros Hc. split; [done|]. intros m Hm. congruence.
Qed.

Lemma close_pty_spec s fx s' fx' :
  close_pty s fx = (s', fx') ->
  s' = set_txbuf [] (set_master_in_sel false (set_fds None None s)) /\
  fx_tx fx' = fx_tx fx /\ inv s' fx' /\ (owned s fx -> owned s' fx').
Proof.
  unfold close_pty. intros [= <- <-]. split; [done|].
  split; [by repeat case_match|]. split.
  - split; [constructor; cbn|intros m; done]; [done|].
    autorewrite with zlist. cbn. by rewrite String.eqb_refl.
  - unfold owned, remove_symlink, close_fd, reg_del, syscall. cbn.
    destruct (master_fd s) as [m|], (slave_fd s) as [sl|], (master_in_sel s); cbn;
      autorewrite with zlist; cbn; intros ->; rewrite ?filter_cons, ?filter_nil; repeat (case_decide; rewrite ?filter_cons, ?filter_nil); done.
Qed.

(** The system gives a whole PTY or none. *)
Definition no_half_open (e : Env) (baud : Z) : Prop :=
  forall w er w', open_pty_raw (env_serial e) baud w = (Err er, w') ->
    exists er', sys_openpty (env_serial e) = Err er'.

(** The system grants a PTY, its name and the symlink. *)
Definition will_open (e : Env) (baud : Z) : Prop :=
  (forall w, exists m sl w', open_pty_raw (env_serial e) baud w = (Ok (m, sl), w')) /\
  (exists p, sys_readlink (env_serial e) = Ok p) /\ env_symlink e = Ok tt.

Lemma open_pty_frame s e fx s' fx' :
  open_pty s e fx = (s', fx') ->
  fx_tx fx' = fx_tx fx /\ same_id s s' /\ bp_paused s' = bp_paused s /\
  (is_Some (master_fd s) -> s' = s /\ fx' = fx).
Proof.
  unfold open_pty. destruct (master_fd s) as [m0|]; [by intros [= <- <-]|].
  assert (forall P : Prop, (is_Some (@None RawFd) -> P)) as Hn by (intros P [? [=]]).
  destruct (open_pty_raw _ _ _) as [[[m sl]|er] w]; [|by intros [= <- <-]].
  destruct (pty_slave_name _ _); [|by intros [= <- <-]].
  destruct (env_symlink e); [|by intros [= <- <-]].
  intros (Es & Ht & _)%update_interest_spec. rewrite Es, Ht.
  split; [done|]. split; [done|]. split; [done|]. apply Hn.
Qed.

(** Failing after the PTY exists: both descriptors are closed again. *)
Lemma abandon_pty s fx w m sl :
  core s fx -> master_fd s = None ->
  link_present w (symlink s) = false -> open_fds w = open_fds (fx_sys fx) ++ [m; sl] ->
  let fx' := close_fd (close_fd (mkFx (fx_tx fx) w) m) sl in
  core s fx' /\ (owned s fx -> owned s fx').
Proof.
  intros [Hp Hl] Hm Hlw Ho fx'. rewrite Hm in Hp. destruct (slave_fd s) eqn:Esl; [done|].
  unfold close_fd in fx'. split; [constructor|].
  - by rewrite Hm, Esl.
  - unfold is_open. rewrite Hm. cbn. by autorewrite with zlist.
  - unfold owned. rewrite Hm. cbn. autorewrite with zlist. cbn. rewrite Ho. intros ->. cbn [app].
    rewrite ?filter_cons, ?filter_nil; repeat (case_decide; rewrite ?filter_cons, ?filter_nil); done.
Qed.

Lemma armed_closed s fx : master_fd s = None -> armed s fx.
Proof. intros Hm m. by rewrite Hm. Qed.

Lemma open_pty_spec s e fx s' fx' :
  open_pty s e fx = (s', fx') -> inv s fx ->
  inv s' fx' /\
  (no_half_open e (baud s) -> owned s fx -> owned s' fx') /\
  (master_fd s = None -> will_open e (baud s) -> session s' fx' (Some [])).
Proof.
  unfold open_pty. intros Hs [Hc Ha]. destruct (master_fd s) as [m0|] eqn:Em.
  { by injection Hs as <- <-. }
  pose proof (core_link _ _ Hc) as Hlp. unfold is_open in Hlp. rewrite Em in Hlp.
  cbn in Hlp.
  destruct (open_pty_raw _ _ _) as [[[m sl]|er] w] eqn:Eo;
    pose proof (open_pty_raw_trace _ _ _ _ _ Eo) as [Hl Ht].
  - destruct Ht as (Ho & Hr & Hw). rewrite <- Hl in Hlp.
    destruct (pty_slave_name _ _) as [path|] eqn:Ep.
    2: { destruct (abandon_pty s fx w m sl Hc Em Hlp Ho) as [H1 H2]. injection Hs as <- <-.
         split; [split; [done | by apply armed_closed]|]. split; [done|].
         intros _ (_ & [p Hp] & _). unfold pty_slave_name in Ep. congruence. }
    destruct (env_symlink e) as [[]|] eqn:Esym.
    2: { set (w1 := fx_sys (remove_symlink s (mkFx (fx_tx fx) w))) in *.
         destruct (abandon_pty s fx w1 m sl Hc Em) as [H1 H2].
         { cbn. autorewrite with zlist. cbn. by rewrite String.eqb_refl. }
         { subst w1. cbn. by autorewrite with zlist. }
         injection Hs as <- <-. split; [split; [done | by apply armed_closed]|].
         split; [done|]. intros _ (_ & _ & ?). congruence. }
    apply update_interest_spec in Hs as (Es & _ & Ho' & Hw' & _ & Hi).
    assert (inv s' fx') as Hinv.
    { apply Hi. constructor; cbn; autorewrite with zlist; cbn; [done|].
      by rewrite String.eqb_refl. }
    split; [done|]. rewrite Es. unfold owned, session. cbn. split.
    + intros _. rewrite Em. rewrite Ho'. cbn. autorewrite with zlist. cbn. rewrite Ho.
      by intros ->.
    + intros _ _. exists m. split; [done|]. rewrite Hw'. cbn. autorewrite with zlist. cbn.
      rewrite Hw. destruct Hc as [Hp _]. rewrite Em in Hp. destruct (slave_fd s); [done|]. by destruct Hp as [_ ->].
  - injection Hs as <- <-. split; [split; [|by apply armed_closed]|].
    + destruct Hc as [Hp _]. constructor; cbn.
      * rewrite Em in *. by destruct (slave_fd s).
      * rewrite Hl. unfold is_open. by rewrite Em.
    + split.
      * intros Hno. destruct (Hno _ _ _ Eo) as [er' Her]. rewrite Her in Ht. by subst w.
      * intros _ [Hwo _]. destruct (Hwo (fx_sys fx)) as (m & sl & w' & E). congruence.
Qed.

(** What a call does, [o] being the session before it and [o'] after. *)
Record effect (s : t) (e : Env) (fx : Fx) (o' : option (list Z) -> option (list Z))
  (s' : t) (fx' : Fx) : Prop := {
  eff_id : same_id s s';
  eff_inv : inv s fx -> inv s' fx';
  eff_owned : inv s fx -> no_half_open e (baud s) -> owned s fx -> owned s' fx';
  eff_session : inv s fx -> will_open e (baud s) -> soft_writes e ->
    forall o, session s fx o -> session s' fx' (o' o);
}.

Lemma effect_same s e fx : effect s e fx id s fx.
Proof. by constructor. Qed.

Lemma effect_ext s e fx f g s' fx' :
  effect s e fx f s' fx' -> (forall o, f o = g o) -> effect s e fx g s' fx'.
Proof. intros [? ? ? Hs] Hfg. constructor; try done. intros ? ? ? o Ho. rewrite <- Hfg. auto. Qed.

Lemma effect_enqueue s e fx f : effect s e fx id s (enqueue fx f).
Proof. constructor; try done. intros [[? ?] ?]. split; [by constructor | done]. Qed.

Lemma same_id_trans s1 s2 s3 : same_id s1 s2 -> same_id s2 s3 -> same_id s1 s3.
Proof. unfold same_id. intros (-> & -> & ->) (-> & -> & ->). done. Qed.

Lemma effect_trans s1 fx1 s2 fx2 s3 fx3 e f g :
  effect s1 e fx1 f s2 fx2 -> effect s2 e fx2 g s3 fx3 ->
  effect s1 e fx1 (fun o => g (f o)) s3 fx3.
Proof.
  intros [I1 V1 O1 S1] [I2 V2 O2 S2]. assert (baud s2 = baud s1) as Hb by apply I1.
  constructor; [by eapply same_id_trans | auto | |]; rewrite Hb in *; auto.
Qed.

(** Registering anew changes neither descriptors nor session. *)
Lemma update_interest_effect s0 fx0 e f s fx s' fx' :
  update_interest s fx = (s', fx') -> same_id s0 s ->
  (inv s0 fx0 -> core s fx) ->
  (owned s0 fx0 -> owned s fx) ->
  (soft_writes e -> forall o, session s0 fx0 o -> session s fx (f o)) ->
  effect s0 e fx0 f s' fx' /\ fx_tx fx' = fx_tx fx /\ bp_paused s' = bp_paused s /\
  master_fd s' = master_fd s.
Proof.
  intros (Es & Ht & Ho & Hw & _ & Hi)%update_interest_spec Hid Hc Hown Hs.
  split; [constructor|].
  - by rewrite Es.
  - auto.
  - intros _ _. rewrite Es. unfold owned in *. cbn. by rewrite Ho.
  - intros _ _ Hsoft o Ho'. apply Hs in Ho'; [|done]. rewrite Es. unfold session in *. cbn.
    destruct (f o); [|done]. destruct Ho' as (m & ? & ?). exists m. by rewrite Hw.
  - by rewrite Es.
Qed.

Lemma close_pty_effect s e fx s' fx' :
  close_pty s fx = (s', fx') ->
  effect s e fx (fun _ => None) s' fx' /\ fx_tx fx' = fx_tx fx /\
  bp_paused s' = bp_paused s /\ master_fd s' = None.
Proof. intros (-> & Ht & Hi & Ho)%close_pty_spec. split; [by constructor | done]. Qed.

Lemma close_pty_done s e fx : exists s' fx',
  close_pty s fx = (s', fx') /\ effect s e fx (fun _ => None) s' fx' /\
  fx_tx fx' = fx_tx fx /\ bp_paused s' = bp_paused s /\ master_fd s' = None.
Proof.
  destruct (close_pty s fx) as [s' fx'] eqn:E. exists s', fx'. split; [done|].
  by apply close_pty_effect.
Qed.

Lemma open_pty_done s e fx : exists s' fx',
  open_pty s e fx = (s', fx') /\
  effect s e fx (fun o => Some (default [] o)) s' fx' /\
  fx_tx fx' = fx_tx fx /\ bp_paused s' = bp_paused s.
Proof.
  destruct (open_pty s e fx) as [s' fx'] eqn:E. exists s', fx'. split; [done|].
  pose proof (open_pty_frame _ _ _ _ _ E) as (Ht & Hid & Hb & Hsame).
  split; [|done]. pose proof (open_pty_spec _ _ _ _ _ E) as H. constructor; [done|..].
  - intros Hi. by apply H.
  - intros Hi. by apply H.
  - intros Hi Hw _ [b|] Hs; [|by apply H]. destruct Hsame as [-> ->]; [|done].
    destruct Hs as (m & -> & _). by eexists.
Qed.

(** The payload [pl] was just appended to [txbuf]. *)
Lemma pty_drain_done s0 fx0 e f s fx :
  env_ok e -> same_id s0 s ->
  (inv s0 fx0 -> core s fx /\ (txbuf s = [] -> armed s fx)) ->
  (owned s0 fx0 -> owned s fx) ->
  (forall o, session s0 fx0 o -> session s fx (f o)) ->
  exists s' fx', pty_drain s e fx = Some (s', fx') /\ effect s0 e fx0 f s' fx' /\
    fx_tx fx' = fx_tx fx /\ bp_paused s' = bp_paused s /\ master_fd s' = master_fd s.
Proof.
  intros He Hid Hc Ho Hs. unfold pty_drain. destruct (master_fd s) as [m|] eqn:Em.
  2: { exists s, fx. split; [done|]. split; [|done]. constructor; [done | | auto | auto].
       intros [Hcore _]%Hc. split; [done | by apply armed_closed]. }
  destruct (txbuf s) as [|b tx] eqn:Etx; cbn [is_empty].
  { exists s, fx. split; [done|]. split; [|done]. constructor; [done | | auto | auto].
    intros [Hcore Ha]%Hc. split; [done | by apply Ha]. }
  assert (inv s0 fx0 -> core s fx) as Hcore by (intros H; by apply Hc).
  assert (forall v fx1, core s fx1 -> core (set_txbuf v s) fx1) as Hset.
  { intros v fx1 [Hp Hl]. constructor; [|done]. cbn. rewrite Em in *. by destruct (slave_fd s). }
  assert (forall s1 fx1,
    same_id s s1 -> bp_paused s1 = bp_paused s -> master_fd s1 = Some m ->
    fx_tx fx1 = fx_tx fx -> (core s fx -> core s1 fx1) -> (owned s fx -> owned s1 fx1) ->
    (soft_writes e -> forall o, session s fx o -> session s1 fx1 o) ->
    exists s' fx', Some (update_interest s1 fx1) = Some (s', fx') /\
      effect s0 e fx0 f s' fx' /\ fx_tx fx' = fx_tx fx /\
      bp_paused s' = bp_paused s /\ master_fd s' = Some m) as Hup.
  { intros s1 fx1 Hid1 Hb1 Hm1 Ht1 Hc1 Ho1 Hs1.
    destruct (update_interest s1 fx1) as [s' fx'] eqn:Eu. exists s', fx'. split; [done|].
    rewrite <- Ht1, <- Hb1, <- Hm1.
    apply (update_interest_effect s0 fx0 e f _ _ _ _ Eu); auto.
    by eapply same_id_trans. }
  unfold write_nonblock. pose proof (env_write_ok e He) as Hw.
  destruct (env_write e (b :: tx)) as [n|er] eqn:Ew.
  - apply Hw in Ew. destruct (n =? 0); [by apply Hup|].
    rewrite drain_front_eq by done. cbn [mbind option_bind]. apply Hup; try done.
    + intros [Hp Hl]. apply Hset. constructor; cbn; autorewrite with zlist; [|done].
      rewrite Em in *. destruct (slave_fd s); [|done]. by autorewrite with zlist.
    + unfold owned. cbn. by autorewrite with zlist.
    + intros _ [c|]; [|done]. intros (m' & Hm' & <-). exists m'. split; [done|].
      rewrite Em in Hm'. injection Hm' as <-. cbn. autorewrite with zlist. cbn.
      rewrite Z.eqb_refl, <- app_assoc, ztake_zdrop. by rewrite Etx.
  - destruct (would_block er) eqn:Eb; cbn; [by apply Hup|].
    apply Hup; try done; [by apply Hset|]. intros Hsoft. apply Hsoft in Ew. congruence.
Qed.

Definition eio (r : io (list Z)) : bool := match r with Err EIO => true | _ => false end.

(** The session the far side and the reader of the PTY have asked for. *)
Definition session_step (i : input) (e : Env) (o : option (list Z)) : option (list Z) :=
  match i with
  | InFrame ft pl =>
      if ft =? F_FLUSH then None
      else if ft =? F_READY then Some (default [] o)
      else if ft =? F_DATA then (fun b => b ++ pl) <$> o
      else o
  | InConnect | InDisconnect | InClose => None
  | InEvent _ readable _ => if readable && eio (env_read e) then None else o
  | InTick _ | InPause | InResume => o
  end.

Definition stepped (s : t) (i : input) (e : Env) (fx : Fx) (r : option (t * Fx)) : Prop :=
  exists s' fx' sent, r = Some (s', fx') /\
    effect s e fx (session_step i e) s' fx' /\
    bp_paused s' = paused_after i (bp_paused s) /\
    fx_tx fx' = fx_tx fx ++ sent /\
    Forall (frame_of (ch_id s)) sent /\
    (wakes i = false -> master_fd s = None \/ i = InDisconnect ->
       sent = [] /\ master_fd s' = None).

Lemma silent_stepped s i e fx s' fx' :
  effect s e fx (session_step i e) s' fx' ->
  fx_tx fx' = fx_tx fx -> bp_paused s' = paused_after i (bp_paused s) ->
  (wakes i = true \/ master_fd s' = None \/
   i <> InDisconnect /\ master_fd s' = master_fd s) ->
  stepped s i e fx (Some (s', fx')).
Proof.
  intros He Ht Hb Hm. exists s', fx', []. split; [done|]. split; [done|]. split; [done|].
  split; [by rewrite app_nil_r|]. split; [done|]. intros Hw Hq. split; [done|].
  destruct Hm as [? | [? | [? ?]]]; [congruence | done |]. destruct Hq; congruence.
Qed.

Lemma close_stepped s i e fx :
  (forall o, session_step i e o = None) -> paused_after i (bp_paused s) = bp_paused s ->
  stepped s i e fx (Some (close_pty s fx)).
Proof.
  intros Hs Hp. destruct (close_pty_done s e fx) as (s' & fx' & -> & He & Ht & Hb & Hm).
  apply silent_stepped; [|congruence..|auto]. by eapply effect_ext.
Qed.

Lemma pty_pause_stepped s i e fx v :
  (i = InPause /\ v = true) \/ (i = InResume /\ v = false) ->
  stepped s i e fx (Some (update_interest (set_bp_paused v s) fx)).
Proof.
  intros Hi. destruct (update_interest (set_bp_paused v s) fx) as [s' fx'] eqn:Eu.
  apply (update_interest_effect s fx e id) in Eu as (He & Ht & Hb & Hm); try done.
  - apply silent_stepped.
    + by destruct Hi as [[-> _]|[-> _]].
    + done.
    + rewrite Hb. by destruct Hi as [[-> ->]|[-> ->]].
    + right. right. rewrite Hm. split; [|done]. by destruct Hi as [[-> _]|[-> _]].
  - intros [[? ?] _]. by constructor.
Qed.

(** A readable master: data for the link, or the end of the reader. *)
Lemma pty_read_done s e fx m tok w :
  env_ok e -> master_fd s = Some m ->
  exists s' fx' sent, pty_read s e fx = (s', fx') /\
    effect s e fx (session_step (InEvent tok true w) e) s' fx' /\
    bp_paused s' = bp_paused s /\
    fx_tx fx' = fx_tx fx ++ sent /\ Forall (frame_of (ch_id s)) sent.
Proof.
  intros He Hm. unfold pty_read, read_nonblock. pose proof (env_read_ok e He) as Hr.
  assert (forall (o' : option (list Z) -> option (list Z)) s' fx',
    effect s e fx o' s' fx' -> (forall o, o' o = if eio (env_read e) then None else o) ->
    effect s e fx (session_step (InEvent tok true w) e) s' fx') as Hext.
  { intros. by eapply effect_ext. }
  destruct (env_read e) as [data|er]; cbn [eio] in Hext.
  - destruct (0 <? zlen data).
    + eexists _, _, [_]. split; [reflexivity|].
      split; [by eapply Hext; [apply effect_enqueue|]|].
      split; [done|]. split; [done|]. apply Forall_singleton. split; [done|]. split; [done|].
      destruct Hr as [Hl Hb]. split; [|done]. unfold READ_BUF, MAX_PAYLOAD in *. cbn. lia.
    + exists s, fx, []. rewrite app_nil_r. split; [done|].
      by split; [eapply Hext; [apply effect_same|]|].
  - destruct (would_block er) eqn:Eb.
    + exists s, fx, []. rewrite app_nil_r. split; [done|].
      split; [|done]. eapply Hext; [apply effect_same|]. intros o. by destruct er.
    + case_bool_decide as Ee.
      * subst er. destruct (close_pty_done s e fx) as (s' & fx' & -> & Hc & Ht & Hb & _).
        exists s', fx', []. rewrite app_nil_r. split; [done|]. split; [by eapply Hext|]. done.
      * exists s, fx, []. rewrite app_nil_r. split; [done|].
        split; [|done]. eapply Hext; [apply effect_same|]. intros o. by destruct er.
Qed.

Lemma pty_on_frame s ft pl e fx :
  env_ok e -> stepped s (InFrame ft pl) e fx (chan_step s (InFrame ft pl) e fx).
Proof.
  intros He. cbn. unfold on_frame.
  destruct (ft =? F_FLUSH) eqn:E1.
  { destruct (close_pty_done s e fx) as (s' & fx' & -> & Hc & Ht & Hb & Hm).
    apply silent_stepped; try done; [|by left]. eapply effect_ext; [exact Hc|].
    intros o. cbn. by rewrite E1. }
  destruct (ft =? F_READY) eqn:E2.
  { destruct (open_pty_done s e fx) as (s' & fx' & -> & Hc & Ht & Hb).
    apply silent_stepped; try done; [|by left]. eapply effect_ext; [exact Hc|].
    intros o. cbn. by rewrite E1, E2. }
  assert (forall f s' fx', effect s e fx f s' fx' ->
    (forall o, f o = if ft =? F_DATA then (fun b => b ++ pl) <$> o else o) ->
    effect s e fx (session_step (InFrame ft pl) e) s' fx') as Hext.
  { intros f s' fx' Hf Hfo. eapply effect_ext; [exact Hf|]. intros o. cbn. by rewrite E1, E2. }
  destruct (ft =? F_DATA).
  2: { apply silent_stepped; try done; [|by left].
       by eapply Hext; [apply effect_same|]. }
  destruct (master_fd s) as [m|] eqn:Em.
  + destruct (pty_drain_done s fx e (fmap (fun b => b ++ pl)) (set_txbuf (txbuf s ++ pl) s) fx)
      as (s' & fx' & -> & Hc & Ht & Hb & Hm); try done.
    * intros [[Hp Hl] Ha]. split.
      -- constructor; [|done]. cbn. rewrite Em in *. by destruct (slave_fd s).
      -- cbn. intros [Hnil ->]%app_eq_nil. intros m0. cbn. rewrite app_nil_r. apply Ha.
    * intros [b|]; [|by cbn; rewrite Em]. intros (m' & Hm' & <-). exists m'.
      by rewrite <- app_assoc.
    * apply silent_stepped; try done; [|by left]. by eapply Hext.
  + apply silent_stepped; try done; [|by left].
    apply (Hext (fmap (fun b => b ++ pl))); [|done]. constructor; [done|done|done|]. intros _ _ _ [b|]; [|done]. intros (m' & Hm' & _).
    congruence.
Qed.

Lemma pty_handle_event s tok r w e fx :
  env_ok e -> stepped s (InEvent tok r w) e fx (chan_step s (InEvent tok r w) e fx).
Proof.
  intros He. cbn. unfold handle_event. destruct r.
  + destruct (master_fd s) as [m|] eqn:Em.
    2: { apply silent_stepped; [|done|done|by right; left].
         constructor; [done|done|done|]. intros _ _ _ [b|]; [intros (m' & ? & _); congruence|].
         intros _. cbn. by case_match. }
    destruct (pty_read_done s e fx m tok w He Em) as (s1 & fx1 & sent & -> & H1 & Hb1 & Ht1 & Hf).
    assert (exists s' fx', (if w then pty_drain s1 e fx1 else Some (s1, fx1)) = Some (s', fx') /\
      effect s1 e fx1 id s' fx' /\ fx_tx fx' = fx_tx fx1 /\ bp_paused s' = bp_paused s1)
      as (s' & fx' & -> & H2 & Ht2 & Hb2).
    { destruct w.
      - destruct (pty_drain_done s1 fx1 e id s1 fx1) as (s' & fx' & -> & H2 & Ht2 & Hb2 & _);
          try done; [by intros [? ?]|]. eauto 10.
      - exists s1, fx1. by split; [|split; [apply effect_same|]]. }
    exists s', fx', sent. split; [done|]. split; [exact (effect_trans _ _ _ _ _ _ _ _ _ H1 H2)|].
    split; [by rewrite Hb2|]. split; [by rewrite Ht2|]. split; [done|].
    intros _ [Hq|Hq]; [|done]. congruence.
  + destruct w.
    * destruct (pty_drain_done s fx e id s fx) as (s' & fx' & -> & H2 & Ht2 & Hb2 & Hm2);
        try done; [by intros [? ?]|]. apply silent_stepped; [done..|auto].
    * apply silent_stepped; [apply effect_same | done | done | by right; right].
Qed.

Lemma pty_step s i e fx : env_ok e -> stepped s i e fx (chan_step s i e fx).
Proof.
  intros He. destruct i as [ft pl| | |now|tok r w| | |]; cbn [chan_step].
  - exact (pty_on_frame s ft pl e fx He).
  - by apply close_stepped.
  - by apply close_stepped.
  - cbn. apply silent_stepped; [apply effect_same | done | done | by right; right].
  - exact (pty_handle_event s tok r w e fx He).
  - by apply close_stepped.
  - cbn. unfold pause_source_reads. destruct (bp_paused s) eqn:E; cbn.
    + apply silent_stepped; [apply effect_same | done | done | by right; right].
    + apply pty_pause_stepped. auto.
  - cbn. unfold resume_source_reads. destruct (bp_paused s) eqn:E; cbn.
    + apply pty_pause_stepped. auto.
    + apply silent_stepped; [apply effect_same | done | done | by right; right].
Qed.

Definition session_run (h : list (input * Env)) (o : option (list Z)) : option (list Z) :=
  fold_left (fun o x => session_step x.1 x.2 o) h o.

Definition start (id : Z) (link : string) (baud : Z) : t * Fx := new id link baud fx0.

Lemma start_inv id link b :
  let '(s, fx) := start id link b in inv s fx /\ owned s fx /\ session s fx None.
Proof.
  cbn. split; [|done]. split; [constructor; cbn; [done|]|intros m; done].
  autorewrite with zlist. cbn. by rewrite String.eqb_refl.
Qed.

(** One induction serves the three theorems: [P] holds of the environments. *)
Lemma pty_run s fx h o :
  inv s fx -> Forall (fun x => env_ok x.2) h ->
  exists s' fx', chan_run s fx h = Some (s', fx') /\ inv s' fx' /\ same_id s s' /\
    (Forall (fun x => no_half_open x.2 (baud s)) h -> owned s fx -> owned s' fx') /\
    (Forall (fun x => will_open x.2 (baud s) /\ soft_writes x.2) h ->
       session s fx o -> session s' fx' (session_run h o)).
Proof.
  revert s fx o. induction h as [|[i e] h IH]; intros s fx o Hi He.
  { exists s, fx. done. }
  apply Forall_cons in He as [He Hh]. cbn [chan_run].
  destruct (pty_step s i e fx He) as (s1 & fx1 & sent & -> & [Hid Hinv Hown Hses] & _).
  cbn [mbind option_bind].
  destruct (IH s1 fx1 (session_step i e o) (Hinv Hi) Hh) as (s' & fx' & -> & Hi' & Hid' & Ho' & Hs').
  exists s', fx'. split; [done|]. split; [done|].
  assert (baud s1 = baud s) as Hb by apply Hid. rewrite Hb in *.
  split; [by eapply same_id_trans|]. split.
  - intros [Hn Hns]%Forall_cons. auto.
  - intros [[Hw Hsoft] Hws]%Forall_cons Hs. cbn. auto.
Qed.

(** C28: Whatever happens to it, the PTY channel never panics; its master and
    slave are open together or not at all; the symlink Klipper opens exists
    exactly while they are; an open master is polled for reading if and only if
    reads are not paused and for writing whenever bytes wait; and nothing waits
    for a closed PTY. *)
Theorem pty_lifecycle id link b h :
  Forall (fun x => env_ok x.2) h ->
  exists c fx, chan_run (start id link b).1 (start id link b).2 h = Some (c, fx) /\
    (is_Some (slave_fd c) <-> is_Some (master_fd c)) /\
    link_present (fx_sys fx) link = bool_decide (is_Some (master_fd c)) /\
    (master_fd c = None -> txbuf c = [] /\ master_in_sel c = false) /\
    (forall m, master_fd c = Some m ->
       covers (bp_paused c) (txbuf c) (master_in_sel c) (primary_token (ch_id c))
         (registered (fx_sys fx) m)).
Proof.
  intros He. pose proof (start_inv id link b) as H. destruct (start id link b) as [s0 fx1] eqn:Es.
  destruct H as (Hi & _ & _). cbn [fst snd].
  destruct (pty_run s0 fx1 h None Hi He) as (c & fx & -> & [[Hp Hl] Ha] & Hid & _).
  exists c, fx. split; [done|]. assert (symlink c = link) as Hlink.
  { destruct Hid as (_ & -> & _). unfold start, new in Es. by injection Es as <- _. }
  rewrite Hlink in Hl. unfold is_open in Hl. unfold armed in Ha.
  destruct (master_fd c), (slave_fd c); try done.
  destruct Hp. repeat split; try done; by intros [? [=]].
Qed.

(** No descriptor leaks: as long as the system never gives a PTY whose
    terminal cannot be set up, the descriptors opened and not closed are exactly
    the master and slave the channel holds, after every history. *)
Theorem pty_no_leak id link b h :
  Forall (fun x => env_ok x.2 /\ no_half_open x.2 b) h ->
  exists c fx, chan_run (start id link b).1 (start id link b).2 h = Some (c, fx) /\
    open_fds (fx_sys fx) =
      match master_fd c, slave_fd c with Some m, Some sl => [m; sl] | _, _ => [] end.
Proof.
  intros [He Hn]%Forall_and. pose proof (start_inv id link b) as (Hi & Ho & _).
  destruct (pty_run _ _ h None Hi He) as (c & fx & E & _ & _ & Hown & _).
  exists c, fx. split; [exact E|]. by apply Hown.
Qed.

(** Without that assumption descriptors do leak: when [openpty] succeeds and
    [tcsetattr] fails, each [F_READY] frame leaves two more descriptors open
    while the channel stays closed. *)
Theorem pty_leaks_on_termios_error id link b e m sl er h :
  env_ok e -> sys_openpty (env_serial e) = Ok (m, sl) ->
  sys_tcsetattr (env_serial e) = Err er ->
  Forall (fun x => x = (InFrame F_READY [], e)) h ->
  exists c fx, chan_run (start id link b).1 (start id link b).2 h = Some (c, fx) /\
    master_fd c = None /\ slave_fd c = None /\
    length (open_fds (fx_sys fx)) = (2 * length h)%nat.
Proof.
  intros He Ho Ht Hh.
  assert (forall s fx, master_fd s = None -> slave_fd s = None ->
    exists fx', chan_run s fx h = Some (s, fx') /\
      length (open_fds (fx_sys fx')) = (length (open_fds (fx_sys fx)) + 2 * length h)%nat) as Hrun.
  { clear He. induction Hh as [|x h -> Hh IH]; intros s fx Hm Hs.
    - exists fx. cbn. split; [done | lia].
    - cbn [chan_run chan_step on_frame pty_channel]. unfold PtyChannel.on_frame. cbn [Z.eqb F_READY F_FLUSH].
      cbn. unfold open_pty. rewrite Hm.
      destruct (open_pty_raw (env_serial e) (baud s) (fx_sys fx)) as [r w] eqn:Eo.
      pose proof (open_pty_raw_trace _ _ _ _ _ Eo) as [_ Hf]. rewrite Ho in Hf.
      assert (exists er', r = Err er') as [er' ->].
      { unfold open_pty_raw, apply_termios in Eo. rewrite Ho, Ht in Eo.
        repeat case_match; simplify_eq; eauto. }
      cbn. destruct (IH s (mkFx (fx_tx fx) w) Hm Hs) as (fx' & -> & Hl).
      exists fx'. split; [done|]. rewrite Hl. cbn [fx_sys]. rewrite Hf, length_app. cbn. lia. }
  destruct (Hrun (start id link b).1 (start id link b).2) as (fx' & E & Hl); try done.
  eexists _, fx'. split; [exact E|]. split; [done|]. split; [done|]. rewrite Hl. done.
Qed.

(** The PTY channel implements its contract: with a system that grants PTYs
    and writes that fail only for want of room, after every history the PTY is
    open exactly when the last frame that decides it says so, and the bytes
    given to the current master followed by those waiting for it are the
    payloads of the [F_DATA] frames since it was opened, in order. *)
Theorem pty_refines_session id link b h :
  Forall (fun x => env_ok x.2 /\ will_open x.2 b /\ soft_writes x.2) h ->
  exists c fx, chan_run (start id link b).1 (start id link b).2 h = Some (c, fx) /\
    match session_run h None with
    | None => master_fd c = None
    | Some bytes =>
        exists m, master_fd c = Some m /\ written (fx_sys fx) m ++ txbuf c = bytes
    end.
Proof.
  intros [He Hn]%Forall_and. pose proof (start_inv id link b) as (Hi & _ & Hs).
  destruct (pty_run _ _ h None Hi He) as (c & fx & E & _ & _ & _ & Hses).
  exists c, fx. split; [exact E|]. by apply Hses.
Qed.

(** ** The two ends of the link together *)

(** The session a sequence of frames amounts to. *)
Definition heard (fs : list frame) : option (list Z) :=
  session_run (map (fun f => (frame_input f, sample_env 0 [])) fs) None.

Lemma session_run_heard fs (h : list (input * Env)) o :
  h.*1 = map frame_input fs ->
  session_run h o = session_run (map (fun f => (frame_input f, sample_env 0 [])) fs) o.
Proof.
  revert h o. induction fs as [|f fs IH]; intros [|[i e] h] o; try done.
  cbn. intros [= -> E]. unfold session_run in *. cbn. by rewrite IH.
Qed.

Lemma heard_snoc fs f :
  heard (fs ++ [f]) = session_step (frame_input f) (sample_env 0 []) (heard fs).
Proof. unfold heard, session_run. by rewrite map_app, fold_left_app. Qed.

Lemma heard_announced fs : is_Some (heard fs) <-> announced fs = Some true.
Proof.
  induction fs as [|f fs IH] using rev_ind; [by split; [intros [? ?]|]|].
  rewrite heard_snoc, announced_snoc. unfold announce. cbn.
  destruct (f.1.1 =? F_FLUSH) eqn:E1; zbool.
  - rewrite E1. cbn. by split; [intros [? ?]|].
  - destruct (f.1.1 =? F_READY); [by split; [|intros; eexists]|].
    destruct (f.1.1 =? F_DATA); [by rewrite fmap_is_Some | done].
Qed.

(** C29: Exporter and host agree: let the exporter's MCU channel live through any
    history, and hand the frames it sent, in order, to the host's PTY channel.
    Then, while the exporter's link is up, Klipper's PTY and its symlink exist
    exactly when the MCU is active, and what Klipper was given and what waits
    for it are the payloads of the [F_DATA] frames since the last time the MCU
    became ready. *)
Theorem exporter_host_agree mid dev baud e0 mh c fx hid link b ph :
  0 <= mid <= MAX_CHANNEL_ID -> Forall hist_ok mh ->
  chan_run (McuChannel.new mid dev baud e0 fx0).1 (McuChannel.new mid dev baud e0 fx0).2 mh
    = Some (c, fx) ->
  ph.*1 = map frame_input (fx_tx fx) ->
  Forall (fun x => env_ok x.2 /\ will_open x.2 b /\ soft_writes x.2) ph ->
  exists p pfx, chan_run (start hid link b).1 (start hid link b).2 ph = Some (p, pfx) /\
    session p pfx (heard (fx_tx fx)) /\
    (McuChannel.link_up c = true ->
       is_open p = bool_decide (McuChannel.state c = McuChannel.Active) /\
       link_present (fx_sys pfx) link = bool_decide (McuChannel.state c = McuChannel.Active)).
Proof.
  intros Hmid Hmh Hrun Hph [He Hn]%Forall_and.
  destruct (McuProofs.mcu_run mid dev baud e0 mh Hmid Hmh) as (c' & fx' & E & [Hcore _]).
  rewrite Hrun in E. injection E as <- <-.
  pose proof (start_inv hid link b) as (Hi & _ & Hs).
  destruct (pty_run _ _ ph None Hi He) as (p & pfx & E & [[Hp Hl] _] & Hid & _ & Hses).
  exists p, pfx. split; [exact E|].
  specialize (Hses Hn Hs). rewrite (session_run_heard (fx_tx fx)) in Hses by done.
  change (session p pfx (heard (fx_tx fx))) in Hses. split; [done|]. intros Hup.
  assert (symlink p = link) as Hlink by apply Hid. rewrite Hlink in Hl. rewrite Hl.
  assert (is_open p = bool_decide (McuChannel.state c = McuChannel.Active)) as Hopen; [|done].
  apply (McuProofs.core_told _ _ Hcore) in Hup.
  pose proof (heard_announced (fx_tx fx)) as Hh. rewrite Hup in Hh.
  unfold is_open, session in *. destruct (heard (fx_tx fx)).
  - destruct Hses as (m & -> & _). destruct Hh as [Hh _].
    rewrite bool_decide_eq_true_2 by by eexists. symmetry.
    by injection (Hh ltac:(by eexists)) as ->.
  - rewrite Hses. rewrite bool_decide_eq_false_2 by (by intros [? ?]). symmetry.
    destruct (bool_decide (McuChannel.state c = McuChannel.Active)); [|done].
    by destruct Hh as [_ [? ?]].
Qed.

(** ** The laws the daemon relies on *)

#[global] Instance pty_laws : ChannelLaws t.
Proof.
  refine {|
    ch_inv := fun s => 0 <= ch_id s <= MAX_CHANNEL_ID;
    ch_quiet := fun s => master_fd s = None;
    ch_paused := bp_paused;
    ch_token := fun s tok => tok = primary_token (ch_id s);
  |}.
  - done.
  - intros c tok _ ->. by left.
  - intros c i e fx Hid He _.
    destruct (pty_step c i e fx He) as (c' & fx' & sent & E & [I _ _ _] & B & T & F & Q).
    assert (ch_id c' = ch_id c) as Hc by apply I.
    exists c', fx', sent. split; [done|]. split; [by rewrite Hc|]. done.
  - intros c i e fx c' fx' tok _ _ _ Hid ->. cbn in Hid. by rewrite Hid.
Defined.

(** ** Runs *)

Lemma sample_will_open now read b :
  baud_to_speed b <> None -> will_open (sample_env now read) b.
Proof.
  intros Hb. split; [|split; [by eexists | done]]. intros w. unfold open_pty_raw, apply_termios.
  destruct (baud_to_speed b); [|done]. cbn. by eexists _, _, _.
Qed.

Lemma sample_no_half_open now read b :
  baud_to_speed b <> None -> no_half_open (sample_env now read) b.
Proof.
  intros Hb w er w' E. destruct (sample_will_open now read b Hb) as [Hw _].
  destruct (Hw w) as (m & sl & w1 & E1). congruence.
Qed.

Lemma sample_soft now read : soft_writes (sample_env now read).
Proof. by intros d er. Qed.

Definition example_pty_history : list (input * Env) :=
  [(InConnect, sample_env 0 []);
   (InFrame F_READY [], sample_env 1 []);
   (InFrame F_DATA [0x7E; 5], sample_env 2 []);
   (InEvent 2 true false, sample_env 3 [8; 9]);
   (InPause, sample_env 4 [])].

Lemma example_pty_ok :
  Forall (fun x => env_ok x.2 /\ will_open x.2 115200 /\ soft_writes x.2 /\
    no_half_open x.2 115200) example_pty_history.
Proof.
  repeat apply Forall_cons_2; try apply Forall_nil_2; split;
    try (apply sample_env_ok; [vm_compute; discriminate | solve_bytes]);
    (split; [by apply sample_will_open | split; [apply sample_soft | by apply sample_no_half_open]]).
Qed.

Definition example_pty : t * Fx := start 1 "/tmp/klipper_mcu" 115200.

Lemma pty_lifecycle_witness :
  exists c fx, chan_run example_pty.1 example_pty.2 example_pty_history = Some (c, fx) /\
    (is_Some (slave_fd c) <-> is_Some (master_fd c)) /\
    link_present (fx_sys fx) "/tmp/klipper_mcu" = bool_decide (is_Some (master_fd c)) /\
    (master_fd c = None -> txbuf c = [] /\ master_in_sel c = false) /\
    (forall m, master_fd c = Some m ->
       covers (bp_paused c) (txbuf c) (master_in_sel c) (primary_token (ch_id c))
         (registered (fx_sys fx) m)).
Proof.
  apply pty_lifecycle. eapply Forall_impl; [apply example_pty_ok|]. by intros x [? _].
Defined.

Lemma pty_no_leak_witness :
  exists c fx, chan_run example_pty.1 example_pty.2 example_pty_history = Some (c, fx) /\
    open_fds (fx_sys fx) =
      match master_fd c, slave_fd c with Some m, Some sl => [m; sl] | _, _ => [] end.
Proof.
  apply pty_no_leak. eapply Forall_impl; [apply example_pty_ok|]. by intros x (? & _ & _ & ?).
Defined.

Lemma pty_refines_session_witness :
  exists c fx, chan_run example_pty.1 example_pty.2 example_pty_history = Some (c, fx) /\
    match Some [0x7E; 5] with
    | None => master_fd c = None
    | Some bytes =>
        exists m, master_fd c = Some m /\ written (fx_sys fx) m ++ txbuf c = bytes
    end.
Proof.
  apply (pty_refines_session 1 "/tmp/klipper_mcu" 115200 example_pty_history).
  eapply Forall_impl; [apply example_pty_ok|]. by intros x (? & ? & ? & _).
Defined.

(** A system whose [tcsetattr] fails. *)
Definition stubborn_env : Env :=
  let s := granting 7 in
  let e := sample_env 0 [] in
  {| env_now := 0;
     env_serial := {| sys_open := sys_open s; sys_tcgetattr := sys_tcgetattr s;
       sys_cfsetspeed := sys_cfsetspeed s; sys_tcsetattr := Err EIO;
       sys_openpty := sys_openpty s; sys_getfl := sys_getfl s; sys_setfl := sys_setfl s;
       sys_readlink := sys_readlink s |};
     env_read := env_read e; env_write := env_write e; env_symlink := env_symlink e;
     env_accepts := env_accepts e; env_reads := env_reads e; env_register := env_register e;
     env_parse_addr := env_parse_addr e; env_connect := env_connect e;
     env_peer_addr := env_peer_addr e |}.

Lemma stubborn_env_ok : env_ok stubborn_env.
Proof.
  destruct (sample_env_ok 0 []) as [H1 H2 H3]; [vm_compute; discriminate | solve_bytes |].
  by constructor.
Qed.

Lemma pty_leaks_on_termios_error_witness :
  exists c fx, chan_run example_pty.1 example_pty.2
      [(InFrame F_READY [], stubborn_env); (InFrame F_READY [], stubborn_env)] = Some (c, fx) /\
    master_fd c = None /\ slave_fd c = None /\ length (open_fds (fx_sys fx)) = 4%nat.
Proof.
  apply (pty_leaks_on_termios_error 1 "/tmp/klipper_mcu" 115200 stubborn_env 7 8 EIO
    [(InFrame F_READY [], stubborn_env); (InFrame F_READY [], stubborn_env)]); try done.
  - exact stubborn_env_ok.
  - repeat apply Forall_cons_2; try done.
Defined.

Definition replay (fs : list frame) : list (input * Env) :=
  map (fun f => (frame_input f, sample_env 0 [])) fs.

Lemma replay_fst fs : (replay fs).*1 = map frame_input fs.
Proof. induction fs as [|f fs IH]; cbn; [done | by rewrite <- IH]. Qed.

Lemma replay_ok fs :
  Forall (fun x => env_ok x.2 /\ will_open x.2 115200 /\ soft_writes x.2) (replay fs).
Proof.
  apply Forall_map, Forall_true. intros f.
  split; [apply sample_env_ok; [vm_compute; discriminate | solve_bytes]|].
  split; [by apply sample_will_open | apply sample_soft].
Qed.

Lemma exporter_host_agree_witness :
  exists c fx p pfx,
    chan_run McuProofs.example_mcu.1 McuProofs.example_mcu.2 McuProofs.example_history
      = Some (c, fx) /\
    chan_run example_pty.1 example_pty.2 (replay (fx_tx fx)) = Some (p, pfx) /\
    session p pfx (heard (fx_tx fx)) /\
    (McuChannel.link_up c = true ->
       is_open p = bool_decide (McuChannel.state c = McuChannel.Active) /\
       link_present (fx_sys pfx) "/tmp/klipper_mcu" =
         bool_decide (McuChannel.state c = McuChannel.Active)).
Proof.
  destruct (McuProofs.mcu_run 1 "/dev/ttyS0" 115200 (sample_env 0 []) McuProofs.example_history)
    as (c & fx & E & _); [done | apply McuProofs.example_hist_ok|].
  destruct (exporter_host_agree 1 "/dev/ttyS0" 115200 (sample_env 0 [])
    McuProofs.example_history c fx 1 "/tmp/klipper_mcu" 115200 (replay (fx_tx fx)))
    as (p & pfx & Hp); [done | apply McuProofs.example_hist_ok | exact E
      | apply replay_fst | apply replay_ok |].
  exists c, fx, p, pfx. split; [exact E | exact Hp].
Defined.
End PtyProofs.
