(* ===== verification/Tcp.v ===== *)
(** * What the two TCP channels share ([serialmux-rs/src/channel.rs])

    Connection slots ([Vec<Option<TcpConn>>]), the loop that cuts a read into
    [F_TDATA] frames, and the write to a stream.  A connection id on the wire is
    the slot number. *)
From Stdlib Require Import ZArith Lia.
From stdpp Require Import base option numbers list strings.
From S2P Require Import Prelude Protocol TxQueue Serial Chan.

Local Open Scope Z_scope.


Definition no_conns : list (option TcpConn) := replicate (Z.to_nat MAX_TCP_CONNS) None.

(** [self.conns[i] = v]: panics outside the vector. *)
Definition put (l : list (option TcpConn)) (i : Z) (v : option TcpConn) : option (list (option TcpConn)) :=
  if (0 <=? i) && (i <? zlen l) then Some (<[Z.to_nat i := v]> l) else None.

(** [token.0 - TCP_BASE) % MAX_TCP_CONNS] *)
Definition slot_of (token : Z) : option Z :=
  d ← usub token TCP_BASE; Some (d mod MAX_TCP_CONNS).

Definition conn_txbuf v (c : TcpConn) :=
  mkConn (stream c) v (connecting c) (in_sel c) (close_pending c).
Definition conn_connecting v (c : TcpConn) :=
  mkConn (stream c) (txbuf c) v (in_sel c) (close_pending c).
Definition conn_in_sel v (c : TcpConn) :=
  mkConn (stream c) (txbuf c) (connecting c) v (close_pending c).
Definition conn_close_pending v (c : TcpConn) :=
  mkConn (stream c) (txbuf c) (connecting c) (in_sel c) v.

(** [while off < n { .. }]: the frames for [buf[off..n]]. *)
Fixpoint chunk_loop (fuel : nat) (ch_id slot : Z) (buf : list Z) (n off : Z) (fx : Fx)
  : option Fx :=
  if off <? n then
    match fuel with
    | O => None
    | S fuel =>
        let end_ := Z.min (off + MAX_PAYLOAD - 2) n in
        d ← slice buf off end_;
        let payload := pack_cid slot ++ d in
        chunk_loop fuel ch_id slot buf n end_ (enqueue fx (F_TDATA, ch_id, payload))
    end
  else Some fx.

Definition send_chunks (ch_id slot : Z) (buf : list Z) (fx : Fx) : option Fx :=
  chunk_loop (length buf) ch_id slot buf (zlen buf) 0 fx.

(** [conn.stream.write(&conn.txbuf)] and what follows: the connection, and
    whether the write failed. *)
Definition write_stream (e : Env) (c : TcpConn) (fx : Fx) : option (TcpConn * bool * Fx) :=
  match env_write e (txbuf c) with
  | Ok n =>
      rest ← drain_front (txbuf c) n;
      Some (conn_txbuf rest c, false, syscall fx (WriteFd (stream c) (ztake n (txbuf c))))
  | Err er => Some (c, negb (would_block er), fx)
  end.

(** The [interest] of the two [conn_update_interest] functions. *)
Definition conn_interest (want_read want_write : bool) : option Interest :=
  match want_read, want_write with
  | true, true => Some (interest_or READABLE WRITABLE)
  | true, false => Some READABLE
  | false, true => Some WRITABLE
  | false, false => None
  end.

Definition conn_apply_interest (interest : option Interest) (token : Z) (conn : TcpConn) (fx : Fx)
  : TcpConn * Fx :=
  match interest with
  | Some i =>
      if in_sel conn then (conn, reg_mod fx (stream conn) token i)
      else (conn_in_sel true conn, reg_add fx (stream conn) token i)
  | None =>
      if in_sel conn then (conn_in_sel false conn, reg_del fx (stream conn))
      else (conn, fx)
  end.

(** [if let Some(mut conn) = self.conns[slot].take()]: the connection is
    deregistered and, at the end of the block, dropped. *)
Definition drop_conn (conn : TcpConn) (fx : Fx) : Fx :=
  syscall (reg_del fx (stream conn)) (CloseFd (stream conn)).

(** ** Operations on one slot

    The two channels treat a connection alike but for connects in progress,
    which only the destination has: [Side] says whose code it is. *)

Inductive Side := Src | Dst.

Definition want_write (d : Side) (conn : TcpConn) : bool :=
  match d with
  | Src => negb (is_empty (txbuf conn))
  | Dst => negb (is_empty (txbuf conn)) || connecting conn
  end.

Definition no_read (d : Side) (conn : TcpConn) : bool :=
  match d with
  | Src => close_pending conn
  | Dst => connecting conn || close_pending conn
  end.

Definition can_write (d : Side) (conn : TcpConn) : bool :=
  match d with
  | Src => negb (is_empty (txbuf conn))
  | Dst => negb (connecting conn) && negb (is_empty (txbuf conn))
  end.

(** The fields of the channel the operations read; [cx_up]: whether
    [close_slot] may notify (the source's [link_up]). *)
Record Ctx := mkCtx { cx_side : Side; cx_id : Z; cx_up : bool; cx_bp : bool }.

Definition conn_update_interest (x : Ctx) (slot : Z) (conn : TcpConn) (fx : Fx)
  : TcpConn * Fx :=
  let want_read := negb (cx_bp x || close_pending conn) in
  conn_apply_interest (conn_interest want_read (want_write (cx_side x) conn))
    (tcp_slot_token (cx_id x) slot) conn fx.

Definition update_conn (x : Ctx) (l : list (option TcpConn)) (slot : Z) (fx : Fx)
  : option (list (option TcpConn) * Fx) :=
  c ← idx l slot;
  match c with
  | Some conn =>
      let '(conn, fx) := conn_update_interest x slot conn fx in
      l ← put l slot (Some conn);
      Some (l, fx)
  | None => Some (l, fx)
  end.

Definition close_conn (x : Ctx) (l : list (option TcpConn)) (slot : Z) (notify : bool) (fx : Fx)
  : option (list (option TcpConn) * Fx) :=
  c ← idx l slot;
  match c with
  | Some conn =>
      l ← put l slot None;
      let fx := drop_conn conn fx in
      Some (l, if notify && cx_up x
               then enqueue fx (F_TCLOSE, cx_id x, pack_cid slot) else fx)
  | None => Some (l, fx)
  end.

(** The loop over reads; the flag says that it was left by [return]. *)
Fixpoint read_conn (x : Ctx) (reads : list (io (list Z))) (l : list (option TcpConn))
  (slot : Z) (fx : Fx) : option (bool * list (option TcpConn) * Fx) :=
  c ← idx l slot;
  match c with
  | None => Some (true, l, fx)
  | Some conn =>
      if no_read (cx_side x) conn then Some (false, l, fx)
      else
        let eof := '(l, fx) ← close_conn x l slot true fx; Some (true, l, fx) in
        match reads with
        | [] => Some (false, l, fx)
        | Ok buf :: reads =>
            if zlen buf =? 0 then eof
            else
              fx ← send_chunks (cx_id x) slot buf fx;
              read_conn x reads l slot fx
        | Err er :: _ => if would_block er then Some (false, l, fx) else eof
        end
  end.

(** The writable part, up to the update of the interest; the flag as above. *)
Definition write_conn (x : Ctx) (l : list (option TcpConn)) (slot : Z) (e : Env) (fx : Fx)
  : option (bool * list (option TcpConn) * Fx) :=
  c ← idx l slot;
  match c with
  | None => Some (true, l, fx)
  | Some conn =>
      '(conn, write_err, fx) ← (if can_write (cx_side x) conn then write_stream e conn fx
                                else Some (conn, false, fx));
      l ← put l slot (Some conn);
      if (write_err : bool) then '(l, fx) ← close_conn x l slot true fx; Some (true, l, fx)
      else
        if is_empty (txbuf conn) && close_pending conn
        then '(l, fx) ← close_conn x l slot false fx; Some (true, l, fx)
        else Some (false, l, fx)
  end.

Definition tdata_conn (x : Ctx) (l : list (option TcpConn)) (slot : Z) (data : list Z) (fx : Fx)
  : option (list (option TcpConn) * Fx) :=
  if is_empty data then Some (l, fx)
  else
    c ← idx l slot;
    match c with
    | Some conn =>
        let avail := Z.max 0 ((CONN_HIGH_WATER + MAX_PAYLOAD) - zlen (txbuf conn)) in
        if (CONN_HIGH_WATER <? zlen (txbuf conn)) || (avail <? zlen data)
        then close_conn x l slot true fx
        else
          l ← put l slot (Some (conn_txbuf (txbuf conn ++ data) conn));
          update_conn x l slot fx
    | None => Some (l, fx)
    end.

Definition tclose_conn (x : Ctx) (l : list (option TcpConn)) (slot : Z) (fx : Fx)
  : option (list (option TcpConn) * Fx) :=
  c ← idx l slot;
  match c with
  | Some conn =>
      if is_empty (txbuf conn) then close_conn x l slot false fx
      else
        l ← put l slot (Some (conn_close_pending true conn));
        update_conn x l slot fx
  | None => Some (l, fx)
  end.

(** [for slot in 0..MAX_TCP_CONNS] *)
Definition all_slots : list Z := seqZ 0 MAX_TCP_CONNS.

Fixpoint for_slots (f : list (option TcpConn) -> Z -> Fx -> option (list (option TcpConn) * Fx))
  (js : list Z) (l : list (option TcpConn)) (fx : Fx) : option (list (option TcpConn) * Fx) :=
  match js with
  | [] => Some (l, fx)
  | slot :: js => '(l, fx) ← f l slot fx; for_slots f js l fx
  end.

Definition close_conns (x : Ctx) (l : list (option TcpConn)) (fx : Fx) :=
  for_slots (fun l slot fx => close_conn x l slot false fx) all_slots l fx.

Definition update_conns (x : Ctx) (l : list (option TcpConn)) (fx : Fx) :=
  for_slots (update_conn x) all_slots l fx.

(** The frames sent meanwhile go to a queue that is dropped. *)
Definition with_dummy (fx : Fx) (r : option (list (option TcpConn) * Fx))
  : option (list (option TcpConn) * Fx) :=
  '(l, fx') ← r; Some (l, mkFx (fx_tx fx) (fx_sys fx')).

(** ** Slots *)


Lemma idx_bound {A} (l : list A) i x : idx l i = Some x -> 0 <= i < zlen l.
Proof.
  unfold idx, zlen. destruct (0 <=? i) eqn:E; [|done]. zbool.
  intros H%lookup_lt_Some. lia.
Qed.

Lemma idx_in_range {A} (l : list A) i : 0 <= i < zlen l -> exists x, idx l i = Some x.
Proof.
  unfold idx, zlen. intros Hi. zdecide. apply lookup_lt_is_Some_2. lia.
Qed.


Lemma put_eq l i v :
  0 <= i < zlen l -> put l i v = Some (<[Z.to_nat i := v]> l).
Proof. intros. unfold put. by zdecide. Qed.

Lemma zlen_insert (l : list (option TcpConn)) i v : zlen (<[i := v]> l) = zlen l.
Proof. unfold zlen. by rewrite length_insert. Qed.

Lemma idx_insert_eq (l : list (option TcpConn)) i v :
  0 <= i < zlen l -> idx (<[Z.to_nat i := v]> l) i = Some v.
Proof.
  unfold idx, zlen. intros. zdecide. apply list_lookup_insert_eq. lia.
Qed.

Lemma idx_insert_ne (l : list (option TcpConn)) i j v :
  0 <= i -> i <> j -> idx (<[Z.to_nat i := v]> l) j = idx l j.
Proof.
  unfold idx. intros. destruct (0 <=? j) eqn:E; [|done]. zbool.
  apply list_lookup_insert_ne. lia.
Qed.

#[export] Hint Rewrite zlen_insert : zlist.

Lemma slot_of_token_eq id slot :
  0 <= id -> 0 <= slot < MAX_TCP_CONNS -> slot_of (tcp_slot_token id slot) = Some slot.
Proof.
  intros Hid Hs. unfold slot_of. destruct (slot_of_token id slot Hid Hs) as [-> H].
  cbn [mbind option_bind]. by rewrite H.
Qed.

Lemma slot_of_range token slot : slot_of token = Some slot -> 0 <= slot < MAX_TCP_CONNS.
Proof.
  unfold slot_of. destruct (usub token TCP_BASE) as [d|]; [|done]. cbn. intros [= <-].
  by apply Z.mod_pos_bound.
Qed.

(** ** Chunks *)

(** The frames that carry [data] over connection [slot]. *)
Definition carries (ch_id slot : Z) (data : list Z) (fs : list frame) : Prop :=
  exists parts,
    fs = map (fun d => (F_TDATA, ch_id, pack_cid slot ++ d)) parts /\
    concat parts = data /\
    Forall (fun d => d <> [] /\ zlen d <= MAX_PAYLOAD - 2) parts.

Lemma carries_nil ch_id slot : carries ch_id slot [] [].
Proof. by exists []. Qed.

Lemma carries_app ch_id slot d1 d2 fs1 fs2 :
  carries ch_id slot d1 fs1 -> carries ch_id slot d2 fs2 ->
  carries ch_id slot (d1 ++ d2) (fs1 ++ fs2).
Proof.
  intros (p1 & -> & <- & F1) (p2 & -> & <- & F2). exists (p1 ++ p2).
  rewrite map_app, concat_app. split; [done|]. split; [done|]. by apply Forall_app.
Qed.

Lemma zlen_pack_cid c d : zlen (pack_cid c ++ d) = 2 + zlen d.
Proof. unfold pack_cid. cbn [to_le_bytes app]. rewrite !zlen_cons. lia. Qed.

Lemma carries_frames ch_id slot data fs :
  carries ch_id slot data fs -> bytes_ok data -> Forall (frame_of ch_id) fs.
Proof.
  intros (parts & -> & <- & Hp) Hb. apply Forall_map.
  induction Hp as [|d parts [_ Hd] Hp IH]; [constructor|].
  cbn [concat] in Hb. apply Forall_app in Hb as [Hb1 Hb2]. constructor; [|auto].
  split; [done|]. split; [done|]. split; [cbn [snd]; rewrite zlen_pack_cid; lia|].
  apply Forall_app. split; [apply to_le_bytes_ok | done].
Qed.

Lemma chunk_loop_spec fuel ch_id slot pre data fx :
  zlen data <= Z.of_nat fuel ->
  exists fs, chunk_loop fuel ch_id slot (pre ++ data) (zlen pre + zlen data) (zlen pre) fx =
      Some (mkFx (fx_tx fx ++ fs) (fx_sys fx)) /\ carries ch_id slot data fs.
Proof.
  revert pre data fx. induction fuel as [|fuel IH]; intros pre data fx Hf.
  - pose proof (zlen_nonneg data). assert (zlen data = 0) as Hz by lia.
    apply zlen_0_nil in Hz as ->. exists []. cbn [chunk_loop].
    rewrite (proj2 (Z.ltb_ge _ _)) by zl. rewrite app_nil_r. destruct fx.
    split; [done | apply carries_nil].
  - cbn [chunk_loop]. destruct (zlen pre <? zlen pre + zlen data) eqn:E; zbool.
    + set (k := Z.min (MAX_PAYLOAD - 2) (zlen data)).
      assert (0 < k <= zlen data /\ k <= MAX_PAYLOAD - 2) as Hk by (unfold k, MAX_PAYLOAD; lia).
      replace (Z.min (zlen pre + MAX_PAYLOAD - 2) (zlen pre + zlen data)) with (zlen pre + k)
        by (unfold k; lia).
      rewrite <- (ztake_zdrop k data). set (d := ztake k data). set (rest := zdrop k data).
      assert (zlen d = k) as Hd by (apply zlen_ztake; lia).
      assert (zlen rest = zlen data - k) as Hr by (apply zlen_zdrop; lia).
      rewrite (slice_mid pre d rest) by lia. cbn [mbind option_bind].
      destruct (IH (pre ++ d) rest (enqueue fx (F_TDATA, ch_id, pack_cid slot ++ d)))
        as (fs & Heq & Hc); [lia|].
      rewrite <- app_assoc in Heq. autorewrite with zlist in Heq |- *.
      rewrite Hd, Hr in *. replace (zlen pre + k + (zlen data - k))
        with (zlen pre + (k + (zlen data - k))) in Heq by lia.
      rewrite Heq. exists ((F_TDATA, ch_id, pack_cid slot ++ d) :: fs). split.
      * cbn. by rewrite <- app_assoc.
      * apply (carries_app _ _ _ _ [_]); [|done]. exists [d]. cbn. rewrite app_nil_r.
        split; [done|]. split; [done|]. apply Forall_singleton. split; [|lia].
        intros E0. rewrite E0, zlen_nil in Hd. lia.
    + assert (zlen data = 0) as Hz by (pose proof (zlen_nonneg data); lia).
      apply zlen_0_nil in Hz as ->. exists []. rewrite app_nil_r. destruct fx.
      split; [done | apply carries_nil].
Qed.

(** A read of any length from a connection is cut into [F_TDATA] frames
    without loss: the loop ends, every payload is the connection id followed by
    at least one byte and fits a frame, and the pieces joined are the bytes
    read. *)
Theorem chunks_lossless ch_id slot data fx :
  exists parts,
    send_chunks ch_id slot data fx =
      Some (mkFx (fx_tx fx ++ map (fun d => (F_TDATA, ch_id, pack_cid slot ++ d)) parts)
                 (fx_sys fx)) /\
    concat parts = data /\
    Forall (fun d => d <> [] /\ zlen (pack_cid slot ++ d) <= MAX_PAYLOAD) parts.
Proof.
  destruct (chunk_loop_spec (length data) ch_id slot [] data fx) as (fs & E & parts & -> & Hc & Hp).
  { unfold zlen. lia. }
  exists parts. split; [exact E|]. split; [done|]. eapply Forall_impl; [exact Hp|].
  intros d [? ?]. rewrite zlen_pack_cid. split; [done | lia].
Qed.

Lemma send_chunks_spec ch_id slot data fx :
  exists fs, send_chunks ch_id slot data fx = Some (mkFx (fx_tx fx ++ fs) (fx_sys fx)) /\
    carries ch_id slot data fs.
Proof.
  apply (chunk_loop_spec (length data) ch_id slot [] data fx). unfold zlen. lia.
Qed.

(** ** Connections *)

(** The bound on what waits for a stream, and why a connection whose peer has
    said goodbye is still there. *)
Definition conn_sized (c : TcpConn) : Prop :=
  zlen (txbuf c) <= CONN_HIGH_WATER + MAX_PAYLOAD /\
  (close_pending c = true -> txbuf c <> []).

(** A connection left out of the poll set wants nothing from it. *)
Definition conn_polled (d : Side) (bp : bool) (c : TcpConn) : Prop :=
  in_sel c = false -> (bp || close_pending c) = true /\ want_write d c = false.

Definition conn_ok (x : Ctx) (c : TcpConn) : Prop :=
  conn_sized c /\ conn_polled (cx_side x) (cx_bp x) c.

Definition all_conns (P : TcpConn -> Prop) (l : list (option TcpConn)) : Prop :=
  forall i c, idx l i = Some (Some c) -> P c.

Definition conns_ok (x : Ctx) : list (option TcpConn) -> Prop := all_conns (conn_ok x).

Definition no_conn (l : list (option TcpConn)) : Prop := forall i c, idx l i <> Some (Some c).

Definition occupied (l : list (option TcpConn)) (i : Z) : Prop :=
  exists c, idx l i = Some (Some c).

Lemma conn_apply_interest_spec r w tok c fx c' fx' :
  conn_apply_interest (conn_interest r w) tok c fx = (c', fx') ->
  c' = conn_in_sel (r || w) c /\ fx_tx fx' = fx_tx fx.
Proof.
  unfold conn_apply_interest. destruct c as [st tx cn sel cp]. cbn.
  destruct r, w, sel; cbn; intros [= <- <-]; done.
Qed.

Lemma conn_update_interest_spec x slot c fx c' fx' :
  conn_update_interest x slot c fx = (c', fx') ->
  c' = conn_in_sel (in_sel c') c /\ fx_tx fx' = fx_tx fx /\
  (conn_sized c -> conn_ok x c').
Proof.
  unfold conn_update_interest. intros [-> Ht]%conn_apply_interest_spec.
  split; [done|]. split; [done|]. intros Hs. split; [done|]. unfold conn_polled. cbn.
  intros [Hr Hw]%orb_false_iff. apply negb_false_iff in Hr. split; [done|].
  by destruct (cx_side x).
Qed.

(** The bytes waiting after a write, and those the stream was given. *)
Lemma write_stream_spec e c fx :
  env_ok e ->
  exists tx bad fx', write_stream e c fx = Some (conn_txbuf tx c, bad, fx') /\
    fx_tx fx' = fx_tx fx /\ zlen tx <= zlen (txbuf c) /\
    written (fx_sys fx') (stream c) ++ tx = written (fx_sys fx) (stream c) ++ txbuf c.
Proof.
  intros He. unfold write_stream. pose proof (env_write_ok e He) as Hw.
  destruct (env_write e (txbuf c)) as [n|er] eqn:E.
  - apply Hw in E. rewrite drain_front_eq by done. cbn [mbind option_bind].
    eexists _, _, _. split; [reflexivity|]. split; [done|]. split; [rewrite zlen_zdrop; lia|].
    cbn. autorewrite with zlist. cbn. by rewrite Z.eqb_refl, <- app_assoc, ztake_zdrop.
  - exists (txbuf c), (negb (would_block er)), fx. split; [by destruct c|]. done.
Qed.

Lemma sized_append c data :
  conn_sized c -> data <> [] ->
  (CONN_HIGH_WATER <? zlen (txbuf c)) ||
    (Z.max 0 (CONN_HIGH_WATER + MAX_PAYLOAD - zlen (txbuf c)) <? zlen data) = false ->
  conn_sized (conn_txbuf (txbuf c ++ data) c).
Proof.
  intros [Hs _] Hd Hb. zbool. split; cbn.
  - autorewrite with zlist. lia.
  - intros _ E. by apply app_eq_nil in E as [_ ?].
Qed.

Lemma all_slots_range : Forall (fun i => 0 <= i < MAX_TCP_CONNS) all_slots.
Proof. apply Forall_forall. intros i Hi%elem_of_seqZ. lia. Qed.

Lemma in_all_slots (l : list (option TcpConn)) i x :
  zlen l = MAX_TCP_CONNS -> idx l i = Some x -> i ∈ all_slots.
Proof. intros Hl Hi%idx_bound. apply elem_of_seqZ. lia. Qed.

Lemma frame_of_cid id ft slot : channel_type ft -> frame_of id (ft, id, pack_cid slot).
Proof.
  intros Hf. split; [done|]. split; [done|]. split; [|apply to_le_bytes_ok].
  unfold pack_cid. cbn [snd]. by rewrite zlen_to_le_bytes.
Qed.

Lemma no_conns_len : zlen no_conns = MAX_TCP_CONNS.
Proof. done. Qed.

Lemma no_conns_empty : no_conn no_conns.
Proof.
  intros i c. unfold idx, no_conns. destruct (0 <=? i); [|done].
  intros [E _]%lookup_replicate. done.
Qed.

(** ** What an operation on one slot does *)

Lemma all_conns_insert P l slot v :
  0 <= slot < zlen l -> all_conns P l -> (forall c, v = Some c -> P c) ->
  all_conns P (<[Z.to_nat slot := v]> l).
Proof.
  intros Hs Hl Hv i c. destruct (decide (i = slot)) as [->|Hne].
  - rewrite idx_insert_eq by done. intros [= ->]. by apply Hv.
  - rewrite idx_insert_ne by (lia || congruence). apply Hl.
Qed.

Lemma insert_same (l : list (option TcpConn)) slot c :
  idx l slot = Some c -> <[Z.to_nat slot := c]> l = l.
Proof.
  intros Hc. pose proof (idx_bound _ _ _ Hc) as Hb. apply list_insert_id.
  unfold idx in Hc. by rewrite (proj2 (Z.leb_le _ _)) in Hc by lia.
Qed.

(** Nothing happens to the other slots, a free slot stays free, the invariant
    is kept, and the frames sent are the channel's, none for a free slot. *)
Record moved (x : Ctx) (slot : Z) (l : list (option TcpConn)) (fx : Fx)
  (l' : list (option TcpConn)) (fx' : Fx) : Prop := {
  mv_len : zlen l' = zlen l;
  mv_others : forall j, j <> slot -> idx l' j = idx l j;
  mv_free : idx l slot = Some None -> l' = l /\ fx_tx fx' = fx_tx fx;
  mv_ok : conns_ok x l -> conns_ok x l';
  mv_sent : exists sent, fx_tx fx' = fx_tx fx ++ sent /\ Forall (frame_of (cx_id x)) sent;
}.

Definition touches (x : Ctx) (slot : Z) (l : list (option TcpConn)) (fx : Fx)
  (r : option (list (option TcpConn) * Fx)) : Prop :=
  exists l' fx', r = Some (l', fx') /\ moved x slot l fx l' fx'.

Definition touches_flag (x : Ctx) (slot : Z) (l : list (option TcpConn)) (fx : Fx)
  (r : option (bool * list (option TcpConn) * Fx)) : Prop :=
  exists b l' fx', r = Some (b, l', fx') /\ moved x slot l fx l' fx'.

Lemma moved_tx x slot l fx fx' : fx_tx fx' = fx_tx fx -> moved x slot l fx l fx'.
Proof.
  intros Ht. constructor; try done. exists []. by rewrite app_nil_r.
Qed.

Lemma moved_trans x slot l1 fx1 l2 fx2 l3 fx3 :
  moved x slot l1 fx1 l2 fx2 -> moved x slot l2 fx2 l3 fx3 -> moved x slot l1 fx1 l3 fx3.
Proof.
  intros [L1 O1 F1 K1 (s1 & T1 & A1)] [L2 O2 F2 K2 (s2 & T2 & A2)]. constructor.
  - congruence.
  - intros j Hj. by rewrite O2, O1.
  - intros Hf. destruct (F1 Hf) as [-> E1]. destruct (F2 Hf) as [-> E2]. split; congruence.
  - auto.
  - exists (s1 ++ s2). split; [by rewrite T2, T1, app_assoc | by apply Forall_app].
Qed.

Lemma touches_same x slot l fx : touches x slot l fx (Some (l, fx)).
Proof. exists l, fx. split; [done | by apply moved_tx]. Qed.

Lemma touches_flag_same x slot l fx b : touches_flag x slot l fx (Some (b, l, fx)).
Proof. exists b, l, fx. split; [done | by apply moved_tx]. Qed.

Lemma touches_return x slot l fx r b :
  touches x slot l fx r ->
  touches_flag x slot l fx ('(l, fx) ← r; Some (b, l, fx)).
Proof. intros (l' & fx' & -> & Hm). by exists b, l', fx'. Qed.

(** Replacing the connection of a taken slot. *)
Lemma moved_insert x slot l fx c0 v fx' :
  idx l slot = Some (Some c0) -> (forall c, v = Some c -> conn_ok x c) ->
  (exists sent, fx_tx fx' = fx_tx fx ++ sent /\ Forall (frame_of (cx_id x)) sent) ->
  moved x slot l fx (<[Z.to_nat slot := v]> l) fx'.
Proof.
  intros Hc Hv Hs. pose proof (idx_bound _ _ _ Hc). constructor.
  - apply zlen_insert.
  - intros j Hj. apply idx_insert_ne; lia.
  - congruence.
  - intros Hok. by apply all_conns_insert.
  - done.
Qed.

Lemma close_conn_eq x l slot notify fx c :
  idx l slot = Some (Some c) ->
  close_conn x l slot notify fx =
    Some (<[Z.to_nat slot := None]> l,
      if notify && cx_up x
      then enqueue (drop_conn c fx) (F_TCLOSE, cx_id x, pack_cid slot) else drop_conn c fx).
Proof.
  intros Hc. pose proof (idx_bound _ _ _ Hc). unfold close_conn. rewrite Hc.
  cbn [mbind option_bind]. by rewrite put_eq by done.
Qed.

Lemma close_conn_free x l slot notify fx :
  idx l slot = Some None -> close_conn x l slot notify fx = Some (l, fx).
Proof. intros Hc. unfold close_conn. by rewrite Hc. Qed.

(** Closing the connection, after it may have been changed to [c]. *)
Lemma close_changed x l slot notify fx fx1 c0 c :
  idx l slot = Some (Some c0) -> fx_tx fx1 = fx_tx fx ->
  touches x slot l fx (close_conn x (<[Z.to_nat slot := Some c]> l) slot notify fx1).
Proof.
  intros Hc Hfx. pose proof (idx_bound _ _ _ Hc).
  rewrite (close_conn_eq _ _ _ _ _ c) by (by apply idx_insert_eq).
  rewrite list_insert_insert_eq. eexists _, _. split; [reflexivity|].
  apply (moved_insert _ _ _ _ c0); [done | done |]. rewrite <- Hfx.
  destruct (notify && cx_up x).
  - exists [(F_TCLOSE, cx_id x, pack_cid slot)]. split; [done|].
    by apply Forall_singleton, frame_of_cid.
  - exists []. by rewrite app_nil_r.
Qed.

Lemma close_conn_touches x l slot notify fx :
  0 <= slot < zlen l -> touches x slot l fx (close_conn x l slot notify fx).
Proof.
  intros Hs. destruct (idx_in_range l slot Hs) as [[c|] Hc].
  - rewrite <- (insert_same l slot (Some c) Hc) at 2. by eapply close_changed.
  - rewrite close_conn_free by done. apply touches_same.
Qed.

Lemma update_conn_eq x l slot fx c :
  idx l slot = Some (Some c) ->
  exists c' fx', update_conn x l slot fx = Some (<[Z.to_nat slot := Some c']> l, fx') /\
    c' = conn_in_sel (in_sel c') c /\ fx_tx fx' = fx_tx fx /\ (conn_sized c -> conn_ok x c').
Proof.
  intros Hc. pose proof (idx_bound _ _ _ Hc). unfold update_conn. rewrite Hc.
  cbn [mbind option_bind]. destruct (conn_update_interest x slot c fx) as [c' fx'] eqn:Eu.
  apply conn_update_interest_spec in Eu as (E & Ht & Hok).
  rewrite put_eq by done. cbn [mbind option_bind]. by exists c', fx'.
Qed.

Lemma update_conn_free x l slot fx :
  idx l slot = Some None -> update_conn x l slot fx = Some (l, fx).
Proof. intros Hc. unfold update_conn. by rewrite Hc. Qed.

(** The update of the interest in the connection just changed to [c]. *)
Lemma update_touches x l slot fx fx1 c0 c :
  idx l slot = Some (Some c0) -> conn_sized c -> fx_tx fx1 = fx_tx fx ->
  touches x slot l fx (update_conn x (<[Z.to_nat slot := Some c]> l) slot fx1).
Proof.
  intros Hc Hsz Hfx. pose proof (idx_bound _ _ _ Hc).
  destruct (update_conn_eq x (<[Z.to_nat slot := Some c]> l) slot fx1 c) as (c' & fx' & -> & _ & Ht & Hok).
  { by apply idx_insert_eq. }
  rewrite list_insert_insert_eq. eexists _, _. split; [reflexivity|].
  apply (moved_insert _ _ _ _ c0); [done | |].
  - intros c1 [= <-]. auto.
  - exists []. rewrite app_nil_r. split; [congruence | done].
Qed.

Lemma update_conn_touches x l slot fx :
  0 <= slot < zlen l -> conns_ok x l -> touches x slot l fx (update_conn x l slot fx).
Proof.
  intros Hs Hok. destruct (idx_in_range l slot Hs) as [[c|] Hc].
  - rewrite <- (insert_same l slot (Some c) Hc) at 2. eapply update_touches; [done| |done].
    by apply (Hok slot).
  - rewrite update_conn_free by done. apply touches_same.
Qed.

Lemma tdata_touches x l slot data fx :
  0 <= slot < zlen l -> conns_ok x l -> touches x slot l fx (tdata_conn x l slot data fx).
Proof.
  intros Hs Hok. unfold tdata_conn. destruct data as [|b data]; [apply touches_same|].
  cbn [is_empty]. destruct (idx_in_range l slot Hs) as [[c|] Hc];
    rewrite Hc; cbn [mbind option_bind]; [|apply touches_same].
  destruct (_ || _) eqn:E; [by apply close_conn_touches|].
  rewrite put_eq by done. cbn [mbind option_bind]. eapply update_touches; [done| |done].
  apply sized_append; [by apply (Hok slot) | done | done].
Qed.

Lemma tclose_touches x l slot fx :
  0 <= slot < zlen l -> conns_ok x l -> touches x slot l fx (tclose_conn x l slot fx).
Proof.
  intros Hs Hok. unfold tclose_conn. destruct (idx_in_range l slot Hs) as [[c|] Hc];
    rewrite Hc; cbn [mbind option_bind]; [|apply touches_same].
  destruct (Hok _ _ Hc) as [[Hsz Hcp] _].
  destruct (txbuf c) as [|b tx] eqn:Etx; cbn [is_empty]; [by apply close_conn_touches|].
  rewrite put_eq by done. cbn [mbind option_bind]. eapply update_touches; [done| |done].
  split; cbn; by rewrite Etx.
Qed.

Lemma want_write_empty d c : want_write d c = false -> txbuf c = [].
Proof.
  destruct d; cbn; [|intros [H _]%orb_false_iff; revert H]; intros H%negb_false_iff;
    by apply is_empty_spec.
Qed.

(** A write leaves a connection with less to write, so its registration stays
    sufficient. *)
Lemma conn_ok_shrink x c tx :
  conn_ok x c -> zlen tx <= zlen (txbuf c) -> (close_pending c = true -> tx <> []) ->
  conn_ok x (conn_txbuf tx c).
Proof.
  intros [[Hsz _] Hp] Hle Hcp. split; [split; cbn; [lia | done]|].
  intros Hsel. destruct (Hp Hsel) as [? Hw]. split; [done|].
  pose proof (want_write_empty _ _ Hw) as Ee. rewrite Ee, zlen_nil in Hle.
  pose proof (zlen_nonneg tx). assert (tx = []) as -> by (apply zlen_0_nil; lia).
  rewrite <- Hw. destruct (cx_side x); cbn; by rewrite Ee.
Qed.

Lemma write_conn_touches x l slot e fx :
  env_ok e -> 0 <= slot < zlen l -> conns_ok x l ->
  touches_flag x slot l fx (write_conn x l slot e fx).
Proof.
  intros He Hs Hok. unfold write_conn. destruct (idx_in_range l slot Hs) as [[c|] Hc];
    rewrite Hc; cbn [mbind option_bind]; [|apply touches_flag_same].
  assert (exists tx bad fx1,
    (if can_write (cx_side x) c then write_stream e c fx else Some (c, false, fx))
      = Some (conn_txbuf tx c, bad, fx1) /\ fx_tx fx1 = fx_tx fx /\ zlen tx <= zlen (txbuf c))
    as (tx & bad & fx1 & -> & Htx & Hle).
  { destruct (can_write _ c).
    - destruct (write_stream_spec e c fx He) as (tx & bad & fx1 & E & Ht & Hz & _).
      by exists tx, bad, fx1.
    - exists (txbuf c), false, fx. by destruct c. }
  cbn [mbind option_bind]. rewrite put_eq by done. cbn [mbind option_bind].
  cbn [txbuf close_pending conn_txbuf].
  destruct bad; [|destruct (is_empty tx && close_pending c) eqn:E].
  1, 2: apply touches_return; by eapply close_changed.
  eexists _, _, _. split; [reflexivity|]. apply (moved_insert _ _ _ _ c); [done | |].
  - intros c1 [= <-]. apply conn_ok_shrink; [by apply (Hok slot) | done|].
    intros Hp. rewrite Hp, andb_true_r in E. by intros ->.
  - exists []. by rewrite app_nil_r.
Qed.

(** What a sequence of reads yields: the bytes before it ends, and whether it
    ends with the connection. *)
Fixpoint read_ends (reads : list (io (list Z))) : list Z * bool :=
  match reads with
  | [] => ([], false)
  | Ok [] :: _ => ([], true)
  | Ok d :: reads => let '(data, eof) := read_ends reads in (d ++ data, eof)
  | Err er :: _ => ([], negb (would_block er))
  end.

Lemma read_conn_spec x reads l slot fx c :
  idx l slot = Some (Some c) -> no_read (cx_side x) c = false ->
  exists fs, carries (cx_id x) slot (read_ends reads).1 fs /\
    read_conn x reads l slot fx =
      (let fx1 := mkFx (fx_tx fx ++ fs) (fx_sys fx) in
       if (read_ends reads).2
       then '(l', fx') ← close_conn x l slot true fx1; Some (true, l', fx')
       else Some (false, l, fx1)).
Proof.
  intros Hc Hp. revert fx. induction reads as [|[d|er] reads IH]; intros fx;
    cbn [read_conn read_ends]; rewrite Hc; cbn [mbind option_bind]; rewrite Hp.
  - exists []. cbn. rewrite app_nil_r. destruct fx. split; [apply carries_nil | done].
  - destruct d as [|b d].
    + exists []. cbn. rewrite app_nil_r. destruct fx. split; [apply carries_nil | done].
    + rewrite (proj2 (Z.eqb_neq _ _)) by (rewrite zlen_cons; pose proof (zlen_nonneg d); lia).
      destruct (send_chunks_spec (cx_id x) slot (b :: d) fx) as (fs1 & -> & Hc1).
      cbn [mbind option_bind]. destruct (IH (mkFx (fx_tx fx ++ fs1) (fx_sys fx))) as (fs & Hcs & ->).
      destruct (read_ends reads) as [data eof]. cbn [fst snd fx_tx fx_sys] in *.
      exists (fs1 ++ fs). rewrite app_assoc. split; [by apply (carries_app _ _ (b :: d)) | done].
  - exists []. cbn. rewrite app_nil_r. destruct fx. split; [apply carries_nil|].
    by destruct (would_block er).
Qed.

Lemma read_ends_ok reads : Forall (read_ok TCP_READ_BUF) reads -> bytes_ok (read_ends reads).1.
Proof.
  induction 1 as [|[[|b d]|er] reads Hr Hrs IH]; cbn [read_ends fst]; try by apply Forall_nil_2.
  destruct (read_ends reads) as [data eof]. cbn [fst] in *. apply Forall_app.
  by destruct Hr.
Qed.

Lemma read_conn_touches x reads l slot fx :
  Forall (read_ok TCP_READ_BUF) reads ->
  0 <= slot < zlen l -> touches_flag x slot l fx (read_conn x reads l slot fx).
Proof.
  intros Hr Hs. destruct (idx_in_range l slot Hs) as [[c|] Hc].
  2: { replace (read_conn x reads l slot fx) with (Some (true, l, fx))
         by (by destruct reads; cbn; rewrite Hc). apply touches_flag_same. }
  destruct (no_read (cx_side x) c) eqn:Ecp.
  { replace (read_conn x reads l slot fx) with (Some (false, l, fx))
      by (by destruct reads; cbn; rewrite Hc; cbn; rewrite Ecp). apply touches_flag_same. }
  destruct (read_conn_spec x reads l slot fx c Hc Ecp) as (fs & Hcar & ->).
  apply carries_frames in Hcar; [|by apply read_ends_ok]. cbv zeta.
  assert (moved x slot l fx l (mkFx (fx_tx fx ++ fs) (fx_sys fx))) as Hm.
  { constructor; try done; [congruence|]. by exists fs. }
  destruct (read_ends reads) as [data [|]]; cbn [snd].
  - destruct (close_conn_touches x l slot true (mkFx (fx_tx fx ++ fs) (fx_sys fx)) Hs)
      as (l' & fx' & -> & Hm'). cbn [mbind option_bind].
    eexists _, _, _. split; [reflexivity|]. by eapply moved_trans.
  - by eexists _, _, _.
Qed.

(** ** All slots at once *)

(** A loop whose body keeps [I], changes its own slot only and leaves [Q]
    there. *)
Lemma for_slots_spec f (I : list (option TcpConn) -> Fx -> Prop) (Q : option TcpConn -> Prop) js :
  (forall l fx slot, I l fx -> slot ∈ js ->
     exists l' fx', f l slot fx = Some (l', fx') /\ I l' fx' /\
       (forall j, j <> slot -> idx l' j = idx l j) /\ (forall o, idx l' slot = Some o -> Q o)) ->
  forall l fx, I l fx ->
  exists l' fx', for_slots f js l fx = Some (l', fx') /\ I l' fx' /\
    (forall i, i ∉ js -> idx l' i = idx l i) /\
    (forall i o, i ∈ js -> idx l' i = Some o -> Q o).
Proof.
  induction js as [|slot js IH]; intros Hf l fx HI; cbn [for_slots].
  { exists l, fx. split; [done|]. split; [done|]. split; [done|]. by intros i o Hi%not_elem_of_nil. }
  destruct (Hf l fx slot HI) as (l1 & fx1 & -> & HI1 & Ho1 & HQ1); [by left|].
  cbn [mbind option_bind].
  destruct (IH) with (l := l1) (fx := fx1) as (l' & fx' & -> & HI' & Ho' & HQ'); [|done|].
  { intros l2 fx2 j HI2 Hj. apply Hf; [done | by right]. }
  exists l', fx'. split; [done|]. split; [done|]. split.
  - intros i [Hi1 Hi2]%not_elem_of_cons. by rewrite Ho', Ho1.
  - intros i o Hi Hio. destruct (decide (i ∈ js)) as [Hj|Hj]; [by eapply HQ'|].
    apply elem_of_cons in Hi as [->|?]; [|done]. rewrite Ho' in Hio by done. by apply HQ1.
Qed.

Lemma close_conns_spec x l fx :
  zlen l = MAX_TCP_CONNS ->
  exists l' fx', close_conns x l fx = Some (l', fx') /\
    zlen l' = MAX_TCP_CONNS /\ no_conn l' /\ fx_tx fx' = fx_tx fx.
Proof.
  intros Hl.
  destruct (for_slots_spec (fun l slot fx => close_conn x l slot false fx)
    (fun l1 fx1 => zlen l1 = MAX_TCP_CONNS /\ fx_tx fx1 = fx_tx fx) (fun o => o = None) all_slots)
    with (l := l) (fx := fx) as (l' & fx' & E & [Hl' Ht'] & _ & HQ); [|done|].
  - intros l1 fx1 slot [Hl1 Ht1] Hs. apply elem_of_seqZ in Hs.
    destruct (idx_in_range l1 slot) as [[c|] Hc]; [lia| |].
    + rewrite (close_conn_eq _ _ _ _ _ _ Hc). eexists _, _. split; [reflexivity|].
      split; [by rewrite zlen_insert|]. split.
      * intros j Hj. apply idx_insert_ne; lia.
      * intros o. rewrite idx_insert_eq by lia. congruence.
    + rewrite close_conn_free by done. exists l1, fx1. split; [done|]. split; [done|].
      split; [done|]. congruence.
  - exists l', fx'. split; [exact E|]. split; [done|]. split; [|done]. intros i c Hi.
    by specialize (HQ i _ (in_all_slots _ _ _ Hl' Hi) Hi).
Qed.

Lemma update_conns_spec x l fx :
  zlen l = MAX_TCP_CONNS -> all_conns conn_sized l ->
  exists l' fx', update_conns x l fx = Some (l', fx') /\
    zlen l' = MAX_TCP_CONNS /\ conns_ok x l' /\ (no_conn l -> no_conn l') /\
    fx_tx fx' = fx_tx fx.
Proof.
  intros Hl Hsz.
  destruct (for_slots_spec (update_conn x)
    (fun l1 fx1 => zlen l1 = MAX_TCP_CONNS /\ all_conns conn_sized l1 /\
       (no_conn l -> no_conn l1) /\ fx_tx fx1 = fx_tx fx)
    (fun o => forall c, o = Some c -> conn_ok x c) all_slots)
    with (l := l) (fx := fx) as (l' & fx' & E & (Hl' & _ & Hn & Ht') & _ & HQ); [|done|].
  - intros l1 fx1 slot (Hl1 & Hs1 & Hn1 & Ht1) Hs. apply elem_of_seqZ in Hs.
    destruct (idx_in_range l1 slot) as [[c|] Hc]; [lia| |].
    + destruct (update_conn_eq x l1 slot fx1 c Hc) as (c' & fx2 & -> & Ec & Ht2 & Hok).
      pose proof (Hs1 _ _ Hc) as Hcs. eexists _, _. split; [reflexivity|]. split; [split; [|split; [|split]]|split].
      * by rewrite zlen_insert.
      * apply all_conns_insert; [lia | done|]. intros c1 [= <-]. by apply Hok.
      * intros Hno. by destruct (Hn1 Hno slot c).
      * congruence.
      * intros j Hj. apply idx_insert_ne; lia.
      * intros o. rewrite idx_insert_eq by lia. intros [= <-] c1 [= <-]. auto.
    + rewrite update_conn_free by done. exists l1, fx1. split; [done|]. split; [done|].
      split; [done|]. congruence.
  - exists l', fx'. split; [exact E|]. split; [done|]. split; [|done]. intros i c Hi.
    by apply (HQ i _ (in_all_slots _ _ _ Hl' Hi) Hi).
Qed.

Lemma conns_ok_sized x l : conns_ok x l -> all_conns conn_sized l.
Proof. intros H i c Hi. by destruct (H i c Hi). Qed.

Lemma conns_ok_empty x l : no_conn l -> conns_ok x l.
Proof. intros H i c Hi. by destruct (H i c). Qed.

Lemma moved_empty x slot l fx l' fx' :
  moved x slot l fx l' fx' -> 0 <= slot < zlen l -> no_conn l -> l' = l /\ fx_tx fx' = fx_tx fx.
Proof.
  intros Hm Hs Hn. destruct (idx_in_range l slot Hs) as [[c|] Hc]; [by destruct (Hn slot c)|].
  by apply (mv_free _ _ _ _ _ _ Hm).
Qed.

Lemma tdata_appends x l slot data fx conn :
  idx l slot = Some (Some conn) -> data <> [] ->
  zlen (txbuf conn) <= CONN_HIGH_WATER ->
  zlen (txbuf conn ++ data) <= CONN_HIGH_WATER + MAX_PAYLOAD ->
  exists l' fx' conn', tdata_conn x l slot data fx = Some (l', fx') /\ fx_tx fx' = fx_tx fx /\
    idx l' slot = Some (Some conn') /\ stream conn' = stream conn /\
    txbuf conn' = txbuf conn ++ data /\ close_pending conn' = close_pending conn.
Proof.
  intros Hc Hd H1 H2. pose proof (idx_bound _ _ _ Hc). rewrite zlen_app in H2.
  unfold tdata_conn. rewrite Hc. destruct data as [|b data]; [done|]. cbn [is_empty].
  set (d := b :: data) in *. cbn [mbind option_bind].
  rewrite (proj2 (Z.ltb_ge CONN_HIGH_WATER _)) by done.
  rewrite (proj2 (Z.ltb_ge (Z.max _ _) _)) by lia. cbn [orb].
  rewrite put_eq by done. cbn [mbind option_bind].
  edestruct (update_conn_eq x (<[Z.to_nat slot := Some (conn_txbuf (txbuf conn ++ d) conn)]> l)
    slot fx) as (c' & fx' & -> & -> & Ht & _); [by apply idx_insert_eq|].
  eexists _, _, _. split; [reflexivity|]. split; [done|]. rewrite list_insert_insert_eq.
  split; [by apply idx_insert_eq | done].
Qed.

(** Bytes for a stream are queued in order up to a bound: an [F_TDATA]
    frame extends what waits by exactly its data while the connection is at or
    below the high-water mark and the data fits; beyond that the connection is
    closed, with an [F_TCLOSE] to the far side. *)
Theorem tdata_bounded x l slot data fx conn :
  idx l slot = Some (Some conn) -> data <> [] ->
  exists l' fx', tdata_conn x l slot data fx = Some (l', fx') /\
    if (zlen (txbuf conn) <=? CONN_HIGH_WATER) &&
       (zlen (txbuf conn ++ data) <=? CONN_HIGH_WATER + MAX_PAYLOAD)
    then fx_tx fx' = fx_tx fx /\
         exists conn', idx l' slot = Some (Some conn') /\
           txbuf conn' = txbuf conn ++ data /\ stream conn' = stream conn /\
           close_pending conn' = close_pending conn
    else idx l' slot = Some None /\
         fx_tx fx' = fx_tx fx ++
           (if cx_up x then [(F_TCLOSE, cx_id x, pack_cid slot)] else []).
Proof.
  intros Hc Hd. pose proof (idx_bound _ _ _ Hc). pose proof (zlen_nonneg data).
  destruct (_ && _) eqn:E.
  { zbool. destruct (tdata_appends x l slot data fx conn) as (l' & fx' & conn' & -> & ? & ?);
      [done..|]. eexists _, _. split; [reflexivity|]. split; [done|]. exists conn'. tauto. }
  assert (tdata_conn x l slot data fx = close_conn x l slot true fx) as ->.
  { unfold tdata_conn. rewrite Hc. destruct data as [|b data]; [done|]. cbn [is_empty].
    set (d := b :: data) in *. cbn [mbind option_bind].
    rewrite (proj2 (orb_true_iff _ _)); [done|]. rewrite zlen_app in E.
    rewrite !Z.ltb_lt. destruct (zlen (txbuf conn) <=? CONN_HIGH_WATER) eqn:E1; zbool; [|by left].
    right. cbn [andb] in E. zbool. unfold MAX_PAYLOAD in *. lia. }
  rewrite (close_conn_eq _ _ _ _ _ _ Hc). eexists _, _. split; [reflexivity|].
  split; [by apply idx_insert_eq|]. cbn [andb]. destruct (cx_up x); cbn; by rewrite ?app_nil_r.
Qed.

Lemma update_conn_written x l slot fx c :
  idx l slot = Some (Some c) ->
  exists c' fx', update_conn x l slot fx = Some (<[Z.to_nat slot := Some c']> l, fx') /\
    c' = conn_in_sel (in_sel c') c /\ fx_tx fx' = fx_tx fx /\
    written (fx_sys fx') (stream c) = written (fx_sys fx) (stream c).
Proof.
  intros Hc. pose proof (idx_bound _ _ _ Hc). unfold update_conn. rewrite Hc.
  cbn [mbind option_bind]. destruct (conn_update_interest x slot c fx) as [c' fx'] eqn:Eu.
  rewrite put_eq by done. cbn [mbind option_bind]. exists c', fx'. split; [done|].
  pose proof (conn_update_interest_spec _ _ _ _ _ _ Eu) as (? & ? & _).
  split; [done|]. split; [done|]. revert Eu.
  unfold conn_update_interest, conn_apply_interest, reg_add, reg_mod, reg_del.
  repeat case_match; intros [= <- <-]; cbn; by autorewrite with zlist.
Qed.

(** A half-closed connection is drained, then closed without an answer:
    [F_TCLOSE] for a stream that still has bytes waiting keeps it, and the write
    that empties it hands the stream everything that waited, frees the slot and
    sends nothing; with nothing waiting the slot is freed at once. *)
Theorem half_close x l slot e fx conn :
  idx l slot = Some (Some conn) -> connecting conn = false ->
  env_write e (txbuf conn) = Ok (zlen (txbuf conn)) ->
  exists l1 fx1, tclose_conn x l slot fx = Some (l1, fx1) /\ fx_tx fx1 = fx_tx fx /\
    if is_empty (txbuf conn) then idx l1 slot = Some None
    else exists l2 fx2, write_conn x l1 slot e fx1 = Some (true, l2, fx2) /\
      idx l2 slot = Some None /\ fx_tx fx2 = fx_tx fx /\
      written (fx_sys fx2) (stream conn) = written (fx_sys fx) (stream conn) ++ txbuf conn.
Proof.
  intros Hc Hcn Hw. pose proof (idx_bound _ _ _ Hc). unfold tclose_conn. rewrite Hc.
  cbn [mbind option_bind]. destruct (is_empty (txbuf conn)) eqn:Ee.
  - rewrite (close_conn_eq _ _ _ _ _ _ Hc). eexists _, _. split; [reflexivity|].
    split; [done|]. by apply idx_insert_eq.
  - rewrite put_eq by done. cbn [mbind option_bind].
    set (l1 := <[Z.to_nat slot := Some (conn_close_pending true conn)]> l).
    assert (idx l1 slot = Some (Some (conn_close_pending true conn))) as Hc1
      by by apply idx_insert_eq.
    destruct (update_conn_written x l1 slot fx _ Hc1) as (c' & fx' & -> & Ec & Ht & Hwr).
    eexists _, _. split; [reflexivity|]. split; [done|].
    assert (can_write (cx_side x) c' = true) as Hcan.
    { rewrite Ec. destruct (cx_side x); cbn; by rewrite Ee, ?Hcn. }
    unfold write_conn. rewrite idx_insert_eq by (unfold l1; by rewrite zlen_insert).
    cbn [mbind option_bind]. rewrite Hcan. unfold write_stream.
    assert (txbuf c' = txbuf conn /\ stream c' = stream conn /\ close_pending c' = true)
      as (Etx & Est & Ecp) by by rewrite Ec.
    rewrite Etx, Hw. rewrite drain_front_eq by (pose proof (zlen_nonneg (txbuf conn)); lia).
    cbn [mbind option_bind]. rewrite put_eq by (unfold l1; by rewrite !zlen_insert).
    cbn [mbind option_bind txbuf conn_txbuf close_pending]. rewrite Ecp.
    rewrite zdrop_all by done. cbn [is_empty andb].
    rewrite (close_conn_eq _ _ _ _ _ (conn_txbuf [] c'))
      by (apply idx_insert_eq; unfold l1; by rewrite !zlen_insert).
    cbn [mbind option_bind andb]. eexists _, _. split; [reflexivity|].
    split; [apply idx_insert_eq; unfold l1; by rewrite !zlen_insert|]. split; [done|].
    change (stream (conn_close_pending true conn)) with (stream conn) in Hwr.
    unfold drop_conn, reg_del. cbn. autorewrite with zlist. cbn.
    by rewrite Est, Z.eqb_refl, Hwr, ztake_all.
Qed.

(** ** One connection with a byte waiting, in slot 1 *)

Definition one_slot : list (option TcpConn) :=
  <[1%nat := Some (mkConn 20 [5] false true false)]> no_conns.

Definition example_ctx : Ctx := mkCtx Src 3 true false.

Lemma tdata_bounded_witness :
  exists l' fx', tdata_conn example_ctx one_slot 1 [6; 7] fx0 = Some (l', fx') /\
    fx_tx fx' = [] /\
    exists conn', idx l' 1 = Some (Some conn') /\
      txbuf conn' = [5; 6; 7] /\ stream conn' = 20 /\ close_pending conn' = false.
Proof.
  exact (tdata_bounded example_ctx one_slot 1 [6; 7] fx0 (mkConn 20 [5] false true false)
    eq_refl ltac:(discriminate)).
Defined.

Lemma half_close_witness :
  exists l1 fx1, tclose_conn example_ctx one_slot 1 fx0 = Some (l1, fx1) /\ fx_tx fx1 = [] /\
    exists l2 fx2, write_conn example_ctx l1 1 (sample_env 0 []) fx1 = Some (true, l2, fx2) /\
      idx l2 1 = Some None /\ fx_tx fx2 = [] /\ written (fx_sys fx2) 20 = [] ++ [5].
Proof.
  exact (half_close example_ctx one_slot 1 (sample_env 0 []) fx0 (mkConn 20 [5] false true false)
    eq_refl eq_refl eq_refl).
Defined.
