(* ===== verification/TcpSource.v ===== *)
(** * The exporter's TCP channel ([TcpSourceChannel] of
    [serialmux-rs/src/channel.rs])

    Accepts local connections and tunnels each over its slot number. *)
From Stdlib Require Import ZArith Lia.
From stdpp Require Import base option numbers list strings.
From S2P Require Import Prelude Protocol TxQueue Serial Chan Tcp.

Local Open Scope Z_scope.

Module TcpSourceChannel.

Record t := mk {
  ch_id : Z;
  listener : RawFd;
  conns : list (option TcpConn);
  next_slot : Z;
  link_up : bool;
  bp_paused : bool;
}.

Definition set_conns v (s : t) := mk (ch_id s) (listener s) v (next_slot s) (link_up s) (bp_paused s).
Definition set_next_slot v (s : t) := mk (ch_id s) (listener s) (conns s) v (link_up s) (bp_paused s).
Definition set_link_up v (s : t) := mk (ch_id s) (listener s) (conns s) (next_slot s) v (bp_paused s).
Definition set_bp_paused v (s : t) := mk (ch_id s) (listener s) (conns s) (next_slot s) (link_up s) v.

(** [bind] answers with the listening descriptor ([env_connect]). *)
Definition new (ch_id : Z) (e : Env) (fx : Fx) : io t * Fx :=
  match env_parse_addr e with
  | Err _ => (Err InvalidInput, fx)
  | Ok _ =>
      match env_connect e with
      | Err er => (Err er, fx)
      | Ok listener =>
          let fx := syscall fx (OpenFd listener) in
          match env_register e listener with
          | Err er => (Err er, syscall fx (CloseFd listener))
          | Ok _ =>
              (Ok (mk ch_id listener no_conns 0 false false),
               reg_add fx listener (primary_token ch_id) READABLE)
          end
      end
  end.

(** [next_slot] is a [usize] and wraps in a release build. *)
Fixpoint alloc_loop (n : nat) (self : t) : option (t * option Z) :=
  match n with
  | O => Some (self, None)
  | S n =>
      let s := next_slot self mod MAX_TCP_CONNS in
      let self := set_next_slot ((next_slot self + 1) mod 2 ^ 64) self in
      c ← idx (conns self) s;
      match c with
      | None => Some (self, Some s)
      | Some _ => alloc_loop n self
      end
  end.

Definition alloc_slot (self : t) : option (t * option Z) :=
  alloc_loop (Z.to_nat MAX_TCP_CONNS) self.

Fixpoint accept_loop (accepts : list (io RawFd)) (self : t) (e : Env) (fx : Fx)
  : option (t * Fx) :=
  match accepts with
  | [] => Some (self, fx)
  | Err _ :: _ => Some (self, fx)
  | Ok stream :: accepts =>
      let fx := syscall fx (OpenFd stream) in
      if negb (link_up self) then accept_loop accepts self e (syscall fx (CloseFd stream))
      else
        '(self, slot) ← alloc_slot self;
        match slot with
        | None => accept_loop accepts self e (syscall fx (CloseFd stream))
        | Some slot =>
            let token := tcp_slot_token (ch_id self) slot in
            match env_register e stream with
            | Err _ => accept_loop accepts self e (syscall fx (CloseFd stream))
            | Ok _ =>
                let fx := reg_add fx stream token (interest_or READABLE WRITABLE) in
                cs ← put (conns self) slot (Some (mkConn stream [] false true false));
                accept_loop accepts (set_conns cs self) e
                  (enqueue fx (F_TCONN, ch_id self, pack_cid slot))
            end
        end
  end.

Definition accept (self : t) (e : Env) (fx : Fx) : option (t * Fx) :=
  accept_loop (env_accepts e) self e fx.

(** The fields the operations on a slot read. *)
Definition ctx (self : t) : Ctx := mkCtx Src (ch_id self) (link_up self) (bp_paused self).

(** An operation on the slots, as a method of the channel. *)
Definition on_conns (self : t) (r : option (list (option TcpConn) * Fx)) : option (t * Fx) :=
  '(cs, fx) ← r; Some (set_conns cs self, fx).

Definition update_conn_interest (self : t) (slot : Z) (fx : Fx) : option (t * Fx) :=
  on_conns self (update_conn (ctx self) (conns self) slot fx).

Definition close_slot (self : t) (slot : Z) (notify : bool) (fx : Fx) : option (t * Fx) :=
  on_conns self (close_conn (ctx self) (conns self) slot notify fx).

Definition tcp_event (self : t) (token : Z) (readable writable : bool) (e : Env) (fx : Fx)
  : option (t * Fx) :=
  slot ← slot_of token;
  '(returned, cs, fx) ← (if readable then read_conn (ctx self) (env_reads e) (conns self) slot fx
                         else Some (false, conns self, fx));
  if (returned : bool) then Some (set_conns cs self, fx)
  else if writable then
    '(returned, cs, fx) ← write_conn (ctx self) cs slot e fx;
    if (returned : bool) then Some (set_conns cs self, fx)
    else update_conn_interest (set_conns cs self) slot fx
  else Some (set_conns cs self, fx).

Definition on_frame (self : t) (ftype : Z) (payload : list Z) (e : Env) (fx : Fx)
  : option (t * Fx) :=
  match unpack_cid payload with
  | None => Some (self, fx)
  | Some (cid, data) =>
      let slot := cid in
      if MAX_TCP_CONNS <=? slot then Some (self, fx)
      else if ftype =? F_TDATA
      then on_conns self (tdata_conn (ctx self) (conns self) slot data fx)
      else if ftype =? F_TCLOSE
      then on_conns self (tclose_conn (ctx self) (conns self) slot fx)
      else Some (self, fx)
  end.

Definition on_link_connect (self : t) (e : Env) (fx : Fx) : option (t * Fx) :=
  Some (set_link_up true self, fx).

Definition on_link_disconnect (self : t) (e : Env) (fx : Fx) : option (t * Fx) :=
  let self := set_link_up false self in
  on_conns self (with_dummy fx (close_conns (ctx self) (conns self) fx)).

Definition tick (self : t) (now : Z) (e : Env) (fx : Fx) : option (t * Fx) := Some (self, fx).

Definition next_deadline (self : t) : option Z := None.

Definition handle_event (self : t) (token : Z) (readable writable : bool) (e : Env) (fx : Fx)
  : option (t * Fx) :=
  if token =? primary_token (ch_id self)
  then if readable then accept self e fx else Some (self, fx)
  else tcp_event self token readable writable e fx.

Definition close (self : t) (e : Env) (fx : Fx) : option (t * Fx) :=
  '(self, fx) ← on_conns self (with_dummy fx (close_conns (ctx self) (conns self) fx));
  Some (self, reg_del fx (listener self)).

Definition pause_source_reads (self : t) (e : Env) (fx : Fx) : option (t * Fx) :=
  if bp_paused self then Some (self, fx)
  else
    let self := set_bp_paused true self in
    on_conns self (update_conns (ctx self) (conns self) fx).

Definition resume_source_reads (self : t) (e : Env) (fx : Fx) : option (t * Fx) :=
  if negb (bp_paused self) then Some (self, fx)
  else
    let self := set_bp_paused false self in
    on_conns self (update_conns (ctx self) (conns self) fx).

End TcpSourceChannel.

#[export] Instance tcp_source_channel : Channel TcpSourceChannel.t := {
  channel_id := TcpSourceChannel.ch_id;
  on_frame := TcpSourceChannel.on_frame;
  on_link_connect := TcpSourceChannel.on_link_connect;
  on_link_disconnect := TcpSourceChannel.on_link_disconnect;
  tick := TcpSourceChannel.tick;
  next_deadline := TcpSourceChannel.next_deadline;
  handle_event := TcpSourceChannel.handle_event;
  close := TcpSourceChannel.close;
  pause_source_reads := TcpSourceChannel.pause_source_reads;
  resume_source_reads := TcpSourceChannel.resume_source_reads;
}.

Module TcpSourceProofs.
Import TcpSourceChannel.

Definition inv (s : t) : Prop :=
  0 <= ch_id s <= MAX_CHANNEL_ID /\ zlen (conns s) = MAX_TCP_CONNS /\
  conns_ok (ctx s) (conns s) /\ (link_up s = false -> no_conn (conns s)).

Lemma src_set_conns_id s : set_conns (conns s) s = s.
Proof. by destruct s. Qed.

(** ** Slot allocation *)

Lemma alloc_loop_spec n s :
  zlen (conns s) = MAX_TCP_CONNS ->
  exists s' r, alloc_loop n s = Some (s', r) /\ s' = set_next_slot (next_slot s') s /\
    match r with
    | Some slot => exists k, 0 <= k < Z.of_nat n /\ slot = (next_slot s + k) mod MAX_TCP_CONNS /\
        idx (conns s) slot = Some None /\
        forall j, 0 <= j < k -> occupied (conns s) ((next_slot s + j) mod MAX_TCP_CONNS)
    | None => forall j, 0 <= j < Z.of_nat n -> occupied (conns s) ((next_slot s + j) mod MAX_TCP_CONNS)
    end.
Proof.
  revert s. induction n as [|n IH]; intros s Hl; cbn [alloc_loop].
  { exists s, None. split; [done|]. split; [by destruct s|]. intros; lia. }
  cbn [conns set_next_slot].
  destruct (idx_in_range (conns s) (next_slot s mod MAX_TCP_CONNS)) as [c Hc].
  { rewrite Hl. by apply Z.mod_pos_bound. }
  rewrite Hc. cbn [mbind option_bind]. destruct c as [c|].
  - destruct (IH (set_next_slot ((next_slot s + 1) mod 2 ^ 64) s) Hl) as (s' & r & -> & Hs' & Hr).
    exists s', r. split; [done|]. split; [rewrite Hs'; by destruct s|].
    cbn [conns set_next_slot next_slot] in Hr.
    assert (forall j, ((next_slot s + 1) mod 2 ^ 64 + j) mod MAX_TCP_CONNS =
      (next_slot s + (1 + j)) mod MAX_TCP_CONNS) as Hmod.
    { intros j. rewrite Z.add_assoc, <- (Z.add_mod_idemp_l (next_slot s + 1)) by done.
      rewrite <- Z.add_mod_idemp_l by done. f_equal. f_equal.
      apply Z.mod_mod_divide. by exists (2 ^ 56). }
    assert (forall k, (forall j, 0 <= j < k -> occupied (conns s)
        (((next_slot s + 1) mod 2 ^ 64 + j) mod MAX_TCP_CONNS)) ->
      forall j, 0 <= j < 1 + k -> occupied (conns s) ((next_slot s + j) mod MAX_TCP_CONNS)) as Hocc.
    { intros k Hk j Hj. destruct (decide (j = 0)) as [->|].
      - rewrite Z.add_0_r. by exists c.
      - replace j with (1 + (j - 1)) by lia. rewrite <- Hmod. apply Hk. lia. }
    destruct r as [slot|].
    + destruct Hr as (k & Hk & -> & Hfree & Hj). exists (1 + k). rewrite <- Hmod.
      split; [lia|]. split; [done|]. split; [done|]. by apply Hocc.
    + intros j Hj. apply (Hocc (Z.of_nat n)); [done | lia].
  - eexists _, _. split; [reflexivity|]. split; [done|]. exists 0. rewrite Z.add_0_r.
    split; [lia|]. split; [done|]. split; [done|]. intros; lia.
Qed.

(** Slot allocation is round robin and complete: it yields the first free
    slot at or after [next_slot] in cyclic order, and fails only when all 256
    slots are taken; the counter may wrap. *)
Theorem alloc_round_robin s :
  zlen (conns s) = MAX_TCP_CONNS ->
  exists s' r, alloc_slot s = Some (s', r) /\ conns s' = conns s /\
    match r with
    | Some slot => exists k, 0 <= k < MAX_TCP_CONNS /\
        slot = (next_slot s + k) mod MAX_TCP_CONNS /\ idx (conns s) slot = Some None /\
        forall j, 0 <= j < k -> occupied (conns s) ((next_slot s + j) mod MAX_TCP_CONNS)
    | None => forall i, 0 <= i < MAX_TCP_CONNS -> occupied (conns s) i
    end.
Proof.
  intros Hl. destruct (alloc_loop_spec (Z.to_nat MAX_TCP_CONNS) s Hl) as (s' & r & E & Hs' & Hr).
  exists s', r. split; [exact E|]. split; [by rewrite Hs'|].
  rewrite Z2Nat.id in Hr by done. destruct r; [done|]. intros i Hi.
  set (m := MAX_TCP_CONNS) in *.
  destruct (Hr ((i - next_slot s) mod m)) as [c Hc]; [by apply Z.mod_pos_bound|].
  exists c. rewrite Z.add_mod_idemp_r in Hc by done.
  replace (next_slot s + (i - next_slot s)) with i in Hc by lia.
  by rewrite Z.mod_small in Hc.
Qed.

Lemma alloc_slot_inv s :
  zlen (conns s) = MAX_TCP_CONNS ->
  exists n r, alloc_slot s = Some (set_next_slot n s, r) /\
    forall slot, r = Some slot -> 0 <= slot < MAX_TCP_CONNS /\ idx (conns s) slot = Some None.
Proof.
  intros Hl. destruct (alloc_loop_spec (Z.to_nat MAX_TCP_CONNS) s Hl) as (s' & r & E & Hs' & Hr).
  exists (next_slot s'), r. split; [by rewrite <- Hs'|]. intros slot ->.
  destruct Hr as (k & _ & -> & Hf & _). split; [by apply Z.mod_pos_bound | done].
Qed.

(** ** Every call *)

Definition link_after (i : input) (up : bool) : bool :=
  match i with InConnect => true | InDisconnect => false | _ => up end.

Definition stepped (s : t) (i : input) (fx : Fx) (r : option (t * Fx)) : Prop :=
  exists s' fx' sent, r = Some (s', fx') /\ inv s' /\ ch_id s' = ch_id s /\
    bp_paused s' = paused_after i (bp_paused s) /\ link_up s' = link_after i (link_up s) /\
    fx_tx fx' = fx_tx fx ++ sent /\ Forall (frame_of (ch_id s)) sent /\
    (link_up s = false -> sent = []).

Lemma src_stepped_same s i fx :
  inv s -> paused_after i (bp_paused s) = bp_paused s -> link_after i (link_up s) = link_up s ->
  stepped s i fx (Some (s, fx)).
Proof. intros Hi Hp Hl. exists s, fx, []. by rewrite app_nil_r, Hp, Hl. Qed.

(** An operation on one slot is a step of the channel. *)
Lemma src_moved_stepped s i slot fx cs fx' :
  inv s -> 0 <= slot < MAX_TCP_CONNS -> moved (ctx s) slot (conns s) fx cs fx' ->
  paused_after i (bp_paused s) = bp_paused s -> link_after i (link_up s) = link_up s ->
  stepped s i fx (Some (set_conns cs s, fx')).
Proof.
  intros (Hid & Hl & Hok & Hn) Hs Hm Hp Hlk.
  pose proof (mv_sent _ _ _ _ _ _ Hm) as (sent & Ht & Hf).
  exists (set_conns cs s), fx', sent. rewrite Hp, Hlk. cbn. split; [done|]. split.
  - split; [done|]. cbn. split; [by rewrite (mv_len _ _ _ _ _ _ Hm)|].
    split; [by apply (mv_ok _ _ _ _ _ _ Hm)|]. intros Hup.
    apply moved_empty in Hm as [-> _]; [by apply Hn | lia | by apply Hn].
  - do 4 (split; [done|]). split; [done|]. intros Hup.
    apply moved_empty in Hm as [_ Ht']; [|lia|by apply Hn]. rewrite Ht' in Ht.
    by apply app_same_nil in Ht.
Qed.

Lemma src_touches_stepped s i slot fx r :
  inv s -> 0 <= slot < MAX_TCP_CONNS -> touches (ctx s) slot (conns s) fx r ->
  paused_after i (bp_paused s) = bp_paused s -> link_after i (link_up s) = link_up s ->
  stepped s i fx (on_conns s r).
Proof. intros Hi Hs (cs & fx' & -> & Hm). by apply (src_moved_stepped s i slot). Qed.

(** The frames of [accept] announce the new connections. *)
Lemma accept_loop_spec l s e fx :
  inv s ->
  exists s' fx' sent, accept_loop l s e fx = Some (s', fx') /\ inv s' /\ ch_id s' = ch_id s /\
    bp_paused s' = bp_paused s /\ link_up s' = link_up s /\
    fx_tx fx' = fx_tx fx ++ sent /\ Forall (frame_of (ch_id s)) sent /\
    (link_up s = false -> sent = []).
Proof.
  revert s fx. induction l as [|[st|er] l IH]; intros s fx Hi; cbn [accept_loop].
  1, 3: exists s, fx, []; by rewrite app_nil_r.
  assert (forall s1, inv s1 -> ch_id s1 = ch_id s -> bp_paused s1 = bp_paused s ->
    link_up s1 = link_up s ->
    exists s' fx' sent, accept_loop l s1 e (syscall (syscall fx (OpenFd st)) (CloseFd st))
        = Some (s', fx') /\ inv s' /\ ch_id s' = ch_id s /\
      bp_paused s' = bp_paused s /\ link_up s' = link_up s /\
      fx_tx fx' = fx_tx fx ++ sent /\ Forall (frame_of (ch_id s)) sent /\
      (link_up s = false -> sent = [])) as Hskip.
  { intros s1 Hi1 <- <- <-. apply (IH s1 (syscall (syscall fx (OpenFd st)) (CloseFd st)) Hi1). }
  destruct (link_up s) eqn:Eup; cbn [negb]; [|by apply Hskip].
  pose proof Hi as (Hid & Hl & Hok & _).
  destruct (alloc_slot_inv s Hl) as (n & r & -> & Hr). cbn [mbind option_bind].
  destruct r as [slot|]; [|by apply Hskip].
  destruct (Hr slot eq_refl) as [Hs Hfree]. cbn [ch_id set_next_slot].
  destruct (env_register e st); [|by apply Hskip].
  cbn [conns set_next_slot]. rewrite put_eq by lia. cbn [mbind option_bind].
  set (s1 := set_conns _ _).
  edestruct (IH s1) as (s' & fx' & sent & -> & Hi' & Hid' & Hb' & Hl' & Ht & Hf & _).
  { split; [done|]. cbn. split; [by rewrite zlen_insert|]. split; [|congruence].
    apply all_conns_insert; [lia | done|]. intros c [= <-]. split; [|done]. split; [done|].
    done. }
  exists s', fx', ((F_TCONN, ch_id s, pack_cid slot) :: sent). split; [done|]. split; [done|].
  rewrite Hid', Hb', Hl'. do 2 (split; [done|]). split; [by cbn|].
  split; [rewrite Ht; cbn; by rewrite <- app_assoc|]. split; [|done].
  apply Forall_cons. split; [by apply frame_of_cid | done].
Qed.

Lemma src_tcp_event_moved s token slot r w e fx :
  inv s -> env_ok e -> slot_of token = Some slot ->
  exists cs fx', tcp_event s token r w e fx = Some (set_conns cs s, fx') /\
    moved (ctx s) slot (conns s) fx cs fx'.
Proof.
  intros Hi He Ht. pose proof (slot_of_range _ _ Ht) as Hs. pose proof Hi as (_ & Hl & Hok & _).
  unfold tcp_event. rewrite Ht. cbn [mbind option_bind].
  assert (touches_flag (ctx s) slot (conns s) fx
    (if r then read_conn (ctx s) (env_reads e) (conns s) slot fx else Some (false, conns s, fx)))
    as (b & cs & fx1 & -> & Hm).
  { destruct r; [apply read_conn_touches; [apply He | lia] | apply touches_flag_same]. }
  cbn [mbind option_bind]. destruct b; [by exists cs, fx1|].
  destruct w; [|by exists cs, fx1].
  pose proof (mv_len _ _ _ _ _ _ Hm) as Hl1. pose proof (mv_ok _ _ _ _ _ _ Hm Hok) as Hok1.
  destruct (write_conn_touches (ctx s) cs slot e fx1 He ltac:(lia) Hok1)
    as (b & cs2 & fx2 & -> & Hm2). cbn [mbind option_bind]. destruct b.
  - exists cs2, fx2. split; [done|]. by eapply moved_trans.
  - unfold update_conn_interest. cbn [conns set_conns].
    change (ctx (set_conns cs2 s)) with (ctx s).
    pose proof (mv_len _ _ _ _ _ _ Hm2). pose proof (mv_ok _ _ _ _ _ _ Hm2 Hok1).
    destruct (update_conn_touches (ctx s) cs2 slot fx2) as (cs3 & fx3 & -> & Hm3); [lia | done|].
    exists cs3, fx3. split; [done|]. by do 2 (eapply moved_trans; [done|]).
Qed.

Lemma tcp_event_stepped s token slot r w e fx :
  inv s -> env_ok e -> slot_of token = Some slot ->
  stepped s (InEvent token r w) fx (tcp_event s token r w e fx).
Proof.
  intros Hi He Ht. destruct (src_tcp_event_moved s token slot r w e fx Hi He Ht) as (cs & fx' & -> & Hm).
  eapply src_moved_stepped; [done | by eapply slot_of_range | done | done | done].
Qed.

Lemma close_all_stepped s i fx up :
  inv s -> paused_after i (bp_paused s) = bp_paused s -> link_after i (link_up s) = up ->
  let s1 := set_link_up up s in
  exists cs fx', on_conns s1 (with_dummy fx (close_conns (ctx s1) (conns s1) fx)) =
      Some (set_conns cs s1, fx') /\ no_conn cs /\ fx_tx fx' = fx_tx fx /\
    forall fx'', fx_tx fx'' = fx_tx fx' -> stepped s i fx (Some (set_conns cs s1, fx'')).
Proof.
  intros (Hid & Hl & Hok & Hn) Hp Hup s1.
  destruct (close_conns_spec (ctx s1) (conns s1) fx Hl) as (cs & fx' & -> & Hl' & Hno & Ht).
  cbn [with_dummy on_conns mbind option_bind]. eexists _, _. split; [reflexivity|].
  split; [done|]. split; [done|]. intros fx'' Ht''.
  exists (set_conns cs s1), fx'', []. rewrite app_nil_r, Hp, Hup. split; [done|].
  split; [|done]. split; [done|]. split; [done|]. split; [by apply conns_ok_empty | done].
Qed.

Lemma src_pause_stepped s i fx v :
  inv s -> paused_after i (bp_paused s) = v -> link_after i (link_up s) = link_up s ->
  let s1 := set_bp_paused v s in
  stepped s i fx (on_conns s1 (update_conns (ctx s1) (conns s1) fx)).
Proof.
  intros (Hid & Hl & Hok & Hn) Hp Hlk s1.
  destruct (update_conns_spec (ctx s1) (conns s1) fx Hl) as (cs & fx' & -> & Hl' & Hok' & He & Ht).
  { by eapply conns_ok_sized. }
  exists (set_conns cs s1), fx', []. rewrite app_nil_r, Hp, Hlk. split; [done|].
  split; [|done]. split; [done|]. split; [done|]. split; [done|]. intros Hup. by apply He, Hn.
Qed.

(** The events the channel can get: its listener's, and those of its slots. *)
Definition owns (s : t) (token : Z) : Prop := channel_token (ch_id s) token.

Lemma owns_slot s token :
  inv s -> owns s token -> token <> primary_token (ch_id s) ->
  exists slot, slot_of token = Some slot.
Proof.
  intros (Hid & _) [->|(slot & Hs & ->)] Hne; [done|]. exists slot.
  apply slot_of_token_eq; [lia | done].
Qed.

Lemma source_step s i e fx :
  inv s -> env_ok e -> input_ok owns s i -> stepped s i fx (chan_step s i e fx).
Proof.
  intros Hi He [Hp Ht]. pose proof Hi as (Hid & Hl & Hok & Hn).
  destruct i as [ft pl| | |now|tok r w| | |]; cbn [chan_step].
  - cbn. unfold on_frame. destruct (unpack_cid pl) as [[cid data]|] eqn:Eu;
      [|by apply src_stepped_same].
    destruct (MAX_TCP_CONNS <=? cid) eqn:Ec; [by apply src_stepped_same|].
    assert (0 <= cid < MAX_TCP_CONNS) as Hs by (zbool; split; [by eapply unpack_cid_nonneg, Hp | done]).
    destruct (ft =? F_TDATA).
    { eapply src_touches_stepped; [done | exact Hs | apply tdata_touches; [lia | done] | done | done]. }
    destruct (ft =? F_TCLOSE); [|by apply src_stepped_same].
    eapply src_touches_stepped; [done | exact Hs | apply tclose_touches; [lia | done] | done | done].
  - cbn. exists (set_link_up true s), fx, []. rewrite app_nil_r. split; [done|].
    split; [|done]. by split.
  - cbn. unfold on_link_disconnect.
    destruct (close_all_stepped s InDisconnect fx false Hi) as (cs & fx' & -> & _ & _ & H);
      [done|done|]. by apply H.
  - by apply src_stepped_same.
  - cbn. unfold handle_event. destruct (tok =? primary_token (ch_id s)) eqn:Et; zbool.
    + destruct r; [|by apply src_stepped_same]. by apply accept_loop_spec.
    + destruct (owns_slot s tok Hi Ht Et) as [slot Hslot]. by eapply tcp_event_stepped.
  - cbn. unfold close. destruct (close_all_stepped s InClose fx (link_up s) Hi)
      as (cs & fx' & E & _ & _ & H); [done|done|].
    replace (set_link_up (link_up s) s) with s in E, H by (by destruct s).
    rewrite E. cbn [mbind option_bind]. by apply H.
  - cbn. unfold pause_source_reads. destruct (bp_paused s) eqn:Eb.
    + apply src_stepped_same; [done | by rewrite Eb | done].
    + by apply (src_pause_stepped s InPause).
  - cbn. unfold resume_source_reads. destruct (bp_paused s) eqn:Eb; cbn [negb].
    + by apply (src_pause_stepped s InResume).
    + apply src_stepped_same; [done | by rewrite Eb | done].
Qed.

(** A channel that has just been created. *)
Lemma src_inv_new id e fx s fx' :
  0 <= id <= MAX_CHANNEL_ID -> new id e fx = (Ok s, fx') -> inv s.
Proof.
  intros Hid. unfold new. repeat case_match; try done. intros [= <- _].
  split; [done|]. split; [done|]. split; [apply conns_ok_empty|intros _]; apply no_conns_empty.
Qed.

(** C30: Whatever happens to it, the source channel never panics, and after every
    history: there are 256 slots; no stream has more than the high-water mark
    plus one payload waiting; a connection whose peer has said goodbye is kept
    only while bytes wait for it; a connection is left out of the poll set only
    when it wants neither to read nor to write; and while the link is down there
    is no connection. *)
Theorem source_invariant id e0 c0 fx1 h :
  0 <= id <= MAX_CHANNEL_ID -> new id e0 fx0 = (Ok c0, fx1) ->
  Forall (fun x => env_ok x.2 /\ input_ok owns c0 x.1) h ->
  exists c fx, chan_run c0 fx1 h = Some (c, fx) /\ zlen (conns c) = MAX_TCP_CONNS /\
    (link_up c = false -> no_conn (conns c)) /\
    forall i conn, idx (conns c) i = Some (Some conn) ->
      zlen (txbuf conn) <= CONN_HIGH_WATER + MAX_PAYLOAD /\
      (close_pending conn = true -> txbuf conn <> []) /\
      (in_sel conn = false -> (bp_paused c || close_pending conn) = true /\ txbuf conn = []).
Proof.
  intros Hid Hnew Hh. pose proof (src_inv_new _ _ _ _ _ Hid Hnew) as Hi.
  destruct (chan_run_ind (fun c _ => inv c /\ ch_id c = ch_id c0)
    (fun x => env_ok x.2 /\ input_ok owns c0 x.1)) with (h := h) (c := c0) (fx := fx1)
    as (c & fx & -> & Hc & _); [|done|done|].
  - intros c i e fx [Hc Hic] [He Hin]. destruct (source_step c i e fx Hc He)
      as (c' & fx' & sent & -> & Hi' & Hid' & _).
    { destruct Hin as [Hp Ht]. split; [done|]. unfold owns in *. by rewrite Hic. }
    exists c', fx'. split; [done|]. split; [done | congruence].
  - destruct Hc as (_ & Hl & Hok & Hn). exists c, fx. split; [done|]. split; [done|].
    split; [done|]. intros i conn Hconn. destruct (Hok _ _ Hconn) as [[Hsz Hcp] Hpoll].
    split; [done|]. split; [done|]. intros Hsel. destruct (Hpoll Hsel) as [? Hw].
    split; [done|]. by apply (want_write_empty Src).
Qed.

(** Connections do not interfere: a frame for connection [cid] and an event
    of slot [slot] change no other slot. *)
Theorem source_isolates s ft pl token r w e fx s' fx' :
  inv s -> env_ok e ->
  (on_frame s ft pl e fx = Some (s', fx') ->
     forall cid data j, unpack_cid pl = Some (cid, data) -> bytes_ok pl -> j <> cid ->
       idx (conns s') j = idx (conns s) j) /\
  (tcp_event s token r w e fx = Some (s', fx') ->
     forall slot j, slot_of token = Some slot -> j <> slot ->
       idx (conns s') j = idx (conns s) j).
Proof.
  intros Hi He. pose proof Hi as (_ & Hl & Hok & _). split.
  - unfold on_frame. intros E cid data j Hu Hb Hj. rewrite Hu in E.
    destruct (MAX_TCP_CONNS <=? cid) eqn:Ec; [by injection E as <- _|].
    assert (0 <= cid < MAX_TCP_CONNS) as Hs by (zbool; split; [by eapply unpack_cid_nonneg | done]).
    destruct (ft =? F_TDATA); [|destruct (ft =? F_TCLOSE); [|by injection E as <- _]].
    + destruct (tdata_touches (ctx s) (conns s) cid data fx) as (cs & fx1 & Et & Hm); [lia|done|].
      rewrite Et in E. injection E as <- _. by apply (mv_others _ _ _ _ _ _ Hm).
    + destruct (tclose_touches (ctx s) (conns s) cid fx) as (cs & fx1 & Et & Hm); [lia|done|].
      rewrite Et in E. injection E as <- _. by apply (mv_others _ _ _ _ _ _ Hm).
  - intros E slot j Ht Hj. destruct (src_tcp_event_moved s token slot r w e fx Hi He Ht)
      as (cs & fx1 & Et & Hm). rewrite Et in E. injection E as <- _.
    by apply (mv_others _ _ _ _ _ _ Hm).
Qed.

(** What a readable connection sends: the bytes read, in order and without
    loss, as frames of its connection id, and then, if the peer closed or
    failed, one [F_TCLOSE], with the slot freed; nothing is read from a
    connection whose far side has closed. *)
Theorem source_forwards s token slot e fx conn :
  slot_of token = Some slot -> idx (conns s) slot = Some (Some conn) ->
  (close_pending conn = true -> tcp_event s token true false e fx = Some (s, fx)) /\
  (close_pending conn = false ->
   exists fs, carries (ch_id s) slot (read_ends (env_reads e)).1 fs /\
     exists s' fx', tcp_event s token true false e fx = Some (s', fx') /\
       if (read_ends (env_reads e)).2
       then fx_tx fx' = fx_tx fx ++ fs ++
              (if link_up s then [(F_TCLOSE, ch_id s, pack_cid slot)] else []) /\
            idx (conns s') slot = Some None
       else fx_tx fx' = fx_tx fx ++ fs /\ s' = s).
Proof.
  intros Ht Hc. unfold tcp_event. rewrite Ht. cbn [mbind option_bind]. split; intros Hp.
  - replace (read_conn (ctx s) (env_reads e) (conns s) slot fx) with (Some (false, conns s, fx))
      by (by destruct (env_reads e); cbn; rewrite Hc; cbn; rewrite Hp).
    cbn. by rewrite src_set_conns_id.
  - destruct (read_conn_spec (ctx s) (env_reads e) (conns s) slot fx conn Hc Hp) as (fs & Hcar & ->).
    exists fs. split; [done|]. cbv zeta. pose proof (idx_bound _ _ _ Hc).
    destruct (read_ends (env_reads e)) as [data [|]]; cbn [snd].
    + rewrite (close_conn_eq _ _ _ _ _ _ Hc). cbn [mbind option_bind andb cx_up ctx].
      eexists _, _. split; [reflexivity|]. split.
      * destruct (link_up s); cbn; by rewrite <- ?app_assoc, ?app_nil_r.
      * by apply idx_insert_eq.
    + cbn [mbind option_bind]. eexists _, _. split; [reflexivity|]. by rewrite src_set_conns_id.
Qed.

#[global] Instance source_laws : ChannelLaws t.
Proof.
  refine {|
    ch_inv := inv;
    ch_quiet := fun s => link_up s = false;
    ch_paused := bp_paused;
    ch_token := owns;
  |}.
  - by intros c (? & _).
  - done.
  - intros c i e fx Hi He Hin.
    destruct (source_step c i e fx Hi He Hin)
      as (c' & fx' & sent & E & Hi' & Hid & Hb & Hlk & Ht & Hf & Hq).
    exists c', fx', sent. do 6 (split; [done|]). intros Hw Hd. rewrite Hlk. split.
    + destruct Hd as [Hd|Hd]; [by apply Hq|]. subst i.
      destruct (close_all_stepped c InDisconnect fx false Hi) as (cs & fx1 & E1 & _ & Ht1 & _);
        [done|done|].
      cbn in E. unfold on_link_disconnect in E. rewrite E1 in E. injection E as <- <-.
      rewrite Ht1 in Ht. by apply app_same_nil in Ht.
    + by destruct Hd as [Hd|Hd]; [rewrite Hd; destruct i | subst i].
  - intros c i e fx c' fx' tok _ _ _ Hid Ht. cbn in Hid. unfold owns. by rewrite Hid.
Defined.

(** ** A run: a client connects and writes *)

Definition example_source : io t * Fx := new 3 (sample_env 0 []) fx0.

Definition example_source_history : list (input * Env) :=
  [(InConnect, sample_env 0 []);
   (InEvent 4 true false, sample_env 1 []);
   (InEvent (tcp_slot_token 3 0) true true, sample_env 2 [1; 2; 3]);
   (InFrame F_TDATA (pack_cid 0 ++ [7]), sample_env 3 [])].

Definition example_start : t := mk 3 9 no_conns 0 false false.

Lemma example_source_ok :
  Forall (fun x => env_ok x.2 /\ input_ok owns example_start x.1) example_source_history.
Proof.
  repeat apply Forall_cons_2; try apply Forall_nil_2;
    (split; [apply sample_env_ok; [vm_compute; discriminate | solve_bytes]|]);
    split; try done.
  - by left.
  - right. by exists 0.
  - split; [vm_compute; discriminate|].
    change (bytes_ok [0; 0; 7]). solve_bytes.
Qed.

Lemma source_invariant_witness :
  exists c fx, chan_run example_start example_source.2 example_source_history = Some (c, fx) /\
    zlen (conns c) = MAX_TCP_CONNS /\
    (link_up c = false -> no_conn (conns c)) /\
    forall i conn, idx (conns c) i = Some (Some conn) ->
      zlen (txbuf conn) <= CONN_HIGH_WATER + MAX_PAYLOAD /\
      (close_pending conn = true -> txbuf conn <> []) /\
      (in_sel conn = false -> (bp_paused c || close_pending conn) = true /\ txbuf conn = []).
Proof.
  apply (source_invariant 3 (sample_env 0 [])); [done | reflexivity | apply example_source_ok].
Defined.

(** A channel with one connection, in slot 1. *)
Definition one_conn : t :=
  mk 3 9 (<[1%nat := Some (mkConn 20 [5] false true false)]> no_conns) 2 true false.

Lemma one_conn_inv : inv one_conn.
Proof.
  split; [done|]. split; [done|]. split; [|done].
  apply (all_conns_insert _ _ 1); [done | apply conns_ok_empty, no_conns_empty|].
  intros c [= <-]. split; [split; [vm_compute; discriminate | done] | done].
Qed.

(** The same after its byte has been written. *)
Definition one_conn_written : t :=
  set_conns (<[1%nat := Some (mkConn 20 [] false true false)]> no_conns) one_conn.

Lemma source_isolates_witness :
  idx (conns one_conn_written) 5 = idx (conns one_conn) 5.
Proof.
  apply (source_isolates one_conn F_TCLOSE (pack_cid 1)
    (tcp_slot_token 3 1) false true (sample_env 0 []) fx0 one_conn_written
    (mkFx [] [WriteFd 20 [5]; RegMod 20 (tcp_slot_token 3 1) READABLE])) with (slot := 1).
  - exact one_conn_inv.
  - apply sample_env_ok; [vm_compute; discriminate | solve_bytes].
  - vm_compute. reflexivity.
  - reflexivity.
  - discriminate.
Defined.

Lemma source_forwards_witness :
  exists fs, carries 3 1 [8; 9] fs /\
    exists s' fx', tcp_event one_conn (tcp_slot_token 3 1) true false (sample_env 0 [8; 9]) fx0
        = Some (s', fx') /\ fx_tx fx' = [] ++ fs /\ s' = one_conn.
Proof.
  exact (proj2 (source_forwards one_conn (tcp_slot_token 3 1) 1 (sample_env 0 [8; 9]) fx0
    (mkConn 20 [5] false true false) eq_refl eq_refl) eq_refl).
Defined.

Lemma alloc_round_robin_witness :
  zlen (conns one_conn) = MAX_TCP_CONNS /\
  exists s' r, alloc_slot one_conn = Some (s', r) /\ conns s' = conns one_conn /\
    match r with
    | Some slot => exists k, 0 <= k < MAX_TCP_CONNS /\
        slot = (2 + k) mod MAX_TCP_CONNS /\ idx (conns one_conn) slot = Some None /\
        forall j, 0 <= j < k -> occupied (conns one_conn) ((2 + j) mod MAX_TCP_CONNS)
    | None => forall i, 0 <= i < MAX_TCP_CONNS -> occupied (conns one_conn) i
    end.
Proof. split; [reflexivity | apply (alloc_round_robin one_conn); reflexivity]. Defined.

(** A connection accepted while reads are paused is polled for reading all the
    same. *)
Example accepted_while_paused :
  (fun r => match r with
            | Some (c, fx) => (bp_paused c, registered (fx_sys fx) 9)
            | None => (false, None)
            end)
    (chan_run example_start fx0
       [(InConnect, sample_env 0 []); (InPause, sample_env 1 []);
        (InEvent 4 true false, sample_env 2 [])])
  = (true, Some (tcp_slot_token 3 0, READ_WRITE)).
Proof. vm_compute. reflexivity. Qed.

End TcpSourceProofs.
