(* ===== verification/TcpDest.v ===== *)
(** * The host's TCP channel ([TcpDestChannel] of
    [serialmux-rs/src/channel.rs])

    Opens a connection to the configured service for each [F_TCONN]. *)
From Stdlib Require Import ZArith Lia.
From stdpp Require Import base option numbers list strings.
From S2P Require Import Prelude Protocol TxQueue Serial Chan Tcp.

Local Open Scope Z_scope.

Module TcpDestChannel.

Record t := mk {
  ch_id : Z;
  dest_addr : string;
  dest_port : Z;
  conns : list (option TcpConn);
  bp_paused : bool;
}.

Definition set_conns v (s : t) := mk (ch_id s) (dest_addr s) (dest_port s) v (bp_paused s).
Definition set_bp_paused v (s : t) := mk (ch_id s) (dest_addr s) (dest_port s) (conns s) v.

Definition new (ch_id : Z) (dest_addr : string) (dest_port : Z) : t :=
  mk ch_id dest_addr dest_port no_conns false.

(** The fields the operations on a slot read: [close_slot] notifies whenever it
    is asked to. *)
Definition ctx (self : t) : Ctx := mkCtx Dst (ch_id self) true (bp_paused self).

(** An operation on the slots, as a method of the channel. *)
Definition on_conns (self : t) (r : option (list (option TcpConn) * Fx)) : option (t * Fx) :=
  '(cs, fx) ← r; Some (set_conns cs self, fx).

(** [dest_addr:dest_port] is parsed ([env_parse_addr]) and connected to
    ([env_connect]). *)
Definition open_conn (self : t) (slot : Z) (e : Env) (fx : Fx) : option (t * Fx) :=
  let tclose := (F_TCLOSE, ch_id self, pack_cid slot) in
  match env_parse_addr e with
  | Err _ => Some (self, enqueue fx tclose)
  | Ok _ =>
      match env_connect e with
      | Err _ => Some (self, enqueue fx tclose)
      | Ok stream =>
          let fx := syscall fx (OpenFd stream) in
          let token := tcp_slot_token (ch_id self) slot in
          match env_register e stream with
          | Err _ => Some (self, syscall (enqueue fx tclose) (CloseFd stream))
          | Ok _ =>
              let fx := reg_add fx stream token (interest_or READABLE WRITABLE) in
              cs ← put (conns self) slot (Some (mkConn stream [] true true false));
              Some (set_conns cs self, fx)
          end
      end
  end.

Definition update_conn_interest (self : t) (slot : Z) (fx : Fx) : option (t * Fx) :=
  on_conns self (update_conn (ctx self) (conns self) slot fx).

Definition close_slot (self : t) (slot : Z) (notify : bool) (fx : Fx) : option (t * Fx) :=
  on_conns self (close_conn (ctx self) (conns self) slot notify fx).

(** The slots once a connect in progress has been finished, and whether it
    failed; [None] inside when the slot is free. *)
Definition finish_connect (self : t) (slot : Z) (writable : bool) (e : Env)
  : option (option (bool * list (option TcpConn))) :=
  c ← idx (conns self) slot;
  match c with
  | None => Some None
  | Some conn =>
      if connecting conn && writable then
        match env_peer_addr e with
        | Ok _ =>
            cs ← put (conns self) slot (Some (conn_connecting false conn));
            Some (Some (false, cs))
        | Err _ => Some (Some (true, conns self))
        end
      else Some (Some (false, conns self))
  end.

Definition tcp_event (self : t) (token : Z) (readable writable : bool) (e : Env) (fx : Fx)
  : option (t * Fx) :=
  slot ← slot_of token;
  r ← finish_connect self slot writable e;
  match r with
  | None => Some (self, fx)
  | Some (true, cs) => close_slot (set_conns cs self) slot true fx
  | Some (false, cs) =>
      '(returned, cs, fx) ← (if writable then write_conn (ctx self) cs slot e fx
                             else Some (false, cs, fx));
      if (returned : bool) then Some (set_conns cs self, fx)
      else
        '(returned, cs, fx) ← (if readable then read_conn (ctx self) (env_reads e) cs slot fx
                               else Some (false, cs, fx));
        if (returned : bool) then Some (set_conns cs self, fx)
        else update_conn_interest (set_conns cs self) slot fx
  end.

Definition on_frame (self : t) (ftype : Z) (payload : list Z) (e : Env) (fx : Fx)
  : option (t * Fx) :=
  match unpack_cid payload with
  | None => Some (self, fx)
  | Some (cid, data) =>
      let slot := cid in
      if MAX_TCP_CONNS <=? slot then Some (self, fx)
      else if ftype =? F_TCONN then
        c ← idx (conns self) slot;
        match c with
        | None => open_conn self slot e fx
        | Some _ => Some (self, fx)
        end
      else if ftype =? F_TDATA
      then on_conns self (tdata_conn (ctx self) (conns self) slot data fx)
      else if ftype =? F_TCLOSE
      then on_conns self (tclose_conn (ctx self) (conns self) slot fx)
      else Some (self, fx)
  end.

Definition close_every (self : t) (fx : Fx) : option (t * Fx) :=
  on_conns self (with_dummy fx (close_conns (ctx self) (conns self) fx)).

Definition on_link_connect (self : t) (e : Env) (fx : Fx) : option (t * Fx) :=
  close_every self fx.

Definition on_link_disconnect (self : t) (e : Env) (fx : Fx) : option (t * Fx) :=
  close_every self fx.

Definition tick (self : t) (now : Z) (e : Env) (fx : Fx) : option (t * Fx) := Some (self, fx).

Definition next_deadline (self : t) : option Z := None.

Definition handle_event (self : t) (token : Z) (readable writable : bool) (e : Env) (fx : Fx)
  : option (t * Fx) :=
  tcp_event self token readable writable e fx.

Definition close (self : t) (e : Env) (fx : Fx) : option (t * Fx) := close_every self fx.

Definition pause_source_reads (self : t) (e : Env) (fx : Fx) : option (t * Fx) :=
  if bp_paused self then Some (self, fx)
  else
    let self := set_bp_paused true self in
    on_conns self (update_conns (ctx self) (conns self) fx).

Definition resume_source_reads (self : t) (e : Env) (fx : Fx) : option (t * Fx) :=
  if negb (bp_paused self) then Some (self, fx)
  else
    let self := set_bp_paused false self in
    on_conns self (update_conns (ctx self) (conns self) fx).

End TcpDestChannel.

#[export] Instance tcp_dest_channel : Channel TcpDestChannel.t := {
  channel_id := TcpDestChannel.ch_id;
  on_frame := TcpDestChannel.on_frame;
  on_link_connect := TcpDestChannel.on_link_connect;
  on_link_disconnect := TcpDestChannel.on_link_disconnect;
  tick := TcpDestChannel.tick;
  next_deadline := TcpDestChannel.next_deadline;
  handle_event := TcpDestChannel.handle_event;
  close := TcpDestChannel.close;
  pause_source_reads := TcpDestChannel.pause_source_reads;
  resume_source_reads := TcpDestChannel.resume_source_reads;
}.

Module TcpDestProofs.
Import TcpDestChannel.

Definition inv (s : t) : Prop :=
  0 <= ch_id s <= MAX_CHANNEL_ID /\ zlen (conns s) = MAX_TCP_CONNS /\
  conns_ok (ctx s) (conns s).

Lemma dst_set_conns_id s : set_conns (conns s) s = s.
Proof. by destruct s. Qed.

(** [sent = []] is forced when there is no connection and the call is not a
    frame. *)
Definition stepped (s : t) (i : input) (fx : Fx) (r : option (t * Fx)) : Prop :=
  exists s' fx' sent, r = Some (s', fx') /\ inv s' /\ ch_id s' = ch_id s /\
    bp_paused s' = paused_after i (bp_paused s) /\
    fx_tx fx' = fx_tx fx ++ sent /\ Forall (frame_of (ch_id s)) sent /\
    (wakes i = false -> no_conn (conns s) -> sent = [] /\ no_conn (conns s')).

Lemma dst_stepped_same s i fx :
  inv s -> paused_after i (bp_paused s) = bp_paused s -> stepped s i fx (Some (s, fx)).
Proof. intros Hi Hp. exists s, fx, []. by rewrite app_nil_r, Hp. Qed.

Lemma dst_moved_stepped s i slot fx cs fx' :
  inv s -> 0 <= slot < MAX_TCP_CONNS -> moved (ctx s) slot (conns s) fx cs fx' ->
  paused_after i (bp_paused s) = bp_paused s ->
  stepped s i fx (Some (set_conns cs s, fx')).
Proof.
  intros (Hid & Hl & Hok) Hs Hm Hp.
  pose proof (mv_sent _ _ _ _ _ _ Hm) as (sent & Ht & Hf).
  exists (set_conns cs s), fx', sent. rewrite Hp. cbn. split; [done|]. split.
  - split; [done|]. cbn. split; [by rewrite (mv_len _ _ _ _ _ _ Hm)|].
    by apply (mv_ok _ _ _ _ _ _ Hm).
  - do 4 (split; [done|]). intros _ Hno.
    apply moved_empty in Hm as [-> Ht']; [|lia|done]. rewrite Ht' in Ht.
    split; [by apply app_same_nil in Ht | done].
Qed.

Lemma dst_touches_stepped s i slot fx r :
  inv s -> 0 <= slot < MAX_TCP_CONNS -> touches (ctx s) slot (conns s) fx r ->
  paused_after i (bp_paused s) = bp_paused s -> stepped s i fx (on_conns s r).
Proof. intros Hi Hs (cs & fx' & -> & Hm) Hp. by apply (dst_moved_stepped s i slot). Qed.

Lemma open_conn_stepped s slot pl e fx :
  inv s -> 0 <= slot < MAX_TCP_CONNS ->
  stepped s (InFrame F_TCONN pl) fx (open_conn s slot e fx).
Proof.
  intros Hi Hs. pose proof Hi as (Hid & Hl & Hok). unfold open_conn.
  assert (forall fx', fx_tx fx' = fx_tx fx ++ [(F_TCLOSE, ch_id s, pack_cid slot)] ->
    stepped s (InFrame F_TCONN pl) fx (Some (s, fx'))) as Hfail.
  { intros fx' Ht. exists s, fx', [(F_TCLOSE, ch_id s, pack_cid slot)]. do 5 (split; [done|]).
    split; [by apply Forall_singleton, frame_of_cid | done]. }
  destruct (env_parse_addr e); [|by apply Hfail].
  destruct (env_connect e) as [st|]; [|by apply Hfail].
  destruct (env_register e st); [|by apply Hfail].
  rewrite put_eq by lia. cbn [mbind option_bind].
  eexists (set_conns (<[Z.to_nat slot := Some (mkConn st [] true true false)]> (conns s)) s), _, [].
  split; [reflexivity|]. rewrite app_nil_r. split; [|done]. split; [done|].
  cbn. split; [by rewrite zlen_insert|]. apply all_conns_insert; [lia | done|].
  intros c [= <-]. split; [split; done | done].
Qed.

Lemma finish_connect_moved s slot w e fx :
  inv s -> 0 <= slot < MAX_TCP_CONNS ->
  exists r, finish_connect s slot w e = Some r /\
    forall b cs, r = Some (b, cs) -> moved (ctx s) slot (conns s) fx cs fx.
Proof.
  intros (Hid & Hl & Hok) Hs. unfold finish_connect.
  destruct (idx_in_range (conns s) slot) as [[c|] Hc]; [lia| |]; rewrite Hc; cbn [mbind option_bind].
  2: { eexists. split; [done|]. done. }
  assert (moved (ctx s) slot (conns s) fx (conns s) fx) as Hsame by by apply moved_tx.
  destruct (connecting c && w); [|eexists; split; [done|]; by intros b cs [= _ <-]].
  destruct (env_peer_addr e); [|eexists; split; [done|]; by intros b cs [= _ <-]].
  rewrite put_eq by lia. cbn [mbind option_bind]. eexists. split; [done|]. intros b cs [= _ <-].
  apply (moved_insert _ _ _ _ c); [done | | exists []; by rewrite app_nil_r].
  intros c1 [= <-]. destruct (Hok _ _ Hc) as [Hsz Hp]. split; [done|]. unfold conn_polled in *.
  cbn in *. intros Hsel. destruct (Hp Hsel) as [? Hw]. apply orb_false_iff in Hw as [Hw _].
  by rewrite Hw.
Qed.

Lemma dst_tcp_event_moved s token slot r w e fx :
  inv s -> env_ok e -> slot_of token = Some slot ->
  exists cs fx', tcp_event s token r w e fx = Some (set_conns cs s, fx') /\
    moved (ctx s) slot (conns s) fx cs fx'.
Proof.
  intros Hi He Ht. pose proof (slot_of_range _ _ Ht) as Hs. pose proof Hi as (_ & Hl & Hok).
  unfold tcp_event. rewrite Ht. cbn [mbind option_bind].
  destruct (finish_connect_moved s slot w e fx Hi Hs) as (o & -> & Hm). cbn [mbind option_bind].
  destruct o as [[b cs]|].
  2: { exists (conns s), fx. rewrite dst_set_conns_id. split; [done | by apply moved_tx]. }
  specialize (Hm b cs eq_refl). pose proof (mv_len _ _ _ _ _ _ Hm) as Hl1.
  pose proof (mv_ok _ _ _ _ _ _ Hm Hok) as Hok1.
  destruct b.
  { unfold close_slot. cbn [conns set_conns]. change (ctx (set_conns cs s)) with (ctx s).
    destruct (close_conn_touches (ctx s) cs slot true fx) as (cs2 & fx2 & -> & Hm2); [lia|].
    exists cs2, fx2. split; [done|]. by eapply moved_trans. }
  assert (touches_flag (ctx s) slot cs fx
    (if w then write_conn (ctx s) cs slot e fx else Some (false, cs, fx)))
    as (b & cs1 & fx1 & -> & Hm1).
  { destruct w; [apply write_conn_touches; [done | lia | done] | apply touches_flag_same]. }
  cbn [mbind option_bind]. destruct b.
  { exists cs1, fx1. split; [done|]. by eapply moved_trans. }
  pose proof (mv_len _ _ _ _ _ _ Hm1) as Hl2.
  assert (touches_flag (ctx s) slot cs1 fx1
    (if r then read_conn (ctx s) (env_reads e) cs1 slot fx1 else Some (false, cs1, fx1)))
    as (b & cs2 & fx2 & -> & Hm2).
  { destruct r; [apply read_conn_touches; [apply He | lia] | apply touches_flag_same]. }
  pose proof (moved_trans _ _ _ _ _ _ _ _ (moved_trans _ _ _ _ _ _ _ _ Hm Hm1) Hm2) as Hm3.
  cbn [mbind option_bind]. destruct b; [by exists cs2, fx2|].
  pose proof (mv_len _ _ _ _ _ _ Hm3). pose proof (mv_ok _ _ _ _ _ _ Hm3 Hok).
  unfold update_conn_interest. cbn [conns set_conns]. change (ctx (set_conns cs2 s)) with (ctx s).
  destruct (update_conn_touches (ctx s) cs2 slot fx2) as (cs3 & fx3 & -> & Hm4); [lia | done|].
  exists cs3, fx3. split; [done|]. by eapply moved_trans.
Qed.

Lemma close_every_stepped s i fx :
  inv s -> paused_after i (bp_paused s) = bp_paused s ->
  exists s' fx', close_every s fx = Some (s', fx') /\ inv s' /\ ch_id s' = ch_id s /\
    bp_paused s' = bp_paused s /\ fx_tx fx' = fx_tx fx /\ no_conn (conns s').
Proof.
  intros (Hid & Hl & Hok) Hp. unfold close_every.
  destruct (close_conns_spec (ctx s) (conns s) fx Hl) as (cs & fx' & -> & Hl' & Hno & Ht).
  cbn [with_dummy on_conns mbind option_bind]. eexists _, _. split; [reflexivity|].
  split; [split; [done|]; split; [done | by apply conns_ok_empty] | done].
Qed.

Lemma dst_pause_stepped s i fx v :
  inv s -> paused_after i (bp_paused s) = v ->
  let s1 := set_bp_paused v s in
  stepped s i fx (on_conns s1 (update_conns (ctx s1) (conns s1) fx)).
Proof.
  intros (Hid & Hl & Hok) Hp s1.
  destruct (update_conns_spec (ctx s1) (conns s1) fx Hl) as (cs & fx' & -> & Hl' & Hok' & He & Ht).
  { by eapply conns_ok_sized. }
  exists (set_conns cs s1), fx', []. rewrite app_nil_r, Hp. split; [done|].
  split; [done|]. do 4 (split; [done|]). intros _ Hno. split; [done | by apply He].
Qed.

(** Only its slots are registered: there is no listener. *)
Definition owns (s : t) (token : Z) : Prop :=
  exists slot, 0 <= slot < MAX_TCP_CONNS /\ token = tcp_slot_token (ch_id s) slot.

Lemma dest_step s i e fx :
  inv s -> env_ok e -> input_ok owns s i -> stepped s i fx (chan_step s i e fx).
Proof.
  intros Hi He [Hp Ht]. pose proof Hi as (Hid & Hl & Hok).
  assert (forall i', paused_after i' (bp_paused s) = bp_paused s ->
    stepped s i' fx (close_every s fx)) as Hclose.
  { intros i' Hb. destruct (close_every_stepped s i' fx Hi Hb)
      as (s' & fx' & -> & Hi' & Hid' & Hb' & Ht' & Hno).
    exists s', fx', []. by rewrite app_nil_r, Hb. }
  destruct i as [ft pl| | |now|tok r w| | |]; cbn [chan_step]; try by apply Hclose.
  - cbn. unfold on_frame. destruct (unpack_cid pl) as [[cid data]|] eqn:Eu;
      [|by apply dst_stepped_same].
    destruct (MAX_TCP_CONNS <=? cid) eqn:Ec; [by apply dst_stepped_same|].
    assert (0 <= cid < MAX_TCP_CONNS) as Hs
      by (zbool; split; [by eapply unpack_cid_nonneg, Hp | done]).
    destruct (ft =? F_TCONN) eqn:Ef.
    { destruct (idx_in_range (conns s) cid) as [[c|] Hc]; [lia| |]; rewrite Hc;
        cbn [mbind option_bind]; [by apply dst_stepped_same|]. zbool. subst ft.
      by apply open_conn_stepped. }
    destruct (ft =? F_TDATA).
    { eapply dst_touches_stepped; [done | exact Hs | apply tdata_touches; [lia | done] | done]. }
    destruct (ft =? F_TCLOSE); [|by apply dst_stepped_same].
    eapply dst_touches_stepped; [done | exact Hs | apply tclose_touches; [lia | done] | done].
  - by apply dst_stepped_same.
  - destruct Ht as (slot & Hs & ->). assert (slot_of (tcp_slot_token (ch_id s) slot) = Some slot)
      as Hslot by (apply slot_of_token_eq; [lia | done]).
    destruct (dst_tcp_event_moved s _ slot r w e fx Hi He Hslot) as (cs & fx' & E & Hm).
    cbn. unfold handle_event. rewrite E. by eapply dst_moved_stepped.
  - cbn. unfold pause_source_reads. destruct (bp_paused s) eqn:Eb.
    + apply dst_stepped_same; [done | by rewrite Eb].
    + by apply (dst_pause_stepped s InPause).
  - cbn. unfold resume_source_reads. destruct (bp_paused s) eqn:Eb; cbn [negb].
    + by apply (dst_pause_stepped s InResume).
    + apply dst_stepped_same; [done | by rewrite Eb].
Qed.

Lemma dst_inv_new id addr port : 0 <= id <= MAX_CHANNEL_ID -> inv (new id addr port).
Proof. intros Hid. split; [done|]. split; [done|]. apply conns_ok_empty, no_conns_empty. Qed.

(** Whatever happens to it, the destination channel never panics, and after
    every history the bounds of the source channel's connections hold of its
    own; a connection left out of the poll set wants neither to read nor to
    write and is not being connected. *)
Theorem dest_invariant id addr port h :
  0 <= id <= MAX_CHANNEL_ID ->
  Forall (fun x => env_ok x.2 /\ input_ok owns (new id addr port) x.1) h ->
  exists c fx, chan_run (new id addr port) fx0 h = Some (c, fx) /\
    zlen (conns c) = MAX_TCP_CONNS /\
    forall i conn, idx (conns c) i = Some (Some conn) ->
      zlen (txbuf conn) <= CONN_HIGH_WATER + MAX_PAYLOAD /\
      (close_pending conn = true -> txbuf conn <> []) /\
      (in_sel conn = false -> (bp_paused c || close_pending conn) = true /\
         txbuf conn = [] /\ connecting conn = false).
Proof.
  intros Hid Hh.
  destruct (chan_run_ind (fun c _ => inv c /\ ch_id c = id)
    (fun x => env_ok x.2 /\ input_ok owns (new id addr port) x.1))
    with (h := h) (c := new id addr port) (fx := fx0) as (c & fx & -> & Hc & _); [| |done|].
  - intros c i e fx [Hc Hic] [He Hin]. destruct (dest_step c i e fx Hc He)
      as (c' & fx' & sent & -> & Hi' & Hid' & _).
    { destruct Hin as [Hp Ht]. split; [done|]. unfold owns in *. by rewrite Hic. }
    exists c', fx'. split; [done|]. split; [done | congruence].
  - split; [by apply dst_inv_new | done].
  - destruct Hc as (_ & Hl & Hok). exists c, fx. split; [done|]. split; [done|].
    intros i conn Hconn. destruct (Hok _ _ Hconn) as [[Hsz Hcp] Hpoll].
    split; [done|]. split; [done|]. intros Hsel. destruct (Hpoll Hsel) as [? Hw].
    split; [done|]. split; [by apply (want_write_empty Dst)|].
    cbn in Hw. by apply orb_false_iff in Hw as [_ ?].
Qed.

(** What becomes of an [F_TCONN] frame on a free slot, on every path: if the
    address is no socket address, the connect fails or the registration fails,
    the far side gets an [F_TCLOSE] and the slot stays free; otherwise the slot
    holds a connection in progress with nothing to write, polled for writing. *)
Theorem dest_open s cid e fx :
  inv s -> 0 <= cid < MAX_TCP_CONNS -> idx (conns s) cid = Some None ->
  exists s' fx', on_frame s F_TCONN (pack_cid cid) e fx = Some (s', fx') /\
    match env_parse_addr e, env_connect e with
    | Ok _, Ok st =>
        match env_register e st with
        | Ok _ =>
            idx (conns s') cid = Some (Some (mkConn st [] true true false)) /\
            registered (fx_sys fx') st = Some (tcp_slot_token (ch_id s) cid, READ_WRITE) /\
            fx_tx fx' = fx_tx fx
        | Err _ => s' = s /\ fx_tx fx' = fx_tx fx ++ [(F_TCLOSE, ch_id s, pack_cid cid)]
        end
    | _, _ => s' = s /\ fx_tx fx' = fx_tx fx ++ [(F_TCLOSE, ch_id s, pack_cid cid)]
    end.
Proof.
  intros (_ & Hl & _) Hs Hc. unfold on_frame.
  rewrite unpack_pack_nil by (unfold MAX_TCP_CONNS in *; lia).
  rewrite (proj2 (Z.leb_gt _ _)) by lia. rewrite Z.eqb_refl, Hc. cbn [mbind option_bind].
  unfold open_conn. destruct (env_parse_addr e); [|by eexists _, _].
  destruct (env_connect e) as [st|]; [|by eexists _, _].
  destruct (env_register e st); [|by eexists _, _].
  rewrite put_eq by lia. cbn [mbind option_bind]. eexists _, _. split; [reflexivity|].
  split; [apply idx_insert_eq; lia|]. split; [|done].
  unfold reg_add. cbn. autorewrite with zlist. cbn. by rewrite Z.eqb_refl.
Qed.

(** A connection id must not be reused while its old connection is being
    drained: an [F_TCONN] for a taken slot is ignored, so the bytes of the new
    connection are queued for the client of the old one. *)
Theorem dest_reused_id s cid conn data e e' fx :
  inv s -> 0 <= cid < MAX_TCP_CONNS -> idx (conns s) cid = Some (Some conn) ->
  close_pending conn = true -> data <> [] ->
  zlen (txbuf conn) <= CONN_HIGH_WATER ->
  zlen (txbuf conn ++ data) <= CONN_HIGH_WATER + MAX_PAYLOAD ->
  on_frame s F_TCONN (pack_cid cid) e fx = Some (s, fx) /\
  exists s' fx' conn', on_frame s F_TDATA (pack_cid cid ++ data) e' fx = Some (s', fx') /\
    idx (conns s') cid = Some (Some conn') /\
    stream conn' = stream conn /\ txbuf conn' = txbuf conn ++ data.
Proof.
  intros (_ & Hl & _) Hs Hc Hcp Hd H1 H2. unfold on_frame. split.
  - rewrite unpack_pack_nil by (unfold MAX_TCP_CONNS in *; lia).
    rewrite (proj2 (Z.leb_gt _ _)) by lia. by rewrite Z.eqb_refl, Hc.
  - rewrite unpack_pack_cid by (unfold MAX_TCP_CONNS in *; lia). rewrite (proj2 (Z.leb_gt _ _)) by lia.
    rewrite (proj2 (Z.eqb_neq _ _)) by done. rewrite Z.eqb_refl.
    destruct (tdata_appends (ctx s) (conns s) cid data fx conn Hc Hd H1 H2)
      as (cs & fx' & conn' & -> & _ & ? & ? & ? & _).
    by eexists _, _, conn'.
Qed.

#[global] Instance dest_laws : ChannelLaws t.
Proof.
  refine {|
    ch_inv := inv;
    ch_quiet := fun s => no_conn (conns s);
    ch_paused := bp_paused;
    ch_token := owns;
  |}.
  - by intros c (? & _).
  - intros c tok _ ?. by right.
  - intros c i e fx Hi He Hin.
    destruct (dest_step c i e fx Hi He Hin)
      as (c' & fx' & sent & E & Hi' & Hid & Hb & Ht & Hf & Hq).
    exists c', fx', sent. do 6 (split; [done|]). intros Hw [Hd | ->]; [by apply Hq|].
    destruct (close_every_stepped c InDisconnect fx Hi eq_refl)
      as (c1 & fx1 & E1 & _ & _ & _ & Ht1 & Hno).
    cbn in E. unfold on_link_disconnect in E. rewrite E1 in E. injection E as <- <-.
    rewrite Ht1 in Ht. by apply app_same_nil in Ht.
  - intros c i e fx c' fx' tok _ _ _ Hid Ht. cbn in Hid. unfold owns. by rewrite Hid.
Defined.

(** ** Runs *)

Definition example_dest : t := new 3 "127.0.0.1" 7125.

Definition example_dest_history : list (input * Env) :=
  [(InConnect, sample_env 0 []);
   (InFrame F_TCONN (pack_cid 5), sample_env 1 []);
   (InFrame F_TDATA (pack_cid 5 ++ [1; 2]), sample_env 2 []);
   (InEvent (tcp_slot_token 3 5) true true, sample_env 3 [9])].

Lemma example_dest_ok :
  Forall (fun x => env_ok x.2 /\ input_ok owns example_dest x.1) example_dest_history.
Proof.
  repeat apply Forall_cons_2; try apply Forall_nil_2;
    (split; [apply sample_env_ok; [vm_compute; discriminate | solve_bytes]|]);
    split; try done.
  - split; [vm_compute; discriminate|]. change (bytes_ok [5; 0]). solve_bytes.
  - split; [vm_compute; discriminate|]. change (bytes_ok [5; 0; 1; 2]). solve_bytes.
  - by exists 5.
Qed.

Lemma dest_invariant_witness :
  exists c fx, chan_run example_dest fx0 example_dest_history = Some (c, fx) /\
    zlen (conns c) = MAX_TCP_CONNS /\
    forall i conn, idx (conns c) i = Some (Some conn) ->
      zlen (txbuf conn) <= CONN_HIGH_WATER + MAX_PAYLOAD /\
      (close_pending conn = true -> txbuf conn <> []) /\
      (in_sel conn = false -> (bp_paused c || close_pending conn) = true /\
         txbuf conn = [] /\ connecting conn = false).
Proof. apply dest_invariant; [done | apply example_dest_ok]. Defined.

Lemma dest_open_witness :
  exists s' fx', on_frame example_dest F_TCONN (pack_cid 5) (sample_env 0 []) fx0 = Some (s', fx') /\
    idx (conns s') 5 = Some (Some (mkConn 9 [] true true false)) /\
    registered (fx_sys fx') 9 = Some (tcp_slot_token 3 5, READ_WRITE) /\ fx_tx fx' = [].
Proof.
  exact (dest_open example_dest 5 (sample_env 0 []) fx0 (dst_inv_new 3 "127.0.0.1" 7125 ltac:(done))
    ltac:(done) eq_refl).
Defined.

(** A client of connection 5 that has closed its side with a byte to go. *)
Definition draining : t :=
  set_conns (<[5%nat := Some (mkConn 20 [4] false true true)]> no_conns) example_dest.

Lemma draining_inv : inv draining.
Proof.
  split; [done|]. split; [done|]. apply (all_conns_insert _ _ 5);
    [done | apply conns_ok_empty, no_conns_empty|].
  intros c [= <-]. split; [split; [vm_compute; discriminate | done] | done].
Qed.

Lemma dest_reused_id_witness :
  on_frame draining F_TCONN (pack_cid 5) (sample_env 0 []) fx0 = Some (draining, fx0) /\
  exists s' fx' conn', on_frame draining F_TDATA (pack_cid 5 ++ [9]) (sample_env 0 []) fx0
      = Some (s', fx') /\
    idx (conns s') 5 = Some (Some conn') /\ stream conn' = 20 /\ txbuf conn' = [4; 9].
Proof.
  apply (dest_reused_id draining 5 (mkConn 20 [4] false true true) [9] (sample_env 0 [])
    (sample_env 0 []) fx0 draining_inv); try done.
Defined.
End TcpDestProofs.
