(* ===== verification/TcpTunnel.v ===== *)
(** * The two TCP channels together

    What the exporter reads from a client reaches the buffer of the host's
    connection with the same id, byte for byte. *)
From Stdlib Require Import ZArith Lia.
From stdpp Require Import base option numbers list strings.
From S2P Require Import Prelude Protocol TxQueue Serial Chan Tcp TcpSource TcpDest.

Local Open Scope Z_scope.

Module TcpTunnel.
Import TcpDestChannel.

(** The frames that carry [data], delivered one after the other. *)
Lemma dest_receives id slot data fs d fx h conn :
  carries id slot data fs -> h.*1 = map frame_input fs ->
  0 <= slot < MAX_TCP_CONNS -> idx (conns d) slot = Some (Some conn) ->
  zlen (txbuf conn ++ data) <= CONN_HIGH_WATER ->
  exists d' fx' conn', chan_run d fx h = Some (d', fx') /\ fx_tx fx' = fx_tx fx /\
    idx (conns d') slot = Some (Some conn') /\ stream conn' = stream conn /\
    txbuf conn' = txbuf conn ++ data /\ close_pending conn' = close_pending conn.
Proof.
  intros (parts & -> & <- & Hp) Hh Hs. revert h d fx conn Hh.
  induction Hp as [|part parts [Hne Hle] Hp IH]; intros h d fx conn Hh Hc Hsz.
  { destruct h; [|done]. exists d, fx, conn. cbn. by rewrite app_nil_r. }
  destruct h as [|[i e] h]; [done|]. rewrite fmap_cons in Hh. cbn [map fst] in Hh.
  apply (inj2 cons) in Hh as [-> Hh]. cbn [concat] in Hsz.
  rewrite app_assoc, zlen_app in Hsz. pose proof (zlen_nonneg (concat parts)).
  rewrite zlen_app in Hsz. pose proof (zlen_nonneg part). pose proof (zlen_nonneg (txbuf conn)).
  cbn [chan_run frame_input chan_step fst snd Chan.on_frame tcp_dest_channel]. unfold on_frame.
  rewrite unpack_pack_cid by (unfold MAX_TCP_CONNS in *; lia).
  rewrite (proj2 (Z.leb_gt _ _)) by lia. rewrite (proj2 (Z.eqb_neq _ _)) by done.
  rewrite Z.eqb_refl.
  destruct (tdata_appends (ctx d) (conns d) slot part fx conn)
    as (cs & fx1 & conn1 & -> & Ht1 & Hc1 & Hst1 & Htx1 & Hcp1); [done | done | lia | |].
  { rewrite zlen_app. unfold MAX_PAYLOAD in *. lia. }
  cbn [on_conns mbind option_bind].
  destruct (IH h (set_conns cs d) fx1 conn1 Hh Hc1) as (d' & fx' & conn' & -> & Ht & Hc' & Hst & Htx & Hcp).
  { rewrite Htx1, !zlen_app. lia. }
  exists d', fx', conn'. split; [done|]. split; [congruence|]. split; [done|].
  split; [congruence|]. split; [|congruence]. cbn [concat]. by rewrite Htx, Htx1, <- app_assoc.
Qed.

(** The tunnel is lossless: when a connection of the exporter becomes
    readable, whatever the sizes of its reads, handing the frames it sends to
    the host's channel appends exactly the bytes read to what waits for the
    stream of the same connection id, as long as that stays below the
    high-water mark; the stream itself, and with an open peer the exporter's
    connection, are untouched. *)
Theorem tunnel_lossless s token slot e fx conn d fxd dconn h data eof :
  slot_of token = Some slot ->
  idx (TcpSourceChannel.conns s) slot = Some (Some conn) -> close_pending conn = false ->
  read_ends (env_reads e) = (data, eof) ->
  idx (conns d) slot = Some (Some dconn) ->
  zlen (txbuf dconn ++ data) <= CONN_HIGH_WATER ->
  exists fs s' fx', TcpSourceChannel.tcp_event s token true false e fx = Some (s', fx') /\
    fx_tx fx' = fx_tx fx ++ fs ++
      (if eof && TcpSourceChannel.link_up s
       then [(F_TCLOSE, TcpSourceChannel.ch_id s, pack_cid slot)] else []) /\
    (h.*1 = map frame_input fs ->
     exists d' fxd' dconn', chan_run d fxd h = Some (d', fxd') /\ fx_tx fxd' = fx_tx fxd /\
       idx (conns d') slot = Some (Some dconn') /\ stream dconn' = stream dconn /\
       txbuf dconn' = txbuf dconn ++ data).
Proof.
  intros Ht Hc Hp Hr Hd Hsz. unfold TcpSourceChannel.tcp_event. rewrite Ht.
  cbn [mbind option_bind].
  destruct (read_conn_spec (TcpSourceChannel.ctx s) (env_reads e) (TcpSourceChannel.conns s)
    slot fx conn Hc Hp) as (fs & Hcar & ->). rewrite Hr in *. cbn [fst snd] in *.
  exists fs. cbv zeta.
  assert (h.*1 = map frame_input fs ->
    exists d' fxd' dconn', chan_run d fxd h = Some (d', fxd') /\ fx_tx fxd' = fx_tx fxd /\
      idx (conns d') slot = Some (Some dconn') /\ stream dconn' = stream dconn /\
      txbuf dconn' = txbuf dconn ++ data) as Hrecv.
  { intros Hh. destruct (dest_receives _ slot data fs d fxd h dconn Hcar Hh)
      as (d' & fxd' & dconn' & ? & ? & ? & ? & ? & _);
      [by eapply slot_of_range | done | done |]. by exists d', fxd', dconn'. }
  destruct eof.
  - rewrite (close_conn_eq _ _ _ _ _ _ Hc). cbn [mbind option_bind andb cx_up TcpSourceChannel.ctx].
    eexists _, _. split; [reflexivity|]. split; [|done].
    destruct (TcpSourceChannel.link_up s); cbn; by rewrite <- ?app_assoc, ?app_nil_r.
  - cbn [mbind option_bind andb]. eexists _, _. split; [reflexivity|]. split; [|done].
    by rewrite app_nil_r.
Qed.

(** The client of slot 5 writes three bytes and closes. *)
Definition example_src : TcpSourceChannel.t :=
  TcpSourceChannel.mk 3 9 (<[5%nat := Some (mkConn 21 [] false true false)]> no_conns) 6 true false.

Definition example_reads : Env :=
  let e := sample_env 0 [] in
  {| env_now := 0; env_serial := env_serial e; env_read := env_read e; env_write := env_write e;
     env_symlink := env_symlink e; env_accepts := [];
     env_reads := [Ok [1; 2]; Ok [3]; Ok []];
     env_register := env_register e; env_parse_addr := env_parse_addr e;
     env_connect := env_connect e; env_peer_addr := env_peer_addr e |}.

Lemma tunnel_lossless_witness :
  exists fs s' fx', TcpSourceChannel.tcp_event example_src (tcp_slot_token 3 5) true false
      example_reads fx0 = Some (s', fx') /\
    fx_tx fx' = [] ++ fs ++ [(F_TCLOSE, 3, pack_cid 5)] /\
    ([(InFrame F_TDATA (pack_cid 5 ++ [1; 2]), sample_env 0 []);
      (InFrame F_TDATA (pack_cid 5 ++ [3]), sample_env 0 [])].*1 = map frame_input fs ->
     exists d' fxd' dconn', chan_run TcpDestProofs.draining fx0
        [(InFrame F_TDATA (pack_cid 5 ++ [1; 2]), sample_env 0 []);
         (InFrame F_TDATA (pack_cid 5 ++ [3]), sample_env 0 [])] = Some (d', fxd') /\
       fx_tx fxd' = [] /\
       idx (conns d') 5 = Some (Some dconn') /\ stream dconn' = 20 /\
       txbuf dconn' = [4] ++ [1; 2; 3]).
Proof.
  apply (tunnel_lossless example_src (tcp_slot_token 3 5) 5 example_reads fx0
    (mkConn 21 [] false true false) TcpDestProofs.draining fx0 (mkConn 20 [4] false true true)
    _ [1; 2; 3] true); try reflexivity.
  vm_compute. discriminate.
Defined.
End TcpTunnel.
