(* ===== verification/TcpSession.v ===== *)
(** * What a TCP connection is given

    Of every operation on the slots: a connection that is there afterwards was there
    before, on the same stream, and its stream was given, with what waits for it,
    only what a frame brought.  So the connection of a slot on the host has been
    given, since the [F_TCONN] that opened it, exactly the data of its slot. *)
From Stdlib Require Import ZArith Lia.
From stdpp Require Import base option numbers list strings.
From S2P Require Import Prelude Protocol TxQueue Serial Chan Tcp TcpDest.

Local Open Scope Z_scope.

Module TcpSession.

Implicit Types l : list (option TcpConn).

(** The bytes given to the stream of [c], and those that wait for it. *)
Definition bytes_to (fx : Fx) (c : TcpConn) : list Z := written (fx_sys fx) (stream c) ++ txbuf c.

Definition same_writes (fx fx' : Fx) : Prop :=
  forall f, written (fx_sys fx') f = written (fx_sys fx) f.

(** No two connections on one descriptor. *)
Definition distinct l : Prop :=
  forall i j c d, idx l i = Some (Some c) -> idx l j = Some (Some d) ->
    stream c = stream d -> i = j.

(** Each connection afterwards was there, the one of [slot] with [data] more. *)
Definition given (slot : Z) (data : list Z) l (fx : Fx) l' (fx' : Fx) : Prop :=
  zlen l' = zlen l /\ forall k c', idx l' k = Some (Some c') ->
    exists c, idx l k = Some (Some c) /\ stream c' = stream c /\
      bytes_to fx' c' = bytes_to fx c ++ (if k =? slot then data else []).

Lemma given_distinct slot data l fx l' fx' : given slot data l fx l' fx' -> distinct l -> distinct l'.
Proof.
  intros [_ Hg] Hd i j c d Hc Hj E.
  destruct (Hg _ _ Hc) as (c0 & Hc0 & Ec & _). destruct (Hg _ _ Hj) as (d0 & Hd0 & Ed & _).
  apply (Hd i j c0 d0); [done..|congruence].
Qed.

Lemma given_trans slot d1 d2 l1 fx1 l2 fx2 l3 fx3 :
  given slot d1 l1 fx1 l2 fx2 -> given slot d2 l2 fx2 l3 fx3 -> given slot (d1 ++ d2) l1 fx1 l3 fx3.
Proof.
  intros [L1 H1] [L2 H2]. split; [congruence|]. intros k c3 Hc3. destruct (H2 _ _ Hc3) as (c2 & Hc2 & E2 & B2).
  destruct (H1 _ _ Hc2) as (c1 & Hc1 & E1 & B1). exists c1. split; [done|]. split; [congruence|].
  rewrite B2, B1, <- app_assoc. by destruct (k =? slot).
Qed.

Lemma given_slot slot slot' l fx l' fx' : given slot [] l fx l' fx' -> given slot' [] l fx l' fx'.
Proof.
  intros [Hz Hg]. split; [done|]. intros k c' Hc'.
  destruct (Hg _ _ Hc') as (c & Hc & E & B). exists c. rewrite B.
  split; [done|]. split; [done|]. by destruct (k =? slot), (k =? slot').
Qed.

Lemma given_nil slot l fx l' fx' :
  zlen l' = zlen l -> (forall k c', idx l' k = Some (Some c') -> exists c, idx l k = Some (Some c) /\
     stream c' = stream c /\ txbuf c' = txbuf c) -> same_writes fx fx' ->
  given slot [] l fx l' fx'.
Proof.
  intros Hz Hl Hw. split; [done|]. intros k c' Hc'. destruct (Hl _ _ Hc') as (c & Hc & Es & Et). exists c. split; [done|].
  split; [done|]. unfold bytes_to. rewrite Es, Et, Hw. by destruct (k =? slot); rewrite app_nil_r.
Qed.

Lemma given_same slot l fx fx' : same_writes fx fx' -> given slot [] l fx l fx'.
Proof. intros Hw. apply given_nil; [done| |done]. intros k c Hc. by exists c. Qed.

Lemma given_refl slot l fx : given slot [] l fx l fx.
Proof. by apply given_same. Qed.

(** ** One slot *)

Lemma given_insert slot data l fx c c' fx' :
  idx l slot = Some (Some c) -> distinct l -> stream c' = stream c ->
  bytes_to fx' c' = bytes_to fx c ++ data ->
  (forall f, f <> stream c -> written (fx_sys fx') f = written (fx_sys fx) f) ->
  given slot data l fx (<[Z.to_nat slot := Some c']> l) fx'.
Proof.
  intros Hc Hd Es Hb Hw. split; [apply zlen_insert|]. intros k d.
  pose proof (idx_bound _ _ _ Hc) as Hs.
  destruct (decide (k = slot)) as [->|Hne].
  - rewrite idx_insert_eq by done. intros [= <-]. exists c. by rewrite Z.eqb_refl.
  - rewrite idx_insert_ne by (lia || congruence). intros Hk. exists d. split; [done|]. split; [done|].
    rewrite (proj2 (Z.eqb_neq _ _)) by done. rewrite app_nil_r. unfold bytes_to.
    rewrite Hw; [done|]. intros E. apply Hne. by apply (Hd k slot d c).
Qed.

Lemma given_gone slot l fx fx' :
  0 <= slot -> same_writes fx fx' -> given slot [] l fx (<[Z.to_nat slot := None]> l) fx'.
Proof.
  intros Hs Hw. apply given_nil; [apply zlen_insert| |done]. intros k c. destruct (decide (k = slot)) as [->|Hne].
  - unfold idx. rewrite (proj2 (Z.leb_le _ _)) by done.
    destruct (decide (Z.to_nat slot < length l)%nat).
    + by rewrite list_lookup_insert_eq.
    + rewrite list_insert_ge by lia. intros E%lookup_lt_Some. lia.
  - rewrite idx_insert_ne by done. intros Hk. by exists c.
Qed.

Lemma drop_conn_writes c fx : same_writes fx (drop_conn c fx).
Proof. intros f. unfold drop_conn, reg_del. cbn. by autorewrite with zlist. Qed.

Lemma closed_writes (b : bool) c fx f :
  same_writes fx (if b then enqueue (drop_conn c fx) f else drop_conn c fx).
Proof. intros g. destruct b; apply drop_conn_writes. Qed.

Lemma close_conn_given x l slot notify fx l' fx' :
  close_conn x l slot notify fx = Some (l', fx') -> given slot [] l fx l' fx'.
Proof.
  unfold close_conn. destruct (idx l slot) as [[c|]|] eqn:Hc; [| |done]; cbn [mbind option_bind].
  - pose proof (idx_bound _ _ _ Hc). rewrite put_eq by done. cbn [mbind option_bind].
    intros [= <- <-]. apply given_gone; [lia | apply closed_writes].
  - intros [= <- <-]. apply given_refl.
Qed.

Lemma conn_update_interest_same x slot c fx c' fx' :
  conn_update_interest x slot c fx = (c', fx') ->
  stream c' = stream c /\ txbuf c' = txbuf c /\ same_writes fx fx'.
Proof.
  unfold conn_update_interest, conn_apply_interest, reg_add, reg_mod, reg_del.
  repeat case_match; intros [= <- <-]; (split; [done|]); (split; [done|]); intros f; cbn;
    by autorewrite with zlist.
Qed.

Lemma update_conn_given x l slot fx l' fx' :
  distinct l -> update_conn x l slot fx = Some (l', fx') -> given slot [] l fx l' fx'.
Proof.
  intros Hd. unfold update_conn. destruct (idx l slot) as [[c|]|] eqn:Hc; [| |done];
    cbn [mbind option_bind]; [|intros [= <- <-]; apply given_refl].
  destruct (conn_update_interest x slot c fx) as [c1 fx1] eqn:Eu.
  apply conn_update_interest_same in Eu as (Es & Et & Hw). pose proof (idx_bound _ _ _ Hc).
  rewrite put_eq by done. cbn [mbind option_bind]. intros [= <- <-].
  apply (given_insert slot [] l fx c); try done.
  unfold bytes_to. by rewrite Es, Et, Hw, app_nil_r.
Qed.

(** A connection changed, then its slot dealt with. *)
Lemma given_changed slot data l fx c c' fx1 l' fx' :
  idx l slot = Some (Some c) -> distinct l -> stream c' = stream c ->
  bytes_to fx1 c' = bytes_to fx c ++ data ->
  (forall f, f <> stream c -> written (fx_sys fx1) f = written (fx_sys fx) f) ->
  (distinct (<[Z.to_nat slot := Some c']> l) ->
   given slot [] (<[Z.to_nat slot := Some c']> l) fx1 l' fx') ->
  given slot data l fx l' fx'.
Proof.
  intros Hc Hd Es Hb Hw Hg. pose proof (given_insert slot data l fx c c' fx1 Hc Hd Es Hb Hw) as Hi.
  rewrite <- (app_nil_r data). eapply given_trans; [exact Hi|]. apply Hg. by eapply given_distinct.
Qed.

Lemma tdata_conn_given x l slot data fx l' fx' :
  distinct l -> tdata_conn x l slot data fx = Some (l', fx') -> given slot data l fx l' fx'.
Proof.
  intros Hd. unfold tdata_conn. destruct data as [|b data]; [intros [= <- <-]; apply given_refl|].
  cbn [is_empty]. destruct (idx l slot) as [[c|]|] eqn:Hc; [| |done]; cbn [mbind option_bind].
  - destruct (_ || _).
    + intros E. pose proof (idx_bound _ _ _ Hc). rewrite (close_conn_eq _ _ _ _ _ _ Hc) in E.
      injection E as <- <-. split; [apply zlen_insert|]. intros k c'. destruct (decide (k = slot)) as [->|Hne].
      { by rewrite idx_insert_eq. }
      rewrite idx_insert_ne by (lia || congruence). intros Hk. exists c'.
      rewrite (proj2 (Z.eqb_neq _ _)) by done. rewrite app_nil_r. split; [done|]. split; [done|].
      unfold bytes_to. by rewrite closed_writes.
    + pose proof (idx_bound _ _ _ Hc). rewrite put_eq by done. cbn [mbind option_bind].
      intros E. apply (given_changed slot (b :: data) l fx c (conn_txbuf (txbuf c ++ b :: data) c) fx); [done..| | |].
      * unfold bytes_to. cbn. by rewrite app_assoc.
      * done.
      * intros Hd'. by eapply update_conn_given.
  - intros [= <- <-]. split; [done|]. intros k c Hk. exists c.
    rewrite (proj2 (Z.eqb_neq k slot)) by congruence. by rewrite app_nil_r.
Qed.

Lemma tclose_conn_given x l slot fx l' fx' :
  distinct l -> tclose_conn x l slot fx = Some (l', fx') -> given slot [] l fx l' fx'.
Proof.
  intros Hd. unfold tclose_conn. destruct (idx l slot) as [[c|]|] eqn:Hc; [| |done];
    cbn [mbind option_bind]; [|intros [= <- <-]; apply given_refl].
  destruct (is_empty (txbuf c)); [by apply close_conn_given|].
  pose proof (idx_bound _ _ _ Hc). rewrite put_eq by done. cbn [mbind option_bind].
  intros E. apply (given_changed slot [] l fx c (conn_close_pending true c) fx); [done..| | |].
  - by rewrite app_nil_r.
  - done.
  - intros Hd'. by eapply update_conn_given.
Qed.

Lemma write_stream_given e c fx c' bad fx' :
  env_ok e -> write_stream e c fx = Some (c', bad, fx') ->
  stream c' = stream c /\ bytes_to fx' c' = bytes_to fx c /\
  forall f, f <> stream c -> written (fx_sys fx') f = written (fx_sys fx) f.
Proof.
  intros He. destruct (write_stream_spec e c fx He) as (tx & b & fx1 & E & _ & _ & Hw).
  rewrite E. intros [= <- <- <-]. split; [done|]. split; [exact Hw|].
  revert E. unfold write_stream. destruct (env_write e (txbuf c)) as [n|].
  - destruct (drain_front _ _); [|done]. intros [= _ _ <-] f Hf. cbn. autorewrite with zlist. cbn.
    by rewrite (proj2 (Z.eqb_neq _ _)).
  - by intros [= _ _ <-].
Qed.

Lemma write_conn_given x l slot e fx b l' fx' :
  env_ok e -> distinct l -> write_conn x l slot e fx = Some (b, l', fx') -> given slot [] l fx l' fx'.
Proof.
  intros He Hd. unfold write_conn. destruct (idx l slot) as [[c|]|] eqn:Hc; [| |done];
    cbn [mbind option_bind]; [|intros [= _ <- <-]; apply given_refl].
  intros ([[c1 bad] fx1] & E1 & E)%bind_Some.
  assert (stream c1 = stream c /\ bytes_to fx1 c1 = bytes_to fx c /\
    forall f, f <> stream c -> written (fx_sys fx1) f = written (fx_sys fx) f) as (Es & Eb & Ew).
  { destruct (can_write _ c); [by eapply write_stream_given | by injection E1 as <- <- <-]. }
  pose proof (idx_bound _ _ _ Hc). rewrite put_eq in E by done. cbn [mbind option_bind] in E.
  apply (given_changed slot [] l fx c c1 fx1); [done..|by rewrite app_nil_r|done|]. intros _.
  destruct bad; [|destruct (_ && _)].
  1, 2: apply bind_Some in E as ([l2 fx2] & E2 & [= _ <- <-]); by eapply close_conn_given.
  injection E as _ <- <-. apply given_refl.
Qed.

Lemma read_conn_given x reads l slot fx b l' fx' :
  read_conn x reads l slot fx = Some (b, l', fx') -> given slot [] l fx l' fx'.
Proof.
  revert fx. induction reads as [|r reads IH]; intros fx; cbn [read_conn];
    (destruct (idx l slot) as [[c|]|] eqn:Hc; [| |done]; cbn [mbind option_bind];
     [|intros [= _ <- <-]; apply given_refl]);
    (destruct (no_read _ c); [intros [= _ <- <-]; apply given_refl|]).
  - intros [= _ <- <-]. apply given_refl.
  - assert (forall fx1,
      ('(l1, fx2) ← close_conn x l slot true fx1; Some (true, l1, fx2)) = Some (b, l', fx') -> given slot [] l fx1 l' fx') as Heof.
    { intros fx1 ([l2 fx2] & E2 & [= _ <- <-])%bind_Some. by eapply close_conn_given. }
    destruct r as [buf|er].
    + destruct (_ =? 0); [by apply Heof|].
      destruct (send_chunks_spec (cx_id x) slot buf fx) as (fs & -> & _). cbn [mbind option_bind].
      exact (IH _).
    + destruct (would_block er); [intros [= _ <- <-]; apply given_refl | by apply Heof].
Qed.

Lemma for_slots_given f js slot l fx l' fx' :
  (forall l fx j l' fx', distinct l -> f l j fx = Some (l', fx') -> given j [] l fx l' fx') ->
  distinct l -> for_slots f js l fx = Some (l', fx') -> given slot [] l fx l' fx'.
Proof.
  intros Hf. revert l fx. induction js as [|j js IH]; intros l fx Hd; cbn [for_slots].
  - intros [= <- <-]. apply given_refl.
  - intros ([l1 fx1] & E1 & E)%bind_Some. apply Hf in E1; [|done].
    apply (given_slot _ slot) in E1. apply (given_trans slot [] [] _ _ l1 fx1); [done|].
    apply IH; [by eapply given_distinct | done].
Qed.

(** ** A call on the slots *)

(** The data a call brings for slot [k]. *)
Definition carried (k : Z) (i : input) : list Z :=
  match i with
  | InFrame ft pl =>
      if ft =? F_TDATA then
        match unpack_cid pl with Some (cid, data) => if k =? cid then data else [] | None => [] end
      else []
  | _ => []
  end.

(** The data of a slot that frames carry. *)
Definition slot_data (slot : Z) (fs : list frame) : list Z :=
  fs ≫= fun f => carried slot (InFrame f.1.1 f.2).

Lemma slot_data_app slot fs1 fs2 : slot_data slot (fs1 ++ fs2) = slot_data slot fs1 ++ slot_data slot fs2.
Proof. apply bind_app. Qed.

(** Each connection afterwards was there, with [data] more for its slot, or is a new
    one that was given nothing. *)
Definition slots_step (opens : Z -> Prop) (data : Z -> list Z) l (fx : Fx) l' (fx' : Fx) : Prop :=
  zlen l' = zlen l /\ distinct l' /\
  forall k c', 0 <= k < MAX_TCP_CONNS -> idx l' k = Some (Some c') ->
    opens k /\ bytes_to fx' c' = [] \/
    exists c, idx l k = Some (Some c) /\ stream c' = stream c /\
      bytes_to fx' c' = bytes_to fx c ++ data k.

Lemma given_slots opens data slot bytes l fx l' fx' :
  distinct l -> given slot bytes l fx l' fx' ->
  (forall k, 0 <= k < MAX_TCP_CONNS -> data k = if k =? slot then bytes else []) ->
  slots_step opens data l fx l' fx'.
Proof.
  intros Hd Hg Hc. split; [apply Hg|]. split; [by eapply given_distinct|].
  intros k c' Hk Hc'. right. rewrite Hc by done. by apply Hg.
Qed.

Lemma silent_slots opens data l fx l' fx' :
  distinct l -> given 0 [] l fx l' fx' ->
  (forall k, 0 <= k < MAX_TCP_CONNS -> data k = []) -> slots_step opens data l fx l' fx'.
Proof. intros Hd Hg Hc. apply (given_slots _ _ 0 []); [done..|]. intros k Hk. rewrite Hc by done. by case_match. Qed.

Lemma same_slots opens data l fx fx' :
  distinct l -> (forall k, 0 <= k < MAX_TCP_CONNS -> data k = []) ->
  same_writes fx fx' -> slots_step opens data l fx l fx'.
Proof. intros Hd Hc Hw. apply silent_slots; [done | by apply given_same | done]. Qed.

Lemma slots_trans opens l1 fx1 l2 fx2 l3 fx3 :
  slots_step opens (fun _ => []) l1 fx1 l2 fx2 -> slots_step opens (fun _ => []) l2 fx2 l3 fx3 ->
  slots_step opens (fun _ => []) l1 fx1 l3 fx3.
Proof.
  intros (L1 & _ & H1) (L2 & D2 & H2). split; [congruence|]. split; [done|]. intros k c3 Hk Hc3.
  destruct (H2 k c3 Hk Hc3) as [?|(c2 & Hc2 & E2 & B2)]; [by left|]. rewrite app_nil_r in B2.
  rewrite B2. destruct (H1 k c2 Hk Hc2) as [?|(c1 & Hc1 & E1 & B1)]; [by left|].
  right. exists c1. split; [done|]. split; [congruence | done].
Qed.

Lemma slots_weaken (o1 o2 : Z -> Prop) (d1 d2 : Z -> list Z) l fx l' fx' :
  slots_step o1 d1 l fx l' fx' -> (forall k, o1 k -> o2 k) ->
  (forall k, 0 <= k < MAX_TCP_CONNS -> d2 k = d1 k) -> slots_step o2 d2 l fx l' fx'.
Proof.
  intros (L & D & H) Ho Hd. split; [done|]. split; [done|]. intros k c' Hk Hc'.
  rewrite Hd by done. destruct (H k c' Hk Hc') as [[? ?]|?]; [left; auto | by right].
Qed.

(** No connection is on the descriptor [st]. *)
Definition unheld (st : RawFd) l : bool :=
  forallb (fun o => match o with Some c => negb (stream c =? st) | None => true end) l.

Lemma unheld_spec st l k c : unheld st l = true -> idx l k = Some (Some c) -> stream c <> st.
Proof.
  unfold unheld. rewrite forallb_forall. intros Hf Hc.
  assert (In (Some c) l) as Hin.
  { apply list_elem_of_In. unfold idx in Hc. destruct (0 <=? k); [|done].
    by eapply list_elem_of_lookup_2. }
  specialize (Hf _ Hin). cbn in Hf. by zbool.
Qed.

(** The bytes written to the other descriptors are as they were. *)
Ltac other_writes :=
  let f := fresh "f" in let Hf := fresh "Hf" in
  intros f Hf; cbn; autorewrite with zlist; cbn; by rewrite (proj2 (Z.eqb_neq _ _)).

(** A descriptor that is opened takes nothing from the connections on others. *)
Lemma opened_slots (opens : Z -> Prop) l st fx fx' :
  distinct l -> unheld st l = true ->
  (forall f, f <> st -> written (fx_sys fx') f = written (fx_sys fx) f) ->
  slots_step opens (fun _ => []) l fx l fx'.
Proof.
  intros Hd Hu Hw. split; [done|]. split; [done|]. intros k c Hk Hc. right. exists c.
  split; [done|]. split; [done|]. rewrite app_nil_r. unfold bytes_to. rewrite Hw; [done|].
  by eapply unheld_spec.
Qed.

Lemma inserted_slots (opens : Z -> Prop) l slot st c fx fx' :
  distinct l -> unheld st l = true -> idx l slot = Some None -> opens slot ->
  stream c = st -> bytes_to fx' c = [] ->
  (forall f, f <> st -> written (fx_sys fx') f = written (fx_sys fx) f) ->
  slots_step opens (fun _ => []) l fx (<[Z.to_nat slot := Some c]> l) fx'.
Proof.
  intros Hd Hu Hs Ho <- Hb Hw. pose proof (idx_bound _ _ _ Hs) as Hr.
  assert (forall j d, idx (<[Z.to_nat slot := Some c]> l) j = Some (Some d) ->
    j = slot /\ d = c \/ j <> slot /\ idx l j = Some (Some d)) as Hidx.
  { intros j d. destruct (decide (j = slot)) as [->|Hne].
    - rewrite idx_insert_eq by done. intros [= <-]. by left.
    - rewrite idx_insert_ne by (lia || congruence). by right. }
  split; [apply zlen_insert|]. split.
  - intros i j d1 d2 [[-> ->]|[Hi Hd1]]%Hidx [[-> ->]|[Hj Hd2]]%Hidx E; try done.
    + destruct (unheld_spec _ _ _ _ Hu Hd2); congruence.
    + destruct (unheld_spec _ _ _ _ Hu Hd1); congruence.
    + by eapply Hd.
  - intros k d _ [[-> ->]|[Hk Hdk]]%Hidx; [by left|]. right. exists d. split; [done|]. split; [done|].
    rewrite app_nil_r. unfold bytes_to. rewrite Hw; [done|]. by eapply unheld_spec.
Qed.

(** ** Histories *)

Definition data_for (k : Z) (h : list (input * Env)) : list Z := h ≫= fun x => carried k x.1.

Lemma data_for_app k h1 h2 : data_for k (h1 ++ h2) = data_for k h1 ++ data_for k h2.
Proof. apply bind_app. Qed.

(** What holds of each call of a history, in the state it is made in. *)
Fixpoint always {C} `{Channel C} (ok : C -> input -> Env -> Fx -> bool) (c : C) (fx : Fx)
    (h : list (input * Env)) : bool :=
  match h with
  | [] => true
  | (i, e) :: h =>
      ok c i e fx &&
      match chan_step c i e fx with Some (c', fx') => always ok c' fx' h | None => true end
  end.

Lemma always_app {C} `{Channel C} (ok : C -> input -> Env -> Fx -> bool) c fx h1 h2 c1 fx1 :
  chan_run c fx h1 = Some (c1, fx1) ->
  always ok c fx (h1 ++ h2) = always ok c fx h1 && always ok c1 fx1 h2.
Proof.
  revert c fx. induction h1 as [|[i e] h1 IH]; intros c fx; cbn [chan_run app always].
  - by intros [= <- <-].
  - destruct (chan_step c i e fx) as [[c2 fx2]|]; [|done]. cbn [mbind option_bind].
    intros E. by rewrite (IH _ _ E), andb_assoc.
Qed.

(** ** The host's channel *)

Section Dest.
Import TcpDestChannel TcpDestProofs.
Implicit Types s : t.

(** The call asks for a connection in slot [k]. *)
Definition asks_for (k : Z) (i : input) : Prop :=
  exists pl rest, i = InFrame F_TCONN pl /\ unpack_cid pl = Some (k, rest).

(** The system gives a new connection a descriptor that no connection holds. *)
Definition fresh s (i : input) (e : Env) : bool :=
  match i, env_connect e with
  | InFrame ft _, Ok st => negb (ft =? F_TCONN) || unheld st (conns s)
  | _, _ => true
  end.

(** What a call does to the slots. *)
Definition slot_step s (i : input) (fx : Fx) s' (fx' : Fx) : Prop :=
  slots_step (fun k => asks_for k i) (fun k => carried k i) (conns s) fx (conns s') fx'.

Lemma on_conns_given s r s' fx' :
  on_conns s r = Some (s', fx') -> exists l, r = Some (l, fx') /\ conns s' = l.
Proof. intros ([l fx1] & -> & [= <- <-])%bind_Some. by exists l. Qed.

Lemma finish_connect_given s slot w e fx b cs :
  distinct (conns s) -> finish_connect s slot w e = Some (Some (b, cs)) ->
  given slot [] (conns s) fx cs fx.
Proof.
  intros Hd. unfold finish_connect. destruct (idx (conns s) slot) as [[c|]|] eqn:Hc; [| done | done];
    cbn [mbind option_bind]. pose proof (idx_bound _ _ _ Hc).
  destruct (connecting c && w); [|intros [= _ <-]; apply given_refl].
  destruct (env_peer_addr e); [|intros [= _ <-]; apply given_refl].
  rewrite put_eq by done. cbn [mbind option_bind]. intros [= _ <-].
  apply (given_insert slot [] _ fx c); try done. by rewrite app_nil_r.
Qed.

Lemma dst_event_given s token r w e fx s' fx' :
  distinct (conns s) -> env_ok e -> tcp_event s token r w e fx = Some (s', fx') ->
  given 0 [] (conns s) fx (conns s') fx'.
Proof.
  intros Hd He (slot & Hs & (o & Ho & E)%bind_Some)%bind_Some. apply (given_slot slot).
  destruct o as [[b cs]|]; [|injection E as <- <-; apply given_refl].
  pose proof (finish_connect_given s slot w e fx b cs Hd Ho) as Hg.
  pose proof (given_distinct _ _ _ _ _ _ Hg Hd) as Hd1.
  apply (given_trans slot [] [] _ _ cs fx); [done|]. clear Hg Ho. destruct b.
  { apply on_conns_given in E as (l & E & ->). by eapply close_conn_given. }
  apply bind_Some in E as ([[b1 cs1] fx1] & E1 & E).
  assert (given slot [] cs fx cs1 fx1) as H1.
  { destruct w; [by eapply write_conn_given | injection E1 as <- <- <-; apply given_refl]. }
  pose proof (given_distinct _ _ _ _ _ _ H1 Hd1) as Hd2.
  apply (given_trans slot [] [] _ _ cs1 fx1); [done|].
  destruct b1; [injection E as <- <-; apply given_refl|].
  apply bind_Some in E as ([[b2 cs2] fx2] & E2 & E).
  assert (given slot [] cs1 fx1 cs2 fx2) as H2.
  { destruct r; [by eapply read_conn_given | injection E2 as <- <- <-; apply given_refl]. }
  apply (given_trans slot [] [] _ _ cs2 fx2); [done|].
  destruct b2; [injection E as <- <-; apply given_refl|].
  apply on_conns_given in E as (l & E & ->). eapply update_conn_given; [|exact E].
  by eapply given_distinct.
Qed.

Lemma close_every_given s fx s' fx' :
  distinct (conns s) -> close_every s fx = Some (s', fx') -> given 0 [] (conns s) fx (conns s') fx'.
Proof.
  intros Hd (l & E & ->)%on_conns_given. apply bind_Some in E as ([l1 fx1] & E & [= <- <-]).
  change (given 0 [] (conns s) fx l1 fx1). eapply for_slots_given; [|exact Hd|exact E].
  intros l2 fx2 j l3 fx3 _ E2. exact (close_conn_given _ _ _ _ _ _ _ E2).
Qed.

Lemma open_conn_step s pl slot rest e fx s' fx' :
  distinct (conns s) -> fresh s (InFrame F_TCONN pl) e = true ->
  unpack_cid pl = Some (slot, rest) -> idx (conns s) slot = Some None ->
  open_conn s slot e fx = Some (s', fx') -> slot_step s (InFrame F_TCONN pl) fx s' fx'.
Proof.
  intros Hd Hf Hu Hc. unfold open_conn, fresh in *.
  destruct (env_parse_addr e); [|intros [= <- <-]; by apply same_slots].
  destruct (env_connect e) as [st|]; [|intros [= <- <-]; by apply same_slots].
  cbn in Hf. destruct (env_register e st); [|intros [= <- <-]; by eapply opened_slots; [| |other_writes]].
  pose proof (idx_bound _ _ _ Hc). rewrite put_eq by done. cbn [mbind option_bind]. intros [= <- <-].
  apply (slots_weaken (fun k => k = slot) _ (fun _ => [])); [| |done].
  - apply (inserted_slots _ _ _ st); try done; [|other_writes].
    unfold bytes_to, reg_add. cbn. autorewrite with zlist. cbn. by rewrite Z.eqb_refl.
  - intros k ->. by exists pl, rest.
Qed.

Lemma dst_frame_step s ft pl e fx s' fx' :
  distinct (conns s) -> fresh s (InFrame ft pl) e = true ->
  on_frame s ft pl e fx = Some (s', fx') -> slot_step s (InFrame ft pl) fx s' fx'.
Proof.
  intros Hd Hf. unfold on_frame. destruct (unpack_cid pl) as [[cid data]|] eqn:Eu.
  2: { intros [= <- <-]. apply same_slots; [done| |done]. intros k _. cbn. rewrite Eu. by case_match. }
  destruct (MAX_TCP_CONNS <=? cid) eqn:Ec; zbool.
  { intros [= <- <-]. apply same_slots; [done| |done]. intros k Hk. cbn. rewrite Eu.
    rewrite (proj2 (Z.eqb_neq k cid)) by lia. by case_match. }
  destruct (ft =? F_TCONN) eqn:E1; zbool.
  { subst ft. destruct (idx (conns s) cid) as [[c|]|] eqn:Hc; [| |done]; cbn [mbind option_bind].
    - intros [= <- <-]. by apply same_slots.
    - by eapply open_conn_step. }
  destruct (ft =? F_TDATA) eqn:E2.
  { intros (l & E & <-)%on_conns_given. apply (given_slots _ _ cid data); [done| |].
    - by eapply tdata_conn_given.
    - intros k _. cbn. by rewrite E2, Eu. }
  destruct (ft =? F_TCLOSE).
  - intros (l & E & <-)%on_conns_given. apply silent_slots; [done| |].
    + apply (given_slot cid). by eapply tclose_conn_given.
    + intros k _. cbn. by rewrite E2.
  - intros [= <- <-]. apply same_slots; [done| |done]. intros k _. cbn. by rewrite E2.
Qed.

Lemma dest_step_slots s i e fx s' fx' :
  distinct (conns s) -> env_ok e -> fresh s i e = true -> chan_step s i e fx = Some (s', fx') ->
  slot_step s i fx s' fx'.
Proof.
  intros Hd He Hf. destruct i as [ft pl| | |now|tok r w| | |]; cbn [chan_step].
  1: by apply dst_frame_step.
  1, 2, 5: intros E; apply silent_slots; [done | by apply close_every_given | done].
  - intros [= <- <-]. by apply same_slots.
  - intros E. apply silent_slots; [done | by eapply dst_event_given | done].
  - cbn. unfold pause_source_reads. destruct (bp_paused s); [intros [= <- <-]; by apply same_slots|].
    intros (l & E & <-)%on_conns_given. apply silent_slots; [done| |done].
    eapply for_slots_given; [|exact Hd|exact E]. intros. by eapply update_conn_given.
  - cbn. unfold resume_source_reads. destruct (negb _); [intros [= <- <-]; by apply same_slots|].
    intros (l & E & <-)%on_conns_given. apply silent_slots; [done| |done].
    eapply for_slots_given; [|exact Hd|exact E]. intros. by eapply update_conn_given.
Qed.

(** ** Histories of the channel *)

(** New connections get fresh descriptors all along. *)
Definition fresh_run : t -> Fx -> list (input * Env) -> bool := always (fun s i e _ => fresh s i e).

(** What a connection was given is what was sent for its slot since the [F_TCONN]
    that opened it. *)
Definition opened_by (h : list (input * Env)) s (fx : Fx) : Prop :=
  zlen (conns s) = MAX_TCP_CONNS /\ distinct (conns s) /\
  forall k c, idx (conns s) k = Some (Some c) ->
    exists h1 pl rest e h2, h = h1 ++ (InFrame F_TCONN pl, e) :: h2 /\
      unpack_cid pl = Some (k, rest) /\ bytes_to fx c = data_for k h2.

Lemma opened_by_step h s fx i e s' fx' :
  opened_by h s fx -> env_ok e -> fresh s i e = true -> chan_step s i e fx = Some (s', fx') ->
  opened_by (h ++ [(i, e)]) s' fx'.
Proof.
  intros (Hl & Hd & Hall) He Hf E.
  destruct (dest_step_slots s i e fx s' fx' Hd He Hf E) as (Hl' & Hd' & Hs).
  split; [congruence|]. split; [done|]. intros k c Hc.
  assert (0 <= k < MAX_TCP_CONNS) as Hk by (pose proof (idx_bound _ _ _ Hc); lia).
  destruct (Hs k c Hk Hc) as [[(pl & rest & -> & Hu) Hb]|(c0 & Hc0 & _ & Hb)].
  - by exists h, pl, rest, e, [].
  - destruct (Hall k c0 Hc0) as (h1 & pl & rest & e1 & h2 & -> & Hu & Hb0).
    exists h1, pl, rest, e1, (h2 ++ [(i, e)]). rewrite <- app_assoc. split; [done|]. split; [done|].
    rewrite Hb, Hb0, data_for_app. cbn. by rewrite app_nil_r.
Qed.

Lemma dest_session s fx h s' fx' :
  zlen (conns s) = MAX_TCP_CONNS -> no_conn (conns s) -> Forall (fun x => env_ok x.2) h ->
  fresh_run s fx h = true -> chan_run s fx h = Some (s', fx') -> opened_by h s' fx'.
Proof.
  intros Hl Hno. revert s' fx'. induction h as [|[i e] h IH] using rev_ind; intros s' fx' He Hf.
  - intros [= <- <-]. split; [done|]. split.
    + intros i j c d Hc. by destruct (Hno i c).
    + intros k c Hc. by destruct (Hno k c).
  - apply Forall_app in He as [He [Hei _]%Forall_cons]. rewrite chan_run_app.
    intros ([s1 fx1] & E1 & E)%bind_Some. unfold fresh_run in Hf; rewrite (always_app _ _ _ _ _ _ _ E1) in Hf.
    apply andb_true_iff in Hf as [Hf Hfi]. cbn in E, Hfi.
    apply bind_Some in E as ([s2 fx2] & E2 & [= <- <-]). apply andb_true_iff in Hfi as [Hfi _].
    eapply opened_by_step; [by apply IH | exact Hei | exact Hfi | exact E2].
Qed.

End Dest.

End TcpSession.
