(* ===== verification/TcpClient.v ===== *)
(** * What a TCP channel sends for a connection

    The exporter's channel sends for a slot exactly the bytes it read from the
    connections of the slot, whatever else it does: no other operation puts data of
    a slot in a frame. *)
From Stdlib Require Import ZArith Lia.
From stdpp Require Import base option numbers list strings.
From S2P Require Import Prelude Protocol TxQueue Serial Chan Tcp TcpDest TcpSource TcpSession.

Local Open Scope Z_scope.

Module TcpClient.
Import TcpSession.

Implicit Types l : list (option TcpConn).

(** The frames sent between [fx] and [fx'] carry [data k] for slot [k]; those that
    are an [F_TCONN] are [opens]. *)
Definition sends (opens : Z * Z * list Z -> Prop) (data : Z -> list Z) (fx fx' : Fx) : Prop :=
  exists sent, fx_tx fx' = fx_tx fx ++ sent /\
    (forall k, 0 <= k < MAX_TCP_CONNS -> slot_data k sent = data k) /\
    Forall (fun f => f.1.1 = F_TCONN -> opens f) sent.

Definition never : Z * Z * list Z -> Prop := fun _ => False.

Definition no_data : Z -> list Z := fun _ => [].

Abbreviation silent := (sends never no_data).

Lemma sends_nothing opens fx fx' : fx_tx fx' = fx_tx fx -> sends opens no_data fx fx'.
Proof. intros E. exists []. rewrite app_nil_r. by repeat split. Qed.

Lemma sends_refl opens fx : sends opens no_data fx fx.
Proof. by apply sends_nothing. Qed.

Lemma sends_trans opens d1 d2 d fx1 fx2 fx3 :
  sends opens d1 fx1 fx2 -> sends opens d2 fx2 fx3 ->
  (forall k, 0 <= k < MAX_TCP_CONNS -> d k = d1 k ++ d2 k) -> sends opens d fx1 fx3.
Proof.
  intros (s1 & E1 & D1 & F1) (s2 & E2 & D2 & F2) Hd. exists (s1 ++ s2).
  rewrite E2, E1, app_assoc. split; [done|]. split; [|by apply Forall_app].
  intros k Hk. by rewrite slot_data_app, D1, D2, Hd.
Qed.

Lemma sends_then opens d fx1 fx2 fx3 :
  sends opens d fx1 fx2 -> sends opens no_data fx2 fx3 -> sends opens d fx1 fx3.
Proof. intros H1 H2. eapply sends_trans; [exact H1 | exact H2 |]. intros. by rewrite app_nil_r. Qed.

Lemma silent_then fx1 fx2 fx3 : silent fx1 fx2 -> silent fx2 fx3 -> silent fx1 fx3.
Proof. apply sends_then. Qed.

Lemma sends_weaken (o1 o2 : _ -> Prop) d fx fx' : (forall f, o1 f -> o2 f) -> sends o1 d fx fx' -> sends o2 d fx fx'.
Proof.
  intros Ho (s & E & D & F). exists s. split; [done|]. split; [done|].
  eapply Forall_impl; [exact F|]. auto.
Qed.

Lemma slot_data_other k ft id pl : ft <> F_TDATA -> slot_data k [(ft, id, pl)] = [].
Proof.
  intros Hf. unfold slot_data. cbn. by rewrite (proj2 (Z.eqb_neq _ _) Hf).
Qed.

(** ** The operations on slots *)

Lemma close_conn_silent x l slot notify fx l' fx' :
  close_conn x l slot notify fx = Some (l', fx') -> silent fx fx'.
Proof.
  unfold close_conn. destruct (idx l slot) as [[c|]|]; [| |done]; cbn [mbind option_bind];
    [|intros [= _ <-]; apply sends_refl].
  destruct (put l slot None); [|done]. cbn [mbind option_bind]. intros [= _ <-].
  destruct (notify && cx_up x); [|by apply sends_nothing].
  exists [(F_TCLOSE, cx_id x, pack_cid slot)]. split; [done|].
  split; [intros k _; by apply slot_data_other | by apply Forall_singleton].
Qed.

Lemma update_conn_silent x l slot fx l' fx' :
  update_conn x l slot fx = Some (l', fx') -> silent fx fx'.
Proof.
  unfold update_conn. destruct (idx l slot) as [[c|]|]; [| |done]; cbn [mbind option_bind];
    [|intros [= _ <-]; apply sends_refl].
  destruct (conn_update_interest x slot c fx) as [c1 fx1] eqn:Eu.
  apply conn_update_interest_spec in Eu as (_ & Ht & _).
  destruct (put l slot _); [|done]. intros [= _ <-]. by apply sends_nothing.
Qed.

Lemma tdata_conn_silent x l slot data fx l' fx' :
  tdata_conn x l slot data fx = Some (l', fx') -> silent fx fx'.
Proof.
  unfold tdata_conn. destruct (is_empty data); [intros [= _ <-]; apply sends_refl|].
  destruct (idx l slot) as [[c|]|]; [| |done]; cbn [mbind option_bind];
    [|intros [= _ <-]; apply sends_refl].
  destruct (_ || _); [by apply close_conn_silent|].
  destruct (put l slot _); [|done]. cbn [mbind option_bind]. by apply update_conn_silent.
Qed.

Lemma tclose_conn_silent x l slot fx l' fx' :
  tclose_conn x l slot fx = Some (l', fx') -> silent fx fx'.
Proof.
  unfold tclose_conn. destruct (idx l slot) as [[c|]|]; [| |done]; cbn [mbind option_bind];
    [|intros [= _ <-]; apply sends_refl].
  destruct (is_empty (txbuf c)); [by apply close_conn_silent|].
  destruct (put l slot _); [|done]. cbn [mbind option_bind]. by apply update_conn_silent.
Qed.

Lemma write_conn_silent x l slot e fx b l' fx' :
  env_ok e -> write_conn x l slot e fx = Some (b, l', fx') -> silent fx fx'.
Proof.
  intros He. unfold write_conn. destruct (idx l slot) as [[c|]|]; [| |done]; cbn [mbind option_bind];
    [|intros [= _ _ <-]; apply sends_refl].
  intros ([[c1 bad] fx1] & E1 & E)%bind_Some.
  assert (silent fx fx1) as H1.
  { apply sends_nothing. destruct (can_write _ c); [|by injection E1 as _ _ <-].
    destruct (write_stream_spec e c fx He) as (tx & b1 & fx2 & E2 & Ht & _). congruence. }
  eapply silent_then; [exact H1|].
  apply bind_Some in E as (l1 & _ & E). destruct bad; [|destruct (_ && _)].
  1, 2: apply bind_Some in E as ([l2 fx2] & E2 & [= _ _ <-]); by eapply close_conn_silent.
  injection E as _ _ <-. apply sends_refl.
Qed.

Lemma carries_data id slot data fs k :
  carries id slot data fs -> 0 <= slot < MAX_TCP_CONNS ->
  slot_data k fs = if k =? slot then data else [].
Proof.
  intros (parts & -> & <- & _) Hs. induction parts as [|d parts IH]; cbn [map concat].
  - by destruct (k =? slot).
  - change (?f :: map ?g parts) with ([f] ++ map g parts). rewrite slot_data_app, IH.
    unfold slot_data, carried. cbn [mbind list_bind app fst snd].
    rewrite Z.eqb_refl, unpack_pack_cid by (unfold MAX_TCP_CONNS in *; lia).
    destruct (k =? slot); by rewrite app_nil_r.
Qed.

(** What the channel reads from slot [slot] when it is asked to. *)
Definition reads_of (d : Side) l (slot : Z) (reads : list (io (list Z))) : list Z :=
  match idx l slot with
  | Some (Some c) => if no_read d c then [] else (read_ends reads).1
  | _ => []
  end.

Lemma read_conn_sends x reads l slot fx b l' fx' :
  0 <= slot < MAX_TCP_CONNS -> read_conn x reads l slot fx = Some (b, l', fx') ->
  sends never (fun k => if k =? slot then reads_of (cx_side x) l slot reads else []) fx fx'.
Proof.
  intros Hs. unfold reads_of. destruct (idx l slot) as [[c|]|] eqn:Hc.
  - destruct (no_read (cx_side x) c) eqn:En.
    + destruct reads; cbn [read_conn]; rewrite Hc; cbn [mbind option_bind]; rewrite En;
        intros [= _ _ <-]; exists []; rewrite app_nil_r; (split; [done|]); (split; [|done]);
        intros k _; by destruct (k =? slot).
    + destruct (read_conn_spec x reads l slot fx c Hc En) as (fs & Hcar & ->). cbv zeta.
      set (fx1 := mkFx (fx_tx fx ++ fs) (fx_sys fx)).
      assert (sends never (fun k => if k =? slot then (read_ends reads).1 else []) fx fx1) as H1.
      { exists fs. split; [done|]. split; [intros k _; by eapply carries_data|].
        destruct Hcar as (parts & -> & _ & _). by apply Forall_map, Forall_true. }
      destruct (read_ends reads).2.
      * intros ([l2 fx2] & E2 & [= _ _ <-])%bind_Some.
        eapply sends_then; [exact H1 | by eapply close_conn_silent].
      * by intros [= _ _ <-].
  - destruct reads; cbn [read_conn]; rewrite Hc; cbn [mbind option_bind]; intros [= _ _ <-];
      exists []; rewrite app_nil_r; (split; [done|]); (split; [|done]);
      intros k _; by destruct (k =? slot).
  - destruct reads; cbn [read_conn]; rewrite Hc; done.
Qed.

Lemma for_slots_silent f js l fx l' fx' :
  (forall l fx j l' fx', f l j fx = Some (l', fx') -> silent fx fx') ->
  for_slots f js l fx = Some (l', fx') -> silent fx fx'.
Proof.
  intros Hf. revert l fx. induction js as [|j js IH]; intros l fx; cbn [for_slots].
  - intros [= _ <-]. apply sends_refl.
  - intros ([l1 fx1] & E1 & E)%bind_Some. eapply silent_then; [by eapply Hf | by eapply IH].
Qed.

(** ** The exporter's channel *)

Import TcpSourceChannel TcpSourceProofs.
Implicit Types s : t.

(** What a call reads from the connection of slot [k]. *)
Definition client_bytes (k : Z) s (i : input) (e : Env) : list Z :=
  match i with
  | InEvent tok true _ =>
      if tok =? primary_token (ch_id s) then []
      else match slot_of tok with
           | Some slot => if k =? slot then reads_of Src (conns s) slot (env_reads e) else []
           | None => []
           end
  | _ => []
  end.

(** The listener may have clients to accept. *)
Definition accepting s (i : input) : Prop := exists w, i = InEvent (primary_token (ch_id s)) true w.

Lemma on_conns_result s r s' fx' : on_conns s r = Some (s', fx') -> exists l, r = Some (l, fx').
Proof. intros ([l fx1] & -> & [= _ <-])%bind_Some. by exists l. Qed.

Lemma close_all_silent x l fx l' fx' :
  with_dummy fx (close_conns x l fx) = Some (l', fx') -> silent fx fx'.
Proof. intros ([l1 fx1] & _ & [= _ <-])%bind_Some. by apply sends_nothing. Qed.

Lemma update_all_silent x l fx l' fx' : update_conns x l fx = Some (l', fx') -> silent fx fx'.
Proof. apply for_slots_silent. intros l1 fx1 j l2 fx2. apply update_conn_silent. Qed.

(** [f] asks for a connection for a client that has taken its slot. *)
Definition opening s s' (f : Z * Z * list Z) : Prop :=
  exists slot c, f = (F_TCONN, ch_id s, pack_cid slot) /\ 0 <= slot < MAX_TCP_CONNS /\
    idx (conns s) slot = Some None /\ idx (conns s') slot = Some (Some c).

Lemma alloc_loop_free n s s' r :
  alloc_loop n s = Some (s', r) ->
  conns s' = conns s /\ ch_id s' = ch_id s /\
  forall slot, r = Some slot -> 0 <= slot < MAX_TCP_CONNS /\ idx (conns s) slot = Some None.
Proof.
  revert s. induction n as [|n IH]; intros s; cbn [alloc_loop]; [by intros [= <- <-]|].
  cbn [conns set_next_slot]. intros (c & Ec & E)%bind_Some.
  destruct c as [c|]; [by apply IH in E|]. injection E as <- <-. split; [done|]. split; [done|].
  intros slot [= <-]. split; [by apply Z.mod_pos_bound | done].
Qed.

Lemma alloc_slot_free s s' r :
  alloc_slot s = Some (s', r) ->
  conns s' = conns s /\ ch_id s' = ch_id s /\
  forall slot, r = Some slot -> 0 <= slot < MAX_TCP_CONNS /\ idx (conns s) slot = Some None.
Proof. unfold alloc_slot. apply alloc_loop_free. Qed.

Lemma put_idx l slot v cs j :
  put l slot v = Some cs -> idx cs j = if j =? slot then Some v else idx l j.
Proof.
  unfold put. destruct ((0 <=? slot) && (slot <? zlen l)) eqn:Hr; [|done]. intros [= <-]. zbool.
  destruct (j =? slot) eqn:E; zbool; [subst; by apply idx_insert_eq | apply idx_insert_ne; lia].
Qed.

(** No client loses its slot while others are accepted. *)
Lemma accept_loop_sends accepts s e fx s' fx' :
  accept_loop accepts s e fx = Some (s', fx') ->
  sends (opening s s') no_data fx fx' /\
  forall slot c, idx (conns s) slot = Some (Some c) -> idx (conns s') slot = Some (Some c).
Proof.
  revert s fx. induction accepts as [|[st|er] accepts IH]; intros s fx; cbn [accept_loop].
  1, 3: intros [= <- <-]; split; [apply sends_refl | done].
  assert (forall s1, conns s1 = conns s -> ch_id s1 = ch_id s ->
    accept_loop accepts s1 e (syscall (syscall fx (OpenFd st)) (CloseFd st)) = Some (s', fx') ->
    sends (opening s s') no_data fx fx' /\
    forall slot c, idx (conns s) slot = Some (Some c) -> idx (conns s') slot = Some (Some c)) as Hskip.
  { intros s1 Ec Ei [H1 H2]%IH. rewrite Ec in H2. split; [|done].
    eapply sends_weaken, sends_then; [|by apply sends_nothing|exact H1].
    unfold opening. by rewrite Ec, Ei. }
  destruct (negb (link_up s)); [by apply Hskip|].
  intros ([s1 r] & (Ec & Ei & Hfree)%alloc_slot_free & E)%bind_Some.
  destruct r as [slot|]; [|by eapply Hskip]. destruct (Hfree slot eq_refl) as [Hs Hnone].
  destruct (env_register e st); [|by eapply Hskip].
  apply bind_Some in E as (cs & Hput & E). rewrite Ec in Hput. apply IH in E as [H1 H2].
  pose proof (fun j => put_idx _ _ _ _ j Hput) as Hcs. cbn [conns set_conns] in H2.
  assert (forall j c, idx (conns s) j = Some (Some c) -> idx (conns s') j = Some (Some c)) as Hkeep.
  { intros j c Hj. apply H2. rewrite Hcs. destruct (j =? slot) eqn:Ej; zbool; congruence. }
  split; [|exact Hkeep].
  eapply sends_then; [|eapply sends_weaken, H1].
  - exists [(F_TCONN, ch_id s, pack_cid slot)]. rewrite Ei. split; [done|].
    split; [intros k _; by apply slot_data_other|]. apply Forall_singleton. intros _.
    exists slot. eexists. split; [done|]. split; [done|]. split; [done|].
    apply H2. rewrite Hcs, Z.eqb_refl. reflexivity.
  - intros f (j & c & -> & Hj & Hn & Hc). exists j, c. cbn [ch_id set_conns conns] in *.
    rewrite Ei. split; [done|]. split; [done|]. split; [|done]. rewrite Hcs in Hn.
    by destruct (j =? slot).
Qed.

Lemma tcp_event_sends s tok r w e fx s' fx' :
  env_ok e -> tok <> primary_token (ch_id s) -> tcp_event s tok r w e fx = Some (s', fx') ->
  sends never (fun k => client_bytes k s (InEvent tok r w) e) fx fx'.
Proof.
  intros He Ht (slot & Hs & E)%bind_Some. pose proof (slot_of_range _ _ Hs) as Hr.
  apply bind_Some in E as ([[b cs] fx1] & E1 & E).
  assert (sends never (fun k => client_bytes k s (InEvent tok r w) e) fx fx1) as H1.
  { unfold client_bytes. rewrite (proj2 (Z.eqb_neq _ _) Ht), Hs. destruct r.
    - by apply read_conn_sends in E1.
    - injection E1 as _ _ <-. apply sends_refl. }
  destruct b; [by injection E as _ <-|]. destruct w; [|by injection E as _ <-].
  apply bind_Some in E as ([[b cs2] fx2] & E2 & E).
  pose proof (sends_then _ _ _ _ _ H1 (write_conn_silent _ _ _ _ _ _ _ _ He E2)) as H2.
  destruct b; [by injection E as _ <-|]. apply on_conns_result in E as [l E].
  eapply sends_then; [exact H2 | by eapply update_conn_silent].
Qed.

(** A call sends what it reads, and asks for connections only when it accepts. *)
Lemma source_step_sends s i e fx s' fx' :
  env_ok e -> chan_step s i e fx = Some (s', fx') ->
  sends (fun f => accepting s i /\ opening s s' f) (fun k => client_bytes k s i e) fx fx'.
Proof.
  intros He. assert (forall i', (forall k, client_bytes k s i' e = []) -> silent fx fx' ->
    sends (fun f => accepting s i' /\ opening s s' f) (fun k => client_bytes k s i' e) fx fx') as Hs.
  { intros i' Hn Hx. eapply sends_weaken; [|eapply sends_trans; [exact Hx | apply sends_refl |]].
    - done.
    - intros k _. by rewrite Hn. }
  destruct i as [ft pl| | |now|tok r w| | |]; cbn [chan_step]; intros E.
  - apply Hs; [done|]. cbn in E. unfold on_frame in E.
    destruct (unpack_cid pl) as [[cid data]|]; [|injection E as _ <-; apply sends_refl].
    destruct (MAX_TCP_CONNS <=? cid); [injection E as _ <-; apply sends_refl|].
    destruct (ft =? F_TDATA); [apply on_conns_result in E as [l E]; by eapply tdata_conn_silent|].
    destruct (ft =? F_TCLOSE); [apply on_conns_result in E as [l E]; by eapply tclose_conn_silent|].
    injection E as _ <-. apply sends_refl.
  - apply Hs; [done|]. injection E as _ <-. apply sends_refl.
  - apply Hs; [done|]. apply on_conns_result in E as [l E]. by eapply close_all_silent.
  - apply Hs; [done|]. injection E as _ <-. apply sends_refl.
  - cbn in E. unfold handle_event in E. destruct (tok =? primary_token (ch_id s)) eqn:Et.
    + assert (forall k, client_bytes k s (InEvent tok r w) e = []) as Hn.
      { intros k. unfold client_bytes. rewrite Et. by destruct r. }
      destruct r; [|apply Hs; [done|]; injection E as _ <-; apply sends_refl]. zbool.
      apply accept_loop_sends in E as [E _]. eapply sends_weaken; [|eapply sends_trans;
        [exact E | apply sends_refl | intros k _; by rewrite Hn]].
      intros f Hf. split; [exists w; by rewrite Et | done].
    + zbool. eapply sends_weaken; [|by eapply tcp_event_sends]. done.
  - apply Hs; [done|]. apply bind_Some in E as ([s1 fx1] & E & [= _ <-]).
    apply on_conns_result in E as [l E]. eapply silent_then; [by eapply close_all_silent|].
    by apply sends_nothing.
  - apply Hs; [done|]. cbn in E. unfold pause_source_reads in E.
    destruct (bp_paused s); [injection E as _ <-; apply sends_refl|].
    apply on_conns_result in E as [l E]. by eapply update_all_silent.
  - apply Hs; [done|]. cbn in E. unfold resume_source_reads in E.
    destruct (negb _); [injection E as _ <-; apply sends_refl|].
    apply on_conns_result in E as [l E]. by eapply update_all_silent.
Qed.

(** ** Histories *)

(** What a history reads from the connections of slot [k]. *)
Fixpoint client_run (k : Z) s (fx : Fx) (h : list (input * Env)) : list Z :=
  match h with
  | [] => []
  | (i, e) :: h =>
      client_bytes k s i e ++
      match chan_step s i e fx with Some (s', fx') => client_run k s' fx' h | None => [] end
  end.

Lemma source_run_sends s fx h s' fx' :
  Forall (fun x => env_ok x.2) h -> chan_run s fx h = Some (s', fx') ->
  exists sent, fx_tx fx' = fx_tx fx ++ sent /\
    (forall k, 0 <= k < MAX_TCP_CONNS -> slot_data k sent = client_run k s fx h) /\
    forall fs1 f fs2, sent = fs1 ++ f :: fs2 -> f.1.1 = F_TCONN ->
      exists h1 i e h2 s0 fx0 s1 fx1, h = h1 ++ (i, e) :: h2 /\
        chan_run s fx h1 = Some (s0, fx0) /\ accepting s0 i /\
        chan_step s0 i e fx0 = Some (s1, fx1) /\ opening s0 s1 f /\
        forall k, 0 <= k < MAX_TCP_CONNS -> slot_data k fs2 = client_run k s1 fx1 h2.
Proof.
  revert s fx. induction h as [|[i e] h IH]; intros s fx He; cbn [chan_run client_run].
  { intros [= <- <-]. exists []. rewrite app_nil_r. split; [done|]. split; [done|].
    intros fs1 f fs2 E. by destruct fs1. }
  apply Forall_cons in He as [Hei He]. intros ([s1 fx1] & E1 & E)%bind_Some.
  destruct (source_step_sends s i e fx s1 fx1 Hei E1) as (sa & Ha & Hda & Hfa).
  destruct (IH s1 fx1 He E) as (sb & Hb & Hdb & Hsplit). rewrite E1.
  exists (sa ++ sb). rewrite Hb, Ha, app_assoc. split; [done|]. split.
  { intros k Hk. by rewrite slot_data_app, Hda, Hdb. }
  intros fs1 f fs2 Ef Hf. apply app_eq_inv in Ef as [(r & -> & Er)|(r & -> & ->)].
  - destruct r as [|g r].
    + cbn in Er. subst sb.
      destruct (Hsplit [] f fs2 eq_refl Hf) as (h1 & i1 & e1 & h2 & s0 & fx0 & s2 & fx2 & -> & R & Hi & S & O & D).
      exists ((i, e) :: h1), i1, e1, h2, s0, fx0, s2, fx2. cbn. rewrite E1. done.
    + injection Er as <- ->. apply Forall_app in Hfa as [_ [Hacc _]%Forall_cons].
      specialize (Hacc Hf). destruct Hacc as [[w ->] Ho].
      exists [], (InEvent (primary_token (ch_id s)) true w), e, h, s, fx, s1, fx1.
      split; [done|]. split; [done|]. split; [by exists w|]. split; [done|]. split; [done|].
      intros k Hk. rewrite slot_data_app, Hdb by done.
      specialize (Hda k Hk). cbn in Hda. rewrite Z.eqb_refl in Hda.
      change (f :: r) with ([f] ++ r) in Hda. rewrite !slot_data_app in Hda.
      by apply app_eq_nil in Hda as [_ [_ ->]%app_eq_nil].
  - destruct (Hsplit r f fs2 eq_refl Hf) as (h1 & i1 & e1 & h2 & s0 & fx0 & s2 & fx2 & -> & R & Hi & S & O & D).
    exists ((i, e) :: h1), i1, e1, h2, s0, fx0, s2, fx2. cbn. rewrite E1. done.
Qed.

End TcpClient.
