(* ===== verification/TcpService.v ===== *)
(** * From a service to its clients

    The way back of a TCP tunnel: the host's channel sends for a slot exactly the
    bytes it read from the service of the slot, and a client of the exporter's
    channel is given exactly the data of its slot since it was accepted. *)
From Stdlib Require Import ZArith Lia.
From stdpp Require Import base option numbers list strings.
From S2P Require Import Prelude Protocol TxQueue Serial Chan Tcp TcpDest TcpSource TcpSession TcpClient.

Local Open Scope Z_scope.

Module TcpService.
Import TcpSession TcpClient.

(** ** What the host's channel sends *)

Section Dest.
Import TcpDestChannel TcpDestProofs.
Implicit Types s : t.

(** What an event of slot [slot] reads from its service, once a connect in progress
    is finished and what waits for the service is written. *)
Definition service_reads s (slot : Z) (w : bool) (e : Env) (fx : Fx) : list Z :=
  match finish_connect s slot w e with
  | Some (Some (false, cs)) =>
      match (if w then write_conn (ctx s) cs slot e fx else Some (false, cs, fx)) with
      | Some (false, cs, _) => reads_of Dst cs slot (env_reads e)
      | _ => []
      end
  | _ => []
  end.

(** What a call reads from the service of slot [k]. *)
Definition service_bytes (k : Z) s (i : input) (e : Env) (fx : Fx) : list Z :=
  match i with
  | InEvent tok true w =>
      match slot_of tok with
      | Some slot => if k =? slot then service_reads s slot w e fx else []
      | None => []
      end
  | _ => []
  end.

Lemma dst_conns_result s r s' fx' : on_conns s r = Some (s', fx') -> exists l, r = Some (l, fx').
Proof. intros ([l fx1] & -> & [= _ <-])%bind_Some. by exists l. Qed.

Lemma open_conn_silent s slot e fx s' fx' : open_conn s slot e fx = Some (s', fx') -> silent fx fx'.
Proof.
  unfold open_conn. assert (forall fx2, fx_tx fx2 = fx_tx fx ++ [(F_TCLOSE, ch_id s, pack_cid slot)] ->
    silent fx fx2) as Hc.
  { intros fx2 E. eexists. split; [exact E|]. split; [intros k _; by apply slot_data_other|].
    by apply Forall_singleton. }
  destruct (env_parse_addr e); [|intros [= _ <-]; by apply Hc].
  destruct (env_connect e) as [st|]; [|intros [= _ <-]; by apply Hc].
  destruct (env_register e st); [|intros [= _ <-]; by apply Hc].
  destruct (put _ _ _); [|done]. intros [= _ <-]. by apply sends_nothing.
Qed.

Lemma dst_event_sends s tok r w e fx s' fx' :
  env_ok e -> tcp_event s tok r w e fx = Some (s', fx') ->
  sends never (fun k => service_bytes k s (InEvent tok r w) e fx) fx fx'.
Proof.
  intros He (slot & Hs & (o & Ho & E)%bind_Some)%bind_Some. pose proof (slot_of_range _ _ Hs) as Hr.
  unfold service_bytes, service_reads. rewrite Hs, Ho.
  assert (forall f : Z -> list Z, (forall k, f k = []) -> silent fx fx' -> sends never f fx fx') as Hq.
  { intros f Hf Hx. eapply sends_trans; [exact Hx | apply sends_refl |]. intros. by rewrite Hf. }
  destruct o as [[b cs]|]; [|injection E as _ <-; apply Hq; [|apply sends_refl]; intros k;
    by destruct r, (k =? slot)].
  destruct b.
  { apply dst_conns_result in E as [l E]. apply Hq; [|by eapply close_conn_silent]. intros k.
    by destruct r, (k =? slot). }
  apply bind_Some in E as ([[b1 cs1] fx1] & E1 & E). rewrite E1.
  assert (silent fx fx1) as H1.
  { destruct w; [by eapply write_conn_silent | injection E1 as _ _ <-; apply sends_refl]. }
  destruct b1.
  { injection E as _ <-. apply Hq; [|done]. intros k. by destruct r, (k =? slot). }
  apply bind_Some in E as ([[b2 cs2] fx2] & E2 & E).
  eapply (sends_trans never _ (fun k => if r then if k =? slot then reads_of Dst cs1 slot (env_reads e) else [] else []));
    [exact H1| |by intros]. apply (sends_then _ _ _ fx2).
  - destruct r; [by apply read_conn_sends in E2 | injection E2 as _ _ <-; apply sends_refl].
  - destruct b2; [injection E as _ <-; apply sends_refl|].
    apply dst_conns_result in E as [l E]. by eapply update_conn_silent.
Qed.

(** A call sends what it reads. *)
Lemma dest_step_sends s i e fx s' fx' :
  env_ok e -> chan_step s i e fx = Some (s', fx') ->
  sends never (fun k => service_bytes k s i e fx) fx fx'.
Proof.
  intros He. assert (close_every s fx = Some (s', fx') -> silent fx fx') as Hc.
  { intros [l E]%dst_conns_result. by eapply close_all_silent. }
  destruct i as [ft pl| | |now|tok r w| | |]; cbn [chan_step].
  2, 3, 6: exact Hc.
  - cbn. unfold on_frame. destruct (unpack_cid pl) as [[cid data]|]; [|intros [= _ <-]; apply sends_refl].
    destruct (MAX_TCP_CONNS <=? cid); [intros [= _ <-]; apply sends_refl|].
    destruct (ft =? F_TCONN).
    { destruct (idx (conns s) cid) as [[c|]|]; [| |done]; cbn [mbind option_bind];
        [intros [= _ <-]; apply sends_refl | by apply open_conn_silent]. }
    destruct (ft =? F_TDATA); [intros [l E]%dst_conns_result; by eapply tdata_conn_silent|].
    destruct (ft =? F_TCLOSE); [intros [l E]%dst_conns_result; by eapply tclose_conn_silent|].
    intros [= _ <-]. apply sends_refl.
  - intros [= _ <-]. apply sends_refl.
  - by apply dst_event_sends.
  - cbn. unfold pause_source_reads. destruct (bp_paused s); [intros [= _ <-]; apply sends_refl|].
    intros [l E]%dst_conns_result. by eapply update_all_silent.
  - cbn. unfold resume_source_reads. destruct (negb _); [intros [= _ <-]; apply sends_refl|].
    intros [l E]%dst_conns_result. by eapply update_all_silent.
Qed.

(** What a history reads from the services of slot [k]. *)
Fixpoint service_run (k : Z) s (fx : Fx) (h : list (input * Env)) : list Z :=
  match h with
  | [] => []
  | (i, e) :: h =>
      service_bytes k s i e fx ++
      match chan_step s i e fx with Some (s', fx') => service_run k s' fx' h | None => [] end
  end.

Lemma dest_run_sends s fx h s' fx' :
  Forall (fun x => env_ok x.2) h -> chan_run s fx h = Some (s', fx') ->
  exists sent, fx_tx fx' = fx_tx fx ++ sent /\
    forall k, 0 <= k < MAX_TCP_CONNS -> slot_data k sent = service_run k s fx h.
Proof.
  revert s fx. induction h as [|[i e] h IH]; intros s fx He; cbn [chan_run service_run].
  { intros [= <- <-]. exists []. by rewrite app_nil_r. }
  apply Forall_cons in He as [Hei He]. intros ([s1 fx1] & E1 & E)%bind_Some.
  destruct (dest_step_sends s i e fx s1 fx1 Hei E1) as (sa & Ha & Hda & _).
  destruct (IH s1 fx1 He E) as (sb & Hb & Hdb). rewrite E1.
  exists (sa ++ sb). rewrite Hb, Ha, app_assoc. split; [done|].
  intros k Hk. by rewrite slot_data_app, Hda, Hdb.
Qed.

End Dest.

(** ** What a client is given *)

Section Source.
Import TcpSourceChannel TcpSourceProofs.
Implicit Types s : t.

(** The system accepts each stream on a descriptor that no connection holds. *)
Fixpoint accepts_fresh (accepts : list (io RawFd)) s (e : Env) (fx : Fx) : bool :=
  match accepts with
  | Ok st :: accepts =>
      unheld st (conns s) &&
      match accept_loop [Ok st] s e fx with
      | Some (s', fx') => accepts_fresh accepts s' e fx'
      | None => true
      end
  | _ => true
  end.

Definition fresh_accept s (i : input) (e : Env) (fx : Fx) : bool :=
  match i with
  | InEvent tok true _ =>
      if tok =? primary_token (ch_id s) then accepts_fresh (env_accepts e) s e fx else true
  | _ => true
  end.

Lemma accept_loop_cons st accepts s e fx :
  accept_loop (Ok st :: accepts) s e fx =
  '(s, fx) ← accept_loop [Ok st] s e fx; accept_loop accepts s e fx.
Proof.
  cbn [accept_loop]. destruct (negb (link_up s)); [done|].
  destruct (alloc_slot s) as [[s1 [slot|]]|]; [|done..]. cbn [mbind option_bind].
  destruct (env_register e st); [|done]. by destruct (put _ _ _).
Qed.

Lemma accept_one_slots st s e fx s' fx' (opens : Z -> Prop) :
  (forall k, opens k) -> zlen (conns s) = MAX_TCP_CONNS -> distinct (conns s) ->
  unheld st (conns s) = true -> accept_loop [Ok st] s e fx = Some (s', fx') ->
  slots_step opens (fun _ => []) (conns s) fx (conns s') fx'.
Proof.
  intros Ho Hl Hd Hu. cbn [accept_loop].
  assert (slots_step opens (fun _ => []) (conns s) fx (conns s)
    (syscall (syscall fx (OpenFd st)) (CloseFd st))) as Hskip.
  { eapply opened_slots; [done | exact Hu | other_writes]. }
  destruct (negb (link_up s)); [by intros [= <- <-]|].
  destruct (alloc_slot_inv s Hl) as (n & r & -> & Hr). cbn [mbind option_bind].
  destruct r as [slot|]; [|by intros [= <- <-]].
  destruct (env_register e st); [|by intros [= <- <-]].
  destruct (Hr slot eq_refl) as [Hs Hfree]. cbn [conns set_next_slot].
  rewrite put_eq by lia. cbn [mbind option_bind]. intros [= <- <-]. cbn [conns set_conns].
  apply (inserted_slots _ _ _ st); try done; [|other_writes].
  unfold bytes_to, reg_add, enqueue. cbn. autorewrite with zlist. cbn. by rewrite Z.eqb_refl.
Qed.

Lemma accept_loop_slots accepts s e fx s' fx' (opens : Z -> Prop) :
  (forall k, opens k) -> zlen (conns s) = MAX_TCP_CONNS -> distinct (conns s) ->
  accepts_fresh accepts s e fx = true -> accept_loop accepts s e fx = Some (s', fx') ->
  slots_step opens (fun _ => []) (conns s) fx (conns s') fx'.
Proof.
  intros Ho. revert s fx. induction accepts as [|[st|er] accepts IH]; intros s fx Hl Hd Hf.
  1, 3: intros [= <- <-]; by apply same_slots.
  cbn [accepts_fresh] in Hf. apply andb_true_iff in Hf as [Hu Hf]. rewrite accept_loop_cons.
  intros ([s1 fx1] & E1 & E)%bind_Some. rewrite E1 in Hf.
  pose proof (accept_one_slots st s e fx s1 fx1 opens Ho Hl Hd Hu E1) as H1.
  eapply slots_trans; [exact H1|]. destruct H1 as (L1 & D1 & _). apply IH; [congruence|done..].
Qed.

Lemma src_conns_given s r s' fx' :
  on_conns s r = Some (s', fx') -> exists l, r = Some (l, fx') /\ conns s' = l.
Proof. intros ([l fx1] & -> & [= <- <-])%bind_Some. by exists l. Qed.

Lemma src_event_given s tok r w e fx s' fx' :
  distinct (conns s) -> env_ok e -> tcp_event s tok r w e fx = Some (s', fx') ->
  given 0 [] (conns s) fx (conns s') fx'.
Proof.
  intros Hd He (slot & Hs & E)%bind_Some. apply (given_slot slot).
  apply bind_Some in E as ([[b cs] fx1] & E1 & E).
  assert (given slot [] (conns s) fx cs fx1) as H1.
  { destruct r; [by eapply read_conn_given | injection E1 as <- <- <-; apply given_refl]. }
  pose proof (given_distinct _ _ _ _ _ _ H1 Hd) as Hd1.
  destruct b; [by injection E as <- <-|]. destruct w; [|by injection E as <- <-].
  apply bind_Some in E as ([[b cs2] fx2] & E2 & E).
  pose proof (write_conn_given _ _ _ _ _ _ _ _ He Hd1 E2) as H2.
  apply (given_trans slot [] [] _ _ cs fx1); [done|].
  destruct b; [by injection E as <- <-|]. apply src_conns_given in E as (l & E & ->).
  apply (given_trans slot [] [] _ _ cs2 fx2); [done|].
  eapply update_conn_given; [|exact E]. by eapply given_distinct.
Qed.

Lemma close_given s fx s' fx' :
  distinct (conns s) ->
  on_conns s (with_dummy fx (close_conns (ctx s) (conns s) fx)) = Some (s', fx') ->
  given 0 [] (conns s) fx (conns s') fx'.
Proof.
  intros Hd (l & E & ->)%src_conns_given. apply bind_Some in E as ([l1 fx1] & E & [= <- <-]).
  change (given 0 [] (conns s) fx l1 fx1). eapply for_slots_given; [|exact Hd|exact E].
  intros l2 fx2 j l3 fx3 _ E2. exact (close_conn_given _ _ _ _ _ _ _ E2).
Qed.

(** A call gives the connections what it carries, and makes new ones only when it
    accepts. *)
Lemma source_step_slots s i e fx s' fx' :
  zlen (conns s) = MAX_TCP_CONNS -> distinct (conns s) -> env_ok e -> fresh_accept s i e fx = true ->
  chan_step s i e fx = Some (s', fx') ->
  slots_step (fun _ => accepting s i) (fun k => carried k i) (conns s) fx (conns s') fx'.
Proof.
  intros Hl Hd He Hf. destruct i as [ft pl| | |now|tok r w| | |]; cbn [chan_step].
  - cbn. unfold on_frame. destruct (unpack_cid pl) as [[cid data]|] eqn:Eu.
    2: { intros [= <- <-]. apply same_slots; [done| |done]. intros k _. by case_match. }
    destruct (MAX_TCP_CONNS <=? cid) eqn:Ec; zbool.
    { intros [= <- <-]. apply same_slots; [done| |done]. intros k Hk.
      rewrite (proj2 (Z.eqb_neq k cid)) by lia. by case_match. }
    destruct (ft =? F_TDATA) eqn:E2.
    { intros (l & E & <-)%src_conns_given. apply (given_slots _ _ cid data); [done| |done].
      by eapply tdata_conn_given. }
    destruct (ft =? F_TCLOSE).
    + intros (l & E & <-)%src_conns_given. apply silent_slots; [done| |done].
      apply (given_slot cid). by eapply tclose_conn_given.
    + intros [= <- <-]. by apply same_slots.
  - intros [= <- <-]. by apply same_slots.
  - intros E. apply silent_slots; [done | by apply (close_given (set_link_up false s)) | done].
  - intros [= <- <-]. by apply same_slots.
  - cbn in Hf |- *. unfold handle_event. destruct (tok =? primary_token (ch_id s)) eqn:Et.
    + destruct r; [|intros [= <- <-]; by apply same_slots]. zbool. subst tok.
      apply accept_loop_slots; [|done..]. intros _. by exists w.
    + intros E. apply silent_slots; [done | by eapply src_event_given | done].
  - intros ([s1 fx1] & E & [= <- <-])%bind_Some. apply silent_slots; [done| |done].
    apply close_given in E; [|done]. eapply (given_trans 0 [] []); [exact E|]. apply given_same.
    intros f. cbn. by autorewrite with zlist.
  - cbn. unfold pause_source_reads. destruct (bp_paused s); [intros [= <- <-]; by apply same_slots|].
    intros (l & E & <-)%src_conns_given. apply silent_slots; [done| |done].
    eapply for_slots_given; [|exact Hd|exact E]. intros. by eapply update_conn_given.
  - cbn. unfold resume_source_reads. destruct (negb _); [intros [= <- <-]; by apply same_slots|].
    intros (l & E & <-)%src_conns_given. apply silent_slots; [done| |done].
    eapply for_slots_given; [|exact Hd|exact E]. intros. by eapply update_conn_given.
Qed.

(** ** Histories *)

(** What a connection was given is what was sent for its slot since a call that
    accepted. *)
Definition accepted_by s0 (fx0 : Fx) (h : list (input * Env)) s (fx : Fx) : Prop :=
  zlen (conns s) = MAX_TCP_CONNS /\ distinct (conns s) /\
  forall k c, idx (conns s) k = Some (Some c) ->
    exists h1 i e h2 s1 fx1, h = h1 ++ (i, e) :: h2 /\
      chan_run s0 fx0 h1 = Some (s1, fx1) /\ accepting s1 i /\ bytes_to fx c = data_for k h2.

Definition fresh_accepts : t -> Fx -> list (input * Env) -> bool := always fresh_accept.

Lemma accepted_by_step s0 fx0 h s fx i e s' fx' :
  chan_run s0 fx0 h = Some (s, fx) -> accepted_by s0 fx0 h s fx ->
  env_ok e -> fresh_accept s i e fx = true -> chan_step s i e fx = Some (s', fx') ->
  accepted_by s0 fx0 (h ++ [(i, e)]) s' fx'.
Proof.
  intros R (Hl & Hd & Hall) He Hf E.
  destruct (source_step_slots s i e fx s' fx' Hl Hd He Hf E) as (Hl' & Hd' & Hs).
  split; [congruence|]. split; [done|]. intros k c Hc.
  assert (0 <= k < MAX_TCP_CONNS) as Hk by (pose proof (idx_bound _ _ _ Hc); lia).
  destruct (Hs k c Hk Hc) as [[Ha Hb]|(c0 & Hc0 & _ & Hb)].
  - by exists h, i, e, [], s, fx.
  - destruct (Hall k c0 Hc0) as (h1 & i1 & e1 & h2 & s1 & fx1 & -> & R1 & Ha & Hb0).
    exists h1, i1, e1, (h2 ++ [(i, e)]), s1, fx1. rewrite <- app_assoc. do 3 (split; [done|]).
    rewrite Hb, Hb0, data_for_app. cbn. by rewrite app_nil_r.
Qed.

Lemma source_session s fx h s' fx' :
  zlen (conns s) = MAX_TCP_CONNS -> no_conn (conns s) -> Forall (fun x => env_ok x.2) h ->
  fresh_accepts s fx h = true -> chan_run s fx h = Some (s', fx') -> accepted_by s fx h s' fx'.
Proof.
  intros Hl Hno. revert s' fx'. induction h as [|[i e] h IH] using rev_ind; intros s' fx' He Hf.
  - intros [= <- <-]. split; [done|]. split.
    + intros i j c d Hc. by destruct (Hno i c).
    + intros k c Hc. by destruct (Hno k c).
  - apply Forall_app in He as [He [Hei _]%Forall_cons]. rewrite chan_run_app.
    intros ([s1 fx1] & E1 & E)%bind_Some.
    unfold fresh_accepts in Hf. rewrite (always_app _ _ _ _ _ _ _ E1) in Hf.
    apply andb_true_iff in Hf as [Hf Hfi]. cbn in E, Hfi.
    apply bind_Some in E as ([s2 fx2] & E2 & [= <- <-]). apply andb_true_iff in Hfi as [Hfi _].
    eapply accepted_by_step; [exact E1 | by apply IH | exact Hei | exact Hfi | exact E2].
Qed.

End Source.

End TcpService.
