(* ===== verification/Cli.v ===== *)
(** * The command line ([serialmux-rs/src/main.rs], argument parsing)

    The value parsers of the arguments: USB ids, channel specifications, baud
    rates, ports, and the check that channel ids are unique.  Strings are strings
    of bytes; every character the parsers look at is ASCII.  Parsing the
    arguments themselves is the work of a third-party crate. *)
From Stdlib Require Import ZArith Lia Ascii String.
From stdpp Require Import base option numbers list strings.
From S2P Require Import Prelude Serial Chan.

Local Open Scope string_scope.
Local Open Scope Z_scope.

Module Cli.

Inductive ChannelSpec :=
  | McuExporter (id : Z) (device : string) (baud : Z)
  | McuHost (id : Z) (symlink : string) (baud : Z)
  | TcpExporter (id : Z) (bind_addr : string) (port : Z)
  | TcpHost (id : Z) (dest_addr : string) (port : Z).

(** The error messages of this command line and of the bridge's, by the condition
    that produces them. *)
Inductive CliError :=
  | ENotUsbId | ENotHex (name : string)
  | ETooShort | EUnknownKind | EIdRange | EIdTooLarge (id : Z) | EIdReserved
  | EMcuParts | ETcpParts
  | EBaudNumber | EBaudStandard (baud : Z) | EPort
  | EUsage.

Inductive res (A : Type) := Good (a : A) | Bad (e : CliError).
Arguments Good {A}.
Arguments Bad {A}.

#[global] Instance res_bind : MBind res :=
  fun A B f r => match r with Good a => f a | Bad e => Bad e end.

(** [ok_or] / [map_err]. *)
Definition or_err {A} (o : option A) (e : CliError) : res A :=
  match o with Some a => Good a | None => Bad e end.

(** ** Strings *)

(** [s.split(sep)], which has at least one part. *)
Fixpoint split (sep : ascii) (s : string) : list string :=
  match s with
  | EmptyString => [EmptyString]
  | String c s =>
      if Ascii.eqb c sep then EmptyString :: split sep s
      else match split sep s with
           | [] => [String c EmptyString]
           | p :: ps => String c p :: ps
           end
  end.

(** [s.split_once(sep)] *)
Fixpoint split_once (sep : ascii) (s : string) : option (string * string) :=
  match s with
  | EmptyString => None
  | String c s =>
      if Ascii.eqb c sep then Some (EmptyString, s)
      else '(a, b) ← split_once sep s; Some (String c a, b)
  end.

Definition code (c : ascii) : Z := Z.of_nat (nat_of_ascii c).

(** [c.to_digit(10)] *)
Definition digit (c : ascii) : option Z :=
  if (48 <=? code c) && (code c <=? 57) then Some (code c - 48) else None.

Definition is_ascii_hexdigit (c : ascii) : bool :=
  ((48 <=? code c) && (code c <=? 57)) || ((65 <=? code c) && (code c <=? 70)) ||
  ((97 <=? code c) && (code c <=? 102)).

Fixpoint all_chars (p : ascii -> bool) (s : string) : bool :=
  match s with EmptyString => true | String c s => p c && all_chars p s end.

(** [to_lowercase] of ASCII. *)
Definition lower (c : ascii) : ascii :=
  if (65 <=? code c) && (code c <=? 90) then ascii_of_nat (nat_of_ascii c + 32) else c.

Fixpoint to_lowercase (s : string) : string :=
  match s with EmptyString => EmptyString | String c s => String (lower c) (to_lowercase s) end.

(** The digits of [from_str] of an unsigned type with maximum [max]: each step
    multiplies and adds with an overflow check. *)
Fixpoint digits (max acc : Z) (s : string) : option Z :=
  match s with
  | EmptyString => Some acc
  | String c s =>
      d ← digit c;
      if acc * 10 + d <=? max then digits max (acc * 10 + d) s else None
  end.

(** [s.parse()]: an optional [+], then at least one digit. *)
Definition parse_uint (max : Z) (s : string) : option Z :=
  match s with
  | EmptyString => None
  | String "+"%char EmptyString => None
  | String "+"%char s => digits max 0 s
  | _ => digits max 0 s
  end.

Definition U8_MAX : Z := 2 ^ 8 - 1.
Definition U16_MAX : Z := 2 ^ 16 - 1.
Definition U32_MAX : Z := 2 ^ 32 - 1.

(** ** The parsers *)

Definition parse_usb_id (val : string) : res (string * string) :=
  '(vid, pid) ← or_err (split_once ":"%char val) ENotUsbId;
  if String.eqb vid EmptyString || negb (all_chars is_ascii_hexdigit vid) then Bad (ENotHex "VID")
  else if String.eqb pid EmptyString || negb (all_chars is_ascii_hexdigit pid) then Bad (ENotHex "PID")
  else Good (to_lowercase vid, to_lowercase pid).

Definition valid_bauds : list Z :=
  [1200; 2400; 4800; 9600; 19200; 38400; 57600; 115200; 230400; 460800; 921600].

Definition parse_standard_baud (raw : string) (valid_bauds : list Z) : res Z :=
  baud ← or_err (parse_uint U32_MAX raw) EBaudNumber;
  if negb (bool_decide (baud ∈ valid_bauds)) then Bad (EBaudStandard baud) else Good baud.

Definition parse_tcp_port (raw : option string) : res Z :=
  raw ← or_err raw ETcpParts;
  port ← or_err (parse_uint U16_MAX raw) EPort;
  if port =? 0 then Bad EPort else Good port.

Inductive Mode := exporter | host.

(** [parts[i]] for the parts the length check guarantees; [kind] is compared
    before the other parts are looked at. *)
Definition parse_channel_spec (mode : Mode) (spec : string) : res ChannelSpec :=
  let parts := split ":"%char spec in
  match parts with
  | kind :: raw_id :: arg :: rest =>
      if negb (String.eqb kind "mcu") && negb (String.eqb kind "tcp") then Bad EUnknownKind
      else
        id ← or_err (parse_uint U8_MAX raw_id) EIdRange;
        if MAX_CHANNEL_ID <? id then Bad (EIdTooLarge id)
        else if String.eqb kind "mcu" then
          match mode, rest with
          | exporter, [raw_baud] =>
              baud ← parse_standard_baud raw_baud valid_bauds;
              Good (McuExporter id arg baud)
          | exporter, _ => Bad EMcuParts
          | host, [] => Good (McuHost id arg 230400)
          | host, [raw_baud] =>
              baud ← parse_standard_baud raw_baud valid_bauds;
              Good (McuHost id arg baud)
          | host, _ => Bad EMcuParts
          end
        else
          port ← parse_tcp_port (head rest);
          match mode with
          | exporter => Good (TcpExporter id arg port)
          | host => Good (TcpHost id arg port)
          end
  | _ => Bad ETooShort
  end.

Definition parse_exporter_channel_spec (spec : string) : res ChannelSpec :=
  parse_channel_spec exporter spec.

Definition parse_host_channel_spec (spec : string) : res ChannelSpec :=
  parse_channel_spec host spec.

Definition spec_id (c : ChannelSpec) : Z :=
  match c with
  | McuExporter id _ _ | McuHost id _ _ | TcpExporter id _ _ | TcpHost id _ _ => id
  end.

(** The loop over [seen_ids]; [false] is the exit with an error. *)
Fixpoint unique_from (seen_ids : list Z) (channels : list ChannelSpec) : bool :=
  match channels with
  | [] => true
  | c :: channels =>
      if bool_decide (spec_id c ∈ seen_ids) then false
      else unique_from (spec_id c :: seen_ids) channels
  end.

Definition validate_unique_channel_ids (channels : list ChannelSpec) : bool :=
  unique_from [] channels.

(** ** The arguments *)

Record ModeArgs := mkModeArgs {
  a_link_dev : option string;
  a_usb_id : option (string * string);
  a_channels : list ChannelSpec;
}.

Inductive Command := Exporter (args : ModeArgs) | Host (args : ModeArgs).

Record Args := mkArgs {
  mode : string;
  link_dev : option string;
  usb_id : option (string * string);
  channels : list ChannelSpec;
}.

(** The values given on the command line. *)
Record RawArgs := mkRaw {
  raw_link_dev : option string;
  raw_usb : option string;
  raw_channels : list string;
}.

(** What the attributes of the arguments ask for: a link device or a USB id but not
    both, and a channel. *)
Definition usage (raw : RawArgs) : bool :=
  match raw_link_dev raw, raw_usb raw with
  | Some _, None | None, Some _ => true
  | _, _ => false
  end && negb (is_empty (raw_channels raw)).

(** Each value goes through its parser; any error ends the program. *)
Fixpoint parse_values {A} (parser : string -> res A) (values : list string) : res (list A) :=
  match values with
  | [] => Good []
  | v :: values => a ← parser v; l ← parse_values parser values; Good (a :: l)
  end.

Definition parse_option {A} (parser : string -> res A) (value : option string) : res (option A) :=
  match value with None => Good None | Some v => a ← parser v; Good (Some a) end.

Definition mode_args (parser : string -> res ChannelSpec) (raw : RawArgs) : res ModeArgs :=
  if usage raw then
    usb ← parse_option parse_usb_id (raw_usb raw);
    channels ← parse_values parser (raw_channels raw);
    Good (mkModeArgs (raw_link_dev raw) usb channels)
  else Bad EUsage.

(** [Cli::parse()], with the subcommand that was given. *)
Definition cli_parse (subcommand : Mode) (raw : RawArgs) : res Command :=
  match subcommand with
  | exporter => a ← mode_args parse_exporter_channel_spec raw; Good (Exporter a)
  | host => a ← mode_args parse_host_channel_spec raw; Good (Host a)
  end.

(** [None] is the exit of the check. *)
Definition parse_args (command : Command) : option Args :=
  match command with
  | Exporter args =>
      if validate_unique_channel_ids (a_channels args)
      then Some (mkArgs "exporter" (a_link_dev args) (a_usb_id args) (a_channels args)) else None
  | Host args =>
      if validate_unique_channel_ids (a_channels args)
      then Some (mkArgs "host" (a_link_dev args) (a_usb_id args) (a_channels args)) else None
  end.

(** ** Specifications of the arguments *)

(** The decimal form of a number, and of a channel specification. *)
Definition digit_char (d : Z) : ascii := ascii_of_nat (Z.to_nat (48 + d)).

Fixpoint print_dec (fuel : nat) (n : Z) : string :=
  match fuel with
  | O => EmptyString
  | S fuel =>
      (if n <? 10 then EmptyString else print_dec fuel (n / 10)) +:+
      String (digit_char (n mod 10)) EmptyString
  end.

Definition join (sep : ascii) (ps : list string) : string :=
  match ps with
  | [] => EmptyString
  | p :: ps => fold_left (fun s p => s +:+ String sep p) ps p
  end.

Definition print_spec (c : ChannelSpec) : string :=
  let '(kind, id, arg, n) := match c with
    | McuExporter id dev baud => ("mcu", id, dev, baud)
    | McuHost id link baud => ("mcu", id, link, baud)
    | TcpExporter id addr port => ("tcp", id, addr, port)
    | TcpHost id addr port => ("tcp", id, addr, port)
    end in
  join ":"%char [kind; print_dec 10 id; arg; print_dec 10 n].

Definition no_colon (s : string) : Prop := all_chars (fun c => negb (Ascii.eqb c ":"%char)) s = true.

(** What the rest of the program may rely on. *)
Definition valid_spec (mode : Mode) (c : ChannelSpec) : Prop :=
  0 <= spec_id c <= MAX_CHANNEL_ID /\
  match c, mode with
  | McuExporter _ arg baud, exporter | McuHost _ arg baud, host =>
      no_colon arg /\ baud ∈ valid_bauds /\ baud_to_speed baud <> None
  | TcpExporter _ arg port, exporter | TcpHost _ arg port, host =>
      no_colon arg /\ 1 <= port <= U16_MAX
  | _, _ => False
  end.

End Cli.

Module CliProofs.
Import Cli.

(** ** Splitting *)

Lemma split_last s : no_colon s -> split ":"%char s = [s].
Proof.
  unfold no_colon. induction s as [|c s IH]; cbn [split all_chars]; [done|].
  intros [Hc Hs]%andb_true_iff. destruct (Ascii.eqb c ":"%char); [done|]. by rewrite IH.
Qed.

Lemma append_cons c s t : String c s +:+ t = String c (s +:+ t).
Proof. done. Qed.

Lemma append_nil t : EmptyString +:+ t = t.
Proof. done. Qed.

Lemma split_sep s t : no_colon s -> split ":"%char (s +:+ String ":"%char t) = s :: split ":"%char t.
Proof.
  unfold no_colon. induction s as [|c s IH];
    rewrite ?append_nil, ?append_cons; cbn [split all_chars]; [done|].
  intros [Hc Hs]%andb_true_iff. destruct (Ascii.eqb c ":"%char); [done|]. by rewrite IH.
Qed.

Lemma split_no_colon s : Forall no_colon (split ":"%char s).
Proof.
  unfold no_colon. induction s as [|c s IH]; cbn [split]; [by apply Forall_singleton|].
  destruct (Ascii.eqb c ":"%char) eqn:E; [by constructor|].
  destruct IH as [|p ps Hp Hps]; constructor; try done; cbn [all_chars]; by rewrite E.
Qed.

Lemma append_assoc a b c : (a +:+ b) +:+ c = a +:+ (b +:+ c).
Proof. induction a as [|x a IH]; [done | by rewrite !append_cons, IH]. Qed.

Lemma split_join4 a b c d :
  no_colon a -> no_colon b -> no_colon c -> no_colon d ->
  split ":"%char (join ":"%char [a; b; c; d]) = [a; b; c; d].
Proof.
  intros Ha Hb Hc Hd. cbn [join fold_left]. rewrite !append_assoc, !append_cons.
  rewrite !split_sep by done. by rewrite split_last.
Qed.

(** ** Numbers *)

Lemma digits_app max acc s t :
  digits max acc (s +:+ t) = a ← digits max acc s; digits max a t.
Proof.
  revert acc. induction s as [|c s IH]; intros acc;
    rewrite ?append_nil, ?append_cons; cbn [digits]; [done|].
  destruct (digit c) as [d|]; [|done]. cbn [mbind option_bind]. destruct (_ <=? _); [apply IH | done].
Qed.

Lemma digit_digit_char d : 0 <= d < 10 -> digit (digit_char d) = Some d.
Proof.
  intros Hd. unfold digit, digit_char, code. rewrite nat_ascii_embedding by lia.
  rewrite Z2Nat.id by lia. rewrite !(proj2 (Z.leb_le _ _)) by lia. cbn [andb]. f_equal. lia.
Qed.

Lemma digits_print max fuel n :
  0 <= n <= max -> n < 10 ^ Z.of_nat fuel -> digits max 0 (print_dec fuel n) = Some n.
Proof.
  revert n. induction fuel as [|fuel IH]; intros n Hn Hf; cbn [print_dec].
  - cbn in Hf. replace n with 0 by lia. done.
  - rewrite Nat2Z.inj_succ, Z.pow_succ_r in Hf by lia.
    pose proof (Z.div_mod n 10 ltac:(lia)). pose proof (Z.mod_pos_bound n 10 ltac:(lia)).
    assert (digits max 0 (if n <? 10 then EmptyString else print_dec fuel (n / 10)) = Some (n / 10)) as E.
    { destruct (n <? 10) eqn:El; zbool; [by rewrite Z.div_small by lia|].
      apply IH; [split; [apply Z.div_pos | ]; lia | apply Z.div_lt_upper_bound; lia]. }
    rewrite digits_app, E. cbn [mbind option_bind digits]. rewrite digit_digit_char by lia.
    cbn [mbind option_bind]. rewrite (proj2 (Z.leb_le _ _)) by lia. f_equal. lia.
Qed.

Lemma parse_uint_digit max c s : digit c <> None -> parse_uint max (String c s) = digits max 0 (String c s).
Proof. by destruct c as [[] [] [] [] [] [] [] []]. Qed.

Lemma print_dec_head fuel n :
  0 <= n -> exists c s, print_dec (S fuel) n = String c s /\ digit c <> None.
Proof.
  revert n. induction fuel as [|fuel IH]; intros n Hn; cbn [print_dec] in *.
  - exists (digit_char (n mod 10)), EmptyString. split; [by destruct (n <? 10)|].
    rewrite digit_digit_char; [done|]. apply Z.mod_pos_bound. lia.
  - destruct (n <? 10) eqn:El.
    + eexists _, _. split; [reflexivity|]. rewrite digit_digit_char; [done|].
      apply Z.mod_pos_bound. lia.
    + destruct (IH (n / 10)) as (c & s & -> & Hc); [apply Z.div_pos; lia|].
      by exists c, (s +:+ String (digit_char (n mod 10)) EmptyString).
Qed.

Lemma parse_print_dec max n :
  0 <= n <= max -> n < 10 ^ 10 -> parse_uint max (print_dec 10 n) = Some n.
Proof.
  intros Hn Hf. destruct (print_dec_head 9 n) as (c & s & E & Hc); [lia|].
  rewrite E, parse_uint_digit, <- E by done. by apply digits_print.
Qed.

Lemma all_chars_app p s t : all_chars p (s +:+ t) = all_chars p s && all_chars p t.
Proof. 
  induction s as [|c s IH]; rewrite ?append_nil, ?append_cons; cbn; [done|].
  by rewrite IH, andb_assoc.
 Qed.

Lemma print_dec_no_colon fuel n : 0 <= n -> no_colon (print_dec fuel n).
Proof.
  unfold no_colon. revert n. induction fuel as [|fuel IH]; intros n Hn; cbn [print_dec]; [done|].
  rewrite all_chars_app. apply andb_true_iff. split.
  - destruct (n <? 10); [done|]. apply IH. apply Z.div_pos; lia.
  - cbn [all_chars]. rewrite andb_true_r. apply negb_true_iff, Ascii.eqb_neq. intros E.
    apply (f_equal digit) in E. rewrite digit_digit_char in E by (apply Z.mod_pos_bound; lia). done.
Qed.

Lemma digits_bound max acc s n : digits max acc s = Some n -> 0 <= acc <= max -> 0 <= n <= max.
Proof.
  revert acc. induction s as [|c s IH]; intros acc; cbn [digits]; [by intros [= <-]|].
  destruct (digit c) as [d|] eqn:Ed; [|done]. cbn [mbind option_bind].
  destruct (acc * 10 + d <=? max) eqn:El; [|done]. zbool. intros E Ha. apply (IH _ E).
  unfold digit in Ed. destruct (48 <=? code c) eqn:E1; [|done]. destruct (_ && _); [|done].
  injection Ed as <-. zbool. lia.
Qed.

Lemma parse_uint_bound max s n : parse_uint max s = Some n -> 0 <= max -> 0 <= n <= max.
Proof.
  intros E Hm. assert (exists t, digits max 0 t = Some n) as [t Ht].
  { destruct s as [|c s]; [done|]. revert E.
    destruct c as [[] [] [] [] [] [] [] []]; try (by eexists). destruct s; [done|]. by eexists. }
  eapply digits_bound; [exact Ht | lia].
Qed.

(** ** The parsers *)

Lemma parse_baud_valid raw baud :
  parse_standard_baud raw valid_bauds = Good baud -> baud ∈ valid_bauds.
Proof.
  unfold parse_standard_baud. destruct (parse_uint U32_MAX raw) as [b|]; [|done]. cbn.
  case_bool_decide; [|done]. by intros [= <-].
Qed.

Lemma valid_baud_supported baud : baud ∈ valid_bauds -> baud_to_speed baud <> None.
Proof.
  intros Hb. assert (Forall (fun b => baud_to_speed b <> None) valid_bauds) as Hall.
  { by repeat constructor. }
  rewrite Forall_forall in Hall. by apply Hall.
Qed.

Lemma valid_baud_range baud : baud ∈ valid_bauds -> 0 <= baud <= 921600.
Proof.
  intros Hb. assert (Forall (fun b => 0 <= b <= 921600) valid_bauds) as Hall.
  { repeat (constructor; [lia|]). constructor. }
  rewrite Forall_forall in Hall. by apply Hall.
Qed.

Lemma parse_print_baud baud :
  baud ∈ valid_bauds -> parse_standard_baud (print_dec 10 baud) valid_bauds = Good baud.
Proof.
  intros Hb. pose proof (valid_baud_range baud Hb). unfold parse_standard_baud.
  rewrite parse_print_dec by (unfold U32_MAX; lia). cbn [or_err mbind res_bind].
  by rewrite bool_decide_true.
Qed.

Lemma parse_print_port port :
  1 <= port <= U16_MAX -> parse_tcp_port (Some (print_dec 10 port)) = Good port.
Proof.
  intros Hp. unfold parse_tcp_port. cbn [or_err mbind res_bind].
  rewrite parse_print_dec by (unfold U16_MAX in *; lia). cbn [or_err mbind res_bind].
  by rewrite (proj2 (Z.eqb_neq port 0)) by lia.
Qed.

Lemma parse_port_valid raw port : parse_tcp_port raw = Good port -> 1 <= port <= U16_MAX.
Proof.
  unfold parse_tcp_port. destruct raw as [raw|]; [|done]. cbn [or_err mbind res_bind].
  destruct (parse_uint U16_MAX raw) as [p|] eqn:E; [|done]. cbn [or_err mbind res_bind].
  apply parse_uint_bound in E; [|done]. destruct (p =? 0) eqn:Ez; [done|]. intros [= <-]. zbool. lia.
Qed.

(** What is accepted is valid. *)
Lemma parse_sound mode s c : parse_channel_spec mode s = Good c -> valid_spec mode c.
Proof.
  unfold parse_channel_spec. pose proof (split_no_colon s) as Hs.
  destruct (split ":"%char s) as [|kind [|raw_id [|arg rest]]]; try done.
  assert (no_colon arg) as Harg by (by repeat (apply Forall_cons in Hs as [? Hs])).
  destruct (_ && _); [done|].
  destruct (parse_uint U8_MAX raw_id) as [id|] eqn:Eid; [|done]. cbn [or_err mbind res_bind].
  apply parse_uint_bound in Eid; [|done].
  destruct (MAX_CHANNEL_ID <? id) eqn:Emax; [done|]. zbool.
  assert (0 <= id <= MAX_CHANNEL_ID) as Hid by lia.
  assert (forall raw baud, parse_standard_baud raw valid_bauds = Good baud ->
    no_colon arg /\ baud ∈ valid_bauds /\ baud_to_speed baud <> None) as Hbaud.
  { intros raw baud E%parse_baud_valid. split; [done|]. split; [done|].
    by apply valid_baud_supported. }
  destruct (String.eqb kind "mcu").
  - destruct mode, rest as [|raw [|? ?]]; try done.
    + destruct (parse_standard_baud raw valid_bauds) as [baud|] eqn:E; [|done].
      intros [= <-]. split; [done|]. by apply (Hbaud raw).
    + intros [= <-]. split; [done|]. split; [done|]. split; [|done].
      unfold valid_bauds. by repeat constructor.
    + destruct (parse_standard_baud raw valid_bauds) as [baud|] eqn:E; [|done].
      intros [= <-]. split; [done|]. by apply (Hbaud raw).
  - destruct (parse_tcp_port (list.head rest)) as [port|] eqn:E; [|done].
    apply parse_port_valid in E. destruct mode; intros [= <-]; by split.
Qed.

(** What is valid is accepted, in its printed form. *)
Lemma parse_complete mode c :
  valid_spec mode c -> parse_channel_spec mode (print_spec c) = Good c.
Proof.
  intros [Hid Hc]. unfold MAX_CHANNEL_ID in Hid.
  assert (parse_uint U8_MAX (print_dec 10 (spec_id c)) = Some (spec_id c)) as Epid.
  { apply parse_print_dec; unfold U8_MAX; lia. }
  assert (no_colon (print_dec 10 (spec_id c))) as Hnid by (apply print_dec_no_colon; lia).
  assert ((MAX_CHANNEL_ID <? spec_id c) = false) as Emax.
  { apply Z.ltb_ge. unfold MAX_CHANNEL_ID. lia. }
  unfold parse_channel_spec, print_spec.
  destruct c as [id arg n|id arg n|id arg n|id arg n], mode; try done;
    cbn [spec_id] in *; destruct Hc as (Harg & Hn);
    rewrite split_join4 by first [done | apply print_dec_no_colon;
      first [by destruct Hn as [?%valid_baud_range _]; lia | lia]];
    cbn [negb andb String.eqb Ascii.eqb Bool.eqb]; rewrite Epid; cbn [or_err mbind res_bind];
    rewrite Emax; cbn [list.head].
  1-2: destruct Hn as [Hn _]; by rewrite parse_print_baud.
  all: by rewrite parse_print_port.
Qed.

(** C32: The command line admits exactly the meaningful channels: every channel
    specification that is accepted has an id whose tokens exist, a baud rate the
    serial layer supports or a port that is not zero, and fits the mode; and
    every such channel is what its printed form is parsed to. *)
Theorem channel_spec_roundtrip mode c :
  (forall s, parse_channel_spec mode s = Good c -> valid_spec mode c) /\
  (valid_spec mode c -> parse_channel_spec mode (print_spec c) = Good c).
Proof. split; [intros s; apply parse_sound | apply parse_complete]. Qed.

Lemma channel_spec_roundtrip_witness :
  parse_channel_spec exporter "mcu:0:/dev/ttyS7:230400" = Good (McuExporter 0 "/dev/ttyS7" 230400) /\
  valid_spec exporter (McuExporter 0 "/dev/ttyS7" 230400).
Proof.
  assert (valid_spec exporter (McuExporter 0 "/dev/ttyS7" 230400)) as Hv.
  { apply (proj1 (channel_spec_roundtrip exporter _) "mcu:0:/dev/ttyS7:230400"). reflexivity. }
  split; [|exact Hv]. exact (proj2 (channel_spec_roundtrip exporter _) Hv).
Defined.

(** A [tcp] specification with parts too many is accepted. *)
Example tcp_extra_parts :
  parse_channel_spec host "tcp:2:127.0.0.1:7125:junk" = Good (TcpHost 2 "127.0.0.1" 7125).
Proof. reflexivity. Qed.

(** ** Unique ids *)

Lemma unique_from_spec seen l :
  unique_from seen l = true <->
  NoDup (map spec_id l) /\ Forall (fun c => spec_id c ∉ seen) l.
Proof.
  revert seen. induction l as [|c l IH]; intros seen; cbn [unique_from map].
  - split; [|done]. intros _. split; constructor.
  - rewrite NoDup_cons, Forall_cons. case_bool_decide as Hin; [by split; [|intros (? & ? & ?)]|].
    rewrite IH, !Forall_forall. split.
    + intros [Hd Hf]. split; [split; [|done]|split; [done|]].
      * intros (x & Ex & Hx)%list_elem_of_fmap. apply (Hf x Hx). rewrite <- Ex. by left.
      * intros x Hx Hs. apply (Hf x Hx). by right.
    + intros ([Hn Hd] & Hc & Hf). split; [done|]. intros x Hx [E|Hs]%elem_of_cons.
      * apply Hn. rewrite <- E. apply list_elem_of_fmap. by exists x.
      * by apply (Hf x Hx).
Qed.

Lemma validate_unique_spec l :
  validate_unique_channel_ids l = true <-> NoDup (map spec_id l).
Proof.
  unfold validate_unique_channel_ids. rewrite unique_from_spec. split; [by intros [? _]|].
  intros Hd. split; [done|]. apply Forall_forall. intros x _. by apply not_elem_of_nil.
Qed.

(** ** The arguments *)

Lemma parse_values_sound {A} (parser : string -> res A) (P : A -> Prop) values l :
  (forall v a, parser v = Good a -> P a) -> parse_values parser values = Good l ->
  Forall P l /\ length l = length values.
Proof.
  intros Hp. revert l. induction values as [|v values IH]; intros l; cbn [parse_values].
  - intros [= <-]. by split.
  - destruct (parser v) as [a|] eqn:Ea; [|done]. cbn [mbind res_bind].
    destruct (parse_values parser values) as [l0|]; [|done]. intros [= <-].
    destruct (IH l0 eq_refl) as [Hl Hn]. split; [constructor; [by eapply Hp | done] | cbn; by rewrite Hn].
Qed.

(** What the rest of the program may rely on. *)
Lemma parse_args_sound subcommand raw command args :
  cli_parse subcommand raw = Good command -> parse_args command = Some args ->
  Forall (valid_spec subcommand) (channels args) /\ NoDup (map spec_id (channels args)) /\
  channels args <> [] /\ (link_dev args = None <-> usb_id args <> None) /\
  mode args = match subcommand with exporter => "exporter"%string | host => "host"%string end.
Proof.
  assert (forall parser a, (forall v c, parser v = Good c -> valid_spec subcommand c) ->
    mode_args parser raw = Good a ->
    Forall (valid_spec subcommand) (a_channels a) /\ a_channels a <> [] /\
    (a_link_dev a = None <-> a_usb_id a <> None)) as Hargs.
  { intros parser a Hp. unfold mode_args, usage.
    destruct (is_empty (raw_channels raw)) eqn:Ee; [by rewrite andb_false_r|]. rewrite andb_true_r.
    destruct (parse_option parse_usb_id (raw_usb raw)) as [usb|] eqn:Eu;
      [|by destruct (raw_link_dev raw), (raw_usb raw)].
    destruct (parse_values parser (raw_channels raw)) as [chs|] eqn:Ec;
      [|by destruct (raw_link_dev raw), (raw_usb raw)].
    apply (parse_values_sound parser (valid_spec subcommand)) in Ec as [Hv Hl]; [|done].
    assert (chs <> []) as Hne by by intros ->; destruct (raw_channels raw).
    destruct (raw_link_dev raw), (raw_usb raw) as [u|]; intros [= <-]; cbn in *.
    - injection Eu as <-. by split_and!.
    - destruct (parse_usb_id u); [|done]. injection Eu as <-. by split_and!. }
  destruct subcommand; cbn [cli_parse]; destruct (mode_args _ raw) as [a|] eqn:Ea; try done;
    intros [= <-]; cbn [parse_args]; destruct (validate_unique_channel_ids _) eqn:Eq; try done;
    intros [= <-]; apply validate_unique_spec in Eq;
    (apply Hargs in Ea as (? & ? & ?); [by split_and! | intros v c; apply parse_sound]).
Qed.

End CliProofs.
