(* ===== verification/Logging.v ===== *)
(** * The set-up of the logs ([serialmux-rs/src/logging.rs])

    Which layers the subscriber is made of, and that it is installed once.  Filters,
    appenders and the subscriber's registry are a third-party crate's: a filter and
    an appender are parameters, the registry is what its builder was given.  The
    standard error is taken to be writable. *)
From Stdlib Require Import ZArith Lia String.
From stdpp Require Import base option list strings.
From S2P Require Import Prelude.

Module Logging.

(** What happens outside the program, in order. *)
Inductive Act :=
  | CreateDirAll (dir : string)
  | Eprintln (dir : string) (e : Errno)
  | StartAppender (dir program : string).

(** The answers of the system: whether the directory is there, and whether it can be
    made. *)
Record DirSys := {
  is_dir : string -> bool;
  create_dir_all : string -> io unit;
}.

(** Whether [dir] exists or was made. *)
Definition ensure_log_dir (s : DirSys) (dir : string) (w : list Act) : bool * list Act :=
  if is_dir s dir then (true, w)
  else
    let w := w ++ [CreateDirAll dir] in
    match create_dir_all s dir with
    | Ok _ => (true, w)
    | Err e => (false, w ++ [Eprintln dir e])
    end.

Section Init.
(** [EnvFilter], the non-blocking writer of an appender, the journald layer. *)
Context {Filter Writer Journal : Type}.

Record StderrLayer := mkStderr { compact : bool; ansi : bool; stderr_target : bool }.
Record FileLayer := mkFile { json : bool; file_target : bool; writer : Writer }.

Record Subscriber := mkSubscriber {
  filter : Filter;
  stderr_layer : StderrLayer;
  file_layer : option FileLayer;
  journald_layer : option Journal;
}.

(** [RUST_LOG] as the crate reads it, [SERIALMUX_LOG_DIR], the directories; the
    writer of the appender for a directory and a program, [None] when it cannot be
    initialised, which is a panic of [rolling::daily]; [EnvFilter::new]; and the
    [journald] layer, [None] when the feature is not compiled in. *)
Record Sys := {
  try_from_default_env : io Filter;
  new_filter : string -> Filter;
  var_log_dir : io string;
  dirs : DirSys;
  daily : string -> string -> option Writer;
  journald : option (io Journal);
}.

Definition log_dir (s : Sys) : string :=
  match var_log_dir s with Ok dir => dir | Err _ => "/var/log/serialmux"%string end.

(** [global] is the subscriber installed so far: [try_init] fails, and changes
    nothing, when there is one. *)
Definition try_init (registry : Subscriber) (global : option Subscriber) : option Subscriber :=
  match global with Some s => Some s | None => Some registry end.

(** [None] is the panic. *)
Definition init (program : string) (s : Sys) (global : option Subscriber) (w : list Act)
  : option (option Subscriber * list Act) :=
  let filter := match try_from_default_env s with Ok f => f | Err _ => new_filter s "info"%string end in
  let stderr_layer := mkStderr true false false in
  let dir := log_dir s in
  let '(ok, w) := ensure_log_dir (dirs s) dir w in
  '(file_layer, w) ←
    (if ok : bool
     then
       appender ← daily s dir program;
       Some (Some (mkFile true true appender), w ++ [StartAppender dir program])
     else Some (None, w));
  let registry := mkSubscriber filter stderr_layer file_layer None in
  let registry := match journald s with
    | Some layer => mkSubscriber filter stderr_layer file_layer
        (match layer with Ok l => Some l | Err _ => None end)
    | None => registry
    end in
  Some (try_init registry global, w).

(** Whether the directory of the logs is there in the end. *)
Definition dir_ready (s : Sys) : bool :=
  is_dir (dirs s) (log_dir s) ||
  match create_dir_all (dirs s) (log_dir s) with Ok _ => true | Err _ => false end.

(** What making sure of the directory does. *)
Definition dir_acts (s : Sys) : list Act :=
  if is_dir (dirs s) (log_dir s) then []
  else CreateDirAll (log_dir s) ::
    match create_dir_all (dirs s) (log_dir s) with
    | Ok _ => []
    | Err e => [Eprintln (log_dir s) e]
    end.

Lemma ensure_log_dir_spec s w :
  ensure_log_dir (dirs s) (log_dir s) w = (dir_ready s, w ++ dir_acts s).
Proof.
  unfold ensure_log_dir, dir_ready, dir_acts. destruct (is_dir _ _); [by rewrite app_nil_r|].
  destruct (create_dir_all _ _); [done | by rewrite <- app_assoc].
Qed.

(** The directory is there, and no appender can be made for it. *)
Definition no_appender (program : string) (s : Sys) : Prop :=
  dir_ready s = true /\ daily s (log_dir s) program = None.

Lemma init_panics program s global w : init program s global w = None <-> no_appender program s.
Proof.
  unfold init, no_appender. rewrite ensure_log_dir_spec.
  destruct (dir_ready s); [|by split; [|intros [? _]]].
  destruct (daily s (log_dir s) program); cbn; by split; [|intros [_ ?]].
Qed.

Lemma init_spec program s global w r :
  init program s global w = Some r ->
  exists sub, r =
    (try_init sub global,
     w ++ dir_acts s ++ if dir_ready s then [StartAppender (log_dir s) program] else []) /\
    stderr_layer sub = mkStderr true false false /\
    (is_Some (file_layer sub) <-> dir_ready s = true).
Proof.
  unfold init. rewrite ensure_log_dir_spec.
  destruct (dir_ready s); [destruct (daily s (log_dir s) program); [|done]|];
    destruct (journald s) as [j|]; cbn; intros [= <-]; rewrite ?app_assoc, ?app_nil_r; eexists;
    (split; [reflexivity|]); cbn; (split; [done|]); split; try done; by intros [? [=]].
Qed.

(** Setting up the logs panics exactly when their directory is there or can be made
    and an appender cannot be initialised in it.  Otherwise, whatever the environment
    and the file system say, a subscriber is installed, and it prints compact lines
    without colours to the standard error; it writes to files exactly when their
    directory is there or can be made, and a directory that cannot be made is reported
    once and the program goes on.  A second call leaves the first subscriber in place;
    but it is not a no-op: it starts another appender, or panics. *)
Theorem logs_ready program s w :
  (init program s None w = None <-> no_appender program s) /\
  forall global w', init program s None w = Some (global, w') ->
  (exists sub, global = Some sub /\ stderr_layer sub = mkStderr true false false /\
     (is_Some (file_layer sub) <-> dir_ready s = true)) /\
  (forall e, is_dir (dirs s) (log_dir s) = false -> create_dir_all (dirs s) (log_dir s) = Err e ->
     w' = w ++ [CreateDirAll (log_dir s); Eprintln (log_dir s) e]) /\
  forall program' s',
    match init program' s' global w' with
    | None => no_appender program' s'
    | Some (global', w'') => global' = global /\
        (dir_ready s' = true -> exists acts, w'' = w' ++ acts ++ [StartAppender (log_dir s') program'])
    end.
Proof.
  split; [apply init_panics|]. intros global w' (sub & [= -> ->] & Hs & Hf)%init_spec.
  split; [by exists sub|]. split.
  - intros e Hd Hc. unfold dir_ready, dir_acts. by rewrite Hd, Hc.
  - intros program' s'. destruct (init program' s' _ _) as [[]|] eqn:E; [|by apply init_panics in E].
    apply init_spec in E as (sub' & [= -> ->] & _). split; [done|]. intros ->. by exists (dir_acts s').
Qed.

End Init.

(** A directory that is not there and cannot be made. *)
Definition no_dir : Sys (Filter := string) (Writer := string * string) (Journal := unit) := {|
  try_from_default_env := Err NotFound;
  new_filter := fun level => level;
  var_log_dir := Ok "/readonly/logs"%string;
  dirs := {| is_dir := fun _ => false; create_dir_all := fun _ => Err (EOTHER 30) |};
  daily := fun dir program => Some (dir, program);
  journald := None;
|}.

(** The default directory is there, for another user. *)
Definition unwritable : Sys (Filter := string) (Writer := string * string) (Journal := unit) := {|
  try_from_default_env := Err NotFound;
  new_filter := fun level => level;
  var_log_dir := Err NotFound;
  dirs := {| is_dir := fun _ => true; create_dir_all := fun _ => Err (EOTHER 17) |};
  daily := fun _ _ => None;
  journald := None;
|}.

(** A directory that cannot be written to ends the program, and one that cannot be made
    does not. *)
Example unwritable_panics :
  init "serialmux" unwritable None [] = None /\ is_Some (init "serialmux" no_dir None []).
Proof. split; [reflexivity | by eexists]. Qed.

Lemma logs_ready_witness :
  init "serialmux" no_dir None [] =
    Some (Some (mkSubscriber "info"%string (mkStderr true false false) None None),
     [CreateDirAll "/readonly/logs"; Eprintln "/readonly/logs" (EOTHER 30)]) /\
  exists sub w, init "serialmux" no_dir None [] = Some (Some sub, w) /\
    stderr_layer sub = mkStderr true false false.
Proof.
  split; [reflexivity|]. destruct (logs_ready "serialmux" no_dir []) as [_ Hl].
  specialize (Hl _ _ eq_refl) as ((sub & E & Hs & _) & _). exists sub.
  eexists. split; [injection E as <-; reflexivity | exact Hs].
Defined.

End Logging.
