(* ===== verification/Discovery.v ===== *)
(** * Finding the link device and preparing sockets
      ([serial.rs], [windlass/mod.rs])

    The scan of sysfs for a USB serial device, the wait for it, and the
    preparation of a Unix socket's path.  The file system is data: what reading
    the directory, a link or a file answers.  Paths are lists of components from
    the root.  Whitespace is ASCII. *)
From Stdlib Require Import ZArith Lia Ascii String.
From stdpp Require Import base option numbers list strings sorting.
From S2P Require Import Prelude.

Local Open Scope string_scope.
Local Open Scope Z_scope.

Module Discovery.

Definition Path : Type := list string.

(** What the system calls answer at one moment: [/sys/class/tty] as its readable
    entries, if it can be read; the target of an entry; the contents of files. *)
Record Sysfs := mkSysfs {
  read_dir : option (list string);
  canonicalize : Path -> option Path;
  read_to_string : Path -> option string;
}.

Definition base : Path := ["sys"; "class"; "tty"].

Definition join (p : Path) (c : string) : Path := (p ++ [c])%list.

(** [p.parent()]: [None] for the root. *)
Definition parent (p : Path) : option Path :=
  match p with [] => None | _ => Some (removelast p) end.

Definition is_space (c : ascii) : bool :=
  let n := Z.of_nat (nat_of_ascii c) in ((9 <=? n) && (n <=? 13)) || (n =? 32).

Fixpoint trim_start (s : string) : string :=
  match s with
  | EmptyString => EmptyString
  | String c s => if is_space c then trim_start s else String c s
  end.

Fixpoint trim_end (s : string) : string :=
  match s with
  | EmptyString => EmptyString
  | String c s =>
      match trim_end s with
      | EmptyString => if is_space c then EmptyString else String c EmptyString
      | t => String c t
      end
  end.

Definition trim (s : string) : string := trim_end (trim_start s).

(** The climb from an entry, at most [n] levels. *)
Fixpoint climb (fs : Sysfs) (vid pid : string) (n : nat) (cur : Path) : bool :=
  match n with
  | O => false
  | S n =>
      match read_to_string fs (join cur "idVendor"), read_to_string fs (join cur "idProduct") with
      | Some v, Some p => String.eqb (trim v) vid && String.eqb (trim p) pid
      | _, _ =>
          match parent cur with
          | Some p => if negb (bool_decide (p = cur)) then climb fs vid pid n p else false
          | None => false
          end
      end
  end.

Fixpoint scan (fs : Sysfs) (vid pid : string) (entries : list string) : option string :=
  match entries with
  | [] => None
  | name :: entries =>
      let cur := default (join base name) (canonicalize fs (join base name)) in
      if climb fs vid pid 8 cur then Some ("/dev/" +:+ name) else scan fs vid pid entries
  end.

Definition find_acm_by_usb_id (fs : Sysfs) (vid pid : string) : option string :=
  entries ← read_dir fs;
  let entries := filter (fun name => String.prefix "ttyACM" name = true) entries in
  let entries := merge_sort String.le entries in
  scan fs vid pid entries.

(** One look at sysfs each time round the loop; [None] when it is still waiting
    after the last. *)
Fixpoint wait_for_acm (polls : list Sysfs) (vid pid : string) : option string :=
  match polls with
  | [] => None
  | fs :: polls =>
      match find_acm_by_usb_id fs vid pid with
      | Some dev => Some dev
      | None => wait_for_acm polls vid pid
      end
  end.

End Discovery.

(** ** The copy of the windlass bridge

    [windlass/mod.rs] repeats the two functions of [serial.rs] word for word, but
    for the asynchronous sleep. *)
Module Windlass.
Import Discovery.

Definition find_acm_by_usb_id (fs : Sysfs) (vid pid : string) : option string :=
  entries ← read_dir fs;
  let entries := filter (fun name => String.prefix "ttyACM" name = true) entries in
  let entries := merge_sort String.le entries in
  scan fs vid pid entries.

Fixpoint wait_for_acm (polls : list Sysfs) (vid pid : string) : option string :=
  match polls with
  | [] => None
  | fs :: polls =>
      match find_acm_by_usb_id fs vid pid with
      | Some dev => Some dev
      | None => wait_for_acm polls vid pid
      end
  end.

(** The bridge's choice of link device; the outer [None] is the panic. *)
Definition resolve_link_device (polls : list Sysfs) (link_dev : option string)
    (usb_id : option (string * string)) : option (option string) :=
  match link_dev, usb_id with
  | Some dev, _ => Some (Some dev)
  | None, Some (vid, pid) => Some (wait_for_acm polls vid pid)
  | None, None => None
  end.

(** ** Socket paths *)

Inductive FileType := Socket | Symlink | OtherFile.

(** What is at the path, and the errors of the calls: creating the parent
    directories, the metadata, the removal. *)
Record SocketFs := mkSocketFs {
  node : option FileType;
  mkdir_error : option Errno;
  metadata_error : option Errno;
  remove_error : option Errno;
}.

Definition symlink_metadata (fs : SocketFs) : io FileType :=
  match metadata_error fs with
  | Some e => Err e
  | None => match node fs with Some k => Ok k | None => Err NotFound end
  end.

Definition remove_file (fs : SocketFs) : io unit * SocketFs :=
  match remove_error fs with
  | Some e => (Err e, fs)
  | None => (Ok tt, mkSocketFs None (mkdir_error fs) (metadata_error fs) (remove_error fs))
  end.

Definition prepare_socket_path (has_parent : bool) (fs : SocketFs) : io unit * SocketFs :=
  match (if has_parent then mkdir_error fs else None) with
  | Some e => (Err e, fs)
  | None =>
      match symlink_metadata fs with
      | Ok Socket | Ok Symlink => remove_file fs
      | Ok OtherFile => (Err AlreadyExists, fs)
      | Err NotFound => (Ok tt, fs)
      | Err e => (Err e, fs)
      end
  end.

(** What the system answers when the socket of a channel is set up: for its path, and
    for the [bind]. *)
Record SocketSys := mkSocket {
  sock_has_parent : bool;
  sock_fs : SocketFs;
  sock_bind : io unit;
}.

Definition prepares (s : SocketSys) : bool :=
  match (prepare_socket_path (sock_has_parent s) (sock_fs s)).1 with Ok _ => true | Err _ => false end.

Definition binds (s : SocketSys) : bool :=
  match sock_bind s with Ok _ => true | Err _ => false end.

End Windlass.

Module DiscoveryProofs.
Import Discovery.

(** ** The scan *)

(** The ids of the nearest of [n] ancestors that has both files. *)
Fixpoint nearest_ids (fs : Sysfs) (n : nat) (cur : Path) : option (string * string) :=
  match n with
  | O => None
  | S n =>
      match read_to_string fs (join cur "idVendor"), read_to_string fs (join cur "idProduct") with
      | Some v, Some p => Some (trim v, trim p)
      | _, _ => match cur with [] => None | _ => nearest_ids fs n (removelast cur) end
      end
  end.

Lemma parent_shorter p q : parent p = Some q -> (length q < length p)%nat.
Proof.
  destruct p as [|c p]; [done|]. intros E.
  assert (q = removelast (c :: p)) as -> by (unfold parent in E; congruence).
  destruct (exists_last (l := c :: p)) as (l & a & ->); [done|].
  rewrite removelast_last, length_app. cbn. lia.
Qed.

Lemma climb_spec fs vid pid n cur :
  climb fs vid pid n cur = true <-> nearest_ids fs n cur = Some (vid, pid).
Proof.
  revert cur. induction n as [|n IH]; intros cur; cbn [climb nearest_ids]; [done|].
  assert ((match parent cur with
    | Some p => if negb (bool_decide (p = cur)) then climb fs vid pid n p else false
    | None => false end = true) <->
    (match cur with [] => None | _ => nearest_ids fs n (removelast cur) end = Some (vid, pid)))
    as Hup.
  { destruct cur as [|c cur]; [done|]. cbn [parent].
    rewrite bool_decide_false; [apply IH|]. intros E.
    pose proof (parent_shorter (c :: cur) _ eq_refl) as Hs. rewrite E in Hs. lia. }
  destruct (read_to_string fs (join cur "idVendor")) as [v|]; [|done].
  destruct (read_to_string fs (join cur "idProduct")) as [p|]; [|done].
  rewrite andb_true_iff, !String.eqb_eq. split; [by intros [-> ->] | by intros [= -> ->]].
Qed.

(** A readable entry of the directory that is the device asked for. *)
Definition is_match (fs : Sysfs) (vid pid name : string) : Prop :=
  (exists entries, read_dir fs = Some entries /\ name ∈ entries) /\
  String.prefix "ttyACM" name = true /\
  nearest_ids fs 8 (default (join base name) (canonicalize fs (join base name))) = Some (vid, pid).

Lemma scan_spec fs vid pid entries :
  StronglySorted String.le entries ->
  let matching name := name ∈ entries /\
    nearest_ids fs 8 (default (join base name) (canonicalize fs (join base name))) = Some (vid, pid) in
  match scan fs vid pid entries with
  | None => forall name, ~ matching name
  | Some dev => exists name, dev = "/dev/" +:+ name /\ matching name /\
      forall name', matching name' -> String.le name name'
  end.
Proof.
  intros Hs. induction Hs as [|name entries Hs IH Hle]; cbn [scan].
  { by intros name [?%not_elem_of_nil _]. }
  destruct (climb _ _ _ _ _) eqn:E.
  - apply climb_spec in E. exists name. split; [done|]. split; [split; [apply list_elem_of_here | done]|].
    intros name' [[->|Hin]%elem_of_cons _]; [done|]. rewrite Forall_forall in Hle. by apply Hle.
  - assert (nearest_ids fs 8 (default (join base name) (canonicalize fs (join base name)))
      <> Some (vid, pid)) as Hne by (rewrite <- climb_spec; congruence).
    destruct (scan fs vid pid entries) as [dev|].
    + destruct IH as (name' & -> & [Hin Hm] & Hmin). exists name'. split; [done|].
      split; [split; [by apply elem_of_cons; right | done]|].
      intros n [[->|?]%elem_of_cons ?]; [done|]. by apply Hmin.
    + intros n [[->|?]%elem_of_cons ?]; [done|]. by eapply IH.
Qed.

(** the discovery of the link device: the scan returns the matching [ttyACM*] entry
    whose name comes first in byte order, where an entry matches when the nearest of
    its eight innermost directories that has both id files has the ids asked for; and
    nothing when none matches. *)
Theorem find_acm_first fs vid pid :
  match find_acm_by_usb_id fs vid pid with
  | None => forall name, ~ is_match fs vid pid name
  | Some dev => exists name, dev = "/dev/" +:+ name /\ is_match fs vid pid name /\
      forall name', is_match fs vid pid name' -> String.le name name'
  end.
Proof.
  unfold find_acm_by_usb_id, is_match. destruct (read_dir fs) as [entries|]; cbn [mbind option_bind].
  2:{ by intros name [(entries & [=] & _) _]. }
  set (sorted := merge_sort _ _).
  assert (forall name, name ∈ sorted <->
    (exists e, Some entries = Some e /\ name ∈ e) /\ String.prefix "ttyACM" name = true) as Hin.
  { intros name. unfold sorted. rewrite merge_sort_Permutation, list_elem_of_filter.
    split; [intros [? ?]; split; [by exists entries | done] | intros [(e & [= <-] & ?) ?]; done]. }
  pose proof (scan_spec fs vid pid sorted (StronglySorted_merge_sort _ _)) as H. cbv zeta in H.
  destruct (scan fs vid pid sorted) as [dev|].
  - destruct H as (name & -> & [Hn Hm] & Hmin). exists name. split; [done|].
    apply Hin in Hn as [? ?]. split; [done|]. intros name' (? & ? & ?). apply Hmin.
    split; [by apply Hin | done].
  - intros name (? & ? & ?). apply (H name). split; [by apply Hin | done].
Qed.

(** ** The wait *)

Lemma wait_for_acm_spec polls vid pid :
  match wait_for_acm polls vid pid with
  | None => Forall (fun fs => find_acm_by_usb_id fs vid pid = None) polls
  | Some dev => exists before fs after, polls = (before ++ fs :: after)%list /\
      find_acm_by_usb_id fs vid pid = Some dev /\
      Forall (fun fs => find_acm_by_usb_id fs vid pid = None) before
  end.
Proof.
  induction polls as [|fs polls IH]; cbn [wait_for_acm]; [constructor|].
  destruct (find_acm_by_usb_id fs vid pid) as [dev|] eqn:E.
  - exists [], fs, polls. split_and!; [done..|constructor].
  - destruct (wait_for_acm polls vid pid) as [dev|].
    + destruct IH as (before & fs' & after & -> & ? & ?). exists (fs :: before), fs', after.
      split_and!; [done..|by constructor].
    + by constructor.
Qed.

Lemma windlass_wait polls vid pid :
  Windlass.wait_for_acm polls vid pid = wait_for_acm polls vid pid.
Proof. induction polls as [|fs polls IH]; cbn; [done|]. by rewrite IH. Qed.

(** The choice of the link device: a device given on the command line is used as it
    is; with a USB id the bridge waits, and takes the device found by the first look at
    sysfs that finds one; with neither it panics, which the command line excludes. *)
Theorem link_device_resolved polls link_dev usb_id :
  match link_dev, usb_id with
  | Some dev, _ => Windlass.resolve_link_device polls link_dev usb_id = Some (Some dev)
  | None, None => Windlass.resolve_link_device polls link_dev usb_id = None
  | None, Some (vid, pid) =>
      exists r, Windlass.resolve_link_device polls link_dev usb_id = Some r /\
      match r with
      | None => Forall (fun fs => find_acm_by_usb_id fs vid pid = None) polls
      | Some dev => exists before fs after, polls = (before ++ fs :: after)%list /\
          find_acm_by_usb_id fs vid pid = Some dev /\
          Forall (fun fs => find_acm_by_usb_id fs vid pid = None) before
      end
  end.
Proof.
  destruct link_dev as [dev|]; [done|]. destruct usb_id as [[vid pid]|]; [|done].
  eexists. split; [reflexivity|]. rewrite windlass_wait. apply wait_for_acm_spec.
Qed.

(** Byte order is not the order of the numbers: [ttyACM10] comes before [ttyACM2]. *)
Definition two_devices : Sysfs :=
  mkSysfs (Some ["ttyACM2"; "ttyACM10"; "tty0"]) (fun p => Some p)
    (fun p => if bool_decide (last p = Some "idVendor") then Some "1d6b"
              else if bool_decide (last p = Some "idProduct") then Some "0104" else None).

Example ttyACM10_first : find_acm_by_usb_id two_devices "1d6b" "0104" = Some "/dev/ttyACM10".
Proof. vm_compute. reflexivity. Qed.

(** ** Socket paths *)

(** When preparing a socket path succeeds, nothing is there by the metadata; it
    removes nothing but a socket or a symbolic link, refuses any other file with
    [AlreadyExists], and passes every other error on. *)
Theorem socket_path_prepared has_parent fs :
  let '(r, fs') := Windlass.prepare_socket_path has_parent fs in
  (r = Ok tt -> Windlass.node fs' = None \/ Windlass.metadata_error fs = Some NotFound) /\
  (Windlass.node fs' <> Windlass.node fs ->
    Windlass.node fs' = None /\ r = Ok tt /\
    (Windlass.node fs = Some Windlass.Socket \/ Windlass.node fs = Some Windlass.Symlink)) /\
  (Windlass.mkdir_error fs = None -> Windlass.metadata_error fs = None ->
    match Windlass.node fs, Windlass.remove_error fs with
    | Some Windlass.OtherFile, _ => r = Err AlreadyExists
    | Some _, Some e => r = Err e
    | _, _ => r = Ok tt
    end) /\
  (forall e, has_parent = true -> Windlass.mkdir_error fs = Some e -> r = Err e).
Proof.
  unfold Windlass.prepare_socket_path, Windlass.symlink_metadata, Windlass.remove_file.
  destruct fs as [node mk md rm]. cbn.
  destruct has_parent, mk as [e|], md as [[]|], node as [[]|], rm as [e'|]; cbn;
    split_and!; intros; simplify_eq; auto; congruence.
Qed.

End DiscoveryProofs.
