(* ===== verification/Daemon.v ===== *)
(** * The daemon ([serialmux-rs/src/daemon.rs])

    The event loop that owns the link, the transmit queue and the channels.  It
    is parametric in the queue ([TxQueueOps]) and in the channels ([Channel]).
    [channels] is the [HashMap] in the order it is iterated over, which is
    arbitrary but does not change while nothing is inserted.  A handler gets the
    answers of the system as a [DEnv]; what it asks of the system for the link
    and what the channels ask are recorded in two traces. *)
From Stdlib Require Import ZArith Lia.
From stdpp Require Import base option numbers list strings.
From S2P Require Import Prelude Protocol Stream Parser TxQueue Serial Chan Discovery Mcu.

Local Open Scope Z_scope.

Module Daemon.

Definition MAX_TICK : Z := secs 1.
Definition KA_INTERVAL : Z := secs 3.
Definition KA_TIMEOUT : Z := secs 10.

(** The read buffer of [link_read]. *)
Definition LINK_READ_BUF : Z := 65536.

Record t (Q C : Type) := mk {
  mode : string;
  link_dev : option string;
  usb_id : option (string * string);
  channels : list (Z * C);
  txq : Q;
  parser : FrameParser.t;
  link_fd : option RawFd;
  link_up : bool;
  link_bp : bool;
  disconnected : bool;
  reopen_at : Z;
  reopen_delay : Z;
  last_rx : option Z;
  last_tx : option Z;
}.
Arguments mk {Q C}.
Arguments mode {Q C}.
Arguments link_dev {Q C}.
Arguments usb_id {Q C}.
Arguments channels {Q C}.
Arguments txq {Q C}.
Arguments parser {Q C}.
Arguments link_fd {Q C}.
Arguments link_up {Q C}.
Arguments link_bp {Q C}.
Arguments disconnected {Q C}.
Arguments reopen_at {Q C}.
Arguments reopen_delay {Q C}.
Arguments last_rx {Q C}.
Arguments last_tx {Q C}.

(** The requests about the link and those of the channels. *)
Record DWorld := mkWorld { w_link : World; w_chan : World }.

Definition link_call (w : DWorld) (c : SysCall) : DWorld := mkWorld (emit (w_link w) c) (w_chan w).

(** The answers of the system to one handler; [d_chan k id] those to the [k]-th
    call of channel [id]. *)
Record DEnv := {
  d_now : Z;
  d_sysfs : Discovery.Sysfs;
  d_serial : SerialSys;
  d_register : io unit;
  d_read : io (list Z);
  d_write : write_oracle;
  d_chan : nat -> Z -> Env;
}.

Section Daemon.
Context `{Crc32} {Q : Type} `{TxQueueOps Q} {C : Type} `{Channel C}.

Definition set_channels v (d : t Q C) : t Q C := mk (mode d) (link_dev d) (usb_id d) v (txq d)
  (parser d) (link_fd d) (link_up d) (link_bp d) (disconnected d) (reopen_at d) (reopen_delay d)
  (last_rx d) (last_tx d).
Definition set_txq v (d : t Q C) : t Q C := mk (mode d) (link_dev d) (usb_id d) (channels d) v
  (parser d) (link_fd d) (link_up d) (link_bp d) (disconnected d) (reopen_at d) (reopen_delay d)
  (last_rx d) (last_tx d).
Definition set_parser v (d : t Q C) : t Q C := mk (mode d) (link_dev d) (usb_id d) (channels d)
  (txq d) v (link_fd d) (link_up d) (link_bp d) (disconnected d) (reopen_at d) (reopen_delay d)
  (last_rx d) (last_tx d).
Definition set_link_fd v (d : t Q C) : t Q C := mk (mode d) (link_dev d) (usb_id d) (channels d)
  (txq d) (parser d) v (link_up d) (link_bp d) (disconnected d) (reopen_at d) (reopen_delay d)
  (last_rx d) (last_tx d).
Definition set_link_up v (d : t Q C) : t Q C := mk (mode d) (link_dev d) (usb_id d) (channels d)
  (txq d) (parser d) (link_fd d) v (link_bp d) (disconnected d) (reopen_at d) (reopen_delay d)
  (last_rx d) (last_tx d).
Definition set_link_bp v (d : t Q C) : t Q C := mk (mode d) (link_dev d) (usb_id d) (channels d)
  (txq d) (parser d) (link_fd d) (link_up d) v (disconnected d) (reopen_at d) (reopen_delay d)
  (last_rx d) (last_tx d).
Definition set_disconnected v (d : t Q C) : t Q C := mk (mode d) (link_dev d) (usb_id d)
  (channels d) (txq d) (parser d) (link_fd d) (link_up d) (link_bp d) v (reopen_at d)
  (reopen_delay d) (last_rx d) (last_tx d).
Definition set_reopen v delay (d : t Q C) : t Q C := mk (mode d) (link_dev d) (usb_id d)
  (channels d) (txq d) (parser d) (link_fd d) (link_up d) (link_bp d) (disconnected d) v delay
  (last_rx d) (last_tx d).
Definition set_last_rx v (d : t Q C) : t Q C := mk (mode d) (link_dev d) (usb_id d) (channels d)
  (txq d) (parser d) (link_fd d) (link_up d) (link_bp d) (disconnected d) (reopen_at d)
  (reopen_delay d) v (last_tx d).
Definition set_last_tx v (d : t Q C) : t Q C := mk (mode d) (link_dev d) (usb_id d) (channels d)
  (txq d) (parser d) (link_fd d) (link_up d) (link_bp d) (disconnected d) (reopen_at d)
  (reopen_delay d) (last_rx d) v.

(** [collect] into the map: a later channel replaces an earlier one of its id. *)
Definition channel_map (chs : list C) : list (Z * C) :=
  fold_left (fun m c => filter (fun x => x.1 <> channel_id c) m ++ [(channel_id c, c)]) chs [].

Definition new (mode : string) (link_dev : option string) (usb_id : option (string * string))
  (chs : list C) (now : Z) : t Q C :=
  mk mode link_dev usb_id (channel_map chs) txq_new FrameParser.new None false false true
    now (millis 500) None None.

(** [channels.get_mut(&id)] *)
Fixpoint get (id : Z) (m : list (Z * C)) : option C :=
  match m with
  | [] => None
  | (k, c) :: m => if k =? id then Some c else get id m
  end.

Fixpoint replace (id : Z) (c : C) (m : list (Z * C)) : list (Z * C) :=
  match m with
  | [] => []
  | (k, c0) :: m => if k =? id then (k, c) :: m else (k, c0) :: replace id c m
  end.

(** The queue after [enqueue] of each frame. *)
Fixpoint enqueue_all (q : Q) (fs : list frame) : option Q :=
  match fs with
  | [] => Some q
  | f :: fs => q ← txq_enqueue q (build f); enqueue_all q fs
  end.

(** [if let Some(c) = self.channels.get_mut(&id) { c.f(.., txq, reg) }] *)
Definition call_channel (f : C -> Fx -> option (C * Fx)) (id : Z) (self : t Q C) (w : DWorld)
  : option (t Q C * DWorld) :=
  match get id (channels self) with
  | None => Some (self, w)
  | Some c =>
      '(c, fx) ← f c (mkFx [] (w_chan w));
      q ← enqueue_all (txq self) (fx_tx fx);
      Some (set_txq q (set_channels (replace id c (channels self)) self),
            mkWorld (w_link w) (fx_sys fx))
  end.

(** [for id in ids { .. }] *)
Fixpoint for_ids (f : Z -> t Q C -> DWorld -> option (t Q C * DWorld)) (ids : list Z)
  (self : t Q C) (w : DWorld) : option (t Q C * DWorld) :=
  match ids with
  | [] => Some (self, w)
  | id :: ids => '(self, w) ← f id self w; for_ids f ids self w
  end.

Definition ids (self : t Q C) : list Z := map fst (channels self).

(** [for ch in self.channels.values_mut() { ch.f(reg) }]: the channel has no
    queue to send to. *)
Fixpoint for_channels (f : Z -> C -> Fx -> option (C * Fx)) (m : list (Z * C)) (w : World)
  : option (list (Z * C) * World) :=
  match m with
  | [] => Some ([], w)
  | (k, c) :: m =>
      '(c, fx) ← f k c (mkFx [] w);
      '(m, w) ← for_channels f m (fx_sys fx);
      Some ((k, c) :: m, w)
  end.

Definition all_channels (f : Z -> C -> Fx -> option (C * Fx)) (self : t Q C) (w : DWorld)
  : option (t Q C * DWorld) :=
  '(m, wc) ← for_channels f (channels self) (w_chan w);
  Some (set_channels m self, mkWorld (w_link w) wc).

Definition resolve_dev (self : t Q C) (e : DEnv) : option string :=
  match usb_id self with
  | Some (vid, pid) => Discovery.find_acm_by_usb_id (d_sysfs e) vid pid
  | None => link_dev self
  end.

Definition schedule_reopen (self : t Q C) (e : DEnv) : t Q C :=
  set_reopen (d_now e + reopen_delay self) (Z.min (reopen_delay self * 2) (secs 8)) self.

(** The result of the reregistration is ignored; the trace has the request, so that
    what it says of a registration is what was last asked for. *)
Definition set_link_write_interest (self : t Q C) (want_write : bool) (w : DWorld) : DWorld :=
  match link_fd self with
  | Some fd =>
      let interest := if want_write then interest_or READABLE WRITABLE else READABLE in
      link_call w (RegMod fd TOKEN_LINK interest)
  | None => w
  end.

Definition open_link (self : t Q C) (e : DEnv) (w : DWorld) : option (t Q C * DWorld) :=
  match resolve_dev self e with
  | None => Some (schedule_reopen self e, w)
  | Some dev =>
      let '(r, wl) := open_serial_fd (d_serial e) dev 115200 (w_link w) in
      let w := mkWorld wl (w_chan w) in
      match r with
      | Ok fd =>
          match d_register e with
          | Err _ => Some (schedule_reopen self e, link_call w (CloseFd fd))
          | Ok _ =>
              let w := link_call w (RegAdd fd TOKEN_LINK READABLE) in
              let self := set_disconnected false (set_link_fd (Some fd) self) in
              let self := set_reopen (reopen_at self) (millis 500) self in
              let self := set_parser (FrameParser.reset (parser self)) (set_link_bp false self) in
              let self := set_txq (txq_reset (txq self)) self in
              let self := set_last_tx (Some (d_now e)) (set_last_rx (Some (d_now e)) self) in
              q ← txq_enqueue (txq self) (build_frame F_HELLO 0 []);
              let self := set_txq q self in
              Some (self, set_link_write_interest self true w)
          end
      | Err _ => Some (schedule_reopen self e, w)
      end
  end.

Definition close_link (self : t Q C) (e : DEnv) (k : nat) (w : DWorld)
  : option (t Q C * DWorld) :=
  if disconnected self then Some (self, w)
  else
    let self := set_link_up false (set_disconnected true self) in
    let w := match link_fd self with
             | Some fd => link_call (link_call w (RegDel fd)) (CloseFd fd)
             | None => w
             end in
    let self := set_link_fd None self in
    let self := set_txq (txq_reset (txq self)) self in
    '(self, w) ← (if link_bp self
                  then all_channels (fun id c fx => resume_source_reads c (d_chan e k id) fx)
                         (set_link_bp false self) w
                  else Some (self, w));
    '(self, w) ← all_channels (fun id c fx => on_link_disconnect c (d_chan e k id) fx) self w;
    Some (schedule_reopen self e, w).

Definition enqueue_frame (self : t Q C) (f : list Z) (e : DEnv) (w : DWorld)
  : option (t Q C * DWorld) :=
  if disconnected self || bool_decide (link_fd self = None) then Some (self, w)
  else
    q ← txq_enqueue (txq self) f;
    let self := set_last_tx (Some (d_now e)) (set_txq q self) in
    Some (self, set_link_write_interest self true w).

Definition check_bp_high (self : t Q C) (e : DEnv) (k : nat) (w : DWorld)
  : option (t Q C * DWorld) :=
  if negb (link_bp self) && (LINK_HIGH_WATER <=? txq_used (txq self))
  then all_channels (fun id c fx => pause_source_reads c (d_chan e k id) fx)
         (set_link_bp true self) w
  else Some (self, w).

(** The end of [dispatch_frame], [on_link_up] and of a channel event. *)
Definition after_channels (self : t Q C) (e : DEnv) (w : DWorld) : t Q C * DWorld :=
  let self := set_last_tx (Some (d_now e)) self in
  (self, set_link_write_interest self (negb (txq_is_empty (txq self))) w).

Definition connect_channels (self : t Q C) (e : DEnv) (k : nat) (w : DWorld)
  : option (t Q C * DWorld) :=
  for_ids (fun id => call_channel (fun c fx => on_link_connect c (d_chan e k id) fx) id)
    (ids self) self w.

Definition on_link_up (self : t Q C) (e : DEnv) (k : nat) (w : DWorld)
  : option (t Q C * DWorld) :=
  if link_up self then Some (self, w)
  else
    '(self, w) ← connect_channels (set_link_up true self) e k w;
    Some (after_channels self e w).

Definition dispatch_frame (self : t Q C) (ftype channel : Z) (payload : list Z)
  (e : DEnv) (k : nat) (w : DWorld) : option (t Q C * DWorld) :=
  if ftype =? F_PING then enqueue_frame self (build_frame F_PONG 0 []) e w
  else if ftype =? F_PONG then Some (self, w)
  else if ftype =? F_HELLO then
    '(self, w) ← enqueue_frame self (build_frame F_ACK 0 []) e w;
    if link_up self then
      '(self, w) ← connect_channels self e k w;
      Some (after_channels self e w)
    else on_link_up self e k w
  else if ftype =? F_ACK then on_link_up self e k w
  else
    let bulk := (ftype =? F_DATA) || (ftype =? F_TDATA) in
    '(self, w) ← (if bulk then check_bp_high self e k w else Some (self, w));
    '(self, w) ← call_channel (fun c fx => on_frame c ftype payload (d_chan e k channel) fx)
                   channel self w;
    Some (after_channels self e w).

(** [for (ftype, channel, payload) in frames]: the [k]-th frame and on. *)
Fixpoint dispatch_all (fs : list frame) (self : t Q C) (e : DEnv) (k : nat) (w : DWorld)
  : option (t Q C * DWorld) :=
  match fs with
  | [] => Some (self, w)
  | (ftype, channel, payload) :: fs =>
      '(self, w) ← dispatch_frame self ftype channel payload e k w;
      dispatch_all fs self e (S k) w
  end.

Definition link_read (self : t Q C) (e : DEnv) (w : DWorld) : option (t Q C * DWorld) :=
  match link_fd self with
  | None => Some (self, w)
  | Some fd =>
      match read_nonblock (d_read e) with
      | Ok None => Some (self, w)
      | Ok (Some data) =>
          if zlen data =? 0 then Some (self, w)
          else
            let self := set_last_rx (Some (d_now e)) self in
            '(p, frames) ← FrameParser.feed_frames (parser self) data;
            dispatch_all frames (set_parser p self) e 0 w
      | Err _ => close_link self e 0 w
      end
  end.

Definition link_write (self : t Q C) (e : DEnv) (w : DWorld) : option (t Q C * DWorld) :=
  match link_fd self with
  | None => Some (self, w)
  | Some fd =>
      '(q, r, sent) ← txq_drain (txq self) (d_write e);
      let self := set_txq q self in
      let w := if is_empty sent then w else link_call w (WriteFd fd sent) in
      match r with
      | Err _ => close_link self e 0 w
      | Ok _ =>
          '(self, w) ← (if link_bp self && (txq_used (txq self) <=? LINK_LOW_WATER)
                        then all_channels
                               (fun id c fx => resume_source_reads c (d_chan e 0 id) fx)
                               (set_link_bp false self) w
                        else Some (self, w));
          Some (self, if txq_is_empty (txq self)
                      then set_link_write_interest self false w else w)
      end
  end.

Definition tick_keepalive (self : t Q C) (now : Z) (e : DEnv) (w : DWorld)
  : option (t Q C * DWorld) :=
  if disconnected self then Some (self, w)
  else
    let timed_out := match last_rx self with
                     | Some last => KA_TIMEOUT <? duration_since now last
                     | None => false
                     end in
    if timed_out then close_link self e 0 w
    else if link_up self then
      match last_tx self with
      | Some lt =>
          if (KA_INTERVAL <=? duration_since now lt) && txq_is_empty (txq self)
          then enqueue_frame self (build_frame F_PING 0 []) e w
          else Some (self, w)
      | None => Some (self, w)
      end
    else Some (self, w).

(** [deadline.min(d)] *)
Definition min_opt (deadline : Z) (d : option Z) : Z :=
  match d with Some d => Z.min deadline d | None => deadline end.

Definition next_timeout (self : t Q C) (now : Z) : Z :=
  let deadline := now + MAX_TICK in
  let deadline :=
    if disconnected self then Z.min deadline (reopen_at self)
    else if link_up self then
      min_opt (min_opt deadline ((fun lt => lt + KA_INTERVAL) <$> last_tx self))
        ((fun lr => lr + KA_TIMEOUT) <$> last_rx self)
    else deadline in
  let deadline := fold_left (fun dl ch => min_opt dl (next_deadline ch.2)) (channels self) deadline in
  if now <? deadline then deadline - now else 0.

(** ** The main loop *)

Record Event := mkEvent {
  ev_token : Z;
  ev_readable : bool;
  ev_writable : bool;
  ev_env : DEnv;
}.

(** One event of [poll]. *)
Definition on_event (self : t Q C) (ev : Event) (w : DWorld) : option (t Q C * DWorld) :=
  let e := ev_env ev in
  if ev_token ev =? TOKEN_LINK then
    if bool_decide (link_fd self = None) then Some (self, w)
    else
      '(self, w) ← (if ev_readable ev then link_read self e w else Some (self, w));
      if ev_writable ev && bool_decide (link_fd self <> None) then link_write self e w
      else Some (self, w)
  else
    match channel_id_for_token (ev_token ev) with
    | Some ch_id =>
        '(self, w) ← call_channel
           (fun c fx => handle_event c (ev_token ev) (ev_readable ev) (ev_writable ev)
                          (d_chan e 0 ch_id) fx) ch_id self w;
        '(self, w) ← check_bp_high self e 1 w;
        Some (after_channels self e w)
    | None => Some (self, w)
    end.

Fixpoint on_events (self : t Q C) (evs : list Event) (w : DWorld) : option (t Q C * DWorld) :=
  match evs with
  | [] => Some (self, w)
  | ev :: evs => '(self, w) ← on_event self ev w; on_events self evs w
  end.

(** What the system does during one pass: the clock and the answers while the
    timers run, and the events [poll] returns (none when it fails). *)
Record Pass := mkPass { ps_env : DEnv; ps_events : list Event }.

(** The body of the loop up to [poll]. *)
Definition run_timers (self : t Q C) (e : DEnv) (w : DWorld) : option (t Q C * DWorld) :=
  let now := d_now e in
  '(self, w) ← (if disconnected self && (reopen_at self <=? now)
                then open_link self e w else Some (self, w));
  '(self, w) ← tick_keepalive self now e w;
  '(self, w) ← for_ids (fun id => call_channel (fun c fx => tick c now (d_chan e 1 id) fx) id)
                 (ids self) self w;
  if negb (txq_is_empty (txq self))
  then
    let self := set_last_tx (Some (d_now e)) self in
    Some (self, set_link_write_interest self true w)
  else Some (self, w).

Definition run_pass (self : t Q C) (p : Pass) (w : DWorld) : option (t Q C * DWorld) :=
  '(self, w) ← run_timers self (ps_env p) w;
  on_events self (ps_events p) w.

Fixpoint run_passes (self : t Q C) (ps : list Pass) (w : DWorld) : option (t Q C * DWorld) :=
  match ps with
  | [] => Some (self, w)
  | p :: ps => '(self, w) ← run_pass self p w; run_passes self ps w
  end.

(** [run]: the link is opened first. *)
Definition run (self : t Q C) (e : DEnv) (ps : list Pass) (w : DWorld)
  : option (t Q C * DWorld) :=
  '(self, w) ← (if disconnected self then open_link self e w else Some (self, w));
  run_passes self ps w.

End Daemon.
End Daemon.
