(* ===== verification/DaemonProofs.v ===== *)
(** * Correctness of the daemon

    One invariant, kept by every handler whatever the system answers, for any
    queue and any channels that obey their laws. *)
From Stdlib Require Import ZArith Lia.
From stdpp Require Import base option numbers list strings.
From S2P Require Import Prelude Protocol Stream Parser TxQueue Serial Chan Mcu Daemon.

Local Open Scope Z_scope.

Module DaemonProofs.
Import Daemon.

(** What the model assumes of the system's answers. *)
Record denv_ok (e : DEnv) : Prop := {
  de_read : read_ok LINK_READ_BUF (d_read e);
  de_write : write_ok (d_write e);
  de_chan : forall k id, env_ok (d_chan e k id);
}.

(** A frame [build] accepts, of bytes. *)
Definition good_frame (f : frame) : Prop := frame_fits f /\ frame_bytes f.

Definition hello : frame := (F_HELLO, 0, []).

(** ** Association lists *)

Section Assoc.
Context {C : Type}.
Implicit Types (m : list (Z * C)) (P : Z * C -> Prop).

Lemma get_Forall P id m c : Forall P m -> get id m = Some c -> P (id, c).
Proof.
  induction 1 as [|[k c0] m Hp Hm IH]; cbn [get]; [done|].
  destruct (k =? id) eqn:E; zbool; [|done]. intros [= ->]. by subst.
Qed.

Lemma replace_Forall P id c m : Forall P m -> P (id, c) -> Forall P (replace id c m).
Proof.
  intros Hm Hc. induction Hm as [|[k c0] m Hp Hm IH]; cbn [replace]; [constructor|].
  destruct (k =? id) eqn:E; zbool; subst; by constructor.
Qed.

Lemma replace_fst id c m : map fst (replace id c m) = map fst m.
Proof.
  induction m as [|[k c0] m IH]; cbn [replace]; [done|].
  destruct (k =? id) eqn:E; zbool; cbn; by rewrite ?IH.
Qed.

End Assoc.

Section Proofs.
Context `{Crc32} {Q : Type} `{TxQueueLaws Q} {C : Type} `{ChannelLaws C}.

(** [T id token]: the tokens channel [id] has registered. *)
Variable T : Z -> Z -> Prop.

(** ** The queue *)

Lemma fifo_push_build l f :
  good_frame f -> exists acc, fifo_push l (build f) = l ++ concat (map build acc) /\
    Forall good_frame acc.
Proof.
  intros Hf. unfold fifo_push. destruct (_ <=? _).
  - exists [f]. cbn. rewrite app_nil_r. split; [done | by apply Forall_singleton].
  - exists []. cbn. by rewrite app_nil_r.
Qed.

(** An empty queue takes a control frame. *)
Lemma fifo_push_control ft : fifo_push [] (build (ft, 0, [])) = build (ft, 0, []).
Proof.
  unfold fifo_push. rewrite (proj2 (Z.leb_le _ _)); [done|].
  pose proof (build_frame_bound ft 0 []). unfold build, LINK_TXBUF_SIZE, LINK_HIGH_WATER in *.
  change (zlen (@nil Z)) with 0. lia.
Qed.

Lemma enqueue_all_spec q l fs :
  txq_holds q l -> Forall good_frame fs ->
  exists q' acc, enqueue_all q fs = Some q' /\ txq_holds q' (l ++ concat (map build acc)) /\
    Forall good_frame acc /\ (fs = [] -> q' = q /\ acc = []).
Proof.
  intros Hq Hf. revert q l Hq. induction Hf as [|f fs Hf Hfs IH]; intros q l Hq.
  - exists q, []. cbn. by rewrite app_nil_r.
  - cbn [enqueue_all]. destruct (txq_holds_enqueue q l (build f) Hq) as (q1 & -> & Hq1).
    cbn [mbind option_bind]. destruct (fifo_push_build l f Hf) as (a1 & E1 & F1).
    rewrite E1 in Hq1. destruct (IH q1 _ Hq1) as (q' & a2 & -> & Hq' & F2 & _).
    exists q', (a1 ++ a2). split; [done|]. rewrite map_app, concat_app, app_assoc.
    split; [done|]. split; [by apply Forall_app | done].
Qed.

Lemma used_grows q l q' l' :
  txq_holds q l -> txq_holds q' (l ++ l') -> txq_used q <= txq_used q'.
Proof.
  intros Hq Hq'. rewrite (txq_holds_used _ _ Hq), (txq_holds_used _ _ Hq'), zlen_app.
  pose proof (zlen_nonneg l'). lia.
Qed.

(** ** The invariant *)

(** The bytes written since the link was opened, and those queued, are whole
    frames, the handshake first. *)
Definition wire (d : t Q C) (w : DWorld) (l : list Z) : Prop :=
  match link_fd d with
  | None => l = []
  | Some fd => exists fs, Forall good_frame fs /\
      written (w_link w) fd ++ l = concat (map build (hello :: fs))
  end.

Definition chan_ok (bp quiet : bool) (p : Z * C) : Prop :=
  ch_inv p.2 /\ channel_id p.2 = p.1 /\ ch_paused p.2 = bp /\
  (quiet = true -> ch_quiet p.2) /\ (forall tok, T p.1 tok -> ch_token p.2 tok).

Record inv (d : t Q C) (w : DWorld) : Prop := {
  i_chans : Forall (chan_ok (link_bp d) (disconnected d)) (channels d);
  i_parser : exists v, FrameParser.ready (parser d) v;
  i_queue : exists l, txq_holds (txq d) l /\ wire d w l;
  i_fd : link_fd d = None <-> disconnected d = true;
  i_down : disconnected d = true -> link_up d = false /\ link_bp d = false;
  i_delay : millis 500 <= reopen_delay d <= secs 8;
  i_clock : disconnected d = false -> is_Some (last_rx d) /\ is_Some (last_tx d);
  i_reg : forall fd, link_fd d = Some fd ->
    exists i, registered (w_link w) fd = Some (TOKEN_LINK, i) /\ is_readable i = true;
  i_bp : link_bp d = true -> LINK_LOW_WATER < txq_used (txq d);
}.

(** Queued bytes are waited for. *)
Definition armed (d : t Q C) (w : DWorld) : Prop :=
  forall fd, link_fd d = Some fd -> txq_is_empty (txq d) = false ->
    exists i, registered (w_link w) fd = Some (TOKEN_LINK, i) /\ is_writable i = true.

(** [d'] differs from [d] in its queue and channels only. *)
Definition same_link (d d' : t Q C) : Prop :=
  d' = set_txq (txq d') (set_channels (channels d') d) /\ ids d' = ids d.

Lemma same_link_refl d : same_link d d.
Proof. split; [by destruct d | done]. Qed.

Lemma same_link_trans d1 d2 d3 : same_link d1 d2 -> same_link d2 d3 -> same_link d1 d3.
Proof. intros [E1 I1] [E2 I2]. split; [|congruence]. rewrite E2, E1. by destruct d1. Qed.

(** ** One channel *)

(** Calls made for one channel: not those that pause, resume or disconnect. *)
Definition single (i : input) : Prop :=
  match i with InPause | InResume | InDisconnect => False | _ => True end.

Definition input_fits (id : Z) (i : input) : Prop :=
  payload_ok i /\ match i with InEvent tok _ _ => T id tok | _ => True end.

Definition quiet_after (i : input) (quiet : bool) : bool :=
  match i with InDisconnect => true | InFrame _ _ | InConnect => false | _ => quiet end.

Lemma chan_ok_step bp quiet id c i e fx :
  chan_ok bp quiet (id, c) -> env_ok e -> input_fits id i ->
  exists c' fx' sent, chan_step c i e fx = Some (c', fx') /\
    chan_ok (paused_after i bp) (quiet_after i quiet) (id, c') /\
    fx_tx fx' = fx_tx fx ++ sent /\ Forall good_frame sent /\
    (quiet = true -> wakes i = false -> sent = []).
Proof.
  intros (Hi & Hid & Hp & Hq & Ht) He [Hpl Htok]. cbn [fst snd] in *.
  assert (input_ok ch_token c i) as Hin by (split; [done|]; destruct i; auto).
  destruct (ch_step c i e fx Hi He Hin) as (c' & fx' & sent & E & Hi' & Hid' & Hp' & Htx & Hf & Hquiet).
  exists c', fx', sent. split; [done|]. split; [|split; [done|split]].
  - split; [done|]. cbn [fst snd]. split; [congruence|]. split; [congruence|]. split.
    + intros Hqa. destruct i; try done; apply Hquiet; auto.
    + intros tok HT. eapply ch_token_stable; [exact E | exact Hi | done | done | auto].
  - eapply Forall_impl; [exact Hf|]. intros f Hof.
    by apply (frame_of_fits (channel_id c)); [|apply ch_inv_id].
  - intros Hqt Hw. apply Hquiet; auto.
Qed.

Lemma wire_extend d w q l acc :
  wire d w l -> Forall good_frame acc -> (link_fd d = None -> acc = []) ->
  wire (set_txq q d) w (l ++ concat (map build acc)).
Proof.
  unfold wire. cbn [link_fd set_txq]. destruct (link_fd d) as [fd|].
  - intros (fs & Hfs & E) Hacc _. exists (fs ++ acc). split; [by apply Forall_app|].
    by rewrite app_assoc, E, app_comm_cons, map_app, concat_app.
  - intros -> _ ->; done.
Qed.

Lemma chans_weaken bp (q q' : bool) m :
  (q' = true -> q = true) -> Forall (chan_ok bp q) m -> Forall (chan_ok bp q') m.
Proof.
  intros Hq Hm. eapply Forall_impl; [exact Hm|]. intros p (? & ? & ? & Hc & ?).
  repeat split; auto.
Qed.

(** The call of one channel, as the handlers make it. *)
Lemma call_channel_inv i f id e d w :
  (forall c fx, f c fx = chan_step c i e fx) -> env_ok e -> input_fits id i -> single i ->
  (disconnected d = true -> wakes i = false) -> inv d w ->
  exists d' w', call_channel f id d w = Some (d', w') /\ inv d' w' /\ same_link d d' /\
    w_link w' = w_link w.
Proof.
  intros Hf He Hfit Hs Hw Hi. unfold call_channel.
  destruct (get id (channels d)) as [c|] eqn:Eg.
  2: { exists d, w. split; [done|]. split; [done|]. split; [apply same_link_refl | done]. }
  pose proof Hi as [Hch Hpa (l & Hq & Hwire) Hfd Hdown Hdelay Hclock Hreg Hbp].
  destruct (chan_ok_step _ _ id c i e (mkFx [] (w_chan w)) (get_Forall _ _ _ _ Hch Eg) He Hfit)
    as (c' & fx' & sent & E & Hc' & Htx & Hsent & Hquiet).
  rewrite Hf, E. cbn [mbind option_bind]. cbn [fx_tx app] in Htx. rewrite Htx.
  destruct (enqueue_all_spec (txq d) l sent Hq Hsent) as (q' & acc & -> & Hq' & Hacc & Hnil).
  cbn [mbind option_bind]. eexists _, _. split; [reflexivity|].
  assert (paused_after i (link_bp d) = link_bp d) as Hpause by by destruct i.
  assert (disconnected d = true -> quiet_after i (disconnected d) = true) as Hqa.
  { intros Hd. specialize (Hw Hd). rewrite Hd. by destruct i. }
  split; [|split; [split; [by destruct d | apply replace_fst] | done]].
  constructor; cbn [channels txq parser link_fd link_up link_bp disconnected reopen_delay
    last_rx last_tx set_txq set_channels w_link]; try done.
  - apply replace_Forall; [done|]. rewrite Hpause in Hc'.
    destruct Hc' as (? & ? & ? & Hqc & ?). repeat split; auto.
  - exists (l ++ concat (map build acc)). split; [done|].
    apply (wire_extend (set_channels (replace id c' (channels d)) d) w q' l acc); [done | done|].
    cbn [link_fd set_channels]. intros Hn. apply Hfd in Hn. apply Hnil, Hquiet; auto.
  - intros Hb. eapply Z.lt_le_trans; [by apply Hbp | by eapply used_grows].
Qed.

Lemma for_ids_inv f js d w :
  (forall id d1 w1, same_link d d1 -> inv d1 w1 ->
     exists d2 w2, f id d1 w1 = Some (d2, w2) /\ inv d2 w2 /\ same_link d1 d2 /\
       w_link w2 = w_link w1) ->
  inv d w ->
  exists d' w', for_ids f js d w = Some (d', w') /\ inv d' w' /\ same_link d d' /\
    w_link w' = w_link w.
Proof.
  intros Hf. assert (forall d1 w1, same_link d d1 -> inv d1 w1 ->
    exists d' w', for_ids f js d1 w1 = Some (d', w') /\ inv d' w' /\ same_link d1 d' /\
      w_link w' = w_link w1) as Hgen; [|intros; apply Hgen; [apply same_link_refl | done]].
  induction js as [|id js IH]; intros d1 w1 Hd1 Hi; cbn [for_ids].
  - exists d1, w1. split; [done|]. split; [done|]. split; [apply same_link_refl | done].
  - destruct (Hf id d1 w1 Hd1 Hi) as (d2 & w2 & -> & Hi2 & Hs2 & Hl2). cbn [mbind option_bind].
    destruct (IH d2 w2) as (d' & w' & -> & Hi' & Hs' & Hl'); [by eapply same_link_trans | done|].
    exists d', w'. split; [done|]. split; [done|].
    split; [by eapply same_link_trans | congruence].
Qed.

(** ** All channels *)

Lemma for_channels_ok bp quiet i (g : Z -> Env) m wc :
  Forall (chan_ok bp quiet) m -> (forall id, env_ok (g id)) ->
  i = InPause \/ i = InResume \/ i = InDisconnect ->
  exists m' wc', for_channels (fun id c fx => chan_step c i (g id) fx) m wc = Some (m', wc') /\
    map fst m' = map fst m /\ Forall (chan_ok (paused_after i bp) (quiet_after i quiet)) m'.
Proof.
  intros Hm Hg Hi. revert wc. induction Hm as [|[k c] m Hc Hm IH]; intros wc; cbn [for_channels].
  { by exists [], wc. }
  destruct (chan_ok_step bp quiet k c i (g k) (mkFx [] wc) Hc (Hg k))
    as (c' & fx' & sent & -> & Hc' & _).
  { by destruct Hi as [->|[->| ->]]. }
  cbn [mbind option_bind]. destruct (IH (fx_sys fx')) as (m' & wc' & -> & Hids & Hm').
  cbn [mbind option_bind]. exists ((k, c') :: m'), wc'. split; [done|].
  split; [cbn; by rewrite Hids | by constructor].
Qed.

Lemma all_channels_ok bp quiet i f e (d : t Q C) w :
  (forall id c fx, f id c fx = chan_step c i (e id) fx) -> (forall id, env_ok (e id)) ->
  Forall (chan_ok bp quiet) (channels d) ->
  i = InPause \/ i = InResume \/ i = InDisconnect ->
  exists m wc, all_channels f d w = Some (set_channels m d, mkWorld (w_link w) wc) /\
    map fst m = ids d /\ Forall (chan_ok (paused_after i bp) (quiet_after i quiet)) m.
Proof.
  intros Hf He Hm Hi.
  destruct (for_channels_ok bp quiet i e (channels d) (w_chan w) Hm He Hi) as (m & wc & E & Hids & Hok).
  assert (for_channels f (channels d) (w_chan w) = Some (m, wc)) as E'.
  { rewrite <- E. generalize (w_chan w) as w0. clear E Hids Hok.
    induction (channels d) as [|[k c] m' IH]; intros w0; cbn [for_channels]; [done|].
    rewrite Hf. destruct (chan_step c i (e k) (mkFx [] w0)) as [[c' fx']|]; [|done].
    cbn [mbind option_bind]. rewrite IH; [done|]. by apply Forall_cons in Hm as [_ ?]. }
  unfold all_channels. rewrite E'. cbn [mbind option_bind]. by exists m, wc.
Qed.

(** ** The handlers *)

(** A handler neither panics nor breaks the invariant, and leaves queued bytes
    waited for if they were. *)
Definition ok (d : t Q C) (w : DWorld) (r : option (t Q C * DWorld)) : Prop :=
  exists d' w', r = Some (d', w') /\ inv d' w' /\ (armed d w -> armed d' w').

(** The same for the handlers that never close the link. *)
Definition okc (d : t Q C) (w : DWorld) (r : option (t Q C * DWorld)) : Prop :=
  exists d' w', r = Some (d', w') /\ inv d' w' /\ (armed d w -> armed d' w') /\
    disconnected d' = disconnected d.

Lemma okc_ok d w r : okc d w r -> ok d w r.
Proof. intros (d' & w' & -> & ? & ? & _). by exists d', w'. Qed.

Lemma ok_same d w : inv d w -> ok d w (Some (d, w)).
Proof. intros. by exists d, w. Qed.

Lemma okc_same d w : inv d w -> okc d w (Some (d, w)).
Proof. intros. by exists d, w. Qed.

Lemma ok_bind d w r k :
  ok d w r -> (forall d1 w1, inv d1 w1 -> ok d1 w1 (k (d1, w1))) -> ok d w (r ≫= k).
Proof.
  intros (d1 & w1 & -> & Hi & Ha) Hk. cbn [mbind option_bind].
  destruct (Hk d1 w1 Hi) as (d' & w' & E & Hi' & Ha'). exists d', w'. auto.
Qed.

Lemma okc_bind d w r k :
  okc d w r ->
  (forall d1 w1, inv d1 w1 -> disconnected d1 = disconnected d -> okc d1 w1 (k (d1, w1))) ->
  okc d w (r ≫= k).
Proof.
  intros (d1 & w1 & -> & Hi & Ha & Hd) Hk. cbn [mbind option_bind].
  destruct (Hk d1 w1 Hi Hd) as (d' & w' & E & Hi' & Ha' & Hd'). exists d', w'.
  split; [done|]. split; [done|]. split; [auto | congruence].
Qed.

(** Registering the link anew. *)
Lemma set_interest_inv d b w :
  inv d w ->
  inv d (set_link_write_interest d b w) /\
  (b = true \/ txq_is_empty (txq d) = true -> armed d (set_link_write_interest d b w)).
Proof.
  intros [Hch Hpa (l & Hq & Hwire) Hfd Hdown Hdelay Hclock Hreg Hbp].
  unfold set_link_write_interest, armed. unfold wire in Hwire.
  destruct (link_fd d) as [fd|] eqn:Ef.
  - split.
    + constructor; try done; rewrite ?Ef; try done.
      * exists l. split; [done|]. unfold wire. rewrite Ef. cbn. by autorewrite with zlist.
      * intros g [= <-]. cbn. autorewrite with zlist. cbn. rewrite Z.eqb_refl.
        eexists. split; [done|]. by destruct b.
    + intros Hb g [= <-] Hne. cbn. autorewrite with zlist. cbn. rewrite Z.eqb_refl.
      eexists. split; [done|]. destruct Hb as [-> | Hb]; [done | congruence].
  - split; [|by intros _ g [=]]. constructor; try done; rewrite ?Ef; try done.
    exists l. split; [done|]. unfold wire. by rewrite Ef.
Qed.

Lemma inv_last_tx d w v : inv d w -> inv (set_last_tx (Some v) d) w.
Proof.
  intros [Hch Hpa Hq Hfd Hdown Hdelay Hclock Hreg Hbp]. constructor; try done.
  intros Hd. destruct (Hclock Hd). cbn. split; [done | by eexists].
Qed.

Lemma inv_last_rx d w v : inv d w -> inv (set_last_rx (Some v) d) w.
Proof.
  intros [Hch Hpa Hq Hfd Hdown Hdelay Hclock Hreg Hbp]. constructor; try done.
  intros Hd. destruct (Hclock Hd). cbn. split; [by eexists | done].
Qed.

Lemma inv_parser d w p v : inv d w -> FrameParser.ready p v -> inv (set_parser p d) w.
Proof. intros [Hch Hpa Hq Hfd Hdown Hdelay Hclock Hreg Hbp] Hp. constructor; try done. by exists v. Qed.

Lemma after_channels_inv d e w :
  inv d w ->
  exists d' w', after_channels d e w = (d', w') /\ inv d' w' /\ armed d' w' /\
    disconnected d' = disconnected d.
Proof.
  intros Hi. unfold after_channels. eexists _, _. split; [reflexivity|].
  destruct (set_interest_inv (set_last_tx (Some (d_now e)) d) (negb (txq_is_empty (txq d))) w)
    as [Hi' Ha']; [by apply inv_last_tx|].
  split; [done|]. split; [|done]. apply Ha'. cbn [txq set_last_tx].
  destruct (txq_is_empty (txq d)); auto.
Qed.

Lemma schedule_reopen_inv d e w :
  inv d w -> inv (schedule_reopen d e) w.
Proof.
  intros [Hch Hpa Hq Hfd Hdown Hdelay Hclock Hreg Hbp]. constructor; try done. cbn.
  unfold millis, secs in *. lia.
Qed.

Lemma good_nil ft : u8 ft -> good_frame (ft, 0, []).
Proof. intros Hf. split; [done|]. split; [done|]. split; [done | apply Forall_nil_2]. Qed.

Lemma enqueue_frame_okc d ft e w :
  inv d w -> u8 ft -> okc d w (enqueue_frame d (build_frame ft 0 []) e w).
Proof.
  intros Hi Hft. unfold enqueue_frame.
  destruct (disconnected d || _) eqn:Ed; [by apply okc_same|].
  apply orb_false_iff in Ed as [Ed Efd%bool_decide_eq_false].
  pose proof Hi as [Hch Hpa (l & Hq & Hwire) Hfd Hdown Hdelay Hclock Hreg Hbp].
  destruct (txq_holds_enqueue (txq d) l (build_frame ft 0 []) Hq) as (q & -> & Hq').
  cbn [mbind option_bind].
  destruct (fifo_push_build l (ft, 0, []) (good_nil ft Hft)) as (acc & E & Hacc).
  cbn [build] in E. rewrite E in Hq'.
  set (d1 := set_last_tx (Some (d_now e)) (set_txq q d)).
  assert (inv d1 w) as Hi1.
  { apply inv_last_tx. constructor; try done.
    - eexists. split; [exact Hq'|]. by apply (wire_extend d w q).
    - intros Hb. eapply Z.lt_le_trans; [by apply Hbp | by eapply used_grows]. }
  destruct (set_interest_inv d1 true w Hi1) as [Hi2 Ha2].
  exists d1, (set_link_write_interest d1 true w). split; [done|]. split; [done|].
  split; [|done]. intros _. apply Ha2. by left.
Qed.

Lemma inv_down_empty d w :
  inv d w -> disconnected d = true -> txq_used (txq d) = 0 /\ txq_is_empty (txq d) = true.
Proof.
  intros [_ _ (l & Hq & Hwire) Hfd _ _ _ _ _] Hd. unfold wire in Hwire.
  rewrite (proj2 Hfd Hd) in Hwire. subst l.
  by rewrite (txq_holds_used _ _ Hq), (txq_holds_is_empty _ _ Hq).
Qed.

Lemma check_bp_high_okc d e k w :
  inv d w -> denv_ok e -> okc d w (check_bp_high d e k w).
Proof.
  intros Hi He. unfold check_bp_high. destruct (link_bp d) eqn:Eb; cbn [negb andb];
    [by apply okc_same|]. destruct (LINK_HIGH_WATER <=? _) eqn:Eh; [|by apply okc_same].
  assert (disconnected d = false) as Hd.
  { destruct (disconnected d) eqn:Hd; [|done]. destruct (inv_down_empty d w Hi Hd) as [Hu _].
    rewrite Hu in Eh. done. }
  pose proof Hi as [Hch Hpa Hq Hfd Hdown Hdelay Hclock Hreg Hbp]. rewrite Eb in Hch.
  destruct (all_channels_ok false (disconnected d) InPause
    (fun id c fx => pause_source_reads c (d_chan e k id) fx) (fun id => d_chan e k id)
    (set_link_bp true d) w) as (m & wc & -> & Hids & Hm); [done | apply He | done | by left |].
  eexists _, _. split; [reflexivity|]. split; [|done]. constructor; try done.
  - cbn. congruence.
  - intros _. cbn. zbool. unfold LINK_HIGH_WATER, LINK_LOW_WATER in *. lia.
Qed.

Lemma connect_channels_inv d e k w :
  inv d w -> denv_ok e -> disconnected d = false ->
  exists d' w', connect_channels d e k w = Some (d', w') /\ inv d' w' /\ same_link d d' /\
    w_link w' = w_link w.
Proof.
  intros Hi He Hd. apply for_ids_inv; [|done]. intros id d1 w1 [Hs1 _] Hi1.
  apply (call_channel_inv InConnect _ id (d_chan e k id)); try done; [apply He|].
  rewrite Hs1. cbn. congruence.
Qed.

Lemma same_link_disconnected d d' : same_link d d' -> disconnected d' = disconnected d.
Proof. intros [-> _]. done. Qed.

(** Channels first, then the registration. *)
Lemma after_okc d w d1 w1 e :
  inv d1 w1 -> disconnected d1 = disconnected d ->
  okc d w (Some (after_channels d1 e w1)).
Proof.
  intros Hi1 Hd. destruct (after_channels_inv d1 e w1 Hi1) as (d2 & w2 & -> & Hi2 & Ha2 & Hd2).
  exists d2, w2. split; [done|]. split; [done|]. split; [done | congruence].
Qed.

Lemma inv_link_up d w : inv d w -> disconnected d = false -> inv (set_link_up true d) w.
Proof.
  intros [Hch Hpa Hq Hfd Hdown Hdelay Hclock Hreg Hbp] Hd. constructor; try done. cbn. congruence.
Qed.

Lemma on_link_up_okc d e k w :
  inv d w -> denv_ok e -> disconnected d = false -> okc d w (on_link_up d e k w).
Proof.
  intros Hi He Hd. unfold on_link_up. destruct (link_up d); [by apply okc_same|].
  destruct (connect_channels_inv (set_link_up true d) e k w) as (d1 & w1 & -> & Hi1 & Hs1 & _);
    [by apply inv_link_up | done | done |].
  cbn [mbind option_bind]. apply after_okc; [done|]. by rewrite (same_link_disconnected _ _ Hs1).
Qed.

Lemma dispatch_okc d ft ch pl e k w :
  inv d w -> denv_ok e -> disconnected d = false -> payload_fits pl ->
  okc d w (dispatch_frame d ft ch pl e k w).
Proof.
  intros Hi He Hd Hpl. unfold dispatch_frame.
  destruct (ft =? F_PING); [by apply enqueue_frame_okc|].
  destruct (ft =? F_PONG); [by apply okc_same|].
  destruct (ft =? F_HELLO).
  { apply okc_bind; [by apply enqueue_frame_okc|]. intros d1 w1 Hi1 Hd1.
    destruct (link_up d1); [|apply on_link_up_okc; [done | done | congruence]].
    destruct (connect_channels_inv d1 e k w1) as (d2 & w2 & -> & Hi2 & Hs2 & _);
      [done | done | congruence |].
    cbn [mbind option_bind]. apply after_okc; [done|]. by rewrite (same_link_disconnected _ _ Hs2). }
  destruct (ft =? F_ACK); [by apply on_link_up_okc|].
  apply okc_bind.
  { destruct (_ || _); [by apply check_bp_high_okc | by apply okc_same]. }
  intros d1 w1 Hi1 Hd1.
  destruct (call_channel_inv (InFrame ft pl) (fun c fx => on_frame c ft pl (d_chan e k ch) fx)
    ch (d_chan e k ch) d1 w1) as (d2 & w2 & -> & Hi2 & Hs2 & _); try done.
  - apply He.
  - congruence.
  - cbn [mbind option_bind]. apply after_okc; [done|]. by rewrite (same_link_disconnected _ _ Hs2).
Qed.

Lemma dispatch_all_okc fs d e k w :
  inv d w -> denv_ok e -> disconnected d = false -> Forall good_frame fs ->
  okc d w (dispatch_all fs d e k w).
Proof.
  intros Hi He Hd Hfs. revert d k w Hi Hd. induction Hfs as [|[[ft ch] pl] fs Hf Hfs IH];
    intros d k w Hi Hd; cbn [dispatch_all]; [by apply okc_same|].
  destruct Hf as [Hfit (_ & _ & Hb)]. cbn [fst snd] in *.
  apply okc_bind; [by apply dispatch_okc|]. intros d1 w1 Hi1 Hd1. apply IH; congruence || done.
Qed.

(** ** Closing and opening the link *)

Lemma close_link_ok d e k w : inv d w -> denv_ok e -> ok d w (close_link d e k w).
Proof.
  intros Hi He. unfold close_link. destruct (disconnected d) eqn:Ed; [by apply ok_same|].
  pose proof Hi as [Hch Hpa (l & Hq & Hwire) Hfd Hdown Hdelay Hclock Hreg Hbp].
  set (d1 := set_txq _ _). set (w1 := match link_fd _ with Some _ => _ | None => _ end).
  assert (exists m wc, (if link_bp d1
      then all_channels (fun id c fx => resume_source_reads c (d_chan e k id) fx)
             (set_link_bp false d1) w1
      else Some (d1, w1)) = Some (set_channels m (set_link_bp false d1), mkWorld (w_link w1) wc) /\
      Forall (chan_ok false false) m) as (m & wc & -> & Hm).
  { rewrite Ed in Hch. destruct (link_bp d) eqn:Eb.
    - cbn [link_bp d1 set_txq set_link_fd set_link_up set_disconnected]. unfold d1.
      cbn [link_bp set_txq set_link_fd set_link_up set_disconnected]. rewrite Eb.
      destruct (all_channels_ok true false InResume
        (fun id c fx => resume_source_reads c (d_chan e k id) fx) (fun id => d_chan e k id)
        (set_link_bp false d1) w1) as (m & wc & E & Hids & Hm); [done | apply He | done | by auto |].
      exists m, wc. by split.
    - exists (channels d), (w_chan w1). unfold d1.
      cbn [link_bp set_txq set_link_fd set_link_up set_disconnected]. rewrite Eb.
      split; [|done]. f_equal. f_equal; [|by destruct w1]. destruct d; cbn in *; by subst. }
  cbn [mbind option_bind].
  destruct (all_channels_ok false false InDisconnect
    (fun id c fx => on_link_disconnect c (d_chan e k id) fx) (fun id => d_chan e k id)
    (set_channels m (set_link_bp false d1)) (mkWorld (w_link w1) wc))
    as (m' & wc' & -> & Hids & Hm'); [done | apply He | done | by auto |].
  cbn [mbind option_bind]. eexists _, _. split; [reflexivity|]. split; [|done].
  apply schedule_reopen_inv. constructor; try done.
  exists []. split; [|done]. by eapply txq_holds_reset.
Qed.

Lemma open_link_ok d e w :
  inv d w -> denv_ok e -> disconnected d = true -> ok d w (open_link d e w).
Proof.
  intros Hi He Hd. pose proof Hi as [Hch [v Hpa] (l & Hq & Hwire) Hfd Hdown Hdelay Hclock Hreg Hbp].
  assert (link_fd d = None) as Hnone by by apply Hfd.
  assert (forall w', ok d w (Some (schedule_reopen d e, w'))) as Hretry.
  { intros w'. exists (schedule_reopen d e), w'. split; [done|]. split.
    - apply schedule_reopen_inv. constructor; try done.
      + by exists v.
      + exists l. split; [done|]. unfold wire in *. by rewrite Hnone in Hwire |- *.
      + intros fd. by rewrite Hnone.
    - intros _ fd. cbn. by rewrite Hnone. }
  unfold open_link. destruct (resolve_dev d e) as [dev|]; [|by apply Hretry].
  destruct (open_serial_fd _ _ _ _) as [[fd|er] wl] eqn:Eo; [|by apply Hretry].
  destruct (d_register e); [|by apply Hretry].
  apply open_serial_fd_trace in Eo as (_ & _ & _ & Hwr).
  set (d1 := set_last_tx _ _).
  destruct (txq_holds_enqueue (txq d1) [] (build_frame F_HELLO 0 []))
    as (q & Eq & Hq'); [by eapply txq_holds_reset|]. rewrite Eq. cbn [mbind option_bind].
  set (w1 := link_call _ _).
  pose proof (fifo_push_control F_HELLO : fifo_push [] (build_frame F_HELLO 0 []) = build hello)
    as Hpush. rewrite Hpush in Hq'.
  assert (inv (set_txq q d1) w1) as Hi1.
  { destruct (Hdown Hd) as [Hup Hbp0]. constructor.
    - cbn. rewrite <- Hbp0. apply (chans_weaken _ true); [done|]. by rewrite Hd in Hch.
    - exists []. by apply (FrameParser.ready_reset _ v).
    - exists (build hello). split; [done|]. exists []. split; [constructor|].
      unfold w1. cbn. autorewrite with zlist. cbn. by rewrite Hwr, app_nil_r.
    - done.
    - done.
    - cbn. unfold millis, secs. lia.
    - cbn. intros _. by split; eexists.
    - intros g [= <-]. unfold w1. cbn. autorewrite with zlist. cbn. rewrite Z.eqb_refl.
      by eexists.
    - done. }
  destruct (set_interest_inv (set_txq q d1) true w1 Hi1) as [Hi2 Ha2].
  eexists _, _. split; [reflexivity|]. split; [done|]. intros _. apply Ha2. by left.
Qed.

(** ** The link's events *)

Lemma link_read_ok d e w : inv d w -> denv_ok e -> ok d w (link_read d e w).
Proof.
  intros Hi He. unfold link_read. destruct (link_fd d) as [fd|] eqn:Ef; [|by apply ok_same].
  assert (disconnected d = false) as Hd.
  { destruct (disconnected d) eqn:Hd; [|done]. by rewrite (proj2 (i_fd _ _ Hi) Hd) in Ef. }
  unfold read_nonblock. pose proof (de_read e He) as Hr.
  destruct (d_read e) as [data|er].
  - destruct (zlen data =? 0); [by apply ok_same|].
    destruct (i_parser _ _ Hi) as [v Hv]. destruct Hr as [_ Hb].
    destruct (FrameParser.feed_frames_refines (parser d) v data Hv Hb) as (p & E & Hp).
    cbn [parser set_last_rx]. rewrite E. cbn [mbind option_bind]. apply okc_ok.
    assert (bytes_ok (v ++ data)) as Hvb.
    { apply Forall_app. split; [|done]. destruct Hv as [Hv _].
      by eapply FrameParser.rep_bytes_ok. }
    destruct (dispatch_all_okc (Stream.scan (v ++ data)).1
      (set_parser p (set_last_rx (Some (d_now e)) d)) e 0 w) as (d' & w' & -> & Hi' & Ha' & Hd').
    + eapply inv_parser; [by apply inv_last_rx | done].
    + done.
    + done.
    + eapply Stream.carved_frames; [by apply Stream.scan_sound | done].
    + by exists d', w'.
  - destruct (would_block er); [by apply ok_same | by apply close_link_ok].
Qed.

Lemma drained_inv d w fd q sent l l' b m wc :
  inv d w -> link_fd d = Some fd -> txq_holds (txq d) l -> wire d w l ->
  txq_holds q l' -> l = sent ++ l' ->
  Forall (chan_ok b (disconnected d)) m ->
  (b = true -> link_bp d = true /\ LINK_LOW_WATER < txq_used q) ->
  let w1 := if is_empty sent then w else link_call w (WriteFd fd sent) in
  inv (set_channels m (set_link_bp b (set_txq q d))) (mkWorld (w_link w1) wc) /\
  registered (w_link w1) fd = registered (w_link w) fd.
Proof.
  intros [Hch Hpa _ Hfd Hdown Hdelay Hclock Hreg Hbp] Ef Hq Hwire Hq' -> Hm Hb w1.
  assert (written (w_link w1) fd = written (w_link w) fd ++ sent /\
    registered (w_link w1) fd = registered (w_link w) fd) as [Hwr Hrg].
  { unfold w1. destruct sent; cbn [is_empty]; [by rewrite app_nil_r|].
    cbn. autorewrite with zlist. cbn. by rewrite Z.eqb_refl. }
  split; [|done]. constructor; try done; cbn.
  - exists l'. split; [done|]. unfold wire in *. cbn. rewrite Ef in *.
    destruct Hwire as (fs & Hfs & E). exists fs. split; [done|]. by rewrite Hwr, <- app_assoc.
  - intros Hd. destruct (Hdown Hd). split; [done|]. destruct b; [|done].
    destruct Hb as [? _]; [done | congruence].
  - rewrite Ef. intros g [= <-]. rewrite Hrg. by apply Hreg.
  - intros Ht. by apply Hb.
Qed.

(** The end of [link_write]: backpressure is lifted when little enough is left. *)
Lemma lift_backpressure d e q w :
  denv_ok e -> txq d = q ->
  Forall (chan_ok (link_bp d) (disconnected d)) (channels d) ->
  ((link_bp d = true -> link_bp d = true /\ LINK_LOW_WATER < txq_used q) -> inv d w) ->
  (link_bp d = true -> forall m wc,
     Forall (chan_ok false (disconnected d)) m ->
     inv (set_channels m (set_link_bp false d)) (mkWorld (w_link w) wc)) ->
  exists d2 w2, (if link_bp d && (txq_used (txq d) <=? LINK_LOW_WATER)
      then all_channels (fun id c fx => resume_source_reads c (d_chan e 0 id) fx)
             (set_link_bp false d) w
      else Some (d, w)) = Some (d2, w2) /\ inv d2 w2 /\ txq d2 = q /\
      link_fd d2 = link_fd d /\ w_link w2 = w_link w.
Proof.
  intros He Eq Hch Hi Hfree. destruct (link_bp d) eqn:Eb; cbn [andb].
  2: { exists d, w. split; [done|]. by split; [apply Hi|]. }
  rewrite Eq. destruct (_ <=? _) eqn:El; zbool.
  2: { exists d, w. split; [done|]. by split; [apply Hi|]. }
  destruct (all_channels_ok true (disconnected d) InResume
    (fun id c fx => resume_source_reads c (d_chan e 0 id) fx) (fun id => d_chan e 0 id)
    (set_link_bp false d) w) as (m & wc & -> & Hids & Hm);
    [done | apply He | done | by auto |].
  eexists _, _. split; [reflexivity|]. split; [by apply Hfree | done].
Qed.

Lemma link_write_ok d e w : inv d w -> denv_ok e -> ok d w (link_write d e w).
Proof.
  intros Hi He. unfold link_write. destruct (link_fd d) as [fd|] eqn:Ef; [|by apply ok_same].
  pose proof (i_chans _ _ Hi) as Hch. destruct (i_queue _ _ Hi) as (l & Hq & Hwire).
  destruct (txq_holds_drain (txq d) l (d_write e) Hq (de_write e He))
    as (q & r & sent & l' & -> & Hq' & Hdr). cbn [mbind option_bind].
  pose proof (fifo_drain_app _ _ _ _ Hdr) as Hl.
  pose proof (drained_inv d w fd q sent l l' (link_bp d) (channels d)
    (w_chan w) Hi Ef Hq Hwire Hq' Hl Hch) as Hsame.
  pose proof (fun m wc Hm => drained_inv d w fd q sent l l' false m wc Hi Ef Hq Hwire Hq' Hl Hm
    ltac:(done)) as Hfree. cbv zeta in Hsame, Hfree.
  set (w1 := if is_empty sent then w else link_call w (WriteFd fd sent)) in *.
  assert (set_channels (channels d) (set_link_bp (link_bp d) (set_txq q d)) = set_txq q d) as Ed
    by by destruct d.
  assert (mkWorld (w_link w1) (w_chan w) = w1) as Ew by (unfold w1; destruct w, sent; done).
  rewrite Ed, Ew in Hsame.
  assert (armed d w -> forall d' w', txq d' = q -> link_fd d' = link_fd d -> w_link w' = w_link w1 ->
    armed d' w') as Ha.
  { intros Ha d' w' Eq Ef' Ewl g Hg Hne. rewrite Ef', Ef in Hg. injection Hg as <-.
    rewrite Ewl, (proj2 (Hfree _ (w_chan w) (Forall_nil_2 _))). apply Ha; [done|].
    rewrite Eq, (txq_holds_is_empty _ _ Hq') in Hne.
    rewrite (txq_holds_is_empty _ _ Hq), Hl. destruct sent; [done | by destruct l']. }
  destruct r as [b|er].
  2: { destruct Hsame as [Hi1 _].
       { intros Hb. split; [done|]. rewrite (txq_holds_used _ _ Hq').
         pose proof (i_bp _ _ Hi Hb) as Hlow. rewrite (txq_holds_used _ _ Hq) in Hlow.
         by inversion Hdr; subst. }
       destruct (close_link_ok (set_txq q d) e 0 w1 Hi1 He) as (d' & w' & -> & ? & Ha').
       exists d', w'. split; [done|]. split; [done|]. intros Hd. apply Ha'. by apply Ha. }
  destruct (lift_backpressure (set_txq q d) e q w1 He eq_refl Hch)
    as (d2 & w2 & -> & Hi2 & Eq2 & Ef2 & Ew2).
  { intros Hb. by apply Hsame. }
  { intros _ m wc Hm. by apply (Hfree m wc). }
  cbn [mbind option_bind]. destruct (txq_is_empty (txq d2)) eqn:Ee.
  - destruct (set_interest_inv d2 false w2 Hi2) as [Hi3 Ha3].
    eexists _, _. split; [reflexivity|]. split; [done|]. intros _. apply Ha3. by right.
  - exists d2, w2. split; [done|]. split; [done|]. intros Hd. by apply Ha.
Qed.

(** ** Timers and the loop *)

Lemma tick_keepalive_ok d now e w :
  inv d w -> denv_ok e -> ok d w (tick_keepalive d now e w).
Proof.
  intros Hi He. unfold tick_keepalive. destruct (disconnected d); [by apply ok_same|].
  destruct (match last_rx d with Some _ => _ | None => _ end); [by apply close_link_ok|].
  destruct (link_up d); [|by apply ok_same]. destruct (last_tx d); [|by apply ok_same].
  destruct (_ && _); [|by apply ok_same]. by apply okc_ok, enqueue_frame_okc.
Qed.

(** When the daemon is about to poll, queued bytes are waited for. *)
Lemma run_timers_armed d e w :
  inv d w -> denv_ok e ->
  exists d' w', run_timers d e w = Some (d', w') /\ inv d' w' /\ armed d' w'.
Proof.
  intros Hi He. unfold run_timers.
  assert (ok d w (if disconnected d && (reopen_at d <=? d_now e) then open_link d e w
                  else Some (d, w))) as (d1 & w1 & -> & Hi1 & _).
  { destruct (disconnected d) eqn:Hd; cbn [andb]; [|by apply ok_same].
    destruct (_ <=? _); [by apply open_link_ok | by apply ok_same]. }
  cbn [mbind option_bind].
  destruct (tick_keepalive_ok d1 (d_now e) e w1 Hi1 He) as (d2 & w2 & -> & Hi2 & _).
  cbn [mbind option_bind].
  destruct (for_ids_inv (fun id => call_channel (fun c fx => tick c (d_now e) (d_chan e 1 id) fx) id)
    (ids d2) d2 w2) as (d3 & w3 & -> & Hi3 & _).
  { intros id d4 w4 _ Hi4.
    by apply (call_channel_inv (InTick (d_now e)) _ id (d_chan e 1 id)); [|apply He|..]. }
  { done. }
  cbn [mbind option_bind]. destruct (txq_is_empty (txq d3)) eqn:Ee; cbn [negb].
  - exists d3, w3. split; [done|]. split; [done|]. intros fd _. congruence.
  - apply (inv_last_tx _ _ (d_now e)) in Hi3.
    destruct (set_interest_inv (set_last_tx (Some (d_now e)) d3) true w3 Hi3) as [Hi4 Ha4].
    eexists _, _. split; [reflexivity|]. split; [done|]. apply Ha4. by left.
Qed.

(** An event of the link, or of a token its channel registered. *)
Definition event_fits (ev : Event) : Prop :=
  denv_ok (ev_env ev) /\
  (ev_token ev <> TOKEN_LINK ->
   forall id, channel_id_for_token (ev_token ev) = Some id -> T id (ev_token ev)).

Lemma on_event_ok d ev w : inv d w -> event_fits ev -> ok d w (on_event d ev w).
Proof.
  intros Hi [He Htok]. unfold on_event. destruct (ev_token ev =? TOKEN_LINK) eqn:Et; zbool.
  - case_bool_decide; [by apply ok_same|]. apply ok_bind.
    + destruct (ev_readable ev); [by apply link_read_ok | by apply ok_same].
    + intros d1 w1 Hi1. destruct (_ && _); [by apply link_write_ok | by apply ok_same].
  - specialize (Htok Et). destruct (channel_id_for_token (ev_token ev)) as [id|];
      [|by apply ok_same]. specialize (Htok id eq_refl).
    destruct (call_channel_inv (InEvent (ev_token ev) (ev_readable ev) (ev_writable ev))
      (fun c fx => handle_event c (ev_token ev) (ev_readable ev) (ev_writable ev)
                     (d_chan (ev_env ev) 0 id) fx) id (d_chan (ev_env ev) 0 id) d w)
      as (d1 & w1 & -> & Hi1 & Hs1 & _); try done; [apply He|].
    cbn [mbind option_bind].
    destruct (check_bp_high_okc d1 (ev_env ev) 1 w1 Hi1 He) as (d2 & w2 & -> & Hi2 & _ & _).
    cbn [mbind option_bind].
    destruct (after_channels_inv d2 (ev_env ev) w2 Hi2) as (d3 & w3 & -> & Hi3 & Ha3 & _).
    by exists d3, w3.
Qed.

Lemma on_events_ok evs d w : inv d w -> Forall event_fits evs -> ok d w (on_events d evs w).
Proof.
  intros Hi He. revert d w Hi. induction He as [|ev evs Hev He IH]; intros d w Hi; cbn [on_events];
    [by apply ok_same|]. apply ok_bind; [by apply on_event_ok | auto].
Qed.

Definition pass_fits (p : Pass) : Prop :=
  denv_ok (ps_env p) /\ Forall event_fits (ps_events p).

Lemma run_pass_ok d p w : inv d w -> pass_fits p -> ok d w (run_pass d p w).
Proof.
  intros Hi [He Hev]. unfold run_pass. apply ok_bind; [|intros; by apply on_events_ok].
  destruct (run_timers_armed d (ps_env p) w Hi He) as (d1 & w1 & -> & Hi1 & Ha1).
  by exists d1, w1.
Qed.

Lemma run_passes_ok ps d w : inv d w -> Forall pass_fits ps -> ok d w (run_passes d ps w).
Proof.
  intros Hi Hps. revert d w Hi. induction Hps as [|p ps Hp Hps IH]; intros d w Hi; cbn [run_passes];
    [by apply ok_same|]. apply ok_bind; [by apply run_pass_ok | auto].
Qed.

Lemma run_ok d e ps w :
  inv d w -> denv_ok e -> Forall pass_fits ps -> ok d w (run d e ps w).
Proof.
  intros Hi He Hps. unfold run. apply ok_bind; [|intros; by apply run_passes_ok].
  destruct (disconnected d) eqn:Hd; [by apply open_link_ok | by apply ok_same].
Qed.

(** A channel that has just been created. *)
Definition fresh (c : C) : Prop :=
  ch_inv c /\ ch_quiet c /\ ch_paused c = false /\ (forall tok, T (channel_id c) tok -> ch_token c tok).

Lemma channel_map_ok chs :
  Forall fresh chs -> Forall (chan_ok false true) (channel_map chs).
Proof.
  unfold channel_map. intros Hc.
  assert (forall m, Forall (chan_ok false true) m -> Forall (chan_ok false true)
    (fold_left (fun m c => filter (fun x => x.1 <> channel_id c) m ++ [(channel_id c, c)]) chs m))
    as Hgen; [|by apply Hgen].
  induction Hc as [|c chs (? & ? & ? & ?) Hc IH]; intros m Hm; cbn [fold_left]; [done|].
  apply IH, Forall_app. split; [|by apply Forall_singleton].
  rewrite Forall_forall in Hm |- *. intros x [_ Hx]%list_elem_of_filter. by apply Hm.
Qed.

Lemma inv_new m dev usb chs now w :
  Forall fresh chs -> inv (new m dev usb chs now) w.
Proof.
  intros Hc. constructor; cbn; try done.
  - by apply channel_map_ok.
  - exists []. apply FrameParser.ready_new.
  - exists []. split; [apply txq_holds_new | done].
Qed.

End Proofs.

(** ** The channels stay *)

Section Ids.
Context `{Crc32} {Q : Type} `{TxQueueOps Q} {C : Type} `{Channel C}.

(** No handler adds, removes or reorders channels. *)
Definition keeps (d : t Q C) (r : option (t Q C * DWorld)) : Prop :=
  forall d' w', r = Some (d', w') -> ids d' = ids d.

Lemma keeps_same d w : keeps d (Some (d, w)).
Proof. by intros d' w' [= <- _]. Qed.

Lemma keeps_to d d1 w : ids d1 = ids d -> keeps d (Some (d1, w)).
Proof. by intros E d' w' [= <- _]. Qed.

Lemma keeps_bind d r k :
  keeps d r -> (forall d1 w1, keeps d1 (k (d1, w1))) -> keeps d (r ≫= k).
Proof.
  intros Hr Hk d' w' ([d1 w1] & E1 & E2)%bind_Some. rewrite <- (Hr d1 w1 E1). by eapply Hk.
Qed.

Lemma keeps_eq d d1 r : ids d1 = ids d -> keeps d1 r -> keeps d r.
Proof. intros E Hr d' w' E'. rewrite <- E. by eapply Hr. Qed.

Lemma call_channel_keeps f id d w : keeps d (call_channel f id d w).
Proof.
  unfold call_channel. destruct (get id (channels d)) as [c|]; [|apply keeps_same].
  intros d' w' ([c' fx] & _ & (q & _ & [= <- _])%bind_Some)%bind_Some. apply replace_fst.
Qed.

Lemma for_ids_keeps f js d w :
  (forall id d w, keeps d (f id d w)) -> keeps d (for_ids f js d w).
Proof.
  intros Hf. revert d w. induction js as [|j js IH]; intros d w; cbn [for_ids]; [apply keeps_same|].
  by apply keeps_bind.
Qed.

Lemma all_channels_keeps f d w : keeps d (all_channels f d w).
Proof.
  unfold all_channels. assert (forall m wc m' wc', for_channels f m wc = Some (m', wc') ->
    map fst m' = map fst m) as Hm.
  { induction m as [|[k c] m IH]; cbn [for_channels]; intros wc m' wc'; [by intros [= <- _]|].
    intros ([c1 fx] & _ & ([m1 w1] & E & [= <- _])%bind_Some)%bind_Some. cbn. by rewrite (IH _ _ _ E). }
  intros d' w' ([m wc] & E & [= <- _])%bind_Some. by eapply Hm.
Qed.

Create HintDb keeps.
#[local] Hint Resolve keeps_same call_channel_keeps all_channels_keeps : keeps.
#[local] Hint Extern 1 (keeps _ (Some _)) => by apply keeps_to : keeps.
#[local] Hint Extern 1 (keeps _ (all_channels _ _ _)) =>
  by eapply keeps_eq, all_channels_keeps : keeps.

Ltac keeps := repeat first
  [ solve [eauto with keeps]
  | apply keeps_bind; [|intros ? ?]
  | apply for_ids_keeps; intros ? ? ?
  | case_match ].

Lemma enqueue_frame_keeps d f e w : keeps d (enqueue_frame d f e w).
Proof.
  unfold enqueue_frame. destruct (_ || _); [keeps|].
  by intros d' w' (q & _ & [= <- _])%bind_Some.
Qed.

Lemma close_link_keeps d e k w : keeps d (close_link d e k w).
Proof.
  unfold close_link. destruct (disconnected d); [keeps|].
  eapply (keeps_eq _ (set_txq (txq_reset (txq d)) (set_link_fd None (set_link_up false
    (set_disconnected true d))))); [done|]. keeps.
Qed.

Lemma open_link_keeps d e w : keeps d (open_link d e w).
Proof.
  unfold open_link. destruct (resolve_dev d e); [|keeps].
  destruct (open_serial_fd _ _ _ _) as [[fd|] wl]; [|keeps].
  destruct (d_register e); [|keeps]. by intros d' w' (q & _ & [= <- _])%bind_Some.
Qed.

Lemma check_bp_high_keeps d e k w : keeps d (check_bp_high d e k w).
Proof. unfold check_bp_high. keeps. Qed.

Lemma connect_channels_keeps d e k w : keeps d (connect_channels d e k w).
Proof. unfold connect_channels. keeps. Qed.

#[local] Hint Resolve enqueue_frame_keeps close_link_keeps open_link_keeps check_bp_high_keeps
  connect_channels_keeps : keeps.

Lemma on_link_up_keeps d e k w : keeps d (on_link_up d e k w).
Proof.
  unfold on_link_up. destruct (link_up d); [keeps|].
  eapply (keeps_eq _ (set_link_up true d)); [done|]. keeps.
Qed.

#[local] Hint Resolve on_link_up_keeps : keeps.

Lemma dispatch_frame_keeps d ft ch pl e k w : keeps d (dispatch_frame d ft ch pl e k w).
Proof. unfold dispatch_frame. keeps. Qed.

Lemma dispatch_all_keeps fs d e k w : keeps d (dispatch_all fs d e k w).
Proof.
  revert d k w. induction fs as [|[[ft ch] pl] fs IH]; intros d k w; cbn [dispatch_all]; [keeps|].
  apply keeps_bind; [apply dispatch_frame_keeps | auto].
Qed.

Lemma link_read_keeps d e w : keeps d (link_read d e w).
Proof.
  unfold link_read. repeat (case_match; try (solve [keeps])).
  intros d' w' ([p frames] & _ & E)%bind_Some.
  by apply (dispatch_all_keeps _ _ _ _ _ _ _ E).
Qed.

Lemma link_write_keeps d e w : keeps d (link_write d e w).
Proof.
  unfold link_write. destruct (link_fd d); [|keeps].
  intros d' w' ([[q res] sent] & _ & E)%bind_Some. revert d' w' E.
  apply (keeps_eq _ (set_txq q d)); [done|]. keeps.
Qed.

#[local] Hint Resolve link_read_keeps link_write_keeps : keeps.

Lemma run_timers_keeps d e w : keeps d (run_timers d e w).
Proof. unfold run_timers, tick_keepalive. keeps. Qed.

Lemma on_event_keeps d ev w : keeps d (on_event d ev w).
Proof. unfold on_event. keeps. Qed.

Lemma run_keeps d e ps w : keeps d (run d e ps w).
Proof.
  unfold run. apply keeps_bind; [keeps|]. induction ps as [|p ps IH]; intros d1 w1; cbn [run_passes];
    [keeps|]. unfold run_pass. apply keeps_bind; [|auto].
  apply keeps_bind; [apply run_timers_keeps|]. generalize (ps_events p).
  induction l as [|ev evs IHe]; intros d2 w2; cbn [on_events]; [keeps|].
  apply keeps_bind; [apply on_event_keeps | auto].
Qed.

End Ids.

(** ** What holds of every run *)

Section Runs.
Context `{Crc32} {Q : Type} `{TxQueueLaws Q} {C : Type} `{ChannelLaws C}.

(** A channel as its constructor leaves it. *)
Definition new_channel (c : C) : Prop := ch_inv c /\ ch_quiet c /\ ch_paused c = false.

(** The tokens registered by the channels with a given id. *)
Definition tokens_of (chs : list C) (id tok : Z) : Prop :=
  forall c, c ∈ chs -> channel_id c = id -> ch_token c tok.

Lemma daemon_run m dev usb chs now e ps w0 :
  Forall new_channel chs -> denv_ok e -> Forall (pass_fits (tokens_of chs)) ps ->
  exists d w, run (new m dev usb chs now : t Q C) e ps w0 = Some (d, w) /\
    inv (tokens_of chs) d w.
Proof.
  intros Hc He Hps.
  destruct (run_ok (tokens_of chs) (new m dev usb chs now) e ps w0) as (d & w & E & Hi & _);
    [|done|done|by exists d, w].
  apply inv_new. apply Forall_forall. intros c Hin. rewrite Forall_forall in Hc.
  destruct (Hc c Hin) as (? & ? & ?). repeat split; try done. intros tok HT. by apply HT.
Qed.

(** The daemon runs for ever: whatever bytes the link delivers, whatever the
    system calls answer, in whatever order events come, no handler panics, and
    after every run the daemon has the channels it was made with, and is disconnected exactly when it holds no link
    descriptor; then the handshake is undone, backpressure is lifted, nothing is
    queued and no channel has anything to say. *)
Theorem daemon_safe m dev usb chs now e ps w0 :
  Forall new_channel chs -> denv_ok e -> Forall (pass_fits (tokens_of chs)) ps ->
  exists d w, run (new m dev usb chs now : t Q C) e ps w0 = Some (d, w) /\
    ids d = map fst (channel_map chs) /\
    (link_fd d = None <-> disconnected d = true) /\
    (disconnected d = true ->
       link_up d = false /\ link_bp d = false /\ txq_is_empty (txq d) = true /\
       Forall (fun p => ch_quiet p.2) (channels d)) /\
    Forall (fun p => channel_id p.2 = p.1 /\ ch_inv p.2) (channels d).
Proof.
  intros Hc He Hps. destruct (daemon_run m dev usb chs now e ps w0 Hc He Hps) as (d & w & E & Hi).
  exists d, w. split; [done|]. split; [by apply run_keeps in E|]. split; [apply Hi|]. split.
  - intros Hd. destruct (i_down _ _ _ Hi Hd). destruct (inv_down_empty _ d w Hi Hd).
    repeat split; try done. eapply Forall_impl; [apply (i_chans _ _ _ Hi)|].
    intros p (_ & _ & _ & Hq & _). by apply Hq.
  - eapply Forall_impl; [apply (i_chans _ _ _ Hi)|]. by intros p (? & ? & _).
Qed.

(** C12: Backpressure reaches every channel and only while it is on: after every
    run, each channel's reads are paused if and only if the daemon's flag is
    set, and while it is set the queue holds more than [LINK_LOW_WATER] bytes
    (so, by [daemon_no_lost_write], the write that lifts it is waited for). *)
Theorem daemon_backpressure m dev usb chs now e ps w0 :
  Forall new_channel chs -> denv_ok e -> Forall (pass_fits (tokens_of chs)) ps ->
  exists d w, run (new m dev usb chs now : t Q C) e ps w0 = Some (d, w) /\
    Forall (fun p => ch_paused p.2 = link_bp d) (channels d) /\
    (link_bp d = true -> LINK_LOW_WATER < txq_used (txq d)).
Proof.
  intros Hc He Hps. destruct (daemon_run m dev usb chs now e ps w0 Hc He Hps) as (d & w & E & Hi).
  exists d, w. split; [done|]. split; [|apply Hi]. eapply Forall_impl; [apply (i_chans _ _ _ Hi)|].
  by intros p (_ & _ & ? & _).
Qed.

(** C11: No queued byte is forgotten: whenever the daemon is about to wait in
    [poll] and its transmit queue is not empty, it holds the link and the link
    is registered for writing. *)
Theorem daemon_no_lost_write m dev usb chs now e ps e' w0 :
  Forall new_channel chs -> denv_ok e -> Forall (pass_fits (tokens_of chs)) ps -> denv_ok e' ->
  exists d w d' w', run (new m dev usb chs now : t Q C) e ps w0 = Some (d, w) /\
    run_timers d e' w = Some (d', w') /\
    (txq_is_empty (txq d') = false ->
     exists fd i, link_fd d' = Some fd /\
       registered (w_link w') fd = Some (TOKEN_LINK, i) /\ is_writable i = true).
Proof.
  intros Hc He Hps He'. destruct (daemon_run m dev usb chs now e ps w0 Hc He Hps) as (d & w & E & Hi).
  destruct (run_timers_armed _ d e' w Hi He') as (d' & w' & E' & Hi' & Ha').
  exists d, w, d', w'. split; [done|]. split; [done|]. intros Hne.
  destruct (link_fd d') as [fd|] eqn:Ef.
  - destruct (Ha' fd Ef Hne) as (i & ? & ?). by exists fd, i.
  - apply (i_fd _ _ _ Hi') in Ef. destruct (inv_down_empty _ d' w' Hi' Ef). congruence.
Qed.

(** What the peer reads are whole frames: after every run, while the link is
    open, the bytes written to it since it was opened are such that a peer
    starting with an empty parser, reading them in chunks of any size, gets a
    prefix of a sequence of frames that begins with [F_HELLO], each frame as it
    was sent; the rest of the sequence is still in the transmit queue. *)
Theorem daemon_wire m dev usb chs now e ps w0 :
  Forall new_channel chs -> denv_ok e -> Forall (pass_fits (tokens_of chs)) ps ->
  exists d w, run (new m dev usb chs now : t Q C) e ps w0 = Some (d, w) /\
    forall fd, link_fd d = Some fd ->
      exists fs, Forall good_frame fs /\
        forall chunks, concat chunks = written (w_link w) fd ->
          exists p delivered, FrameParser.feed_chunks FrameParser.new chunks = Some (p, delivered) /\
            delivered `prefix_of` hello :: fs /\
            (txq_is_empty (txq d) = true -> delivered = hello :: fs).
Proof.
  intros Hc He Hps. destruct (daemon_run m dev usb chs now e ps w0 Hc He Hps) as (d & w & E & Hi).
  exists d, w. split; [done|]. intros fd Hfd.
  destruct (i_queue _ _ _ Hi) as (l & Hq & Hwire). unfold wire in Hwire. rewrite Hfd in Hwire.
  destruct Hwire as (fs & Hfs & Ew). exists fs. split; [done|]. intros chunks Hch.
  assert (Forall good_frame (hello :: fs)) as Hall by (constructor; [by apply good_nil | done]).
  assert (Forall frame_fits (hello :: fs) /\ Forall frame_bytes (hello :: fs)) as [Hf Hb].
  { split; (eapply Forall_impl; [exact Hall|]); by intros f []. }
  pose proof (FrameParser.build_all_bytes_ok _ Hb) as Hok. rewrite <- Ew in Hok.
  apply Forall_app in Hok as [Hw Hl].
  destruct (FrameParser.feed_chunks_refines FrameParser.new [] chunks FrameParser.ready_new)
    as (p & Hfeed & _).
  { apply FrameParser.concat_bytes_ok. by rewrite Hch. }
  cbn [app] in Hfeed. rewrite Hch in Hfeed. eexists p, _. split; [exact Hfeed|].
  pose proof (Stream.scan_build_all (hello :: fs) [] Hf) as Hscan.
  rewrite app_nil_r, <- Ew, Stream.scan_nil in Hscan. cbn [fst snd] in Hscan.
  rewrite app_nil_r in Hscan. split.
  - rewrite Stream.scan_app in Hscan by done.
    destruct (Stream.scan (written (w_link w) fd)) as [fs1 r].
    destruct (Stream.scan (r ++ l)) as [fs2 r']. injection Hscan as <- _. by apply prefix_app_r.
  - rewrite (txq_holds_is_empty _ _ Hq). intros ->%is_empty_spec.
    rewrite app_nil_r in Hscan. by rewrite Hscan.
Qed.

End Runs.

(** ** What the handlers do *)

Section Handlers.
Context `{Crc32} {Q : Type} `{TxQueueLaws Q} {C : Type} `{ChannelLaws C}.
(** ** The handshake *)

Lemma call_channel_up f id d w d' w' :
  call_channel f id (d : t Q C) w = Some (d', w') -> link_up d' = link_up d.
Proof.
  unfold call_channel. destruct (get id (channels d)) as [c|]; [|by intros [= <- _]].
  by intros ([? ?] & _ & (q & _ & [= <- _])%bind_Some)%bind_Some.
Qed.

Lemma connect_channels_up d e k w d' w' :
  connect_channels (d : t Q C) e k w = Some (d', w') -> link_up d' = link_up d.
Proof.
  unfold connect_channels. generalize (ids d). intros js. revert d w.
  induction js as [|j js IH]; intros d w; cbn [for_ids]; [by intros [= <- _]|].
  intros ([d1 w1] & E1%call_channel_up & E2)%bind_Some. rewrite <- E1. by eapply IH.
Qed.

Lemma enqueue_frame_up f d e w d' w' :
  enqueue_frame (d : t Q C) f e w = Some (d', w') -> link_up d' = link_up d.
Proof.
  unfold enqueue_frame. destruct (_ || _); [by intros [= <- _]|].
  by intros (q & _ & [= <- _])%bind_Some.
Qed.

Lemma on_link_up_up d e k w d' w' :
  on_link_up (d : t Q C) e k w = Some (d', w') -> link_up d' = true.
Proof.
  unfold on_link_up. destruct (link_up d) eqn:Eu; [by intros [= <- _]|].
  by intros ([d1 w1] & E1%connect_channels_up & [= <- _])%bind_Some.
Qed.

Lemma check_bp_high_up d e k w d' w' :
  check_bp_high (d : t Q C) e k w = Some (d', w') -> link_up d' = link_up d.
Proof.
  unfold check_bp_high, all_channels. destruct (_ && _); [|by intros [= <- _]].
  by intros ([m wc] & _ & [= <- _])%bind_Some.
Qed.

Lemma dispatch_frame_up d ft ch pl e k w d' w' :
  dispatch_frame (d : t Q C) ft ch pl e k w = Some (d', w') ->
  link_up d' = link_up d || (ft =? F_HELLO) || (ft =? F_ACK).
Proof.
  unfold dispatch_frame. intros E.
  destruct (ft =? F_PING) eqn:Ep; [|destruct (ft =? F_PONG) eqn:Eq;
    [|destruct (ft =? F_HELLO) eqn:Eh; [|destruct (ft =? F_ACK) eqn:Ea]]]; zbool; subst;
    rewrite ?orb_false_r, ?orb_true_r.
  - by apply enqueue_frame_up in E.
  - by injection E as <- _.
  - apply bind_Some in E as ([d1 w1] & E1%enqueue_frame_up & E).
    destruct (link_up d1) eqn:Eu; [|by apply on_link_up_up in E].
    apply bind_Some in E as ([d2 w2] & E2%connect_channels_up & [= <- _]). cbn. congruence.
  - by apply on_link_up_up in E.
  - apply bind_Some in E as ([d1 w1] & E5 & E).
    apply bind_Some in E as ([d2 w2] & E6%call_channel_up & [= <- _]). cbn. rewrite E6.
    destruct (_ || _); [by apply check_bp_high_up in E5 | by injection E5 as <- _].
Qed.

(** What the channels send goes behind what is queued. *)
Lemma enqueue_all_grows q l fs q' :
  txq_holds q l -> enqueue_all q fs = Some q' ->
  exists acc, txq_holds q' (l ++ concat (map build acc)).
Proof.
  revert q l. induction fs as [|f fs IH]; intros q l Hq; cbn [enqueue_all].
  - intros [= <-]. exists []. cbn. by rewrite app_nil_r.
  - destruct (txq_holds_enqueue q l (build f) Hq) as (q1 & -> & Hq1). cbn [mbind option_bind].
    intros E. unfold fifo_push in Hq1. destruct (_ <=? _).
    + destruct (IH q1 _ Hq1 E) as (acc & Ha). exists (f :: acc). cbn. by rewrite app_assoc.
    + by apply (IH q1).
Qed.

Lemma call_channel_grows f id d w d' w' l :
  txq_holds (txq d) l -> call_channel f id (d : t Q C) w = Some (d', w') ->
  exists acc, txq_holds (txq d') (l ++ concat (map build acc)).
Proof.
  intros Hq. unfold call_channel. destruct (get id (channels d)) as [c|].
  - intros ([? ?] & _ & (q & Hen & [= <- _])%bind_Some)%bind_Some. by eapply enqueue_all_grows.
  - intros [= <- _]. exists []. cbn. by rewrite app_nil_r.
Qed.

Lemma connect_channels_grows d e k w d' w' l :
  txq_holds (txq d) l -> connect_channels (d : t Q C) e k w = Some (d', w') ->
  exists acc, txq_holds (txq d') (l ++ concat (map build acc)).
Proof.
  unfold connect_channels. generalize (ids d). intros js. revert d w l.
  induction js as [|j js IH]; intros d w l Hq; cbn [for_ids].
  - intros [= <- _]. exists []. cbn. by rewrite app_nil_r.
  - intros ([d1 w1] & E1 & E2)%bind_Some.
    destruct (call_channel_grows _ _ _ _ _ _ l Hq E1) as (a1 & Ha1).
    destruct (IH d1 w1 _ Ha1 E2) as (a2 & Ha2). exists (a1 ++ a2).
    by rewrite map_app, concat_app, app_assoc.
Qed.

Lemma enqueue_frame_holds T d f e w d' w' l :
  inv T d w -> disconnected d = false -> txq_holds (txq d) l ->
  enqueue_frame (d : t Q C) f e w = Some (d', w') -> txq_holds (txq d') (fifo_push l f).
Proof.
  intros Hi Hd Hq. unfold enqueue_frame. rewrite Hd, bool_decide_false.
  2: { intros Hn. apply (i_fd _ _ _ Hi) in Hn. congruence. }
  cbn [orb]. destruct (txq_holds_enqueue (txq d) l f Hq) as (q & -> & Hq').
  by intros [= <- _].
Qed.

(** C23: The handshake: on an open link [F_HELLO] and [F_ACK] bring the link up
    and no other frame does; once it is up, a further [F_ACK] changes nothing.
    [F_HELLO] is answered by [F_ACK], [F_PING] by [F_PONG]: the answer is the
    first thing added to the transmit queue. *)
Theorem handshake T d ft ch pl e k w l :
  inv T d w -> denv_ok e -> disconnected d = false -> payload_fits pl -> txq_holds (txq d) l ->
  exists d' w', dispatch_frame (d : t Q C) ft ch pl e k w = Some (d', w') /\
    disconnected d' = false /\
    link_up d' = link_up d || (ft =? F_HELLO) || (ft =? F_ACK) /\
    (ft = F_ACK -> link_up d = true -> d' = d /\ w' = w) /\
    (ft = F_PING -> txq_holds (txq d') (fifo_push l (build (F_PONG, 0, [])))) /\
    (ft = F_HELLO -> exists more,
       txq_holds (txq d') (fifo_push l (build (F_ACK, 0, [])) ++ concat (map build more))).
Proof.
  intros Hi He Hd Hpl Hq. destruct (dispatch_okc T d ft ch pl e k w Hi He Hd Hpl)
    as (d' & w' & E & _ & _ & Hd'). exists d', w'. split; [done|]. split; [congruence|].
  split; [by eapply dispatch_frame_up|]. split; [|split].
  - intros -> Hup. revert E. unfold dispatch_frame, on_link_up. cbn. rewrite Hup.
    by intros [= <- <-].
  - intros ->. exact (enqueue_frame_holds _ _ _ _ _ _ _ l Hi Hd Hq E).
  - intros ->. revert E. unfold dispatch_frame. cbn. intros ([d1 w1] & E1 & E)%bind_Some.
    apply (enqueue_frame_holds _ _ _ _ _ _ _ l Hi Hd Hq) in E1. unfold on_link_up in E.
    destruct (link_up d1); apply bind_Some in E as ([d2 w2] & E2 & [= <- _]); cbn [txq set_last_tx].
    + by eapply connect_channels_grows.
    + eapply connect_channels_grows; [|exact E2]. done.
Qed.
End Handlers.
End DaemonProofs.
