(* ===== verification/DaemonFlow.v ===== *)
(** * Timers and flow control of the daemon

    What the handlers of [Daemon.v] do in particular: the timeout of [poll], the
    keepalive and what [last_tx] records, the reopen back-off, the routing of a frame,
    and the reading of the link. *)
From Stdlib Require Import ZArith Lia.
From stdpp Require Import base option numbers list strings.
From S2P Require Import Prelude Protocol Stream Parser TxQueue Serial Chan Mcu Daemon DaemonProofs.

Local Open Scope Z_scope.

Module DaemonFlow.
Import Daemon DaemonProofs.

(** ** The timeout of [poll] *)

Section Timeout.
Context {Q C : Type} `{Channel C}.

Lemma min_opt_spec dl o :
  min_opt dl o <= dl /\ (min_opt dl o = dl \/ o = Some (min_opt dl o)) /\
  (forall x, o = Some x -> min_opt dl o <= x).
Proof.
  unfold min_opt. destruct o as [x|]; [|split; [lia|]; by split; [left|]].
  split; [lia|]. split; [|intros y [= <-]; lia].
  destruct (Z.min_spec dl x) as [[_ ->]|[_ ->]]; auto.
Qed.

Lemma fold_deadlines_spec (m : list (Z * C)) dl :
  let r := fold_left (fun dl ch => min_opt dl (next_deadline ch.2)) m dl in
  let ds := omap (fun p => next_deadline p.2) m in
  r <= dl /\ (r = dl \/ r ∈ ds) /\ (forall x, x ∈ ds -> r <= x).
Proof.
  cbv zeta. revert dl. induction m as [|[k c] m IH]; intros dl; cbn [fold_left omap list_omap].
  - split; [lia|]. split; [by left|]. by intros x ?%not_elem_of_nil.
  - destruct (min_opt_spec dl (next_deadline c)) as (H1 & H2 & H3).
    destruct (IH (min_opt dl (next_deadline c))) as (H4 & H5 & H6). cbn [snd] in *.
    destruct (next_deadline c) as [x|] eqn:En; cbn [min_opt] in *.
    + split; [lia|]. split.
      * destruct H5 as [->|Hin]; [|right; by constructor].
        destruct H2 as [->|[= <-]]; [by left | right; left].
      * intros y [->|Hy]%elem_of_cons; [|auto]. lia.
    + auto.
Qed.

(** The moment [poll] is told to return at. *)
Lemma next_timeout_spec (d : t Q C) now :
  exists r, next_timeout d now = Z.max 0 (r - now) /\ r <= now + MAX_TICK /\
    (disconnected d = true -> r <= reopen_at d) /\
    (disconnected d = false -> link_up d = true ->
       (forall lt, last_tx d = Some lt -> r <= lt + KA_INTERVAL) /\
       (forall lr, last_rx d = Some lr -> r <= lr + KA_TIMEOUT)) /\
    (forall p dl, p ∈ channels d -> next_deadline p.2 = Some dl -> r <= dl) /\
    (r = now + MAX_TICK \/ (disconnected d = true /\ r = reopen_at d) \/
     (disconnected d = false /\ link_up d = true /\
        ((exists lt, last_tx d = Some lt /\ r = lt + KA_INTERVAL) \/
         exists lr, last_rx d = Some lr /\ r = lr + KA_TIMEOUT)) \/
     exists p dl, p ∈ channels d /\ next_deadline p.2 = Some dl /\ r = dl).
Proof.
  unfold next_timeout. set (own := if disconnected d then _ else _).
  destruct (fold_deadlines_spec (channels d) own) as (H1 & H2 & H3). cbv zeta in *.
  set (r := fold_left _ _ own) in *. exists r.
  split; [destruct (now <? r) eqn:E; zbool; lia|].
  assert (forall p dl, p ∈ channels d -> next_deadline p.2 = Some dl -> r <= dl) as Hch.
  { intros p dl Hp Hdl. apply H3, list_elem_of_omap. by exists p. }
  assert (r = own \/ exists p dl, p ∈ channels d /\ next_deadline p.2 = Some dl /\ r = dl) as Hr.
  { destruct H2 as [->|(p & Hp & Hdl)%list_elem_of_omap]; [by left|]. right. by exists p, r. }
  clear H2 H3. unfold own in *. clear own.
  destruct (disconnected d), (link_up d), (last_tx d) as [lt|], (last_rx d) as [lr|];
    cbn [fmap option_fmap option_map min_opt] in *; (split; [lia|]);
    (split; [intros; first [done | lia]|]); (split; [intros ? ?; first [done | split; intros ? [=]; lia]|]);
    (split; [exact Hch|]); (destruct Hr as [-> | Hr]; [|by auto]).
  all: repeat match goal with
    | |- context [Z.min ?a ?b] => destruct (Z.min_spec a b) as [[_ ->]|[_ ->]]
    end; first [by left | right; left; by split | right; right; left; by eauto 8].
Qed.

End Timeout.
(** ** Keepalive *)

Section Keepalive.
Context `{Crc32} {Q : Type} `{TxQueueLaws Q} {C : Type} `{ChannelLaws C}.

Lemma interest_armed (d : t Q C) w : armed d (set_link_write_interest d true w).
Proof.
  unfold armed, set_link_write_interest. intros fd -> _. cbn. autorewrite with zlist. cbn.
  rewrite Z.eqb_refl. by eexists.
Qed.

(** Closing the link, up to what the channels do. *)
Lemma close_link_spec T d e k w fd :
  inv T d w -> denv_ok e -> link_fd d = Some fd ->
  exists d' w', close_link (d : t Q C) e k w = Some (d', w') /\
    disconnected d' = true /\ link_fd d' = None /\ reopen_at d' = d_now e + reopen_delay d /\
    w_link w' = emit (emit (w_link w) (RegDel fd)) (CloseFd fd).
Proof.
  intros Hi He Ef. destruct (close_link_ok T d e k w Hi He) as (d' & w' & E & _).
  exists d', w'. split; [done|]. revert E. unfold close_link, all_channels.
  assert (disconnected d = false) as ->.
  { destruct (disconnected d) eqn:Hd; [|done]. by rewrite (proj2 (i_fd _ _ _ Hi) Hd) in Ef. }
  cbn [link_fd set_link_up set_disconnected]. rewrite Ef. cbn [link_bp set_txq set_link_fd
    set_link_up set_disconnected]. intros ([d1 w1] & E1 & E)%bind_Some.
  apply bind_Some in E as ([d2 w2] & E2 & [= <- <-]).
  assert (disconnected d1 = true /\ link_fd d1 = None /\ reopen_delay d1 = reopen_delay d /\
    w_link w1 = emit (emit (w_link w) (RegDel fd)) (CloseFd fd)) as (Hd & Hf & Hr & Hw).
  { destruct (link_bp d); [apply bind_Some in E1 as ([m wc] & _ & [= <- <-])
      | injection E1 as <- <-]; done. }
  apply bind_Some in E2 as ([m wc] & _ & [= <- <-]). cbn. by rewrite Hr.
Qed.

(** *** What a turn of the loop does to [last_tx] *)

(** Nothing was put in the queue: what it holds is what is left of what it held. *)
Definition leaves (d d' : t Q C) : Prop :=
  forall l, txq_holds (txq d) l -> exists l', txq_holds (txq d') l' /\ l' `suffix_of` l.

(** [last_tx] is [now], or it is as before and nothing was queued. *)
Definition stamped (now : Z) (d d' : t Q C) : Prop :=
  last_tx d' = Some now \/ last_tx d' = last_tx d /\ leaves d d'.

Lemma stamped_txq now (d d' : t Q C) : last_tx d' = last_tx d -> txq d' = txq d -> stamped now d d'.
Proof. intros Ht Hq. right. split; [done|]. intros l Hl. exists l. by rewrite Hq. Qed.

Lemma stamped_refl now d : stamped now d d.
Proof. by apply stamped_txq. Qed.

Lemma stamped_trans now d1 d2 d3 : stamped now d1 d2 -> stamped now d2 d3 -> stamped now d1 d3.
Proof.
  intros H12 [?|[E23 L23]]; [by left|]. destruct H12 as [?|[E12 L12]]; [left; congruence|].
  right. split; [congruence|]. intros l (l2 & Hl2 & S2)%L12. destruct (L23 _ Hl2) as (l3 & Hl3 & S3).
  exists l3. split; [done|]. by transitivity l2.
Qed.

Lemma all_channels_queue f (d : t Q C) w d' w' :
  all_channels f d w = Some (d', w') -> txq d' = txq d /\ last_tx d' = last_tx d.
Proof. unfold all_channels. by intros ([m wc] & _ & [= <- _])%bind_Some. Qed.

Lemma close_link_stamped d e k w d' w' now :
  close_link (d : t Q C) e k w = Some (d', w') -> stamped now d d'.
Proof.
  unfold close_link. destruct (disconnected d); [intros [= <- _]; apply stamped_refl|].
  set (d1 := set_txq _ _). intros ([d2 w2] & E2 & E)%bind_Some.
  apply bind_Some in E as ([d3 w3] & (Hq3 & Ht3)%all_channels_queue & [= <- _]).
  assert (txq d2 = txq d1 /\ last_tx d2 = last_tx d1) as [Hq2 Ht2].
  { destruct (link_bp d1); [by apply all_channels_queue in E2 | by injection E2 as <- _]. }
  right. cbn. split; [by rewrite Ht3, Ht2|]. intros l Hl. exists []. cbn.
  split; [|apply suffix_nil]. rewrite Hq3, Hq2. by eapply txq_holds_reset.
Qed.

Lemma enqueue_frame_stamped d f e w d' w' :
  enqueue_frame (d : t Q C) f e w = Some (d', w') -> stamped (d_now e) d d'.
Proof.
  unfold enqueue_frame. destruct (_ || _); [intros [= <- _]; apply stamped_refl|].
  intros (q & _ & [= <- _])%bind_Some. by left.
Qed.

Lemma on_link_up_stamped d e k w d' w' :
  on_link_up (d : t Q C) e k w = Some (d', w') -> stamped (d_now e) d d'.
Proof.
  unfold on_link_up. destruct (link_up d); [intros [= <- _]; apply stamped_refl|].
  intros ([d1 w1] & _ & [= <- _])%bind_Some. by left.
Qed.

Lemma dispatch_frame_stamped d ft ch pl e k w d' w' :
  dispatch_frame (d : t Q C) ft ch pl e k w = Some (d', w') -> stamped (d_now e) d d'.
Proof.
  unfold dispatch_frame. destruct (ft =? F_PING); [apply enqueue_frame_stamped|].
  destruct (ft =? F_PONG); [intros [= <- _]; apply stamped_refl|]. destruct (ft =? F_HELLO).
  - intros ([d1 w1] & E1%enqueue_frame_stamped & E)%bind_Some. eapply stamped_trans; [exact E1|].
    destruct (link_up d1); [|by eapply on_link_up_stamped].
    apply bind_Some in E as ([d2 w2] & _ & [= <- _]). by left.
  - destruct (ft =? F_ACK); [apply on_link_up_stamped|]. intros ([d1 w1] & _ & E)%bind_Some.
    apply bind_Some in E as ([d2 w2] & _ & [= <- _]). by left.
Qed.

Lemma dispatch_all_stamped fs d e k w d' w' :
  dispatch_all fs (d : t Q C) e k w = Some (d', w') -> stamped (d_now e) d d'.
Proof.
  revert d k w. induction fs as [|[[ft ch] pl] fs IH]; intros d k w; cbn [dispatch_all].
  - intros [= <- _]. apply stamped_refl.
  - intros ([d1 w1] & E1%dispatch_frame_stamped & E)%bind_Some.
    eapply stamped_trans; [exact E1 | by eapply IH].
Qed.

Lemma link_read_stamped d e w d' w' :
  link_read (d : t Q C) e w = Some (d', w') -> stamped (d_now e) d d'.
Proof.
  unfold link_read. destruct (link_fd d); [|intros [= <- _]; apply stamped_refl].
  destruct (read_nonblock (d_read e)) as [[data|]|er]; [|intros [= <- _]; apply stamped_refl|].
  - destruct (zlen data =? 0); [intros [= <- _]; apply stamped_refl|].
    intros ([p fs] & _ & E%dispatch_all_stamped)%bind_Some. eapply stamped_trans; [|exact E].
    by apply stamped_txq.
  - apply close_link_stamped.
Qed.

Lemma fifo_drain_suffix l r wire l' : fifo_drain l r wire l' -> l' `suffix_of` l.
Proof. intros ->%fifo_drain_app. by exists wire. Qed.

Lemma link_write_stamped d e w d' w' :
  denv_ok e ->
  link_write (d : t Q C) e w = Some (d', w') -> stamped (d_now e) d d'.
Proof.
  intros He. unfold link_write. destruct (link_fd d); [|intros [= <- _]; apply stamped_refl].
  intros ([[q res] sent] & Ed & E)%bind_Some. apply (stamped_trans _ _ (set_txq q d)).
  { right. split; [done|]. intros l0 Hl0.
    destruct (txq_holds_drain (txq d) l0 (d_write e) Hl0 (de_write e He)) as (q' & r' & wr & l' & Ed' & Hq' & Hf).
    rewrite Ed in Ed'. injection Ed' as <- _ _. exists l'. split; [done | by eapply fifo_drain_suffix]. }
  destruct res; [|by eapply close_link_stamped].
  apply bind_Some in E as ([d1 w1] & E1 & [= <- _]). apply stamped_txq;
    (destruct (_ && _); [by apply all_channels_queue in E1 as [? ?] | by injection E1 as <- _]).
Qed.

Lemma call_channel_tx f id (d : t Q C) w d' w' :
  call_channel f id d w = Some (d', w') -> last_tx d' = last_tx d.
Proof.
  unfold call_channel. destruct (get id (channels d)); [|by intros [= <- _]].
  by intros ([c1 fx] & _ & (q & _ & [= <- _])%bind_Some)%bind_Some.
Qed.

Lemma for_ids_tx f js (d : t Q C) w d' w' :
  for_ids (fun id => call_channel (f id) id) js d w = Some (d', w') -> last_tx d' = last_tx d.
Proof.
  revert d w. induction js as [|id js IH]; intros d w; cbn [for_ids]; [by intros [= <- _]|].
  intros ([d1 w1] & <-%call_channel_tx & E)%bind_Some. by eapply IH.
Qed.

Lemma open_link_stamped (d : t Q C) e w d' w' :
  open_link d e w = Some (d', w') -> stamped (d_now e) d d'.
Proof.
  unfold open_link. destruct (resolve_dev d e); [|intros [= <- _]; by apply stamped_txq].
  destruct (open_serial_fd _ _ _ _) as [[fd|er] wl]; [|intros [= <- _]; by apply stamped_txq].
  destruct (d_register e); [|intros [= <- _]; by apply stamped_txq].
  intros (q & _ & [= <- _])%bind_Some. by left.
Qed.

Lemma for_ids_grows f js (d : t Q C) w d' w' l :
  txq_holds (txq d) l -> for_ids (fun id => call_channel (f id) id) js d w = Some (d', w') ->
  exists more, txq_holds (txq d') (l ++ more).
Proof.
  revert d w l. induction js as [|id js IH]; intros d w l Hl; cbn [for_ids].
  - intros [= <- _]. exists []. by rewrite app_nil_r.
  - intros ([d1 w1] & E1 & E)%bind_Some. destruct (call_channel_grows _ _ _ _ _ _ l Hl E1) as (acc & Ha).
    destruct (IH d1 w1 _ Ha E) as (more & Hm). exists (concat (map build acc) ++ more).
    by rewrite app_assoc.
Qed.

Lemma tick_keepalive_stamped (d : t Q C) now e w d' w' :
  tick_keepalive d now e w = Some (d', w') -> stamped (d_now e) d d'.
Proof.
  unfold tick_keepalive. destruct (disconnected d); [intros [= <- _]; apply stamped_refl|].
  destruct (match last_rx d with Some _ => _ | None => _ end); [apply close_link_stamped|].
  destruct (link_up d); [|intros [= <- _]; apply stamped_refl].
  destruct (last_tx d); [|intros [= <- _]; apply stamped_refl].
  destruct (_ && _); [apply enqueue_frame_stamped | intros [= <- _]; apply stamped_refl].
Qed.

Lemma run_timers_stamped (d : t Q C) e w d' w' :
  run_timers d e w = Some (d', w') -> stamped (d_now e) d d'.
Proof.
  unfold run_timers. intros ([d1 w1] & E1 & E)%bind_Some.
  apply bind_Some in E as ([d2 w2] & E2%tick_keepalive_stamped & E).
  apply (stamped_trans _ _ d1).
  { destruct (_ && _); [by eapply open_link_stamped | injection E1 as <- _; apply stamped_refl]. }
  eapply stamped_trans; [exact E2|]. apply bind_Some in E as ([d3 w3] & E3 & E).
  destruct (txq_is_empty (txq d3)) eqn:Ee; cbn [negb] in E; injection E as <- _; [right | by left].
  split; [by eapply for_ids_tx in E3|]. intros l Hl.
  destruct (for_ids_grows _ _ _ _ _ _ l Hl E3) as (more & Hm). exists (l ++ more). split; [done|].
  rewrite (txq_holds_is_empty _ _ Hm) in Ee. apply is_empty_spec in Ee as ->. apply suffix_nil.
Qed.

(** A turn of the loop: the timers, or one event. *)
Inductive turn := Timers (e : DEnv) | Handled (ev : Event).

Definition turn_env (u : turn) : DEnv := match u with Timers e => e | Handled ev => ev_env ev end.

Definition turn_step (d : t Q C) (u : turn) (w : DWorld) : option (t Q C * DWorld) :=
  match u with Timers e => run_timers d e w | Handled ev => on_event d ev w end.

Fixpoint run_turns (d : t Q C) (us : list turn) (w : DWorld) : option (t Q C * DWorld) :=
  match us with
  | [] => Some (d, w)
  | u :: us => '(d, w) ← turn_step d u w; run_turns d us w
  end.

Lemma turn_stamped (d : t Q C) u w d' w' :
  denv_ok (turn_env u) -> turn_step d u w = Some (d', w') -> stamped (d_now (turn_env u)) d d'.
Proof.
  intros He. destruct u as [e|ev]; cbn [turn_step turn_env] in *; [apply run_timers_stamped|].
  unfold on_event. destruct (ev_token ev =? TOKEN_LINK).
  - case_bool_decide; [intros [= <- _]; apply stamped_refl|]. intros ([d1 w1] & E1 & E)%bind_Some.
    apply (stamped_trans _ _ d1).
    + destruct (ev_readable ev); [by eapply link_read_stamped | injection E1 as <- _; apply stamped_refl].
    + destruct (_ && _); [by eapply link_write_stamped | injection E as <- _; apply stamped_refl].
  - destruct (channel_id_for_token _); [|intros [= <- _]; apply stamped_refl].
    intros ([d1 w1] & _ & E)%bind_Some. apply bind_Some in E as ([d2 w2] & _ & [= <- _]). by left.
Qed.

(** Time does not go back over [us]. *)
Definition since (now : Z) (us : list turn) : Prop :=
  Forall (fun u => denv_ok (turn_env u) /\ now <= d_now (turn_env u)) us.

Lemma last_tx_forward (d : t Q C) us w d' w' x now :
  last_tx d = Some x -> now <= x -> since now us -> run_turns d us w = Some (d', w') ->
  exists y, last_tx d' = Some y /\ now <= y.
Proof.
  revert d w x. induction us as [|u us IH]; intros d w x Hx Hle Hus; cbn [run_turns].
  - intros [= <- _]. by exists x.
  - apply Forall_cons in Hus as [[He Ht] Hus]. intros ([d1 w1] & E1 & E)%bind_Some.
    destruct (turn_stamped _ _ _ _ _ He E1) as [Hn|[Hn _]];
      [by apply (IH d1 w1 _ Hn) | apply (IH d1 w1 x); [congruence|done..]].
Qed.

(** What was queued in a turn is not later than [last_tx]. *)
Lemma queued_before (d1 : t Q C) u w1 d2 w2 after d w tx :
  turn_step d1 u w1 = Some (d2, w2) -> run_turns d2 after w2 = Some (d, w) ->
  denv_ok (turn_env u) -> since (d_now (turn_env u)) after -> ~ leaves d1 d2 ->
  last_tx d = Some tx -> d_now (turn_env u) <= tx.
Proof.
  intros E1 E He Hs Hq Htx. destruct (turn_stamped _ _ _ _ _ He E1) as [Hn|[_ ?]]; [|done].
  destruct (last_tx_forward d2 after w2 d w _ _ Hn (Z.le_refl _) Hs E) as (y & Hy & Hle). congruence.
Qed.

(** C24: The keepalive: a link that has been silent for more than [KA_TIMEOUT]
    is given up, its descriptor deregistered and closed once, and reopening is
    scheduled; otherwise, once the handshake is done, a [F_PING] is queued
    exactly when nothing is queued and [last_tx] lies [KA_INTERVAL] back, and
    the link then waits to write it; in every other case nothing happens.  And a
    [F_PING] is never early: every turn of the loop before it that has put anything in
    the queue lies at least [KA_INTERVAL] back.  It may be late: [last_tx] is also set
    by turns that queue nothing. *)
Theorem keepalive T (d : t Q C) e w fd rx tx :
  inv T d w -> denv_ok e -> link_fd d = Some fd -> last_rx d = Some rx -> last_tx d = Some tx ->
  exists d' w', tick_keepalive d (d_now e) e w = Some (d', w') /\
    if KA_TIMEOUT <? duration_since (d_now e) rx then
      disconnected d' = true /\ link_fd d' = None /\ reopen_at d' = d_now e + reopen_delay d /\
      w_link w' = emit (emit (w_link w) (RegDel fd)) (CloseFd fd)
    else if link_up d && (KA_INTERVAL <=? duration_since (d_now e) tx) && txq_is_empty (txq d) then
      txq_holds (txq d') (build (F_PING, 0, [])) /\ last_tx d' = Some (d_now e) /\ armed d' w' /\
      forall d1 u w1 d2 w2 after,
        turn_step d1 u w1 = Some (d2, w2) -> run_turns d2 after w2 = Some (d, w) ->
        denv_ok (turn_env u) -> since (d_now (turn_env u)) after ->
        ~ leaves d1 d2 -> d_now (turn_env u) + KA_INTERVAL <= d_now e
    else d' = d /\ w' = w.
Proof.
  intros Hi He Ef Er Et.
  assert (disconnected d = false) as Hd.
  { destruct (disconnected d) eqn:Hd; [|done]. by rewrite (proj2 (i_fd _ _ _ Hi) Hd) in Ef. }
  unfold tick_keepalive. rewrite Hd, Er, Et.
  destruct (KA_TIMEOUT <? _); [by eapply close_link_spec|].
  destruct (link_up d); cbn [andb]; [|by exists d, w].
  destruct (_ && _) eqn:Ec; [|by exists d, w]. apply andb_true_iff in Ec as [Eka Ee].
  destruct (i_queue _ _ _ Hi) as (l & Hq & _).
  rewrite (txq_holds_is_empty _ _ Hq) in Ee. apply is_empty_spec in Ee as ->.
  destruct (enqueue_frame_okc T d F_PING e w Hi) as (d' & w' & E & _); [done|].
  exists d', w'. split; [done|]. split; [|apply and_assoc; split].
  - rewrite <- fifo_push_control. by apply (enqueue_frame_holds T d _ e w d' w' [] Hi Hd Hq).
  - revert E. unfold enqueue_frame. rewrite Hd, Ef. cbn.
    intros (q & _ & [= <- <-])%bind_Some. split; [done | apply interest_armed].
  - intros d1 u w1 d2 w2 after E1 E2 He1 Hs Hn.
    pose proof (queued_before _ _ _ _ _ _ _ _ _ E1 E2 He1 Hs Hn Et) as Hle.
    unfold duration_since, KA_INTERVAL, secs in *. zbool. lia.
Qed.

End Keepalive.
(** ** Sleeping in [poll] *)

Section Sleep.
Context `{Crc32} {Q : Type} `{TxQueueLaws Q} {C : Type} `{ChannelLaws C} {TC : Timely C}.

(** The link is open, the handshake is not done, and nothing has been read for more
    than [KA_TIMEOUT]. *)
Definition unheard (d : t Q C) (now : Z) : bool :=
  negb (disconnected d) && negb (link_up d) &&
  match last_rx d with Some rx => KA_TIMEOUT <? duration_since now rx | None => false end.

Lemma replace_get id c (m : list (Z * C)) : get id m = Some c -> replace id c m = m.
Proof.
  induction m as [|[k c0] m IH]; cbn [get replace]; [done|].
  destruct (k =? id); [by intros [= ->] | intros ?%IH; by f_equal].
Qed.

Lemma call_channel_same f id (d : t Q C) w :
  (forall c, get id (channels d) = Some c ->
     f c (mkFx [] (w_chan w)) = Some (c, mkFx [] (w_chan w))) ->
  call_channel f id d w = Some (d, w).
Proof.
  unfold call_channel. intros Hf. destruct (get id (channels d)) as [c|] eqn:E; [|done].
  rewrite (Hf c eq_refl). cbn. rewrite (replace_get _ _ _ E). by destruct d, w.
Qed.

Lemma for_ids_same f js (d : t Q C) w :
  (forall id, f id d w = Some (d, w)) -> for_ids f js d w = Some (d, w).
Proof. intros Hf. induction js as [|id js IH]; cbn [for_ids]; [done|]. by rewrite Hf. Qed.

Lemma get_pair id c (m : list (Z * C)) : get id m = Some c -> (id, c) ∈ m.
Proof.
  induction m as [|[k c0] m IH]; cbn [get]; [done|]. destruct (k =? id) eqn:E; zbool.
  - intros [= ->]. subst. by left.
  - intros ?%IH. by right.
Qed.

(** While [poll] sleeps there is nothing to do. *)
Lemma asleep (d : t Q C) now e w :
  (link_fd d = None <-> disconnected d = true) ->
  now <= d_now e < now + next_timeout d now -> unheard d (d_now e) = false ->
  run_timers d e w = Some (if txq_is_empty (txq d) then (d, w)
    else (set_last_tx (Some (d_now e)) d, set_link_write_interest d true w)).
Proof.
  intros Hfd [Hge Hlt] Hun. destruct (next_timeout_spec d now) as (r & Er & _ & Hre & Hown & Hch & _).
  assert (d_now e < r) as Hr by lia. unfold run_timers.
  assert (disconnected d && (reopen_at d <=? d_now e) = false) as ->.
  { destruct (disconnected d); [|done]. specialize (Hre eq_refl). apply Z.leb_gt. lia. }
  cbn [mbind option_bind].
  assert (tick_keepalive d (d_now e) e w = Some (d, w)) as ->.
  { unfold tick_keepalive. destruct (disconnected d) eqn:Ed; [done|]. specialize (Hown eq_refl).
    unfold unheard in Hun. rewrite Ed in Hun. cbn [negb andb] in Hun.
    destruct (link_up d); cbn [negb andb] in Hun; [|by rewrite Hun].
    destruct (Hown eq_refl) as [Htx Hrx].
    assert (match last_rx d with Some last => KA_TIMEOUT <? duration_since (d_now e) last
      | None => false end = false) as ->.
    { destruct (last_rx d) as [lr|]; [|done]. specialize (Hrx lr eq_refl).
      unfold duration_since, KA_TIMEOUT, secs in *. apply Z.ltb_ge. lia. }
    destruct (last_tx d) as [lt|]; [|done]. specialize (Htx lt eq_refl).
    unfold duration_since, KA_INTERVAL, secs in *. by rewrite (proj2 (Z.leb_gt _ _)) by lia. }
  cbn [mbind option_bind]. rewrite for_ids_same.
  - cbn [mbind option_bind]. by destruct (txq_is_empty (txq d)).
  - intros id. apply call_channel_same. intros c Hc. apply tick_idle. intros dl Hdl.
    specialize (Hch _ _ (get_pair _ _ _ Hc) Hdl). lia.
Qed.

(** What the keepalive leaves for later. *)
Definition rested (now : Z) (d : t Q C) : Prop :=
  (disconnected d = true -> now < reopen_at d) /\
  (forall rx, disconnected d = false -> last_rx d = Some rx -> now - rx <= KA_TIMEOUT) /\
  (forall tx, link_up d = true -> last_tx d = Some tx ->
     now < tx + KA_INTERVAL \/ txq_is_empty (txq d) = false).

Lemma open_link_rested T (d : t Q C) e w :
  inv T d w -> disconnected d = true ->
  exists d' w', open_link d e w = Some (d', w') /\
    (disconnected d' = true -> d_now e < reopen_at d') /\
    (forall rx, disconnected d' = false -> last_rx d' = Some rx -> d_now e - rx <= KA_TIMEOUT).
Proof.
  intros Hi Hd. pose proof (i_delay _ _ _ Hi) as Hdl. unfold millis, secs in Hdl.
  assert (forall w' : DWorld, exists d' w1, Some (schedule_reopen d e, w') = Some (d', w1) /\
    (disconnected d' = true -> d_now e < reopen_at d') /\
    (forall rx, disconnected d' = false -> last_rx d' = Some rx -> d_now e - rx <= KA_TIMEOUT)) as Hretry.
  { intros w'. exists (schedule_reopen d e), w'. cbn. rewrite Hd. split; [done|]. split; [lia | done]. }
  unfold open_link. destruct (resolve_dev d e); [|apply Hretry].
  destruct (open_serial_fd _ _ _ _) as [[fd|er] wl]; [|apply Hretry].
  destruct (d_register e); [|apply Hretry]. set (d1 := set_last_tx _ _).
  destruct (i_queue _ _ _ Hi) as (l & Hq & _).
  destruct (txq_holds_enqueue (txq d1) [] (build_frame F_HELLO 0 [])) as (q & -> & _);
    [by eapply txq_holds_reset|].
  cbn [mbind option_bind]. eexists _, _. split; [reflexivity|]. cbn. split; [done|].
  intros rx _ [= <-]. unfold KA_TIMEOUT, secs. lia.
Qed.

Lemma tick_keepalive_rested T (d : t Q C) e w d' w' :
  inv T d w -> denv_ok e -> (disconnected d = true -> d_now e < reopen_at d) ->
  tick_keepalive d (d_now e) e w = Some (d', w') -> rested (d_now e) d'.
Proof.
  intros Hi He Hre. pose proof (i_delay _ _ _ Hi) as Hdl. unfold millis, secs in Hdl.
  unfold tick_keepalive. destruct (disconnected d) eqn:Ed.
  { intros [= <- _]. split; [by rewrite Ed|]. rewrite Ed. split; [done|].
    intros tx Hup. by rewrite (proj1 (i_down _ _ _ Hi Ed)) in Hup. }
  destruct (i_clock _ _ _ Hi Ed) as [[rx Er] [tx Et]]. rewrite Er, Et.
  destruct (KA_TIMEOUT <? duration_since (d_now e) rx) eqn:Eto.
  - destruct (link_fd d) as [fd|] eqn:Ef; [|by rewrite (proj1 (i_fd _ _ _ Hi) Ef) in Ed].
    destruct (close_link_spec T d e 0 w fd Hi He Ef) as (d1 & w1 & Ec & Hd1 & _ & Hat & _).
    destruct (close_link_ok T d e 0 w Hi He) as (d2 & w2 & Ec2 & Hi2 & _).
    rewrite Ec in Ec2. injection Ec2 as <- <-. rewrite Ec. intros [= <- _].
    split; [rewrite Hat; lia|]. rewrite Hd1. split; [done|].
    intros tx' Hup. by rewrite (proj1 (i_down _ _ _ Hi2 Hd1)) in Hup.
  - assert (d_now e - rx <= KA_TIMEOUT) as Hrx.
    { unfold duration_since, KA_TIMEOUT, secs in *. zbool. lia. }
    assert (forall d1 : t Q C, last_rx d1 = Some rx -> disconnected d1 = false ->
      (forall x, link_up d1 = true -> last_tx d1 = Some x ->
         d_now e < x + KA_INTERVAL \/ txq_is_empty (txq d1) = false) -> rested (d_now e) d1) as Hgo.
    { intros d1 Er1 Ed1 Ht1. split; [congruence|]. split; [|done]. intros x _. rewrite Er1.
      by intros [= <-]. }
    destruct (link_up d) eqn:Eu; [|intros [= <- _]; apply Hgo; [done..|congruence]].
    destruct (_ && _) eqn:Ec.
    + unfold enqueue_frame. destruct (_ || _) eqn:Eno.
      { rewrite Ed in Eno. cbn [orb] in Eno. apply bool_decide_eq_true in Eno.
        by rewrite (proj1 (i_fd _ _ _ Hi) Eno) in Ed. }
      intros (q & _ & [= <- _])%bind_Some. apply Hgo; [done..|]. cbn.
      intros x _ [= <-]. left. unfold KA_INTERVAL, secs. lia.
    + intros [= <- _]. apply Hgo; [done..|]. intros x _. rewrite Et. intros [= <-].
      apply andb_false_iff in Ec as [Ec|Ec]; [left | by right].
      unfold duration_since, KA_INTERVAL, secs in *. zbool. lia.
Qed.

Lemma rested_channels now (d d' : t Q C) l more :
  rested now d -> same_link d d' -> txq_holds (txq d) l -> txq_holds (txq d') (l ++ more) ->
  rested now d'.
Proof.
  intros (Hre & Hrx & Htx) [E _] Hl Hm. unfold rested.
  assert (disconnected d' = disconnected d /\ reopen_at d' = reopen_at d /\ last_rx d' = last_rx d /\
    last_tx d' = last_tx d /\ link_up d' = link_up d) as (-> & -> & -> & -> & ->) by by rewrite E.
  split; [done|]. split; [done|].
  intros tx Hup Ht. destruct (Htx tx Hup Ht) as [?|Hne]; [by left | right].
  rewrite (txq_holds_is_empty _ _ Hm). rewrite (txq_holds_is_empty _ _ Hl) in Hne. by destruct l.
Qed.

(** What the timers leave for later, once the queue has been seen to. *)
Lemma run_timers_rested T (d : t Q C) e w :
  inv T d w -> denv_ok e ->
  exists d' w', run_timers d e w = Some (d', w') /\
    (disconnected d' = true -> d_now e < reopen_at d') /\
    (forall rx, disconnected d' = false -> last_rx d' = Some rx -> d_now e - rx <= KA_TIMEOUT) /\
    (forall tx, link_up d' = true -> last_tx d' = Some tx -> d_now e < tx + KA_INTERVAL).
Proof.
  intros Hi He. unfold run_timers.
  assert (exists d1 w1, (if disconnected d && (reopen_at d <=? d_now e) then open_link d e w
      else Some (d, w)) = Some (d1, w1) /\ inv T d1 w1 /\
      (disconnected d1 = true -> d_now e < reopen_at d1)) as (d1 & w1 & -> & Hi1 & Hre1).
  { destruct (disconnected d) eqn:Ed; cbn [andb]; [|exists d, w; by rewrite Ed].
    destruct (_ <=? _) eqn:Ele; [|exists d, w; zbool; auto].
    destruct (open_link_rested T d e w Hi Ed) as (d1 & w1 & E & Hr & _).
    destruct (open_link_ok T d e w Hi He Ed) as (d2 & w2 & E2 & Hi2 & _).
    rewrite E in E2. injection E2 as <- <-. by exists d1, w1. }
  cbn [mbind option_bind].
  destruct (tick_keepalive_ok T d1 (d_now e) e w1 Hi1 He) as (d2 & w2 & E2 & Hi2 & _).
  pose proof (tick_keepalive_rested T d1 e w1 d2 w2 Hi1 He Hre1 E2) as Hr2. rewrite E2.
  cbn [mbind option_bind]. destruct (i_queue _ _ _ Hi2) as (l & Hl & _).
  destruct (for_ids_inv T (fun id => call_channel (fun c fx => tick c (d_now e) (d_chan e 1 id) fx) id)
    (ids d2) d2 w2) as (d3 & w3 & E3 & Hi3 & Hs3 & _).
  { intros id d4 w4 _ Hi4.
    by apply (call_channel_inv T (InTick (d_now e)) _ id (d_chan e 1 id)); [|apply He|..]. }
  { done. }
  destruct (for_ids_grows _ _ _ _ _ _ l Hl E3) as (more & Hm).
  pose proof (rested_channels _ _ _ l more Hr2 Hs3 Hl Hm) as (Hre & Hrx & Htx). rewrite E3.
  cbn [mbind option_bind]. destruct (txq_is_empty (txq d3)) eqn:Ee; cbn [negb];
    (eexists _, _; split; [reflexivity|]); split; [done| |done|]; (split; [done|]).
  - intros tx Hup Ht. by destruct (Htx tx Hup Ht).
  - cbn. intros tx _ [= <-]. unfold KA_INTERVAL, secs. lia.
Qed.

(** C26: [poll] sleeps neither too long nor too short.  Its timeout is at most
    [MAX_TICK].  While it sleeps there is nothing to do: were the timers run at any
    moment before it returns, they would neither open nor close the link nor send a
    [F_PING], and no channel would do anything; the one exception is a link on which
    nothing has been heard for [KA_TIMEOUT] before the handshake is done, which is only
    closed when [poll] returns, up to [MAX_TICK] late.  And there is no busy loop:
    when the timers have run the timeout is positive, unless nothing has been heard for
    exactly [KA_TIMEOUT], or the deadline of a channel has come. *)
Theorem poll_timeout T (d : t Q C) now e w :
  inv T d w -> denv_ok e ->
  0 <= next_timeout d now <= MAX_TICK /\
  (now <= d_now e < now + next_timeout d now -> unheard d (d_now e) = false ->
     run_timers d e w = Some (if txq_is_empty (txq d) then (d, w)
       else (set_last_tx (Some (d_now e)) d, set_link_write_interest d true w))) /\
  exists d' w', run_timers d e w = Some (d', w') /\
    (0 < next_timeout d' (d_now e) \/
     (link_up d' = true /\ last_rx d' = Some (d_now e - KA_TIMEOUT)) \/
     exists p dl, p ∈ channels d' /\ next_deadline p.2 = Some dl /\ dl <= d_now e).
Proof.
  intros Hi He. split; [|split].
  - destruct (next_timeout_spec d now) as (r & -> & Hr & _). assert (0 < MAX_TICK) by done. lia.
  - apply asleep, (i_fd _ _ _ Hi).
  - destruct (run_timers_rested T d e w Hi He) as (d' & w' & E & Hre & Hrx & Htx).
    exists d', w'. split; [done|].
    destruct (next_timeout_spec d' (d_now e)) as (r & -> & _ & _ & _ & _ & Hr).
    assert (0 < MAX_TICK) by done.
    destruct Hr as [->|[[Hd ->]|[(Hd & Hu & Hr)|(p & dl & Hp & Hdl & ->)]]].
    + left. lia.
    + left. specialize (Hre Hd). lia.
    + destruct Hr as [(lt & El & ->)|(lr & El & ->)].
      * left. specialize (Htx lt Hu El). lia.
      * specialize (Hrx lr Hd El). destruct (decide (lr = d_now e - KA_TIMEOUT)) as [->|Hne]; [|left; lia].
        right. left. by split.
    + destruct (decide (dl <= d_now e)); [right; right; by exists p, dl | left; lia].
Qed.

End Sleep.
(** ** Opening the link *)

Section Open.
Context `{Crc32} {Q : Type} `{TxQueueLaws Q} {C : Type} `{ChannelLaws C}.

(** No device, or one that cannot be opened, set up or registered. *)
Definition open_fails (d : t Q C) (e : DEnv) : bool :=
  match resolve_dev d e with
  | None => true
  | Some dev =>
      match (open_serial_fd (d_serial e) dev 115200 []).1, d_register e with
      | Ok _, Ok _ => false
      | _, _ => true
      end
  end.

(** Attempts to open the link, one after the other. *)
Fixpoint attempts (d : t Q C) (es : list DEnv) (w : DWorld) : option (t Q C * DWorld) :=
  match es with
  | [] => Some (d, w)
  | e :: es => '(d, w) ← open_link d e w; attempts d es w
  end.

Lemma apply_termios_result s fd baud w w' :
  (apply_termios s fd baud w).1 = (apply_termios s fd baud w').1.
Proof. unfold apply_termios. by repeat case_match. Qed.

Lemma open_serial_fd_result s dev baud w w' :
  (open_serial_fd s dev baud w).1 = (open_serial_fd s dev baud w').1.
Proof.
  unfold open_serial_fd. destruct (has_nul dev); [done|]. destruct (sys_open s) as [fd|]; [|done].
  pose proof (apply_termios_result s fd baud (emit w (OpenFd fd)) (emit w' (OpenFd fd))) as E.
  destruct (apply_termios s fd baud (emit w _)) as [r1 w1], (apply_termios s fd baud (emit w' _)) as [r2 w2].
  cbn [fst] in E. rewrite <- E. by destruct r1.
Qed.

Lemma open_link_fails d e w :
  open_fails d e = true ->
  exists w', open_link d e w = Some (schedule_reopen d e, w') /\
    forall fd, fd ∈ open_fds (w_link w') -> fd ∈ open_fds (w_link w).
Proof.
  unfold open_fails, open_link. destruct (resolve_dev d e) as [dev|]; [|by exists w].
  pose proof (open_serial_fd_result (d_serial e) dev 115200 (w_link w) []) as Er.
  destruct (open_serial_fd (d_serial e) dev 115200 (w_link w)) as [r wl] eqn:Eo.
  cbn [fst] in Er. rewrite <- Er. apply open_serial_fd_trace in Eo. destruct r as [fd|].
  - destruct (d_register e); [done|]. intros _. eexists. split; [reflexivity|].
    destruct Eo as [Eo _]. intros fd'. cbn. autorewrite with zlist. cbn [fd_effect]. rewrite Eo.
    rewrite list_elem_of_filter, elem_of_app, list_elem_of_singleton. tauto.
  - intros _. eexists. split; [reflexivity|]. apply Eo.
Qed.

Lemma attempts_fail d es w :
  Forall (fun e => open_fails d e = true) es -> millis 500 <= reopen_delay d <= secs 8 ->
  exists w' at', attempts d es w =
      Some (set_reopen at' (Z.min (reopen_delay d * 2 ^ Z.of_nat (length es)) (secs 8)) d, w') /\
    (forall fd, fd ∈ open_fds (w_link w') -> fd ∈ open_fds (w_link w)) /\
    (forall es0 e, es = es0 ++ [e] ->
       at' = d_now e + Z.min (reopen_delay d * 2 ^ Z.of_nat (length es0)) (secs 8)).
Proof.
  intros Hf. revert d w Hf. induction es as [|e es IH]; intros d w Hf Hd; cbn [attempts].
  - exists w, (reopen_at d). split; [|split; [done|]].
    + f_equal. f_equal. cbn. rewrite Z.mul_1_r, Z.min_l by lia. by destruct d.
    + by intros [|] ? [=].
  - apply Forall_cons in Hf as [He Hes].
    destruct (open_link_fails d e w He) as (w1 & -> & Hfds). cbn [mbind option_bind].
    destruct (IH (schedule_reopen d e) w1) as (w' & at' & E & Hfds' & Hat).
    { done. }
    { cbn. unfold millis, secs in *. lia. }
    cbn [reopen_delay schedule_reopen set_reopen] in *.
    assert (forall n, Z.min (Z.min (reopen_delay d * 2) (secs 8) * 2 ^ Z.of_nat n) (secs 8) =
      Z.min (reopen_delay d * 2 ^ Z.of_nat (S n)) (secs 8)) as Hpow.
    { intros n. rewrite Nat2Z.inj_succ, Z.pow_succ_r by lia.
      pose proof (Z.pow_pos_nonneg 2 (Z.of_nat n)). unfold millis, secs in *. nia. }
    rewrite Hpow in E. exists w', (if is_empty es then d_now e + reopen_delay d else at').
    split; [|split; [auto|]].
    + rewrite E. destruct es; [|done]. cbn [attempts] in E. injection E as E <-.
      by rewrite <- E.
    + intros [|e0 es0] e' [= <- Hes0]; subst; cbn [is_empty length].
      * rewrite Z.mul_1_r, Z.min_l by lia. done.
      * destruct (es0 ++ [e']) eqn:En; [by destruct es0|]. cbn [is_empty].
        rewrite (Hat es0 e') by done. by rewrite Hpow.
Qed.

Lemma open_link_succeeds d e w l v :
  txq_holds (txq d) l -> FrameParser.ready (parser d) v -> open_fails d e = false ->
  exists fd d' w', open_link d e w = Some (d', w') /\ link_fd d' = Some fd /\
    disconnected d' = false /\ link_up d' = link_up d /\ reopen_delay d' = millis 500 /\
    last_rx d' = Some (d_now e) /\ last_tx d' = Some (d_now e) /\
    FrameParser.ready (parser d') [] /\ txq_holds (txq d') (build hello) /\
    armed d' w' /\ open_fds (w_link w') = open_fds (w_link w) ++ [fd] /\ written (w_link w') fd = [].
Proof.
  intros Hq Hv. unfold open_fails, open_link. destruct (resolve_dev d e) as [dev|]; [|done].
  pose proof (open_serial_fd_result (d_serial e) dev 115200 (w_link w) []) as Er.
  destruct (open_serial_fd (d_serial e) dev 115200 (w_link w)) as [r wl] eqn:Eo.
  cbn [fst] in Er. rewrite <- Er. destruct r as [fd|]; [|done].
  apply open_serial_fd_trace in Eo as (Ho & _ & _ & Hwr).
  destruct (d_register e); [|done]. intros _.
  destruct (txq_holds_enqueue (txq_reset (txq d)) [] (build_frame F_HELLO 0 []))
    as (q & Eq & Hq'); [by eapply txq_holds_reset|].
  cbn [txq set_last_tx set_last_rx set_txq set_parser set_link_bp set_reopen set_disconnected
    set_link_fd]. rewrite Eq. cbn [mbind option_bind].
  exists fd. eexists _, _. split; [reflexivity|]. do 6 (split; [done|]).
  split; [by apply (FrameParser.ready_reset _ v)|].
  split; [by rewrite <- (fifo_push_control F_HELLO)|].
  split; [apply interest_armed|]. cbn. autorewrite with zlist. by split.
Qed.

(** C25: Reopening backs off: after [n] failed attempts in a row nothing of the
    daemon has changed but the time of the next attempt, which is
    [min (500 ms * 2 ^ (n - 1), 8 s)] after the last one, and no descriptor has
    been leaked; the first attempt that succeeds holds exactly one descriptor,
    restores the delay to 500 ms, and starts afresh: an empty parser, and
    [F_HELLO] alone in a queue that waits to be written. *)
Theorem reopen_backoff T (d : t Q C) w es e :
  inv T d w -> reopen_delay d = millis 500 ->
  Forall (fun e => open_fails d e = true) es -> open_fails d e = false ->
  exists at' d1 w1,
    attempts d es w = Some (d1, w1) /\
    d1 = set_reopen at' (Z.min (millis 500 * 2 ^ Z.of_nat (length es)) (secs 8)) d /\
    (forall es0 e0, es = es0 ++ [e0] ->
       at' = d_now e0 + Z.min (millis 500 * 2 ^ Z.of_nat (length es0)) (secs 8)) /\
    (forall fd, fd ∈ open_fds (w_link w1) -> fd ∈ open_fds (w_link w)) /\
    exists fd d2 w2, open_link d1 e w1 = Some (d2, w2) /\ link_fd d2 = Some fd /\
      disconnected d2 = false /\ reopen_delay d2 = millis 500 /\
      open_fds (w_link w2) = open_fds (w_link w1) ++ [fd] /\
      FrameParser.ready (parser d2) [] /\ txq_holds (txq d2) (build hello) /\ armed d2 w2.
Proof.
  intros Hi Hd Hes He.
  destruct (attempts_fail d es w Hes) as (w1 & at' & E & Hfds & Hat).
  { rewrite Hd. unfold millis, secs. lia. }
  rewrite Hd in E, Hat.
  eexists at', _, w1. split; [exact E|]. split; [done|]. split; [done|]. split; [done|].
  destruct (i_queue _ _ _ Hi) as (l & Hq & _). destruct (i_parser _ _ _ Hi) as [v Hv].
  destruct (open_link_succeeds (set_reopen at'
      (Z.min (millis 500 * 2 ^ Z.of_nat (length es)) (secs 8)) d) e w1 l v Hq Hv He)
    as (fd & d2 & w2 & -> & ? & ? & _ & ? & _ & _ & ? & ? & ? & ? & _).
  by exists fd, d2, w2.
Qed.

End Open.
(** ** Frames from the link *)

Section Frames.
Context `{Crc32} {Q : Type} `{TxQueueLaws Q} {C : Type} `{ChannelLaws C}.

(** The queue after the frames a channel sent. *)
Definition fifo_push_all (l : list Z) (fs : list frame) : list Z :=
  fold_left (fun l f => fifo_push l (build f)) fs l.

Lemma enqueue_all_holds q l fs :
  txq_holds q l -> exists q', enqueue_all q fs = Some q' /\ txq_holds q' (fifo_push_all l fs).
Proof.
  revert q l. induction fs as [|f fs IH]; intros q l Hq; [by exists q|].
  cbn [enqueue_all fifo_push_all fold_left].
  destruct (txq_holds_enqueue q l (build f) Hq) as (q1 & -> & Hq1). by apply IH.
Qed.

Lemma get_replace_eq id c c0 (m : list (Z * C)) :
  get id m = Some c0 -> get id (replace id c m) = Some c.
Proof.
  induction m as [|[k c1] m IH]; cbn [get replace]; [done|].
  destruct (k =? id) eqn:E; cbn [get]; by rewrite E.
Qed.

Lemma get_replace_ne id id' c (m : list (Z * C)) :
  id' <> id -> get id' (replace id c m) = get id' m.
Proof.
  intros Hne. induction m as [|[k c1] m IH]; cbn [get replace]; [done|].
  destruct (k =? id) eqn:E; cbn [get]; zbool; subst.
  - by rewrite (proj2 (Z.eqb_neq id id')) by congruence.
  - by rewrite IH.
Qed.

(** Frames are routed by channel id and isolated: a frame that is not a
    control frame is handed, payload unchanged, to the channel of its id, what
    that channel sends is queued in order behind what is queued (dropping, by
    frame, what does not fit), and no other channel changes; a frame for an
    unknown channel changes no channel and sends nothing. *)
Theorem frame_routing T (d : t Q C) ft ch pl e k w l :
  inv T d w -> denv_ok e -> disconnected d = false -> payload_fits pl -> txq_holds (txq d) l ->
  is_control ft = false -> link_bp d = true \/ zlen l < LINK_HIGH_WATER ->
  exists d' w', dispatch_frame d ft ch pl e k w = Some (d', w') /\
    (forall id, id <> ch -> get id (channels d') = get id (channels d)) /\
    match get ch (channels d) with
    | None => channels d' = channels d /\ txq d' = txq d /\ w_chan w' = w_chan w
    | Some c =>
        exists c' fx', on_frame c ft pl (d_chan e k ch) (mkFx [] (w_chan w)) = Some (c', fx') /\
          get ch (channels d') = Some c' /\
          txq_holds (txq d') (fifo_push_all l (fx_tx fx')) /\ w_chan w' = fx_sys fx'
    end.
Proof.
  intros Hi He Hd Hpl Hq Hctl Hbp. unfold is_control in Hctl.
  repeat (apply orb_false_iff in Hctl as [Hctl ?]).
  unfold dispatch_frame. rewrite Hctl. repeat match goal with E : _ = false |- _ => rewrite E end.
  assert (check_bp_high d e k w = Some (d, w)) as Hchk.
  { unfold check_bp_high. rewrite (txq_holds_used _ _ Hq). destruct Hbp as [-> | Hlt]; [done|].
    rewrite (proj2 (Z.leb_gt _ _)) by done. by rewrite andb_false_r. }
  rewrite Hchk. assert (forall b : bool, (if b then Some (d, w) else Some (d, w)) = Some (d, w)) as ->
    by by intros [].
  cbn [mbind option_bind]. unfold call_channel.
  assert (forall (d1 : t Q C) w1, w_chan (after_channels d1 e w1).2 = w_chan w1) as Haft.
  { intros d1 w1. unfold after_channels, set_link_write_interest. by case_match. }
  destruct (get ch (channels d)) as [c|] eqn:Eg; cbn [mbind option_bind].
  - destruct (chan_ok_step T _ _ ch c (InFrame ft pl) (d_chan e k ch) (mkFx [] (w_chan w))
      (get_Forall _ _ _ _ (i_chans _ _ _ Hi) Eg) (de_chan e He k ch)) as (c' & fx' & _ & E & _).
    { by split. }
    cbn [chan_step] in E. rewrite E. cbn [mbind option_bind].
    destruct (enqueue_all_holds (txq d) l (fx_tx fx') Hq) as (q' & -> & Hq'). cbn [mbind option_bind].
    eexists _, _. split; [reflexivity|]. split.
    + intros id Hne. by apply get_replace_ne.
    + exists c', fx'. split; [done|]. split; [by eapply get_replace_eq|]. split; [done|].
      apply (Haft (set_txq q' _) (mkWorld (w_link w) (fx_sys fx'))).
  - eexists _, _. split; [reflexivity|]. split; [done|]. split; [done|]. split; [done|].
    apply (Haft d w).
Qed.

(** The bytes of the link become the frames the reference parser finds: a
    read hands the channels, in order, exactly the frames that [Stream.scan]
    cuts from the bytes kept and the bytes read, keeps the rest, and notes when
    the peer was last heard. *)
Theorem link_read_refines T (d : t Q C) e w fd v data :
  inv T d w -> denv_ok e -> link_fd d = Some fd -> FrameParser.ready (parser d) v ->
  d_read e = Ok data -> data <> [] ->
  exists p, FrameParser.ready p (Stream.scan (v ++ data)).2 /\
    Forall good_frame (Stream.scan (v ++ data)).1 /\
    link_read d e w =
      dispatch_all (Stream.scan (v ++ data)).1 (set_parser p (set_last_rx (Some (d_now e)) d)) e 0 w.
Proof.
  intros Hi He Ef Hv Er Hne. unfold link_read. rewrite Ef, Er. cbn [read_nonblock].
  rewrite (proj2 (Z.eqb_neq (zlen data) 0)) by (intros Hz; apply zlen_0_nil in Hz; congruence).
  pose proof (de_read e He) as Hr. rewrite Er in Hr. destruct Hr as [_ Hb].
  destruct (FrameParser.feed_frames_refines (parser d) v data Hv Hb) as (p & E & Hp).
  assert (bytes_ok (v ++ data)) as Hvb.
  { apply Forall_app. split; [|done]. destruct Hv as [Hv _]. by eapply FrameParser.rep_bytes_ok. }
  exists p. split; [done|]. split.
  - eapply Stream.carved_frames; [by apply Stream.scan_sound | done].
  - cbn [parser set_last_rx]. by rewrite E.
Qed.

(** A frame for an unknown channel puts [F_PING] off, though nothing is sent:
    [last_tx] is set after every frame that is not a control frame. *)
Theorem ping_suppressed T (d : t Q C) ch pl e k w e' rx :
  inv T d w -> denv_ok e -> disconnected d = false -> payload_fits pl -> get ch (channels d) = None ->
  last_rx d = Some rx -> d_now e <= d_now e' -> d_now e' < d_now e + KA_INTERVAL ->
  d_now e' - rx <= KA_TIMEOUT ->
  exists d' w', dispatch_frame d F_FLUSH ch pl e k w = Some (d', w') /\ txq d' = txq d /\
    (forall fd, written (w_link w') fd = written (w_link w) fd) /\
    tick_keepalive d' (d_now e') e' w' = Some (d', w').
Proof.
  intros Hi He Hd Hpl Hg Hrx Hle Hlt Hto. unfold dispatch_frame, call_channel. cbn -[after_channels].
  rewrite Hg. cbn -[after_channels]. eexists _, _. split; [reflexivity|]. split; [done|]. split.
  - intros fd. unfold after_channels, set_link_write_interest. cbn. case_match; [|done].
    cbn. by autorewrite with zlist.
  - unfold tick_keepalive. cbn. rewrite Hd, Hrx. unfold duration_since, KA_TIMEOUT, KA_INTERVAL, secs in *.
    rewrite (proj2 (Z.ltb_ge _ _)) by lia. destruct (link_up d); [|done].
    by rewrite (proj2 (Z.leb_gt _ _)) by lia.
Qed.

End Frames.
End DaemonFlow.
