(* ===== verification/Channels.v ===== *)
(** * The four channels behind one interface ([Box<dyn Channel>], [main.rs])

    The sum of the four channel types is itself a channel that obeys the laws of
    [Chan.v]; [build_channels] makes the channels the command line asks for.  The
    last theorem is about the whole program: a daemon with such channels. *)
From Stdlib Require Import ZArith Lia.
From stdpp Require Import base option numbers list strings.
From S2P Require Import Prelude Protocol Stream Parser TxQueue Serial Chan Discovery Logging Mcu Pty Tcp TcpSource TcpDest Cli Daemon DaemonProofs.

Local Open Scope Z_scope.

Module Channels.
Import Cli.

Inductive AnyChannel :=
  | AMcu (c : McuChannel.t)
  | APty (c : PtyChannel.t)
  | ASource (c : TcpSourceChannel.t)
  | ADest (c : TcpDestChannel.t).

(** The result of a method of a channel, as the trait object. *)
Definition boxed {C} (f : C -> AnyChannel) (r : option (C * Fx)) : option (AnyChannel * Fx) :=
  '(c, fx) ← r; Some (f c, fx).

#[global] Instance any_channel : Channel AnyChannel := {
  channel_id c := match c with
    | AMcu c => channel_id c | APty c => channel_id c
    | ASource c => channel_id c | ADest c => channel_id c end;
  on_frame c ft pl e fx := match c with
    | AMcu c => boxed AMcu (on_frame c ft pl e fx) | APty c => boxed APty (on_frame c ft pl e fx)
    | ASource c => boxed ASource (on_frame c ft pl e fx)
    | ADest c => boxed ADest (on_frame c ft pl e fx) end;
  on_link_connect c e fx := match c with
    | AMcu c => boxed AMcu (on_link_connect c e fx) | APty c => boxed APty (on_link_connect c e fx)
    | ASource c => boxed ASource (on_link_connect c e fx)
    | ADest c => boxed ADest (on_link_connect c e fx) end;
  on_link_disconnect c e fx := match c with
    | AMcu c => boxed AMcu (on_link_disconnect c e fx)
    | APty c => boxed APty (on_link_disconnect c e fx)
    | ASource c => boxed ASource (on_link_disconnect c e fx)
    | ADest c => boxed ADest (on_link_disconnect c e fx) end;
  tick c now e fx := match c with
    | AMcu c => boxed AMcu (tick c now e fx) | APty c => boxed APty (tick c now e fx)
    | ASource c => boxed ASource (tick c now e fx) | ADest c => boxed ADest (tick c now e fx) end;
  next_deadline c := match c with
    | AMcu c => next_deadline c | APty c => next_deadline c
    | ASource c => next_deadline c | ADest c => next_deadline c end;
  handle_event c tok r w e fx := match c with
    | AMcu c => boxed AMcu (handle_event c tok r w e fx)
    | APty c => boxed APty (handle_event c tok r w e fx)
    | ASource c => boxed ASource (handle_event c tok r w e fx)
    | ADest c => boxed ADest (handle_event c tok r w e fx) end;
  close c e fx := match c with
    | AMcu c => boxed AMcu (close c e fx) | APty c => boxed APty (close c e fx)
    | ASource c => boxed ASource (close c e fx) | ADest c => boxed ADest (close c e fx) end;
  pause_source_reads c e fx := match c with
    | AMcu c => boxed AMcu (pause_source_reads c e fx)
    | APty c => boxed APty (pause_source_reads c e fx)
    | ASource c => boxed ASource (pause_source_reads c e fx)
    | ADest c => boxed ADest (pause_source_reads c e fx) end;
  resume_source_reads c e fx := match c with
    | AMcu c => boxed AMcu (resume_source_reads c e fx)
    | APty c => boxed APty (resume_source_reads c e fx)
    | ASource c => boxed ASource (resume_source_reads c e fx)
    | ADest c => boxed ADest (resume_source_reads c e fx) end;
}.

(** [build_channels]: channel [k] is made with the answers [es k]; a listener
    that cannot be bound ends the program. *)
Fixpoint build_channels (specs : list ChannelSpec) (es : nat -> Env) (fx : Fx)
  : io (list AnyChannel) * Fx :=
  match specs with
  | [] => (Ok [], fx)
  | spec :: specs =>
      let '(r, fx) := match spec with
        | McuExporter id device baud =>
            let '(c, fx) := McuChannel.new id device baud (es O) fx in (Ok (AMcu c), fx)
        | McuHost id symlink baud =>
            let '(c, fx) := PtyChannel.new id symlink baud fx in (Ok (APty c), fx)
        | TcpExporter id bind_addr port =>
            let '(r, fx) := TcpSourceChannel.new id (es O) fx in
            (match r with Ok c => Ok (ASource c) | Err er => Err er end, fx)
        | TcpHost id dest_addr port => (Ok (ADest (TcpDestChannel.new id dest_addr port)), fx)
        end in
      match r with
      | Err er => (Err er, fx)
      | Ok c =>
          let '(rest, fx) := build_channels specs (fun k => es (S k)) fx in
          match rest with
          | Err er => (Err er, fx)
          | Ok cs => (Ok (c :: cs), fx)
          end
      end
  end.

(** ** The program *)

Section Main.
Context `{Crc32} {Q : Type} `{TxQueueOps Q} {Filter Writer Journal : Type}.

(** The program panics before there is a daemon, exits, waits for the USB device, or
    runs the daemon, whose result is [None] when it panics. *)
Inductive Outcome :=
  | Panicked
  | Exited
  | Waiting
  | Running (r : option (Daemon.t Q AnyChannel * Daemon.DWorld)).

(** [logs] is what the set-up of the logs meets; [sysfs] what the first look for the
    device sees and [polls] those of the wait; [poll] the creation of the poll, [es] and [now] the answers while the
    channels and the daemon are made. *)
Definition main (logs : Logging.Sys (Filter := Filter) (Writer := Writer) (Journal := Journal))
    (command : Command) (sysfs : Discovery.Sysfs) (polls : list Discovery.Sysfs)
    (poll : io unit) (es : nat -> Env) (now : Z) (e : Daemon.DEnv) (passes : list Daemon.Pass)
  : Outcome :=
  match Logging.init "serialmux"%string logs None [] with
  | None => Panicked
  | Some _ =>
  match parse_args command with
  | None => Exited
  | Some args =>
      let present := match usb_id args with
        | Some (vid, pid) =>
            match Discovery.find_acm_by_usb_id sysfs vid pid with
            | Some _ => true
            | None => negb (bool_decide (Discovery.wait_for_acm polls vid pid = None))
            end
        | None => true
        end in
      if negb present then Waiting
      else
        match poll with
        | Err _ => Exited
        | Ok _ =>
            match build_channels (channels args) es fx0 with
            | (Err _, _) => Exited
            | (Ok chs, fx) =>
                let daemon := Daemon.new (mode args) (link_dev args) (usb_id args) chs now in
                Running (Daemon.run daemon e passes (Daemon.mkWorld [] (fx_sys fx)))
            end
        end
  end
  end.

End Main.
Arguments Outcome : clear implicits.

End Channels.

Module ChannelsProofs.
Import Channels DaemonProofs.

(** The step of the sum is the step of the component. *)
Lemma any_step c i e fx :
  chan_step c i e fx = match c with
    | AMcu c => boxed AMcu (chan_step c i e fx) | APty c => boxed APty (chan_step c i e fx)
    | ASource c => boxed ASource (chan_step c i e fx)
    | ADest c => boxed ADest (chan_step c i e fx) end.
Proof. by destruct c, i. Qed.

(** So is a run. *)
Lemma any_run {C} `{Channel C} (f : C -> AnyChannel) p fx h :
  (forall c i e fx, chan_step (f c) i e fx = boxed f (chan_step c i e fx)) ->
  chan_run (f p) fx h = boxed f (chan_run p fx h).
Proof.
  intros Hf. revert p fx. induction h as [|[i e] h IH]; intros p fx; [done|]. cbn [chan_run].
  rewrite Hf. destruct (chan_step p i e fx) as [[p1 fx1]|]; [|done].
  cbn [boxed mbind option_bind]. apply IH.
Qed.

Lemma any_run_mcu p fx h : chan_run (AMcu p) fx h = boxed AMcu (chan_run p fx h).
Proof. apply any_run. intros. apply any_step. Qed.
Lemma any_run_pty p fx h : chan_run (APty p) fx h = boxed APty (chan_run p fx h).
Proof. apply any_run. intros. apply any_step. Qed.
Lemma any_run_source p fx h : chan_run (ASource p) fx h = boxed ASource (chan_run p fx h).
Proof. apply any_run. intros. apply any_step. Qed.
Lemma any_run_dest p fx h : chan_run (ADest p) fx h = boxed ADest (chan_run p fx h).
Proof. apply any_run. intros. apply any_step. Qed.

Lemma boxed_step {C} `{Channel C} (f : C -> AnyChannel) (inv quiet : C -> Prop) paused
  (ainv aquiet : AnyChannel -> Prop) apaused c i fx r :
  (forall c, channel_id (f c) = channel_id c) -> (forall c, ainv (f c) = inv c) ->
  (forall c, aquiet (f c) = quiet c) -> (forall c, apaused (f c) = paused c) ->
  step_ok inv quiet paused c i fx r -> step_ok ainv aquiet apaused (f c) i fx (boxed f r).
Proof.
  intros Hid Hinv Hq Hp (c' & fx' & sent & -> & Hi & Hc & Hpa & Htx & Hf & Hqu).
  exists (f c'), fx', sent. rewrite !Hid, !Hp, Hinv, !Hq. auto 10.
Qed.

#[global] Instance any_laws : ChannelLaws AnyChannel.
Proof.
  refine {|
    ch_inv := fun c => match c with
      | AMcu c => ch_inv c | APty c => ch_inv c | ASource c => ch_inv c | ADest c => ch_inv c end;
    ch_quiet := fun c => match c with
      | AMcu c => ch_quiet c | APty c => ch_quiet c | ASource c => ch_quiet c
      | ADest c => ch_quiet c end;
    ch_paused := fun c => match c with
      | AMcu c => ch_paused c | APty c => ch_paused c | ASource c => ch_paused c
      | ADest c => ch_paused c end;
    ch_token := fun c tok => channel_token (channel_id c) tok /\ match c with
      | AMcu c => ch_token c tok | APty c => ch_token c tok | ASource c => ch_token c tok
      | ADest c => ch_token c tok end;
  |}.
  - intros [c|c|c|c] Hc; exact (ch_inv_id c Hc).
  - by intros c t _ [? _].
  - intros c i e fx Hi He [Hp Ht]. rewrite any_step.
    destruct c as [c|c|c|c]; (eapply boxed_step; [done..|]); apply ch_step; try done.
    all: split; [done|]; destruct i; try done; apply Ht.
  - intros c i e fx c' fx' tok E Hi Hi' Hid [Ht Htt]. rewrite any_step in E.
    split; [by rewrite Hid|].
    destruct c as [c|c|c|c]; unfold boxed in E;
      apply bind_Some in E as ([c1 fx1] & E & [= <- <-]);
      exact (ch_token_stable c i e fx c1 fx1 tok E Hi Hi' Hid Htt).
Defined.

#[global] Instance any_timely : Timely AnyChannel.
Proof.
  intros [c|c|c|c] now e fx Hdl; cbn in *; [|done..].
  assert (McuChannel.tick c now e fx = Some (c, fx)) as ->; [|done].
  unfold McuChannel.tick. unfold McuChannel.next_deadline in Hdl.
  destruct (McuChannel.fd c).
  - case_bool_decide; [|done]. destruct (McuChannel.last_rx c) as [l|]; [|done].
    specialize (Hdl _ eq_refl). unfold duration_since, McuChannel.RESET_SILENCE, secs in *.
    by rewrite (proj2 (Z.ltb_ge _ _)) by lia.
  - destruct (McuChannel.reopen_at c) as [t|]; [|done]. specialize (Hdl _ eq_refl).
    by rewrite (proj2 (Z.leb_gt _ _)) by lia.
Qed.

(** ** Building the channels *)

(** The type of channel a specification asks for. *)
Definition kind_matches (s : Cli.ChannelSpec) (c : AnyChannel) : Prop :=
  match s, c with
  | Cli.McuExporter _ _ _, AMcu _ | Cli.McuHost _ _ _, APty _
  | Cli.TcpExporter _ _ _, ASource _ | Cli.TcpHost _ _ _, ADest _ => True
  | _, _ => False
  end.

Lemma build_channels_spec mode specs es fx cs fx' :
  Forall (Cli.valid_spec mode) specs -> build_channels specs es fx = (Ok cs, fx') ->
  Forall new_channel cs /\ map channel_id cs = map Cli.spec_id specs /\
  Forall2 kind_matches specs cs.
Proof.
  intros Hv. revert es fx cs fx'.
  induction Hv as [|spec specs [Hid _] Hv IH]; intros es fx cs fx'; cbn [build_channels].
  { intros [= <- <-]. by repeat constructor. }
  set (one := match spec with Cli.McuExporter _ _ _ => _ | _ => _ end).
  assert (forall c fx1, one = (Ok c, fx1) ->
    new_channel c /\ channel_id c = Cli.spec_id spec /\ kind_matches spec c) as Hone.
  { unfold one. intros c fx1. destruct spec as [id dev baud|id link baud|id a port|id a port].
    - destruct (McuChannel.new id dev baud (es 0%nat) fx) as [c0 fx0] eqn:E. intros [= <- <-].
      destruct (McuProofs.new_idle id dev baud (es 0%nat) fx) as [_ Ht]. rewrite E in Ht.
      unfold McuChannel.new in E. apply McuProofs.open_uart_delta in E as (I & B & L & _).
      cbn in I, B, L. unfold new_channel. cbn. rewrite I, B, L.
      split_and!; try done; apply Hid.
    - intros [= <- <-]. unfold new_channel. split_and!; try done; apply Hid.
    - destruct (TcpSourceChannel.new id (es 0%nat) fx) as [[c0|] fx0] eqn:E; [|done].
      intros [= <- <-]. pose proof (TcpSourceProofs.src_inv_new id _ _ _ _ Hid E) as Hi.
      revert E. unfold TcpSourceChannel.new. repeat case_match; try done. intros [= <- _]. done.
    - intros [= <- <-]. pose proof (TcpDestProofs.dst_inv_new id a port Hid) as Hi.
      split; [|done]. split; [exact Hi|]. split; [|done]. apply Tcp.no_conns_empty. }
  destruct one as [[c|] fx1]; [|done]. destruct (Hone c fx1 eq_refl) as (Hn & Hc & Hk).
  destruct (build_channels specs _ fx1) as [[cs1|] fx2] eqn:Eb; [|done]. intros [= <- <-].
  destruct (IH _ _ _ _ Eb) as (Hns & Hcs & Hks). split; [by constructor|].
  split; [cbn [map]; by rewrite Hc, Hcs | by constructor].
Qed.

Lemma filter_keeps {A} (P : A -> Prop) `{forall x, Decision (P x)} (l : list A) :
  (forall x, x ∈ l -> P x) -> filter P l = l.
Proof.
  induction l as [|x l IH]; intros Hl; [done|]. rewrite filter_cons_True by (apply Hl; by left).
  f_equal. apply IH. intros y Hy. apply Hl. by right.
Qed.

(** With ids all different no channel replaces another in the map. *)
Lemma channel_map_nodup (cs : list AnyChannel) :
  NoDup (map channel_id cs) -> Daemon.channel_map cs = map (fun c => (channel_id c, c)) cs.
Proof.
  unfold Daemon.channel_map. intros Hd.
  assert (forall m, NoDup (map fst m ++ map channel_id cs) ->
    fold_left (fun m c => filter (fun x => x.1 <> channel_id c) m ++ [(channel_id c, c)]) cs m =
    m ++ map (fun c => (channel_id c, c)) cs) as Hgen; [|by apply (Hgen [])].
  clear Hd. induction cs as [|c cs IH]; intros m; cbn [fold_left map].
  - intros _. by rewrite app_nil_r.
  - intros Hd. rewrite filter_keeps.
    + rewrite IH; [by rewrite <- app_assoc|]. by rewrite map_app, <- app_assoc.
    + intros x Hx E. apply NoDup_app in Hd as (_ & Hd & _).
      apply (Hd x.1); [by apply list_elem_of_fmap_2 | rewrite E; by left].
Qed.

(** ** The whole program *)

Section Program.
Context `{Crc32} {Q : Type} `{TxQueueLaws Q} {Filter Writer Journal : Type}.
Implicit Type logs : Logging.Sys (Filter := Filter) (Writer := Writer) (Journal := Journal).

(** What holds of the daemon after any run, for the channels asked for. *)
Record served (specs : list Cli.ChannelSpec) (d : Daemon.t Q AnyChannel) : Prop := {
  sv_ids : map fst (Daemon.channels d) = map Cli.spec_id specs;
  sv_link : Daemon.link_fd d = None <-> Daemon.disconnected d = true;
  sv_down : Daemon.disconnected d = true ->
    txq_is_empty (Daemon.txq d) = true /\ Daemon.link_bp d = false /\
    Forall (fun p => ch_quiet p.2) (Daemon.channels d);
  sv_channels : Forall (fun p => channel_id p.2 = p.1 /\ ch_inv p.2 /\
    ch_paused p.2 = Daemon.link_bp d) (Daemon.channels d);
}.

Lemma daemon_serves mode name dev usb specs es now e ps chs fx :
  Forall (Cli.valid_spec mode) specs -> NoDup (map Cli.spec_id specs) ->
  build_channels specs es fx0 = (Ok chs, fx) ->
  denv_ok e -> Forall (pass_fits (tokens_of chs)) ps ->
  Forall2 kind_matches specs chs /\
  exists d w,
    Daemon.run (Daemon.new name dev usb chs now : Daemon.t Q AnyChannel) e ps
      (Daemon.mkWorld [] (fx_sys fx)) = Some (d, w) /\ served specs d.
Proof.
  intros Hv Hu Hb He Hps.
  destruct (build_channels_spec mode specs es fx0 chs fx Hv Hb) as (Hn & Hids & Hk).
  split; [done|].
  destruct (daemon_run name dev usb chs now e ps (Daemon.mkWorld [] (fx_sys fx)) Hn He Hps)
    as (d & w & E & Hi).
  exists d, w. split; [done|]. split; [|apply Hi| |].
  - apply run_keeps in E. unfold Daemon.ids in E. rewrite E. cbn [Daemon.channels Daemon.new].
    rewrite channel_map_nodup by by rewrite Hids. rewrite map_map. exact Hids.
  - intros Hd. destruct (i_down _ _ _ Hi Hd) as [_ Hbp]. destruct (inv_down_empty _ d w Hi Hd).
    split; [done|]. split; [done|]. eapply Forall_impl; [apply (i_chans _ _ _ Hi)|].
    intros p (_ & _ & _ & Hq & _). by apply Hq.
  - eapply Forall_impl; [apply (i_chans _ _ _ Hi)|]. by intros p (? & ? & ? & _).
Qed.

(** C1: The whole program, from the strings on the command line: it panics exactly
    when the directory of the logs is there and an appender cannot be made in it; it
    exits only when
    two channels have one id, the poll cannot be created or a listener cannot be
    bound; it waits only for a USB device that no look at sysfs has shown; otherwise
    the daemon serves the channels asked for, for ever: whatever the link and the
    descriptors deliver and the system answers, no handler panics; the channels are
    those asked for, each of its kind, under their ids; a link descriptor is held
    exactly while connected; while disconnected nothing is queued, backpressure is
    lifted and every channel is quiet; and the reads of all channels are paused
    exactly while backpressure is on. *)
Theorem serialmux_safe logs subcommand raw command sysfs polls poll es now e ps :
  Cli.cli_parse subcommand raw = Cli.Good command -> denv_ok e ->
  (forall args chs fx, Cli.parse_args command = Some args ->
     build_channels (Cli.channels args) es fx0 = (Ok chs, fx) ->
     Forall (pass_fits (tokens_of chs)) ps) ->
  (main (Q := Q) logs command sysfs polls poll es now e ps = Panicked <->
     Logging.no_appender "serialmux"%string logs) /\
  match main (Q := Q) logs command sysfs polls poll es now e ps with
  | Panicked => Logging.no_appender "serialmux"%string logs
  | Exited =>
      Cli.parse_args command = None \/ (exists er, poll = Err er) \/
      exists args er fx, Cli.parse_args command = Some args /\
        build_channels (Cli.channels args) es fx0 = (Err er, fx)
  | Waiting =>
      exists args vid pid, Cli.parse_args command = Some args /\ Cli.usb_id args = Some (vid, pid) /\
        Forall (fun fs => Discovery.find_acm_by_usb_id fs vid pid = None) (sysfs :: polls)
  | Running r =>
      exists args chs fx d w, Cli.parse_args command = Some args /\
        build_channels (Cli.channels args) es fx0 = (Ok chs, fx) /\
        Forall2 kind_matches (Cli.channels args) chs /\
        r = Some (d, w) /\ served (Cli.channels args) d
  end.
Proof.
  intros Hc He Hps. pose proof (Logging.init_panics "serialmux"%string logs None []) as Hlog.
  unfold main. destruct (Logging.init "serialmux"%string logs None []) as [l|].
  2: { assert (Logging.no_appender "serialmux"%string logs) by by apply Hlog. by split. }
  assert (forall (o : Outcome Q) (P : Prop), o <> Panicked -> P ->
    (o = Panicked <-> Logging.no_appender "serialmux"%string logs) /\ P) as Hgo.
  { intros o P Ho HP. split; [|exact HP]. split; [done|]. by intros ?%Hlog. }
  destruct (Cli.parse_args command) as [args|] eqn:Ea; [|by apply Hgo; [|left]].
  destruct (CliProofs.parse_args_sound _ _ _ _ Hc Ea) as (Hv & Hu & _ & _ & _).
  set (present := match Cli.usb_id args with Some _ => _ | None => _ end).
  destruct present eqn:Ep; cbn [negb].
  - destruct poll as [[]|er]; [|by apply Hgo; [|right; left; exists er]].
    destruct (build_channels (Cli.channels args) es fx0) as [[chs|er] fx] eqn:Eb; (apply Hgo; [done|]).
    + destruct (daemon_serves subcommand (Cli.mode args) (Cli.link_dev args) (Cli.usb_id args)
        (Cli.channels args) es now e ps chs fx Hv Hu Eb He (Hps _ _ _ eq_refl Eb))
        as (Hk & d & w & E & Hs).
      by exists args, chs, fx, d, w.
    + right. right. by exists args, er, fx.
  - apply Hgo; [done|]. unfold present in Ep. destruct (Cli.usb_id args) as [[vid pid]|] eqn:Eu; [|done].
    destruct (Discovery.find_acm_by_usb_id sysfs vid pid) eqn:Ef; [done|].
    case_bool_decide as Ew; [|done]. exists args, vid, pid. split; [done|]. split; [done|].
    constructor; [done|]. pose proof (DiscoveryProofs.wait_for_acm_spec polls vid pid) as Hw.
    by rewrite Ew in Hw.
Qed.

End Program.

End ChannelsProofs.
