(* ===== verification/Shift.v ===== *)
(** * What a channel does does not depend on what was done before

    A channel adds to the queue and to the requests it is lent and never looks at
    them.  So a call inside the daemon, where every channel adds to one trace, is
    the call the channel would make alone, and a channel's state in the daemon is
    that of [chan_run] on its own calls. *)
From Stdlib Require Import ZArith Lia.
From stdpp Require Import base option numbers list strings.
From S2P Require Import Prelude Protocol TxQueue Serial Chan Mcu Pty Tcp TcpSource TcpDest Cli Channels.

Local Open Scope Z_scope.

(** [fx] after what was done in [p]. *)
Definition shift (p fx : Fx) : Fx := mkFx (fx_tx p ++ fx_tx fx) (fx_sys p ++ fx_sys fx).

Lemma shift_fx0 p : shift p fx0 = p.
Proof. destruct p. unfold shift. cbn. by rewrite !app_nil_r. Qed.

(** A channel as a state transformer over [Fx], the requests made so far not
    looked at. *)
Class ChannelShift (C : Type) `{Channel C} :=
  ch_shift (p : Fx) (c : C) (i : input) (e : Env) (fx : Fx) :
    chan_step c i e (shift p fx) =
      '(c', fx') ← chan_step c i e fx; Some (c', shift p fx').

Section Runs.
Context {C : Type} `{ChannelShift C}.

(** A call made in any surroundings, as a call made in the channel's own. *)
Lemma chan_step_local c i e fx c' fx' own :
  chan_step c i e fx = Some (c', fx') ->
  exists own', chan_step c i e own = Some (c', own') /\
    exists sent, fx_tx own' = fx_tx own ++ sent /\ fx_tx fx' = fx_tx fx ++ sent.
Proof.
  rewrite <- (shift_fx0 fx), <- (shift_fx0 own), !ch_shift.
  destruct (chan_step c i e fx0) as [[c1 d]|]; [|done]. cbn [mbind option_bind].
  intros [= -> <-]. eexists. split; [reflexivity|]. exists (fx_tx d).
  cbn. by rewrite !app_nil_r.
Qed.

End Runs.

(** ** The operations *)

Create HintDb shift.
Create Rewrite HintDb shift.

(** The same for an operation that cannot panic, and for one that can. *)
Definition with_fx {A} (p : Fx) (r : A * Fx) : A * Fx := (r.1, shift p r.2).
Definition with_fx_opt {A} (p : Fx) (r : option (A * Fx)) : option (A * Fx) := with_fx p <$> r.

Lemma syscall_shift p fx c : syscall (shift p fx) c = shift p (syscall fx c).
Proof. unfold syscall, emit, shift. cbn. by rewrite app_assoc. Qed.

Lemma enqueue_shift p fx f : enqueue (shift p fx) f = shift p (enqueue fx f).
Proof. unfold enqueue, shift. cbn. by rewrite app_assoc. Qed.

Lemma emit_shift p w c : emit (p ++ w) c = p ++ emit w c.
Proof. unfold emit. by rewrite app_assoc. Qed.

Lemma mkFx_shift p tx w : mkFx (fx_tx p ++ tx) (fx_sys p ++ w) = shift p (mkFx tx w).
Proof. done. Qed.

Lemma fx_tx_shift p fx : fx_tx (shift p fx) = fx_tx p ++ fx_tx fx.
Proof. done. Qed.

Lemma fx_sys_shift p fx : fx_sys (shift p fx) = fx_sys p ++ fx_sys fx.
Proof. done. Qed.

Lemma apply_termios_shift s fd b p w :
  apply_termios s fd b (p ++ w) = let '(r, w') := apply_termios s fd b w in (r, p ++ w').
Proof. unfold apply_termios. repeat case_match; by rewrite ?emit_shift; simplify_eq. Qed.

Lemma open_serial_fd_shift s dev b p w :
  open_serial_fd s dev b (p ++ w) = let '(r, w') := open_serial_fd s dev b w in (r, p ++ w').
Proof.
  unfold open_serial_fd, close_raw. destruct (has_nul dev); [done|]. destruct (sys_open s) as [fd|]; [|done].
  rewrite emit_shift, apply_termios_shift. destruct (apply_termios _ _ _ _) as [r w1].
  destruct r; by rewrite ?emit_shift.
Qed.

Lemma open_pty_raw_shift s b p w :
  open_pty_raw s b (p ++ w) = let '(r, w') := open_pty_raw s b w in (r, p ++ w').
Proof.
  unfold open_pty_raw. destruct (sys_openpty s) as [[m sl]|]; [|done].
  rewrite !emit_shift, apply_termios_shift. destruct (apply_termios _ _ _ _) as [r w1].
  destruct r; [|done]. by destruct (set_nonblock s m).
Qed.

#[export] Hint Rewrite syscall_shift enqueue_shift emit_shift fx_tx_shift fx_sys_shift mkFx_shift
  open_serial_fd_shift open_pty_raw_shift : shift.

Ltac shift_rw := autorewrite with shift.

(** One branch after the other: the operation of the left-hand side is pulled
    through [shift], then its result is taken apart on both sides. *)
Ltac naturally :=
  repeat first
    [ done
    | progress shift_rw
    | progress cbn [fst snd mbind option_bind fmap option_fmap option_map with_fx with_fx_opt]
    | match goal with
      | |- context [fst ?r] =>
          lazymatch r with context [fst _] => fail | _ => destruct r eqn:? end
      end
    | match goal with
      | |- context [mbind _ (with_fx_opt _ ?r)] => destruct r as [[]|] eqn:?
      end
    | case_match; simplify_eq
    | match goal with
      | |- context [mbind _ ?m] =>
          lazymatch m with context [mbind _ _] => fail | _ => destruct m eqn:? end
      end ].

Lemma reg_add_shift p fx fd t i : reg_add (shift p fx) fd t i = shift p (reg_add fx fd t i).
Proof. apply syscall_shift. Qed.
Lemma reg_mod_shift p fx fd t i : reg_mod (shift p fx) fd t i = shift p (reg_mod fx fd t i).
Proof. apply syscall_shift. Qed.
Lemma reg_del_shift p fx fd : reg_del (shift p fx) fd = shift p (reg_del fx fd).
Proof. apply syscall_shift. Qed.

#[export] Hint Rewrite reg_add_shift reg_mod_shift reg_del_shift : shift.

Lemma apply_interest_shift i sel fd t p fx :
  apply_interest i sel fd t (shift p fx) = with_fx p (apply_interest i sel fd t fx).
Proof. unfold apply_interest. naturally. Qed.

#[export] Hint Rewrite apply_interest_shift : shift.

(** The ten methods of the trait. *)
Ltac each_call :=
  intros p c i e fx; destruct i; cbn [chan_step mcu_channel pty_channel tcp_source_channel
    tcp_dest_channel Chan.on_frame Chan.on_link_connect Chan.on_link_disconnect Chan.tick
    Chan.handle_event Chan.close Chan.pause_source_reads Chan.resume_source_reads].

Module McuShift.
Import McuChannel.

Lemma mcu_update_interest_shift s p fx :
  update_interest s (shift p fx) = with_fx p (update_interest s fx).
Proof. unfold update_interest. naturally. Qed.

#[local] Hint Rewrite mcu_update_interest_shift : shift.

Lemma open_uart_shift s e p fx : open_uart s e (shift p fx) = with_fx p (open_uart s e fx).
Proof. unfold open_uart. naturally. Qed.

Lemma close_uart_shift s p fx : close_uart s (shift p fx) = with_fx p (close_uart s fx).
Proof. unfold close_uart, close_raw. naturally. Qed.

Lemma transition_shift st s p fx : transition st s (shift p fx) = with_fx p (transition st s fx).
Proof. unfold transition. naturally. Qed.

#[local] Hint Rewrite open_uart_shift close_uart_shift transition_shift : shift.

Lemma uart_read_shift s e p fx : uart_read s e (shift p fx) = with_fx_opt p (uart_read s e fx).
Proof. unfold uart_read. naturally. Qed.

Lemma uart_drain_shift s e p fx : uart_drain s e (shift p fx) = with_fx_opt p (uart_drain s e fx).
Proof. unfold uart_drain. naturally. Qed.

#[local] Hint Rewrite uart_read_shift uart_drain_shift : shift.

#[global] Instance mcu_shift : ChannelShift t.
Proof.
  each_call; unfold on_frame, on_link_connect, on_link_disconnect, tick, handle_event, close,
    pause_source_reads, resume_source_reads; naturally.
Qed.

End McuShift.

Module PtyShift.
Import PtyChannel.

Lemma pty_update_interest_shift s p fx :
  update_interest s (shift p fx) = with_fx p (update_interest s fx).
Proof. unfold update_interest. naturally. Qed.

Lemma remove_symlink_shift s p fx : remove_symlink s (shift p fx) = shift p (remove_symlink s fx).
Proof. apply syscall_shift. Qed.

Lemma close_fd_shift p fx fd : close_fd (shift p fx) fd = shift p (close_fd fx fd).
Proof. apply syscall_shift. Qed.

#[local] Hint Rewrite pty_update_interest_shift remove_symlink_shift close_fd_shift : shift.

Lemma open_pty_shift s e p fx : open_pty s e (shift p fx) = with_fx p (open_pty s e fx).
Proof. unfold open_pty. naturally. Qed.

Lemma close_pty_shift s p fx : close_pty s (shift p fx) = with_fx p (close_pty s fx).
Proof. unfold close_pty. naturally. Qed.

Lemma pty_drain_shift s e p fx : pty_drain s e (shift p fx) = with_fx_opt p (pty_drain s e fx).
Proof. unfold pty_drain. naturally. Qed.

#[local] Hint Rewrite open_pty_shift close_pty_shift pty_drain_shift : shift.

Lemma pty_read_shift s e p fx : pty_read s e (shift p fx) = with_fx p (pty_read s e fx).
Proof. unfold pty_read. naturally. Qed.

#[local] Hint Rewrite pty_read_shift : shift.

#[global] Instance pty_shift : ChannelShift t.
Proof.
  each_call; unfold on_frame, on_link_connect, on_link_disconnect, tick, handle_event, close,
    pause_source_reads, resume_source_reads; naturally.
Qed.

End PtyShift.

(** ** Connections *)

Lemma drop_conn_shift c p fx : drop_conn c (shift p fx) = shift p (drop_conn c fx).
Proof. unfold drop_conn. naturally. Qed.

Lemma chunk_loop_shift fuel id slot buf n off p fx :
  chunk_loop fuel id slot buf n off (shift p fx) = shift p <$> chunk_loop fuel id slot buf n off fx.
Proof.
  revert off fx. induction fuel as [|fuel IH]; intros off fx; cbn [chunk_loop];
    (destruct (off <? n); [|done]); [done|].
  destruct (slice _ _ _); [|done]. cbn [mbind option_bind]. shift_rw. apply IH.
Qed.

Lemma send_chunks_shift id slot buf p fx :
  send_chunks id slot buf (shift p fx) = shift p <$> send_chunks id slot buf fx.
Proof. apply chunk_loop_shift. Qed.

Lemma write_stream_shift e c p fx :
  write_stream e c (shift p fx) = with_fx_opt p (write_stream e c fx).
Proof. unfold write_stream. naturally. Qed.

Lemma conn_update_interest_shift x slot c p fx :
  conn_update_interest x slot c (shift p fx) = with_fx p (conn_update_interest x slot c fx).
Proof. unfold conn_update_interest, conn_apply_interest. naturally. Qed.

#[export] Hint Rewrite drop_conn_shift send_chunks_shift write_stream_shift
  conn_update_interest_shift : shift.

Lemma update_conn_shift x l slot p fx :
  update_conn x l slot (shift p fx) = with_fx_opt p (update_conn x l slot fx).
Proof. unfold update_conn. naturally. Qed.

Lemma close_conn_shift x l slot notify p fx :
  close_conn x l slot notify (shift p fx) = with_fx_opt p (close_conn x l slot notify fx).
Proof. unfold close_conn. naturally. Qed.

#[export] Hint Rewrite update_conn_shift close_conn_shift : shift.

Lemma read_conn_shift x reads l slot p fx :
  read_conn x reads l slot (shift p fx) = with_fx_opt p (read_conn x reads l slot fx).
Proof.
  revert l fx. induction reads as [|[buf|er] reads IH]; intros l fx; cbn [read_conn].
  - naturally.
  - destruct (idx l slot) as [[c|]|]; [|done..]. cbn [mbind option_bind].
    destruct (no_read _ _); [done|]. destruct (zlen buf =? 0); [naturally|].
    shift_rw. destruct (send_chunks _ _ _ _); [|done]. cbn. apply IH.
  - naturally.
Qed.

Lemma write_conn_shift x l slot e p fx :
  write_conn x l slot e (shift p fx) = with_fx_opt p (write_conn x l slot e fx).
Proof. unfold write_conn. naturally. Qed.

Lemma tdata_conn_shift x l slot data p fx :
  tdata_conn x l slot data (shift p fx) = with_fx_opt p (tdata_conn x l slot data fx).
Proof. unfold tdata_conn. naturally. Qed.

Lemma tclose_conn_shift x l slot p fx :
  tclose_conn x l slot (shift p fx) = with_fx_opt p (tclose_conn x l slot fx).
Proof. unfold tclose_conn. naturally. Qed.

Lemma for_slots_shift f js l p fx :
  (forall l slot fx, f l slot (shift p fx) = with_fx_opt p (f l slot fx)) ->
  for_slots f js l (shift p fx) = with_fx_opt p (for_slots f js l fx).
Proof.
  intros Hf. revert l fx. induction js as [|j js IH]; intros l fx; cbn [for_slots]; [done|].
  rewrite Hf. destruct (f l j fx) as [[l1 fx1]|]; [|done]. cbn. apply IH.
Qed.

Lemma close_conns_shift x l p fx :
  close_conns x l (shift p fx) = with_fx_opt p (close_conns x l fx).
Proof. apply for_slots_shift. intros. apply close_conn_shift. Qed.

Lemma update_conns_shift x l p fx :
  update_conns x l (shift p fx) = with_fx_opt p (update_conns x l fx).
Proof. apply for_slots_shift. intros. apply update_conn_shift. Qed.

Lemma with_dummy_shift p fx r :
  with_dummy (shift p fx) (with_fx_opt p r) = with_fx_opt p (with_dummy fx r).
Proof. by destruct r as [[l fx1]|]. Qed.

#[export] Hint Rewrite read_conn_shift write_conn_shift tdata_conn_shift tclose_conn_shift
  close_conns_shift update_conns_shift with_dummy_shift : shift.

Module TcpSourceShift.
Import TcpSourceChannel.

Lemma src_on_conns_shift s p r : on_conns s (with_fx_opt p r) = with_fx_opt p (on_conns s r).
Proof. by destruct r as [[]|]. Qed.

Lemma accept_loop_shift accepts s e p fx :
  accept_loop accepts s e (shift p fx) = with_fx_opt p (accept_loop accepts s e fx).
Proof.
  revert s fx. induction accepts as [|[stream|] accepts IH]; intros s fx; cbn [accept_loop];
    [done| |done]. shift_rw. destruct (negb (link_up s)); [shift_rw; apply IH|].
  destruct (alloc_slot s) as [[s1 [slot|]]|]; cbn [mbind option_bind]; [|shift_rw; apply IH|done].
  destruct (env_register e stream); [|shift_rw; apply IH].
  destruct (put _ _ _); cbn [mbind option_bind]; [|done]. shift_rw. apply IH.
Qed.

#[local] Hint Rewrite src_on_conns_shift accept_loop_shift : shift.

Lemma src_tcp_event_shift s tok r w e p fx :
  tcp_event s tok r w e (shift p fx) = with_fx_opt p (tcp_event s tok r w e fx).
Proof. unfold tcp_event, update_conn_interest. naturally. Qed.

#[local] Hint Rewrite src_tcp_event_shift : shift.

#[global] Instance tcp_source_shift : ChannelShift t.
Proof.
  each_call; unfold on_frame, on_link_connect, on_link_disconnect, tick, handle_event, close,
    pause_source_reads, resume_source_reads, accept; naturally.
Qed.

End TcpSourceShift.

Module TcpDestShift.
Import TcpDestChannel.

Lemma dst_on_conns_shift s p r : on_conns s (with_fx_opt p r) = with_fx_opt p (on_conns s r).
Proof. by destruct r as [[]|]. Qed.

#[local] Hint Rewrite dst_on_conns_shift : shift.

Lemma open_conn_shift s slot e p fx :
  open_conn s slot e (shift p fx) = with_fx_opt p (open_conn s slot e fx).
Proof. unfold open_conn. naturally. Qed.

Lemma close_slot_shift s slot notify p fx :
  close_slot s slot notify (shift p fx) = with_fx_opt p (close_slot s slot notify fx).
Proof. unfold close_slot. naturally. Qed.

Lemma dst_tcp_event_shift s tok r w e p fx :
  tcp_event s tok r w e (shift p fx) = with_fx_opt p (tcp_event s tok r w e fx).
Proof. unfold tcp_event, update_conn_interest, close_slot. naturally. Qed.

#[local] Hint Rewrite open_conn_shift dst_tcp_event_shift : shift.

#[global] Instance tcp_dest_shift : ChannelShift t.
Proof.
  each_call; unfold on_frame, on_link_connect, on_link_disconnect, tick, handle_event, close,
    pause_source_reads, resume_source_reads, close_every; naturally.
Qed.

End TcpDestShift.

(** ** The trait object *)

#[global] Instance any_shift : ChannelShift Channels.AnyChannel.
Proof.
  intros p c i e fx. rewrite !ChannelsProofs.any_step. destruct c as [c|c|c|c];
    rewrite ch_shift; by destruct (chan_step c i e fx) as [[c' fx']|].
Qed.
