(* ===== verification/DaemonTrace.v ===== *)
(** * The daemon as a sequence of acts

    What one end of the link does, seen from outside: it opens and closes the
    link, writes and receives bytes, queues its own control frames, calls its
    channels.  [performs] says what each act does to the parts of the daemon that
    matter for the link; every run of [Daemon.v] is such a sequence of acts
    ([run_acts]), and what a sequence of acts leaves behind is determined by its
    record ([acts_explained]). *)
From Stdlib Require Import ZArith Lia.
From stdpp Require Import base option numbers list strings.
From S2P Require Import Prelude Protocol Stream Parser TxQueue Serial Chan Mcu Pty Tcp TcpSource TcpDest Cli Daemon DaemonProofs DaemonFlow Channels Shift.

Local Open Scope Z_scope.

Module DaemonTrace.
Import Daemon DaemonProofs.

(** What happens at one end of the link.  [sent] are the frames the channel asked
    to be queued, [taken] those the queue had room for. *)
Inductive act :=
  | Opened
  | Closed
  | Wrote (data : list Z)
  | Received (data : list Z)
  | Control (ft : Z) (taken : list frame)
  | Called (id : Z) (i : input) (e : Env) (sent taken : list frame)
  | AllCalled (i : input) (e : Z -> Env) (sent : Z -> list frame)
  | Skipped (f : frame).

(** The frames a call hands to channel [id]. *)
Definition frames_in (id : Z) (i : input) : list frame :=
  match i with InFrame ft pl => [(ft, id, pl)] | _ => [] end.

(** The calls made to all channels. *)
Definition broadcast (i : input) : bool :=
  match i with InPause | InResume | InDisconnect => true | _ => false end.

(** ** What the record says *)

(** Before, and since, the link was last opened. *)
Definition split_act (s : list act * list act) (a : act) : list act * list act :=
  match a with
  | Opened => (s.1 ++ s.2, [Opened])
  | Closed => (s.1 ++ s.2 ++ [Closed], [])
  | _ => (s.1, s.2 ++ [a])
  end.

Definition split_session (tr : list act) : list act * list act := fold_left split_act tr ([], []).

Definition past (tr : list act) : list act := (split_session tr).1.
Definition session (tr : list act) : list act := (split_session tr).2.

(** The frames put in the queue, those asked for by channel [id], and those of
    them that were put in the queue. *)
Definition queued (tr : list act) : list frame :=
  tr ≫= fun a => match a with
    | Opened => [hello] | Control _ tk => tk | Called _ _ _ _ tk => tk | _ => [] end.

Definition offered (id : Z) (tr : list act) : list frame :=
  tr ≫= fun a => match a with
    | Called id' _ _ s _ => if id' =? id then s else []
    | AllCalled _ _ s => s id
    | _ => [] end.

Definition accepted (id : Z) (tr : list act) : list frame :=
  tr ≫= fun a => match a with
    | Called id' _ _ _ tk => if id' =? id then tk else [] | _ => [] end.

(** The bytes received, the frames of them that have been dealt with, and those
    handed to channel [id]. *)
Definition received (tr : list act) : list Z :=
  tr ≫= fun a => match a with Received data => data | _ => [] end.

(** The bytes received, read by read. *)
Definition receipts (tr : list act) : list (list Z) :=
  tr ≫= fun a => match a with Received data => [data] | _ => [] end.

Definition handled (tr : list act) : list frame :=
  tr ≫= fun a => match a with
    | Called id i _ _ _ => frames_in id i | Skipped f => [f] | _ => [] end.

Definition handed (id : Z) (tr : list act) : list frame :=
  tr ≫= fun a => match a with
    | Called id' i _ _ _ => if id' =? id then frames_in id' i else [] | _ => [] end.

(** Whether the link is up after an act: it comes up with [F_HELLO] or [F_ACK]. *)
Definition is_handshake (f : frame) : bool := (f.1.1 =? F_HELLO) || (f.1.1 =? F_ACK).

Definition up_after (up : bool) (a : act) : bool :=
  match a with Closed => false | Skipped f => up || is_handshake f | _ => up end.

Definition ups (up : bool) (tr : list act) : bool := fold_left up_after tr up.

(** The calls of channel [id]. *)
Definition calls (id : Z) (tr : list act) : list (input * Env) :=
  tr ≫= fun a => match a with
    | Called id' i e _ _ => if id' =? id then [(i, e)] else []
    | AllCalled i e _ => [(i, e id)]
    | _ => [] end.

(** A frame for channel [id]. *)
Definition for_channel (id : Z) (f : frame) : Prop := f.1.2 = id /\ is_control f.1.1 = false.

#[global] Instance for_channel_dec id f : Decision (for_channel id f).
Proof. unfold for_channel. apply _. Defined.

(** ** Records one act longer *)

Create Rewrite HintDb trace.

Definition marks (a : act) : bool := match a with Opened | Closed => true | _ => false end.

Lemma split_session_snoc tr a : split_session (tr ++ [a]) = split_act (split_session tr) a.
Proof. unfold split_session. by rewrite fold_left_app. Qed.

Lemma past_session tr : past tr ++ session tr = tr.
Proof.
  unfold past, session. induction tr as [|a tr IH] using rev_ind; [done|].
  rewrite split_session_snoc. destruct (split_session tr) as [s1 s2]. cbn [fst snd] in IH. subst tr.
  destruct a; cbn; by rewrite ?app_nil_r, <- ?app_assoc.
Qed.

Lemma session_opened tr : session (tr ++ [Opened]) = [Opened].
Proof. unfold session. by rewrite split_session_snoc. Qed.

Lemma session_closed tr : session (tr ++ [Closed]) = [].
Proof. unfold session. by rewrite split_session_snoc. Qed.

Lemma session_snoc tr a : marks a = false -> session (tr ++ [a]) = session tr ++ [a].
Proof. unfold session. rewrite split_session_snoc. by destruct a. Qed.

Lemma past_snoc tr a : marks a = false -> past (tr ++ [a]) = past tr.
Proof. unfold past. rewrite split_session_snoc. by destruct a. Qed.

Lemma past_opened tr : past (tr ++ [Opened]) = tr.
Proof. unfold past. rewrite split_session_snoc. apply past_session. Qed.

Lemma past_closed tr : past (tr ++ [Closed]) = tr ++ [Closed].
Proof.
  unfold past. rewrite split_session_snoc. cbn [split_act fst].
  rewrite app_assoc. f_equal. apply past_session.
Qed.

#[export] Hint Rewrite session_opened session_closed past_opened past_closed : trace.
#[export] Hint Rewrite session_snoc past_snoc using done : trace.

Lemma queued_app t1 t2 : queued (t1 ++ t2) = queued t1 ++ queued t2.
Proof. apply bind_app. Qed.
Lemma offered_app id t1 t2 : offered id (t1 ++ t2) = offered id t1 ++ offered id t2.
Proof. apply bind_app. Qed.
Lemma accepted_app id t1 t2 : accepted id (t1 ++ t2) = accepted id t1 ++ accepted id t2.
Proof. apply bind_app. Qed.
Lemma received_app t1 t2 : received (t1 ++ t2) = received t1 ++ received t2.
Proof. apply bind_app. Qed.
Lemma receipts_app t1 t2 : receipts (t1 ++ t2) = receipts t1 ++ receipts t2.
Proof. apply bind_app. Qed.
Lemma handled_app t1 t2 : handled (t1 ++ t2) = handled t1 ++ handled t2.
Proof. apply bind_app. Qed.
Lemma handed_app id t1 t2 : handed id (t1 ++ t2) = handed id t1 ++ handed id t2.
Proof. apply bind_app. Qed.
Lemma calls_app id t1 t2 : calls id (t1 ++ t2) = calls id t1 ++ calls id t2.
Proof. apply bind_app. Qed.

#[export] Hint Rewrite queued_app offered_app accepted_app received_app handled_app handed_app
  calls_app : trace.

(** The record of one act. *)
Ltac one_act :=
  autorewrite with trace; cbn [queued offered accepted received handled handed calls mbind list_bind
    app frames_in]; rewrite ?app_nil_r.

(** ** The acts *)

Section Acts.
Context `{Crc32} {Q : Type} `{TxQueueLaws Q} {C : Type} `{ChannelLaws C}.

(** [T id token]: the tokens channel [id] has registered. *)
Variable T : Z -> Z -> Prop.

Definition token_fits (id : Z) (i : input) : Prop :=
  match i with InEvent tok _ _ => T id tok | _ => True end.

(** The parts of the daemon the acts are about: [v_wire] the bytes written to the
    open link, [v_pending] the frames read and not yet dealt with. *)
Record View := mkView {
  v_chans : list (Z * C);
  v_queue : Q;
  v_parser : FrameParser.t;
  v_wire : option (list Z);
  v_pending : list frame;
}.

(** The frames of [fs] that [enqueue] takes, one after the other. *)
Fixpoint taken (q : Q) (fs : list frame) : list frame :=
  match fs with
  | [] => []
  | f :: fs =>
      match txq_enqueue q (build f) with
      | Some q' =>
          if zlen (build f) <=? LINK_TXBUF_SIZE - 1 - txq_used q
          then f :: taken q' fs else taken q' fs
      | None => []
      end
  end.

(** What channel [id] of [m] asks to be queued when called with [i]. *)
Definition asks (m : list (Z * C)) (i : input) (e : Z -> Env) (id : Z) : list frame :=
  match get id m with
  | Some c => match chan_step c i (e id) fx0 with Some (_, fx) => fx_tx fx | None => [] end
  | None => []
  end.

Inductive performs : View -> act -> View -> Prop :=
  | opens m q p pr' q' pe :
      Forall (fun x => ch_quiet x.2) m ->
      txq_enqueue (txq_reset q) (build hello) = Some q' -> pr' = FrameParser.reset p ->
      performs (mkView m q p None pe) Opened (mkView m q' pr' (Some []) [])
  | closes m q p wi :
      performs (mkView m q p wi []) Closed (mkView m (txq_reset q) p None [])
  | writes m q p wr pe w q' r data :
      write_ok w -> txq_drain q w = Some (q', r, data) ->
      performs (mkView m q p (Some wr) pe) (Wrote data) (mkView m q' p (Some (wr ++ data)) pe)
  | receives m q p wr data p' fs :
      bytes_ok data -> FrameParser.feed_frames p data = Some (p', fs) ->
      performs (mkView m q p (Some wr) []) (Received data) (mkView m q p' (Some wr) fs)
  | queues m q p wi pe ft q' :
      is_control ft = true -> txq_enqueue q (build (ft, 0, [])) = Some q' ->
      performs (mkView m q p wi pe) (Control ft (taken q [(ft, 0, [])])) (mkView m q' p wi pe)
  | calls_one m q p wi pe id i e c wc c' fx q' :
      get id m = Some c -> env_ok e -> token_fits id i -> i <> InClose ->
      chan_step c i e (mkFx [] wc) = Some (c', fx) ->
      Forall (fun f => is_control f.1.1 = false) (frames_in id i) ->
      enqueue_all q (fx_tx fx) = Some q' ->
      performs (mkView m q p wi (frames_in id i ++ pe))
        (Called id i e (fx_tx fx) (taken q (fx_tx fx)))
        (mkView (replace id c' m) q' p wi pe)
  | calls_all m q p wi pe i e wc m' wc' :
      (forall id, env_ok (e id)) -> broadcast i = true ->
      for_channels (fun id c fx => chan_step c i (e id) fx) m wc = Some (m', wc') ->
      performs (mkView m q p wi pe) (AllCalled i e (asks m i e)) (mkView m' q p wi pe)
  | skips m q p wi pe f :
      is_control f.1.1 = true \/ get f.1.2 m = None ->
      performs (mkView m q p wi (f :: pe)) (Skipped f) (mkView m q p wi pe).

Inductive acts (x : View) : list act -> View -> Prop :=
  | acts_nil : acts x [] x
  | acts_snoc tr a y z : acts x tr y -> performs y a z -> acts x (tr ++ [a]) z.

Lemma acts_one x a y : performs x a y -> acts x [a] y.
Proof. intros Hp. apply (acts_snoc x [] a x y); [constructor | done]. Qed.

Lemma acts_trans x tr1 y tr2 z : acts x tr1 y -> acts y tr2 z -> acts x (tr1 ++ tr2) z.
Proof.
  intros Hxy. induction 1 as [|tr a y' z _ IH Hp]; [by rewrite app_nil_r|].
  rewrite app_assoc. by econstructor.
Qed.

Lemma acts_cons x a y tr z : performs x a y -> acts y tr z -> acts x (a :: tr) z.
Proof. intros Hp Ha. apply (acts_trans x [a] y tr z); [by apply acts_one | done]. Qed.

(** ** The daemon performs acts *)

Definition view (pe : list frame) (d : t Q C) (w : DWorld) : View :=
  mkView (channels d) (txq d) (parser d) (written (w_link w) <$> link_fd d) pe.

(** From [d], with [pe] to be dealt with and [up] the record of [link_up], to the
    result, with [pe'] left, having received [rs]. *)
Definition goes (up : bool) (pe : list frame) (d : t Q C) (w : DWorld) (pe' : list frame)
  (rs : list (list Z)) (r : option (t Q C * DWorld)) : Prop :=
  forall d' w', r = Some (d', w') ->
    exists tr, acts (view pe d w) tr (view pe' d' w') /\ link_up d' = ups up tr /\ receipts tr = rs.

(** The same when nothing is received or happens that would bring the link up or
    down. *)
Definition stays (pe : list frame) (d : t Q C) (w : DWorld) (pe' : list frame)
  (r : option (t Q C * DWorld)) : Prop :=
  forall d' w', r = Some (d', w') ->
    exists tr, acts (view pe d w) tr (view pe' d' w') /\ link_up d' = link_up d /\
      (forall up, ups up tr = up) /\ receipts tr = [].

Lemma ups_app up tr1 tr2 : ups up (tr1 ++ tr2) = ups (ups up tr1) tr2.
Proof. apply fold_left_app. Qed.

Lemma stays_goes pe d w pe' r : stays pe d w pe' r -> goes (link_up d) pe d w pe' [] r.
Proof. intros Hr d' w' E. destruct (Hr d' w' E) as (tr & Ha & Hu & Hn & Hr0). exists tr. by rewrite Hn. Qed.

Lemma stays_to pe d w pe' d' w' :
  view pe d w = view pe' d' w' -> link_up d' = link_up d -> stays pe d w pe' (Some (d', w')).
Proof. intros E Hu ? ? [= <- <-]. exists []. rewrite E. by repeat constructor. Qed.

Lemma goes_to up pe d w pe' d' w' :
  view pe d w = view pe' d' w' -> link_up d' = up -> goes up pe d w pe' [] (Some (d', w')).
Proof. intros E Hu ? ? [= <- <-]. exists []. rewrite E. by repeat constructor. Qed.

Lemma goes_same up pe d w : link_up d = up -> goes up pe d w pe [] (Some (d, w)).
Proof. by apply goes_to. Qed.

Lemma stays_same pe d w : stays pe d w pe (Some (d, w)).
Proof. by apply stays_to. Qed.

Lemma stays_act pe d w pe' d' w' a :
  performs (view pe d w) a (view pe' d' w') -> link_up d' = link_up d ->
  (forall up, up_after up a = up) -> receipts [a] = [] -> stays pe d w pe' (Some (d', w')).
Proof. intros Hp Hu Hn Hr ? ? [= <- <-]. exists [a]. split; [by apply acts_one | done]. Qed.

Lemma stays_bind pe d w pe1 pe' r k :
  stays pe d w pe1 r ->
  (forall d1 w1, r = Some (d1, w1) -> stays pe1 d1 w1 pe' (k (d1, w1))) ->
  stays pe d w pe' (r ≫= k).
Proof.
  intros Hr Hk d' w' ([d1 w1] & E1 & E2)%bind_Some.
  destruct (Hr d1 w1 E1) as (tr1 & Htr1 & Hu1 & Hn1 & R1).
  destruct (Hk d1 w1 E1 d' w' E2) as (tr2 & Htr2 & Hu2 & Hn2 & R2).
  exists (tr1 ++ tr2). split; [by eapply acts_trans|]. split; [congruence|].
  split; [intros up; by rewrite ups_app, Hn1, Hn2 | by rewrite receipts_app, R1, R2].
Qed.

(** What leaves the link as it is, then the rest. *)
Lemma goes_stays up pe d w pe1 pe' rs r k :
  stays pe d w pe1 r ->
  (forall d1 w1, r = Some (d1, w1) -> link_up d1 = link_up d -> goes up pe1 d1 w1 pe' rs (k (d1, w1))) ->
  goes up pe d w pe' rs (r ≫= k).
Proof.
  intros Hr Hk d' w' ([d1 w1] & E1 & E2)%bind_Some.
  destruct (Hr d1 w1 E1) as (tr1 & Htr1 & Hu1 & Hn1 & R1).
  destruct (Hk d1 w1 E1 Hu1 d' w' E2) as (tr2 & Htr2 & Hu2 & R2).
  exists (tr1 ++ tr2). split; [by eapply acts_trans|]. rewrite ups_app, Hn1.
  split; [done | by rewrite receipts_app, R1].
Qed.

(** What is received first, then what the rest receives. *)
Lemma goes_bind up pe d w pe1 pe' rs1 rs2 r k :
  goes up pe d w pe1 rs1 r ->
  (forall d1 w1, r = Some (d1, w1) -> goes (link_up d1) pe1 d1 w1 pe' (rs2 (d1, w1)) (k (d1, w1))) ->
  goes up pe d w pe' (rs1 ++ default [] (rs2 <$> r)) (r ≫= k).
Proof.
  intros Hr Hk d' w' ([d1 w1] & E1 & E2)%bind_Some.
  destruct (Hr d1 w1 E1) as (tr1 & Htr1 & Hu1 & R1). destruct (Hk d1 w1 E1 d' w' E2) as (tr2 & Htr2 & Hu2 & R2).
  exists (tr1 ++ tr2). split; [by eapply acts_trans|]. rewrite ups_app, <- Hu1.
  split; [done | by rewrite receipts_app, R1, R2, E1].
Qed.

Lemma goes_rs up pe d w pe' rs rs' r : rs = rs' -> goes up pe d w pe' rs r -> goes up pe d w pe' rs' r.
Proof. by intros ->. Qed.

Lemma goes_bind_nil up pe d w pe1 pe' r k :
  goes up pe d w pe1 [] r ->
  (forall d1 w1, r = Some (d1, w1) -> goes (link_up d1) pe1 d1 w1 pe' [] (k (d1, w1))) ->
  goes up pe d w pe' [] (r ≫= k).
Proof.
  intros Hr Hk. eapply goes_rs; [|exact (goes_bind _ _ _ _ _ _ _ (fun _ => []) _ _ Hr Hk)]. by destruct r.
Qed.

Lemma goes_after up pe d w a pe1 d1 w1 pe' rs r :
  performs (view pe d w) a (view pe1 d1 w1) -> goes (up_after up a) pe1 d1 w1 pe' rs r ->
  goes up pe d w pe' (receipts [a] ++ rs) r.
Proof.
  intros Hp Hr d' w' E. destruct (Hr d' w' E) as (tr & Htr & Hu & R). exists ([a] ++ tr).
  split; [eapply acts_trans; [by apply acts_one | done]|]. split; [done|]. by rewrite receipts_app, R.
Qed.

Lemma stays_after pe d w a pe1 d1 w1 pe' r :
  performs (view pe d w) a (view pe1 d1 w1) -> link_up d1 = link_up d ->
  (forall up, up_after up a = up) -> receipts [a] = [] -> stays pe1 d1 w1 pe' r -> stays pe d w pe' r.
Proof.
  intros Hp Hd Ha Hra Hr d' w' E. destruct (Hr d' w' E) as (tr & Htr & Hu & Hn & R). exists ([a] ++ tr).
  split; [eapply acts_trans; [by apply acts_one | done]|]. split; [congruence|].
  split; [|by rewrite receipts_app, Hra].
  intros up. rewrite ups_app. change (ups up [a]) with (up_after up a). by rewrite Ha.
Qed.

Lemma goes_view up pe d w d1 w1 pe' rs r :
  view pe d w = view pe d1 w1 -> goes up pe d1 w1 pe' rs r -> goes up pe d w pe' rs r.
Proof. intros E Hr d' w' Er. rewrite E. by apply Hr. Qed.

Lemma stays_view pe d w d1 w1 pe' r :
  view pe d w = view pe d1 w1 -> link_up d1 = link_up d ->
  stays pe d1 w1 pe' r -> stays pe d w pe' r.
Proof. intros E Hu Hr d' w' Er. rewrite E, <- Hu. by apply Hr. Qed.

Lemma view_interest pe d b w :
  view pe d (set_link_write_interest d b w) = view pe d w.
Proof.
  unfold view, set_link_write_interest. destruct (link_fd d) as [fd|]; [|done].
  cbn. by autorewrite with zlist.
Qed.

Lemma stays_interest pe pe' d b w d0 w0 :
  view pe d0 w0 = view pe' d w -> link_up d = link_up d0 ->
  stays pe d0 w0 pe' (Some (d, set_link_write_interest d b w)).
Proof. intros E Hu. apply stays_to; [by rewrite view_interest | done]. Qed.

Lemma stays_after_channels pe d e w : stays pe d w pe (Some (after_channels d e w)).
Proof. unfold after_channels. by apply stays_interest. Qed.

Lemma enqueue_frame_stays pe d ft e w :
  is_control ft = true -> stays pe d w pe (enqueue_frame d (build_frame ft 0 []) e w).
Proof.
  intros Hc. unfold enqueue_frame. destruct (_ || _); [apply stays_same|].
  destruct (txq_enqueue (txq d) (build_frame ft 0 [])) as [q|] eqn:E; [|done].
  cbn [mbind option_bind]. eapply stays_after; [| | | |by apply stays_interest].
  - exact (queues _ _ _ _ _ ft q Hc E).
  - done.
  - done.
  - done.
Qed.

Lemma no_handshake f : is_control f.1.1 = false -> is_handshake f = false.
Proof. unfold is_control, is_handshake. rewrite !orb_false_iff. tauto. Qed.

Lemma call_channel_stays i e f id pe d w :
  (forall c fx, f c fx = chan_step c i e fx) -> env_ok e -> token_fits id i -> i <> InClose ->
  Forall (fun f => is_control f.1.1 = false) (frames_in id i) ->
  stays (frames_in id i ++ pe) d w pe (call_channel f id d w).
Proof.
  intros Hf He Ht Hi Hc. unfold call_channel. destruct (get id (channels d)) as [c|] eqn:Eg.
  - rewrite Hf. destruct (chan_step c i e (mkFx [] (w_chan w))) as [[c' fx]|] eqn:Ec; [|done].
    cbn [mbind option_bind]. destruct (enqueue_all (txq d) (fx_tx fx)) as [q|] eqn:Eq; [|done].
    cbn [mbind option_bind]. eapply stays_act; [by eapply calls_one | done..].
  - destruct i as [ft pl| | | | | | |]; try apply stays_same.
    apply Forall_cons in Hc as [Hc _]. apply (stays_act _ _ _ _ _ _ (Skipped (ft, id, pl))).
    + apply skips. by right.
    + done.
    + intros up. cbn [up_after]. by rewrite no_handshake, orb_false_r.
    + done.
Qed.

Lemma all_channels_stays i e f pe d w :
  (forall id c fx, f id c fx = chan_step c i (e id) fx) -> (forall id, env_ok (e id)) ->
  broadcast i = true -> stays pe d w pe (all_channels f d w).
Proof.
  intros Hf He Hi. unfold all_channels.
  assert (forall m wc, for_channels f m wc = for_channels (fun id c fx => chan_step c i (e id) fx) m wc)
    as E.
  { induction m as [|[k c] m IH]; intros wc; cbn [for_channels]; [done|]. rewrite Hf.
    destruct (chan_step c i (e k) _) as [[c' fx]|]; [|done]. cbn [mbind option_bind]. by rewrite IH. }
  rewrite E. destruct (for_channels _ (channels d) (w_chan w)) as [[m wc]|] eqn:Em; [|done].
  cbn [mbind option_bind]. eapply stays_act; [by eapply calls_all | done..].
Qed.

Lemma for_ids_stays f js pe d w :
  (forall id d w, stays pe d w pe (f id d w)) -> stays pe d w pe (for_ids f js d w).
Proof.
  intros Hf. revert d w. induction js as [|j js IH]; intros d w; cbn [for_ids]; [apply stays_same|].
  by eapply stays_bind.
Qed.

(** ** The handlers *)

Lemma check_bp_high_stays pe d e k w : denv_ok e -> stays pe d w pe (check_bp_high d e k w).
Proof.
  intros He. unfold check_bp_high. destruct (_ && _); [|apply stays_same].
  apply (stays_view _ _ _ (set_link_bp true d) w); [done|done|].
  by apply (all_channels_stays InPause (fun id => d_chan e k id)); [|apply He|].
Qed.

Lemma connect_channels_stays pe d e k w : denv_ok e -> stays pe d w pe (connect_channels d e k w).
Proof.
  intros He. apply for_ids_stays. intros id d1 w1.
  by apply (call_channel_stays InConnect (d_chan e k id) _ id pe); [|apply He|..].
Qed.

(** The link comes up, if it is not. *)
Lemma on_link_up_goes pe d e k w : denv_ok e -> goes true pe d w pe [] (on_link_up d e k w).
Proof.
  intros He. unfold on_link_up. destruct (link_up d) eqn:Eu; [by apply goes_same|].
  apply (goes_view _ _ _ _ (set_link_up true d) w); [done|].
  eapply goes_stays; [by apply connect_channels_stays|]. intros d1 w1 _ Hu.
  change true with (link_up (set_link_up true d)). rewrite <- Hu. apply stays_goes, stays_after_channels.
Qed.

(** The end of the handling of a frame. *)
Lemma goes_end up pe d e w : link_up d = up -> goes up pe d w pe [] (Some (after_channels d e w)).
Proof. intros <-. apply stays_goes, stays_after_channels. Qed.

Lemma dispatch_frame_goes pe d ft ch pl e k w :
  denv_ok e -> goes (link_up d) ((ft, ch, pl) :: pe) d w pe [] (dispatch_frame d ft ch pl e k w).
Proof.
  intros He. unfold dispatch_frame.
  assert (forall r, is_control ft = true -> goes (link_up d || is_handshake (ft, ch, pl)) pe d w pe [] r ->
    goes (link_up d) ((ft, ch, pl) :: pe) d w pe [] r) as Hskip.
  { intros r Hc. apply goes_after with (a := Skipped (ft, ch, pl)). apply skips. by left. }
  unfold is_control, is_handshake in Hskip. cbn [fst] in Hskip.
  destruct (ft =? F_PING) eqn:Ep; zbool; [subst; apply Hskip; [done|]; rewrite orb_false_r;
    by apply stays_goes, enqueue_frame_stays|].
  destruct (ft =? F_PONG) eqn:Eo; zbool; [subst; apply Hskip; [done|]; rewrite orb_false_r;
    by apply goes_same|].
  destruct (ft =? F_HELLO) eqn:Eh.
  { apply Hskip; [done|]. rewrite orb_true_r.
    eapply goes_stays; [by apply enqueue_frame_stays|].
    intros d1 w1 _ _. cbn beta iota. destruct (link_up d1) eqn:Eu; [|by apply on_link_up_goes].
    eapply goes_stays; [by apply connect_channels_stays|]. intros. apply goes_end. congruence. }
  destruct (ft =? F_ACK) eqn:Ea; [apply Hskip; [done|]; rewrite orb_true_r; by apply on_link_up_goes|].
  clear Hskip. eapply goes_stays.
  { destruct (_ || _); [by apply check_bp_high_stays | apply stays_same]. }
  intros d1 w1 _ <-. eapply goes_stays.
  - apply (call_channel_stays (InFrame ft pl) (d_chan e k ch) _ ch); [done | apply He | done | done |].
    apply Forall_singleton. unfold is_control. cbn [fst].
    by rewrite (proj2 (Z.eqb_neq _ _) Ep), (proj2 (Z.eqb_neq _ _) Eo), Eh, Ea.
  - intros. by apply goes_end.
Qed.

Lemma dispatch_all_goes fs d e k w :
  denv_ok e -> goes (link_up d) fs d w [] [] (dispatch_all fs d e k w).
Proof.
  intros He. revert d k w. induction fs as [|[[ft ch] pl] fs IH]; intros d k w; cbn [dispatch_all].
  - by apply goes_same.
  - eapply goes_bind_nil; [by apply dispatch_frame_goes|]. intros. apply IH.
Qed.

Lemma close_link_goes up d e k w :
  denv_ok e -> link_up d = up -> goes up [] d w [] [] (close_link d e k w).
Proof.
  intros He Hu. unfold close_link. destruct (disconnected d); [by apply goes_same|].
  set (d1 := set_txq _ _). set (w1 := match link_fd _ with Some _ => _ | None => _ end).
  apply goes_after with (a := Closed) (pe1 := []) (d1 := d1) (w1 := w1).
  { destruct (link_fd d); apply closes. }
  change (up_after up Closed) with (link_up d1). apply stays_goes. eapply stays_bind.
  - destruct (link_bp d1); [|apply stays_same].
    apply (stays_view _ _ _ (set_link_bp false d1) w1); [done|done|].
    by apply (all_channels_stays InResume (fun id => d_chan e k id)); [|apply He|].
  - intros d2 w2 _. eapply stays_bind.
    + by apply (all_channels_stays InDisconnect (fun id => d_chan e k id)); [|apply He|].
    + intros. by apply stays_to.
Qed.

Lemma open_link_stays d e w :
  inv T d w -> disconnected d = true -> stays [] d w [] (open_link d e w).
Proof.
  intros Hi Hd. pose proof Hi as [Hch _ _ Hfd _ _ _ _ _].
  assert (link_fd d = None) as Hnone by by apply Hfd.
  assert (forall w', stays [] d w [] (Some (schedule_reopen d e, w'))) as Hretry.
  { intros w'. apply stays_to; [|done]. unfold view. cbn. by rewrite Hnone. }
  unfold open_link. destruct (resolve_dev d e) as [dev|]; [|by apply Hretry].
  destruct (open_serial_fd _ _ _ _) as [[fd|er] wl] eqn:Eo; [|by apply Hretry].
  destruct (d_register e); [|by apply Hretry].
  apply open_serial_fd_trace in Eo as (_ & _ & _ & Hwr).
  set (d1 := set_last_tx _ _).
  destruct (txq_enqueue (txq d1) (build_frame F_HELLO 0 [])) as [q|] eqn:Eq; [|done].
  cbn [mbind option_bind]. set (w1 := link_call _ _).
  apply stays_after with (a := Opened) (pe1 := []) (d1 := set_txq q d1) (w1 := w1);
    [|done|done|done|by apply stays_interest].
  unfold view. rewrite Hnone. cbn [fmap option_fmap option_map].
  assert (written (w_link w1) <$> link_fd (set_txq q d1) = Some []) as ->.
  { unfold w1. cbn. autorewrite with zlist. by rewrite Hwr. }
  apply opens; [|done|done]. eapply Forall_impl; [exact Hch|].
  intros x (_ & _ & _ & Hq & _). by apply Hq.
Qed.

(** What a read gives. *)
Definition read_data (d : t Q C) (e : DEnv) : list (list Z) :=
  match link_fd d, d_read e with
  | Some _, Ok data => if zlen data =? 0 then [] else [data]
  | _, _ => []
  end.

Lemma link_read_goes d e w :
  denv_ok e -> goes (link_up d) [] d w [] (read_data d e) (link_read d e w).
Proof.
  intros He. unfold link_read, read_data. destruct (link_fd d) as [fd|] eqn:Ef; [|by apply goes_same].
  unfold read_nonblock. pose proof (de_read e He) as Hr. destruct (d_read e) as [data|er].
  - destruct (zlen data =? 0); [by apply goes_same|]. cbn [parser set_last_rx].
    destruct (FrameParser.feed_frames (parser d) data) as [[p fs]|] eqn:Ep; [|done].
    cbn [mbind option_bind]. set (d1 := set_parser p _).
    apply (goes_after _ _ _ _ (Received data) fs d1 w _ []).
    { unfold view. cbn. rewrite Ef. apply receives; [apply Hr | exact Ep]. }
    change (up_after (link_up d) (Received data)) with (link_up d1). by apply dispatch_all_goes.
  - destruct (would_block er); [by apply goes_same | by apply close_link_goes].
Qed.

Lemma link_write_goes d e w : denv_ok e -> goes (link_up d) [] d w [] [] (link_write d e w).
Proof.
  intros He. unfold link_write. destruct (link_fd d) as [fd|] eqn:Ef; [|by apply goes_same].
  destruct (txq_drain (txq d) (d_write e)) as [[[q r] sent]|] eqn:Ed; [|done].
  cbn [mbind option_bind]. set (w1 := if is_empty sent then w else _).
  apply goes_after with (a := Wrote sent) (pe1 := []) (d1 := set_txq q d) (w1 := w1).
  { unfold view. cbn. rewrite Ef. cbn.
    assert (written (w_link w1) fd = written (w_link w) fd ++ sent) as ->.
    { unfold w1. destruct sent; cbn [is_empty]; [by rewrite app_nil_r|].
      cbn. autorewrite with zlist. cbn. by rewrite Z.eqb_refl. }
    by apply (writes _ _ _ _ _ (d_write e) _ r); [apply He|]. }
  destruct r; [|by apply close_link_goes]. apply (stays_goes [] (set_txq q d)). eapply stays_bind.
  - destruct (_ && _); [|apply stays_same].
    apply (stays_view _ _ _ (set_link_bp false (set_txq q d)) w1); [done|done|].
    by apply (all_channels_stays InResume (fun id => d_chan e 0 id)); [|apply He|].
  - intros d2 w2 _. cbn beta iota. destruct (txq_is_empty (txq d2));
      [by apply stays_interest | apply stays_same].
Qed.

Lemma tick_keepalive_goes d now e w :
  denv_ok e -> goes (link_up d) [] d w [] [] (tick_keepalive d now e w).
Proof.
  intros He. unfold tick_keepalive. destruct (disconnected d); [by apply goes_same|].
  destruct (match last_rx d with Some _ => _ | None => _ end); [by apply close_link_goes|].
  destruct (link_up d) eqn:Eu; [|by apply goes_same]. rewrite <- Eu.
  destruct (last_tx d); [|by apply goes_same].
  destruct (_ && _); [|by apply goes_same]. by apply stays_goes, enqueue_frame_stays.
Qed.

Lemma run_timers_goes d e w :
  inv T d w -> denv_ok e -> goes (link_up d) [] d w [] [] (run_timers d e w).
Proof.
  intros Hi He. unfold run_timers. eapply goes_stays.
  { destruct (disconnected d) eqn:Ed; cbn [andb]; [|apply stays_same].
    destruct (_ <=? _); [by eapply open_link_stays | apply stays_same]. }
  intros d1 w1 _ <-. eapply goes_bind_nil; [by apply tick_keepalive_goes|].
  intros d2 w2 _. apply stays_goes. eapply stays_bind.
  { apply for_ids_stays. intros id d3 w3.
    by apply (call_channel_stays (InTick (d_now e)) (d_chan e 1 id) _ id []); [|apply He|..]. }
  intros d3 w3 _. cbn beta iota. destruct (negb _); [by apply stays_interest | apply stays_same].
Qed.

(** What the reads of the link return while the daemon handles an event, some events,
    some passes, and in a run. *)
Definition event_reads (d : t Q C) (ev : Event) : list (list Z) :=
  if (ev_token ev =? TOKEN_LINK) && ev_readable ev then read_data d (ev_env ev) else [].

Fixpoint events_reads (d : t Q C) (evs : list Event) (w : DWorld) : list (list Z) :=
  match evs with
  | [] => []
  | ev :: evs =>
      event_reads d ev ++ default [] ((fun x => events_reads x.1 evs x.2) <$> on_event d ev w)
  end.

Definition pass_reads (d : t Q C) (p : Pass) (w : DWorld) : list (list Z) :=
  default [] ((fun x => events_reads x.1 (ps_events p) x.2) <$> run_timers d (ps_env p) w).

Fixpoint passes_reads (d : t Q C) (ps : list Pass) (w : DWorld) : list (list Z) :=
  match ps with
  | [] => []
  | p :: ps => pass_reads d p w ++ default [] ((fun x => passes_reads x.1 ps x.2) <$> run_pass d p w)
  end.

Definition run_reads (d : t Q C) (e : DEnv) (ps : list Pass) (w : DWorld) : list (list Z) :=
  default [] ((fun x => passes_reads x.1 ps x.2) <$>
    (if disconnected d then open_link d e w else Some (d, w))).

Lemma on_event_goes d ev w :
  event_fits T ev -> goes (link_up d) [] d w [] (event_reads d ev) (on_event d ev w).
Proof.
  intros [He Htok]. unfold on_event, event_reads.
  destruct (ev_token ev =? TOKEN_LINK) eqn:Et; cbn [andb]; zbool.
  - case_bool_decide as Ef.
    { eapply goes_rs; [|by apply goes_same]. unfold read_data. rewrite Ef. by destruct (ev_readable ev). }
    eapply goes_rs; [|eapply (goes_bind _ _ _ _ [] [] (if ev_readable ev then read_data d (ev_env ev) else [])
      (fun _ => []))].
    + destruct (if ev_readable ev then link_read d (ev_env ev) w else Some (d, w)); apply app_nil_r.
    + destruct (ev_readable ev); [by apply link_read_goes | by apply goes_same].
    + intros d1 w1 _. cbn beta iota. destruct (_ && _); [by apply link_write_goes | by apply goes_same].
  - destruct (channel_id_for_token (ev_token ev)) as [id|]; [|by apply goes_same].
    specialize (Htok Et id eq_refl). apply stays_goes. eapply stays_bind.
    + by apply (call_channel_stays (InEvent (ev_token ev) (ev_readable ev) (ev_writable ev))
        (d_chan (ev_env ev) 0 id) _ id []); [|apply He|..].
    + intros d1 w1 _. eapply stays_bind; [by apply check_bp_high_stays|].
      intros. apply stays_after_channels.
Qed.

Lemma on_events_goes evs d w :
  Forall (event_fits T) evs -> goes (link_up d) [] d w [] (events_reads d evs w) (on_events d evs w).
Proof.
  intros Hev. revert d w. induction Hev as [|ev evs He Hev IH]; intros d w; cbn [on_events events_reads].
  - by apply goes_same.
  - apply (goes_bind _ _ _ _ [] [] _ (fun x => events_reads x.1 evs x.2)); [by apply on_event_goes|].
    intros. apply IH.
Qed.

Lemma run_pass_goes p d w :
  inv T d w -> pass_fits T p -> goes (link_up d) [] d w [] (pass_reads d p w) (run_pass d p w).
Proof.
  intros Hi [He Hev]. unfold run_pass, pass_reads.
  apply (goes_bind _ _ _ _ [] [] [] (fun x => events_reads x.1 (ps_events p) x.2));
    [by apply run_timers_goes|]. intros. by apply on_events_goes.
Qed.

Lemma run_passes_goes ps d w :
  inv T d w -> Forall (pass_fits T) ps ->
  goes (link_up d) [] d w [] (passes_reads d ps w) (run_passes d ps w).
Proof.
  intros Hi Hps. revert d w Hi.
  induction Hps as [|p ps Hp Hps IH]; intros d w Hi; cbn [run_passes passes_reads].
  - by apply goes_same.
  - apply (goes_bind _ _ _ _ [] [] _ (fun x => passes_reads x.1 ps x.2)); [by apply run_pass_goes|].
    intros d1 w1 E. apply IH. destruct (run_pass_ok T d p w Hi Hp) as (d' & w' & E' & Hi' & _).
    congruence.
Qed.

(** Every run of the daemon is a sequence of acts. *)
Lemma run_goes d e ps w :
  inv T d w -> denv_ok e -> Forall (pass_fits T) ps ->
  goes (link_up d) [] d w [] (run_reads d e ps w) (run d e ps w).
Proof.
  intros Hi He Hps. unfold run, run_reads.
  assert (ok T d w (if disconnected d then open_link d e w else Some (d, w)) /\
    stays [] d w [] (if disconnected d then open_link d e w else Some (d, w))) as [Ho Hg].
  { destruct (disconnected d) eqn:Hd.
    - split; [by apply open_link_ok | by eapply open_link_stays].
    - split; [by apply ok_same | apply stays_same]. }
  apply (goes_bind _ _ _ _ [] [] [] (fun x => passes_reads x.1 ps x.2)); [by apply stays_goes|].
  intros d1 w1 E. apply run_passes_goes; [|done].
  destruct Ho as (d' & w' & E' & Hi' & _). congruence.
Qed.

(** ** What a sequence of acts leaves behind *)

Ltac act_cases Hp :=
  destruct Hp as [m q p pr' q' pe Hquiet Eq Epr|m q p wi|m q p wr pe w q' r data Hok Ed
    |m q p wr data p' fs Hb Ep|m q p wi pe ft q' Hctl Eq
    |m q p wi pe id i e c wc c' fx q' Eg Henv Htok Hcl Ec Hctl Eq
    |m q p wi pe i e wc m' wc' Henv Hbc Ef|m q p wi pe f Hskip].

(** A daemon that has not opened the link yet. *)
Record starts (x : View) : Prop := {
  st_queue : txq_holds (v_queue x) [];
  st_parser : FrameParser.ready (v_parser x) [];
  st_wire : v_wire x = None;
  st_pending : v_pending x = [];
  st_chans : Forall (fun p => ch_inv p.2 /\ channel_id p.2 = p.1 /\
    forall tok, T p.1 tok -> ch_token p.2 tok) (v_chans x);
}.

Lemma enqueue_all_taken q l fs q' :
  txq_holds q l -> enqueue_all q fs = Some q' ->
  txq_holds q' (l ++ concat (map build (taken q fs))).
Proof.
  revert q l. induction fs as [|f fs IH]; intros q l Hq; cbn [enqueue_all taken].
  - intros [= <-]. cbn. by rewrite app_nil_r.
  - destruct (txq_holds_enqueue q l (build f) Hq) as (q1 & -> & Hq1). cbn [mbind option_bind].
    intros E. rewrite (txq_holds_used _ _ Hq). unfold fifo_push in Hq1.
    destruct (_ <=? _); [|by apply IH]. cbn [map concat]. rewrite app_assoc. by apply IH.
Qed.

Lemma taken_sublist q fs : taken q fs `sublist_of` fs.
Proof.
  revert q. induction fs as [|f fs IH]; intros q; cbn [taken]; [done|].
  destruct (txq_enqueue q (build f)); [|apply sublist_nil_l].
  destruct (_ <=? _); by constructor.
Qed.

(** What was written since the link was opened, and what is queued, are the
    frames queued since then. *)
Lemma acts_queue x tr y :
  starts x -> acts x tr y ->
  exists l, txq_holds (v_queue y) l /\
    forall wr, v_wire y = Some wr -> wr ++ l = concat (map build (queued (session tr))).
Proof.
  intros Hx Ha. induction Ha as [|tr a y z Ha (l & Hl & Hw) Hp].
  { exists []. split; [apply Hx|]. intros wr. by rewrite (st_wire _ Hx). }
  act_cases Hp; cbn [v_queue v_wire] in *; one_act.
  - destruct (txq_holds_enqueue (txq_reset q) [] (build hello)) as (q1 & E & Hq1);
      [by eapply txq_holds_reset|]. rewrite Eq in E. injection E as <-.
    rewrite (fifo_push_control F_HELLO : fifo_push [] (build hello) = build hello) in Hq1.
    exists (build hello). split; [done|]. intros wr [= <-]. cbn. by rewrite app_nil_r.
  - exists []. split; [by eapply txq_holds_reset | done].
  - destruct (txq_holds_drain q l w Hl Hok) as (q1 & r1 & sent & l' & E & Hq1 & Hdr).
    rewrite Ed in E. injection E as <- <- <-. exists l'. split; [done|]. intros wr' [= <-].
    rewrite <- app_assoc, <- (fifo_drain_app _ _ _ _ Hdr). by apply Hw.
  - by exists l.
  - exists (l ++ concat (map build (taken q [(ft, 0, [])]))). split.
    + apply (enqueue_all_taken q l [(ft, 0, [])] q' Hl). cbn [enqueue_all]. by rewrite Eq.
    + intros wr E. by rewrite app_assoc, (Hw wr E), map_app, concat_app.
  - exists (l ++ concat (map build (taken q (fx_tx fx)))). split.
    + by apply (enqueue_all_taken q l (fx_tx fx) q').
    + intros wr E. by rewrite app_assoc, (Hw wr E), map_app, concat_app.
  - by exists l.
  - by exists l.
Qed.

(** The bytes received since then are cut into the frames dealt with and those
    pending, and the rest is in the parser. *)
Lemma acts_parser x tr y :
  starts x -> acts x tr y ->
  exists v, FrameParser.ready (v_parser y) v /\ Forall good_frame (v_pending y) /\
    match v_wire y with
    | Some _ => bytes_ok (received (session tr)) /\
        Stream.scan (received (session tr)) = (handled (session tr) ++ v_pending y, v)
    | None => v_pending y = []
    end.
Proof.
  intros Hx Ha. induction Ha as [|tr a y z Ha (v & Hv & Hg & Hr) Hp].
  { exists []. rewrite (st_wire _ Hx), (st_pending _ Hx). split; [apply Hx | done]. }
  act_cases Hp; cbn [v_parser v_pending v_wire] in *; one_act; try by exists v.
  - subst pr'. exists []. split; [by apply (FrameParser.ready_reset _ v)|]. split; [done|].
    split; [constructor | by rewrite Stream.scan_nil].
  - destruct Hr as [Hbs Hr]. rewrite app_nil_r in Hr.
    destruct (FrameParser.feed_frames_refines p v data Hv Hb) as (p1 & E & Hp1).
    rewrite Ep in E. injection E as <- ->.
    assert (bytes_ok (v ++ data)) as Hvb.
    { apply Forall_app. split; [|done]. destruct Hv as [Hv _]. by eapply FrameParser.rep_bytes_ok. }
    exists (Stream.scan (v ++ data)).2. split; [done|]. split.
    { eapply Stream.carved_frames; [by apply Stream.scan_sound | done]. }
    split; [by apply Forall_app|]. rewrite Stream.scan_app by done. rewrite Hr.
    by destruct (Stream.scan (v ++ data)).
  - exists v. apply Forall_app in Hg as [_ Hg]. split; [done|]. split; [done|].
    destruct wi; [by rewrite <- app_assoc | by apply app_eq_nil in Hr as [_ ->]].
  - exists v. apply Forall_cons in Hg as [_ Hg]. split; [done|]. split; [done|].
    destruct wi; [by rewrite <- app_assoc | done].
Qed.

(** ** The channels *)

Definition chan_good (p : Z * C) : Prop :=
  ch_inv p.2 /\ channel_id p.2 = p.1 /\ forall tok, T p.1 tok -> ch_token p.2 tok.

Lemma chan_good_step id c i e fx :
  chan_good (id, c) -> env_ok e -> payload_ok i -> token_fits id i ->
  exists c' fx' sent, chan_step c i e fx = Some (c', fx') /\ chan_good (id, c') /\
    fx_tx fx' = fx_tx fx ++ sent /\ Forall (frame_of id) sent.
Proof.
  intros (Hi & Hid & Ht) He Hpl Htok. cbn [fst snd] in *.
  assert (input_ok ch_token c i) as Hin by (split; [done|]; destruct i; auto).
  destruct (ch_step c i e fx Hi He Hin) as (c' & fx' & sent & E & Hi' & Hid' & _ & Htx & Hf & _).
  exists c', fx', sent. rewrite Hid in Hf. split; [done|]. split; [|done].
  split; [done|]. split; [cbn; congruence|].
  intros tok HT. eapply ch_token_stable; [exact E | exact Hi | done | done | auto].
Qed.

(** What a call to every channel does to each. *)
Lemma for_channels_get i e (m : list (Z * C)) wc m' wc' :
  for_channels (fun id c fx => chan_step c i (e id) fx) m wc = Some (m', wc') ->
  forall id, match get id m' with
    | Some c' => exists c w fx, get id m = Some c /\ chan_step c i (e id) (mkFx [] w) = Some (c', fx)
    | None => get id m = None
    end.
Proof.
  revert wc m' wc'. induction m as [|[k c] m IH]; intros wc m' wc'; cbn [for_channels].
  - by intros [= <- <-].
  - intros ([c1 fx1] & E1 & ([m1 w1] & E2 & [= <- <-])%bind_Some)%bind_Some id. cbn [get].
    destruct (k =? id) eqn:Ek; zbool; [|by eapply IH]. subst k. by exists c, wc, fx1.
Qed.

Lemma for_channels_good i e (m : list (Z * C)) wc m' wc' :
  Forall chan_good m -> (forall id, env_ok (e id)) -> broadcast i = true ->
  for_channels (fun id c fx => chan_step c i (e id) fx) m wc = Some (m', wc') ->
  Forall chan_good m'.
Proof.
  intros Hm He Hb. revert wc m' wc'. induction Hm as [|[k c] m Hc Hm IH]; intros wc m' wc';
    cbn [for_channels]; [intros [= <- _]; constructor|].
  intros ([c1 fx1] & E1 & ([m1 w1] & E2 & [= <- _])%bind_Some)%bind_Some.
  constructor; [|by eapply IH].
  destruct (chan_good_step k c i (e k) (mkFx [] wc) Hc (He k)) as (c' & fx' & sent & E & Hc' & _).
  1,2: by destruct i. congruence.
Qed.

Lemma payload_pending id i pe : Forall good_frame (frames_in id i ++ pe) -> payload_ok i.
Proof.
  destruct i as [ft pl| | | | | | |]; try done.
  by intros [[Hl (_ & _ & Hb)] _]%Forall_cons.
Qed.

Lemma control_u8 ft : is_control ft = true -> u8 ft.
Proof. unfold is_control. rewrite !orb_true_iff, !Z.eqb_eq. by intros [[[-> | ->] | ->] | ->]. Qed.

(** The channels obey their laws all along, and are called as the laws ask. *)
Lemma acts_good x tr y :
  starts x -> acts x tr y ->
  Forall chan_good (v_chans y) /\ forall id, Forall hist_ok (calls id tr).
Proof.
  intros Hx Ha. induction Ha as [|tr a y z Ha [Hg Hh] Hp].
  { split; [apply Hx|]. intros id. apply Forall_nil_2. }
  destruct (acts_parser x tr y Hx Ha) as (_ & _ & Hpe & _).
  act_cases Hp; cbn [v_chans v_pending] in *;
    (split; [try done | intros id'; one_act; try done]).
  - apply payload_pending in Hpe. destruct (chan_good_step id c i e (mkFx [] wc) (get_Forall _ _ _ _ Hg Eg) Henv Hpe Htok)
      as (c1 & fx1 & sent & E & Hc & _). rewrite Ec in E. injection E as <- <-.
    by apply replace_Forall.
  - apply Forall_app. split; [done|]. destruct (id =? id'); [|done].
    apply Forall_singleton. split; [done | by eapply payload_pending].
  - by eapply for_channels_good.
  - apply Forall_app. split; [done|]. apply Forall_singleton. split; [by apply Henv|]. by destruct i.
Qed.

Lemma acts_known x tr y k :
  acts x tr y -> get k (v_chans y) = None <-> get k (v_chans x) = None.
Proof.
  induction 1 as [|tr a y z _ IH Hp]; [done|]. rewrite <- IH.
  act_cases Hp; cbn [v_chans]; try done.
  - destruct (decide (k = id)) as [->|Hne]; [|by rewrite DaemonFlow.get_replace_ne].
    rewrite (DaemonFlow.get_replace_eq _ _ _ _ Eg). by rewrite Eg.
  - pose proof (for_channels_get _ _ _ _ _ _ Ef k) as Hget.
    destruct (get k m') as [c'|]; [|by rewrite Hget]. by destruct Hget as (c & w & fx & -> & _).
Qed.

(** No channel is closed while the daemon runs. *)
Lemma acts_not_closed x tr y k : acts x tr y -> Forall (fun h => h.1 <> InClose) (calls k tr).
Proof.
  induction 1 as [|tr a y z _ IH Hp]; [constructor|].
  act_cases Hp; one_act; try done; (apply Forall_app; split; [done|]).
  - destruct (id =? k); [by apply Forall_singleton | constructor].
  - apply Forall_singleton. by destruct i.
Qed.

(** Frames for [k]: those handed to it are those dealt with, and those of the
    queue are those it sent and the queue had room for. *)
Lemma filter_frames_in k id i :
  Forall (fun f => is_control f.1.1 = false) (frames_in id i) ->
  filter (for_channel k) (frames_in id i) = if id =? k then frames_in id i else [].
Proof.
  destruct i as [ft pl| | | | | | |]; cbn [frames_in]; intros Hc; try by case_match.
  apply Forall_cons in Hc as [Hc _]. destruct (id =? k) eqn:E; zbool.
  - by rewrite filter_cons_True.
  - rewrite filter_cons_False; [done|]. by intros [? _].
Qed.

Lemma acts_handed x tr y k :
  acts x tr y -> get k (v_chans x) <> None ->
  handed k (session tr) = filter (for_channel k) (handled (session tr)).
Proof.
  intros Ha Hk. induction Ha as [|tr a y z Ha IH Hp]; [done|].
  pose proof (acts_known x tr y k Ha) as Hkn.
  act_cases Hp; cbn [v_chans] in *; one_act; try done.
  - by rewrite filter_app, filter_frames_in, IH.
  - rewrite filter_app, IH. rewrite filter_cons_False, app_nil_r; [done|].
    intros [Hid Hc]. destruct Hskip as [Hs|Hs]; [congruence|]. rewrite Hid in Hs. tauto.
Qed.

(** The frames of a history of calls. *)
Definition frames_of (k : Z) (h : list (input * Env)) : list frame := h ≫= fun x => frames_in k x.1.

Lemma frames_of_app k h1 h2 : frames_of k (h1 ++ h2) = frames_of k h1 ++ frames_of k h2.
Proof. apply bind_app. Qed.

Lemma acts_handed_calls x tr y k :
  acts x tr y -> handed k (session tr) = frames_of k (calls k (session tr)).
Proof.
  induction 1 as [|tr a y z Ha IH Hp]; [done|].
  act_cases Hp; one_act; rewrite ?frames_of_app, ?IH; try done.
  - f_equal. destruct (id =? k) eqn:E; zbool; [|done]. subst. cbn. by rewrite app_nil_r.
  - destruct i; try done; cbn; by rewrite app_nil_r.
Qed.

Lemma filter_of_channel k id fs :
  Forall (frame_of id) fs -> filter (for_channel k) fs = if id =? k then fs else [].
Proof.
  induction 1 as [|f fs (Hid & [_ Hc]%channel_type_spec & _) Hfs IH]; [by case_match|].
  destruct (id =? k) eqn:E; zbool.
  - rewrite filter_cons_True by (split; congruence). by rewrite IH.
  - rewrite filter_cons_False, IH; [done|]. intros [? _]. congruence.
Qed.

Lemma taken_Forall (P : frame -> Prop) q fs : Forall P fs -> Forall P (taken q fs).
Proof.
  rewrite !Forall_forall. intros Hf f Hin. apply Hf. eapply elem_of_sublist; [done|].
  apply taken_sublist.
Qed.

Lemma acts_accepted x tr y k :
  starts x -> acts x tr y ->
  accepted k (session tr) = filter (for_channel k) (queued (session tr)) /\
  accepted k (session tr) `sublist_of` offered k (session tr) /\
  Forall (frame_of k) (accepted k (session tr)).
Proof.
  intros Hx Ha. induction Ha as [|tr a y z Ha (IH & Hs & Hf) Hp]; [by repeat split|].
  destruct (acts_good x tr y Hx Ha) as [Hg _]. destruct (acts_parser x tr y Hx Ha) as (_ & _ & Hpe & _).
  act_cases Hp; cbn [v_chans v_pending] in *; one_act; try done.
  - split; [|by split]. rewrite filter_cons_False; [done|]. by intros [_ ?].
  - split; [|by split]. rewrite filter_app, <- IH. cbn [taken]. rewrite Eq.
    case_match; [|by rewrite app_nil_r]. rewrite filter_cons_False, app_nil_r; [done|].
    intros [_ Hc]. cbn in Hc. congruence.
  - apply payload_pending in Hpe.
    destruct (chan_good_step id c i e (mkFx [] wc) (get_Forall _ _ _ _ Hg Eg) Henv Hpe Htok)
      as (c1 & fx1 & sent & E & _ & Htx & Hsent). rewrite Ec in E. injection E as <- <-.
    cbn [fx_tx app] in Htx. rewrite Htx.
    rewrite filter_app, <- IH, (filter_of_channel k id) by by apply taken_Forall.
    split; [done|]. destruct (id =? k) eqn:Ek; [|by rewrite !app_nil_r]. zbool. subst k.
    split; [by apply sublist_app, taken_sublist|]. apply Forall_app. by split; [|apply taken_Forall].
  - split; [done|]. split; [by apply sublist_inserts_r | done].
Qed.

(** A frame of one of the daemon's own types, or of a channel's types and one of
    the channels [ids]. *)
Definition well_typed (ids : list Z) (f : frame) : Prop :=
  good_frame f /\
  (is_control f.1.1 = true /\ f.1.2 = 0 /\ f.2 = [] \/
   is_channel_type f.1.1 = true /\ f.1.2 ∈ ids).

Lemma control_typed ids ft : is_control ft = true -> well_typed ids (ft, 0, []).
Proof. intros Hc. split; [by apply good_nil, control_u8 | by left]. Qed.

Lemma get_elem id (m : list (Z * C)) : get id m <> None -> id ∈ map fst m.
Proof.
  induction m as [|[k c] m IH]; cbn [get map fst]; [done|].
  destruct (k =? id) eqn:E; zbool; subst; [by left | right; by apply IH].
Qed.

Lemma acts_typed x tr y :
  starts x -> acts x tr y -> Forall (well_typed (map fst (v_chans x))) (queued tr).
Proof.
  intros Hx Ha. induction Ha as [|tr a y z Ha IH Hp]; [constructor|].
  destruct (acts_good x tr y Hx Ha) as [Hg _]. destruct (acts_parser x tr y Hx Ha) as (_ & _ & Hpe & _).
  pose proof (acts_known x tr y) as Hkn.
  act_cases Hp; cbn [v_chans v_pending] in *; one_act; try done;
    (apply Forall_app; split; [done|]).
  - by apply Forall_singleton, control_typed.
  - by apply taken_Forall, Forall_singleton, control_typed.
  - apply taken_Forall. apply payload_pending in Hpe. pose proof (get_Forall _ _ _ _ Hg Eg) as Hc.
    destruct (chan_good_step id c i e (mkFx [] wc) Hc Henv Hpe Htok)
      as (c1 & fx1 & sent & E & _ & Htx & Hsent). rewrite Ec in E. injection E as <- <-.
    cbn [fx_tx app] in Htx. rewrite Htx. destruct Hc as (Hi & Hid & _). cbn [fst snd] in Hi, Hid.
    eapply Forall_impl; [exact Hsent|]. intros f Hf. split.
    + apply (frame_of_fits id f Hf). rewrite <- Hid. by apply ch_inv_id.
    + right. destruct Hf as (-> & Ht & _). split; [exact Ht|].
      apply get_elem. intros Hn. apply (Hkn id Ha) in Hn. congruence.
Qed.

(** The link is up exactly when a frame of the handshake has been dealt with
    since it was opened. *)
Lemma acts_up x tr y :
  starts x -> acts x tr y ->
  ups false tr = match v_wire y with
                 | Some _ => existsb is_handshake (handled (session tr))
                 | None => false
                 end.
Proof.
  intros Hx Ha. induction Ha as [|tr a y z Ha IH Hp]; [by rewrite (st_wire _ Hx)|].
  rewrite ups_app. change (ups ?u [a]) with (up_after u a). rewrite IH. clear IH.
  destruct (acts_parser x tr y Hx Ha) as (v & _ & _ & Hpe).
  act_cases Hp; cbn [v_wire v_pending up_after] in *; one_act; rewrite ?existsb_app; try done.
  - destruct wi as [wr|]; [|done]. destruct i as [ft pl| | | | | | |];
      cbn [frames_in existsb]; rewrite ?orb_false_r; try done.
    apply Forall_cons in Hctl as [Hc _]. by rewrite (no_handshake _ Hc), orb_false_r.
  - destruct wi as [wr|]; [|done]. cbn [existsb]. by rewrite orb_false_r.
Qed.

(** An open link starts with the daemon's own hello. *)
Lemma acts_hello x tr y :
  starts x -> acts x tr y -> is_Some (v_wire y) ->
  exists fs, queued (session tr) = hello :: fs.
Proof.
  intros Hx Ha. induction Ha as [|tr a y z Ha IH Hp]; [by rewrite (st_wire _ Hx); intros [? [=]]|].
  act_cases Hp; cbn [v_wire] in *; one_act; intros Hw; try done.
  1: by eexists.
  all: destruct IH as [rest ->]; [first [exact Hw | by eexists] | by eexists].
Qed.

Lemma acts_queued_good x tr y :
  starts x -> acts x tr y -> Forall good_frame (queued (session tr)).
Proof.
  intros Hx Ha. pose proof (acts_typed x tr y Hx Ha) as Ht.
  rewrite <- (past_session tr), queued_app in Ht. apply Forall_app in Ht as [_ Ht].
  eapply Forall_impl; [exact Ht|]. by intros f [].
Qed.

Context `{!ChannelShift C}.

Lemma run_extend c1 o1 h c o i e c' fx w :
  chan_run c1 o1 h = Some (c, o) -> chan_step c i e (mkFx [] w) = Some (c', fx) ->
  exists o', chan_run c1 o1 (h ++ [(i, e)]) = Some (c', o') /\ fx_tx o' = fx_tx o ++ fx_tx fx.
Proof.
  intros Hr Hs. destruct (chan_step_local _ _ _ _ _ _ o Hs) as (o' & E & sent & Ho & Htx).
  exists o'. rewrite chan_run_app, Hr. cbn. rewrite E. cbn [mbind option_bind].
  cbn [fx_tx app] in Htx. by rewrite Ho, Htx.
Qed.

Lemma asks_eq m i e k c c' w fx :
  get k m = Some c -> chan_step c i (e k) (mkFx [] w) = Some (c', fx) -> asks m i e k = fx_tx fx.
Proof.
  intros Hg Hs. unfold asks. rewrite Hg.
  destruct (chan_step_local _ _ _ _ _ _ fx0 Hs) as (o' & -> & sent & Ho & Htx).
  by rewrite Ho, Htx.
Qed.

(** A channel is where its own calls have brought it; when the link was last
    opened it had nothing to say. *)
Lemma acts_channel x tr y k ch :
  starts x -> acts x tr y -> get k (v_chans y) = Some ch ->
  exists c0 c1 o1 o, get k (v_chans x) = Some c0 /\
    chan_run c0 fx0 (calls k (past tr)) = Some (c1, o1) /\
    chan_run c1 o1 (calls k (session tr)) = Some (ch, o) /\
    fx_tx o = fx_tx o1 ++ offered k (session tr) /\
    (v_wire x = None -> is_Some (v_wire y) -> ch_quiet c1 /\ ch_inv c1).
Proof.
  intros Hx Ha. revert ch. induction Ha as [|tr a y z Ha IH Hp]; intros ch Hc.
  { exists ch, ch, fx0, fx0. do 4 (split; [done|]). intros ->. by intros [? [=]]. }
  assert (forall c, get k (v_chans y) = Some c -> exists c0 o, get k (v_chans x) = Some c0 /\
    chan_run c0 fx0 (calls k tr) = Some (c, o)) as Hall.
  { intros c2 Hc2. destruct (IH c2 Hc2) as (c0 & c1 & o1 & o & Hc0 & Hr1 & Hr2 & _).
    exists c0, o. split; [done|]. rewrite <- (past_session tr), calls_app, chan_run_app, Hr1. done. }
  act_cases Hp; cbn [v_chans v_wire] in *; one_act;
    try (destruct (IH ch Hc) as (c0 & c1 & o1 & o & ? & ? & ? & ? & Hq1); exists c0, c1, o1, o;
         do 4 (split; [done|]); intros ? ?; apply Hq1; [done | first [done | by eexists]]).
  - destruct (Hall ch Hc) as (c0 & o & Hc0 & Hr). exists c0, ch, o, o.
    split; [done|]. split; [done|]. split; [done|]. split; [by rewrite app_nil_r|].
    intros _ _. split; [apply (get_Forall _ _ _ _ Hquiet Hc)|].
    destruct (acts_good x tr _ Hx Ha) as [Hg _]. apply (get_Forall _ _ _ _ Hg Hc).
  - destruct (Hall ch Hc) as (c0 & o & Hc0 & Hr). exists c0, ch, o, o.
    split; [done|]. split; [done|]. split; [done|]. split; [by rewrite app_nil_r|]. by intros _ [? [=]].
  - destruct (decide (k = id)) as [->|Hne].
    + rewrite (DaemonFlow.get_replace_eq _ _ _ _ Eg) in Hc. injection Hc as <-. rewrite !Z.eqb_refl.
      destruct (IH _ Eg) as (c0 & c1 & o1 & o & Hc0 & Hr1 & Hr2 & Htx & Hq1).
      destruct (run_extend _ _ _ _ _ _ _ _ _ _ Hr2 Ec) as (o' & Hr' & Htx').
      exists c0, c1, o1, o'. do 3 (split; [done|]). split; [by rewrite Htx', Htx, app_assoc | done].
    + rewrite DaemonFlow.get_replace_ne in Hc by done.
      destruct (IH ch Hc) as (c0 & c1 & o1 & o & ? & ? & ? & ? & ?). exists c0, c1, o1, o.
      rewrite (proj2 (Z.eqb_neq id k)) by congruence. by rewrite !app_nil_r.
  - pose proof (for_channels_get _ _ _ _ _ _ Ef k) as Hget. rewrite Hc in Hget.
    destruct Hget as (c2 & w & fx & Hc2 & Hs).
    destruct (IH _ Hc2) as (c0 & c1 & o1 & o & Hc0 & Hr1 & Hr2 & Htx & Hq1).
    destruct (run_extend _ _ _ _ _ _ _ _ _ _ Hr2 Hs) as (o' & Hr' & Htx').
    exists c0, c1, o1, o'. do 3 (split; [done|]). split; [|done].
    by rewrite (asks_eq _ _ _ _ _ _ _ _ Hc2 Hs), Htx', Htx, app_assoc.
Qed.

End Acts.
End DaemonTrace.
