(* ===== verification/DaemonRuns.v ===== *)
(** * Runs of the daemon

    A host daemon with an MCU channel and a TCP channel, over the plain FIFO, on
    which the theorems of [DaemonProofs.v], [DaemonFlow.v] and [Channels.v] are
    instantiated. *)
From Stdlib Require Import ZArith Lia.
From stdpp Require Import base option numbers list strings.
From S2P Require Import Prelude Protocol Stream Parser TxQueue Serial Chan Discovery Logging Mcu Pty Tcp TcpSource TcpDest Cli Daemon DaemonProofs DaemonFlow Channels.

Local Open Scope Z_scope.

Module DaemonRuns.
Import Daemon DaemonProofs Channels ChannelsProofs.

#[local] Existing Instance crc32_zlib.
#[local] Existing Instance fifo_ops.
#[local] Existing Instance fifo_laws.

Definition Host : Type := t (list Z) AnyChannel.

(** The sample link of the README: one MCU and one TCP tunnel. *)
Definition specs : list Cli.ChannelSpec :=
  [Cli.McuHost 0 "/tmp/klipper_mcu" 230400; Cli.TcpHost 2 "127.0.0.1" 7125].

Definition chan_envs (k : nat) : Env := sample_env 0 [].

Definition channels0 : list AnyChannel :=
  match (build_channels specs chan_envs fx0).1 with Ok cs => cs | Err _ => [] end.

Definition world1 : DWorld := mkWorld [] (fx_sys (build_channels specs chan_envs fx0).2).

Definition host0 : Host := new "host" (Some "/dev/ttyGS0"%string) None channels0 0.

(** No USB device is looked for. *)
Definition no_sysfs : Discovery.Sysfs := Discovery.mkSysfs None (fun _ => None) (fun _ => None).

(** A system that has [data] to read from every descriptor. *)
Definition denv (now : Z) (data : list Z) : DEnv := {|
  d_now := now;
  d_sysfs := no_sysfs;
  d_serial := granting 3;
  d_register := Ok tt;
  d_read := Ok data;
  d_write := fun d => Ok (zlen d);
  d_chan := fun _ _ => sample_env now data;
|}.

Lemma denv_sample now data : zlen data <= READ_BUF -> bytes_ok data -> denv_ok (denv now data).
Proof.
  intros Hl Hb. constructor.
  - split; [|done]. unfold LINK_READ_BUF, READ_BUF in *. lia.
  - intros d n [= <-]. pose proof (zlen_nonneg d). lia.
  - intros k id. by apply sample_env_ok.
Qed.

(** The peer says hello; the link can be written; a client of the MCU writes. *)
Definition passes : list Pass :=
  [mkPass (denv (secs 1) [])
     [mkEvent TOKEN_LINK true true (denv (secs 1) (build (F_HELLO, 0, [])))];
   mkPass (denv (secs 2) [])
     [mkEvent TOKEN_LINK true true (denv (secs 2) (build (F_READY, 0, [])));
      mkEvent (primary_token 0) true false (denv (secs 2) [1; 2; 3])]].

Lemma specs_valid : Forall (Cli.valid_spec Cli.host) specs.
Proof.
  apply Forall_forall. intros c Hc.
  apply (CliProofs.parse_sound Cli.host (Cli.print_spec c)).
  repeat (apply elem_of_cons in Hc as [->|Hc]; [vm_compute; reflexivity|]).
  by apply not_elem_of_nil in Hc.
Qed.

Lemma channels0_built : build_channels specs chan_envs fx0 = (Ok channels0, mkFx [] (w_chan world1)).
Proof. reflexivity. Qed.

Lemma channels0_new : Forall new_channel channels0.
Proof.
  by destruct (build_channels_spec Cli.host specs chan_envs fx0 channels0
    (mkFx [] (w_chan world1)) specs_valid channels0_built).
Qed.

Lemma frame_bytes_ok f : frame_bytes f -> bytes_ok (build f).
Proof.
  intros Hf. pose proof (FrameParser.build_all_bytes_ok [f]) as Hb. cbn in Hb.
  rewrite app_nil_r in Hb. apply Hb. by apply Forall_singleton.
Qed.

(** The token of the events is the primary token of channel 0, a [PtyChannel]. *)
Lemma token0 tok id :
  tok = primary_token 0 -> channel_id_for_token tok = Some id -> tokens_of channels0 id tok.
Proof.
  intros -> [= <-] c Hc Hid.
  apply elem_of_cons in Hc as [->|Hc]; [by split; [left|]|].
  apply elem_of_cons in Hc as [->|Hc]; [done|]. by apply not_elem_of_nil in Hc.
Qed.

Lemma passes_fit : Forall (pass_fits (tokens_of channels0)) passes.
Proof.
  assert (forall now, denv_ok (denv now [])) as Hnil.
  { intros. apply denv_sample; [done | constructor]. }
  assert (forall now ft, u8 ft -> denv_ok (denv now (build (ft, 0, [])))) as Hctl.
  { intros now ft Hft. apply denv_sample.
    - pose proof (build_frame_bound ft 0 []). unfold build, READ_BUF, MAX_FRAME in *.
      rewrite build_frame_length by done. done.
    - apply frame_bytes_ok. by destruct (good_nil ft Hft). }
  assert (denv_ok (denv (secs 2) [1; 2; 3])) as Hdata.
  { apply denv_sample; [done|]. unfold bytes_ok. repeat (constructor; [by unfold u8|]). constructor. }
  assert (forall e, denv_ok e -> event_fits (tokens_of channels0) (mkEvent TOKEN_LINK true true e))
    as Hlink by by split.
  repeat apply Forall_cons_2; [| |apply Forall_nil_2]; (split; [apply Hnil|]);
    repeat apply Forall_cons_2; try apply Forall_nil_2; try (by apply Hlink, Hctl).
  split; [exact Hdata|]. intros _ id. by apply token0.
Qed.

(** The run itself: the handshake goes out, then the data of the client. *)
Example host_run :
  (fun '(d, w) => (link_up d, written (w_link w) 3, txq d)) <$> run host0 (denv 0 []) passes world1 =
  Some (true, build hello ++ build (F_ACK, 0, []), build (F_DATA, 0, [1; 2; 3])).
Proof. vm_compute. reflexivity. Qed.

Lemma daemon_safe_witness :
  exists d w, run host0 (denv 0 []) passes world1 = Some (d, w) /\
    ids d = [0; 2] /\ (link_fd d = None <-> disconnected d = true).
Proof.
  destruct (daemon_safe "host" (Some "/dev/ttyGS0"%string) None channels0 0 (denv 0 []) passes world1)
    as (d & w & E & Hids & Hfd & _).
  - exact channels0_new.
  - apply denv_sample; [done | constructor].
  - exact passes_fit.
  - exists d, w. split; [exact E|]. split; [exact Hids | exact Hfd].
Defined.

Lemma daemon_backpressure_witness :
  exists d w, run host0 (denv 0 []) passes world1 = Some (d, w) /\
    Forall (fun p => ch_paused p.2 = link_bp d) (channels d).
Proof.
  destruct (daemon_backpressure "host" (Some "/dev/ttyGS0"%string) None channels0 0 (denv 0 [])
    passes world1) as (d & w & E & Hp & _).
  - exact channels0_new.
  - apply denv_sample; [done | constructor].
  - exact passes_fit.
  - exists d, w. split; [exact E | exact Hp].
Defined.

Lemma daemon_no_lost_write_witness :
  exists d w d' w', run host0 (denv 0 []) passes world1 = Some (d, w) /\
    run_timers d (denv (secs 3) []) w = Some (d', w') /\
    (txq_is_empty (txq d') = false ->
     exists fd i, link_fd d' = Some fd /\
       registered (w_link w') fd = Some (TOKEN_LINK, i) /\ is_writable i = true).
Proof.
  apply (daemon_no_lost_write "host" (Some "/dev/ttyGS0"%string) None channels0 0 (denv 0 []) passes
    (denv (secs 3) []) world1).
  - exact channels0_new.
  - apply denv_sample; [done | constructor].
  - exact passes_fit.
  - apply denv_sample; [done | constructor].
Defined.

Lemma daemon_wire_witness :
  exists d w, run host0 (denv 0 []) passes world1 = Some (d, w) /\
    forall fd, link_fd d = Some fd ->
      exists fs p delivered, FrameParser.feed_chunks FrameParser.new [written (w_link w) fd]
          = Some (p, delivered) /\ delivered `prefix_of` hello :: fs.
Proof.
  destruct (daemon_wire "host" (Some "/dev/ttyGS0"%string) None channels0 0 (denv 0 []) passes world1)
    as (d & w & E & Hw).
  - exact channels0_new.
  - apply denv_sample; [done | constructor].
  - exact passes_fit.
  - exists d, w. split; [exact E|]. intros fd Hfd. destruct (Hw fd Hfd) as (fs & _ & Hc).
    destruct (Hc [written (w_link w) fd]) as (p & del & Ef & Hpre & _).
    { cbn. by rewrite app_nil_r. }
    exists fs, p, del. split; [exact Ef | exact Hpre].
Defined.

(** The command line of those channels. *)
Definition raw_args : Cli.RawArgs :=
  Cli.mkRaw (Some "/dev/ttyGS0"%string) None ["mcu:0:/tmp/klipper_mcu"; "tcp:2:127.0.0.1:7125"]%string.

Definition command : Cli.Command :=
  Cli.Host (Cli.mkModeArgs (Some "/dev/ttyGS0"%string) None specs).

Lemma serialmux_safe_witness :
  Cli.cli_parse Cli.host raw_args = Cli.Good command /\
  exists d w,
    main (Q := list Z) Logging.no_dir command no_sysfs [] (Ok tt) chan_envs 0 (denv 0 []) passes =
      Running (Some (d, w)) /\
    map fst (channels d) = [0; 2].
Proof.
  assert (Cli.cli_parse Cli.host raw_args = Cli.Good command) as Hc by reflexivity.
  split; [exact Hc|].
  destruct (serialmux_safe (Q := list Z) Logging.no_dir Cli.host raw_args command no_sysfs []
    (Ok tt) chan_envs 0 (denv 0 []) passes Hc) as [_ Hs].
  - apply denv_sample; [done | constructor].
  - intros args chs fx [= <-]. cbn [Cli.channels]. rewrite channels0_built. intros [= <- <-].
    exact passes_fit.
  - destruct (main Logging.no_dir command no_sysfs [] (Ok tt) chan_envs 0 (denv 0 []) passes)
      as [| | |r] eqn:E; [exfalso; revert E; by vm_compute..|].
    destruct Hs as (args & chs & fx & d & w & Ea & _ & _ & -> & Hd).
    exists d, w. split; [reflexivity|]. injection Ea as <-. exact (sv_ids _ _ Hd).
Defined.

(** ** A daemon whose link is open *)

Definition opened : Host * DWorld :=
  match open_link host0 (denv 0 []) world1 with Some x => x | None => (host0, world1) end.

Lemma inv_host0 : inv (tokens_of channels0) host0 world1.
Proof.
  apply inv_new. pose proof channels0_new as Hn. rewrite Forall_forall in Hn.
  apply Forall_forall. intros c Hc. destruct (Hn c Hc) as (? & ? & ?). split_and!; try done.
  intros tok Ht. by apply Ht.
Qed.

Lemma inv_opened : inv (tokens_of channels0) opened.1 opened.2.
Proof.
  destruct (open_link_ok (tokens_of channels0) host0 (denv 0 []) world1 inv_host0)
    as (d & w & E & Hi & _); [by apply denv_sample; [|constructor] | done|].
  unfold opened. by rewrite E.
Qed.

Lemma opened_queue : txq_holds (txq opened.1) (build hello).
Proof. by split. Qed.

Lemma handshake_witness :
  exists d w, dispatch_frame opened.1 F_HELLO 0 [] (denv 0 []) 0 opened.2 = Some (d, w) /\
    link_up d = true /\ exists more,
      txq_holds (txq d) (fifo_push (build hello) (build (F_ACK, 0, [])) ++ concat (map build more)).
Proof.
  destruct (handshake (tokens_of channels0) opened.1 F_HELLO 0 [] (denv 0 []) 0 opened.2 (build hello))
    as (d & w & E & _ & Hup & _ & _ & Hq).
  - exact inv_opened.
  - apply denv_sample; [done | constructor].
  - reflexivity.
  - apply payload_fits_nil.
  - exact opened_queue.
  - exists d, w. split; [exact E|]. split; [exact Hup|]. exact (Hq eq_refl).
Defined.

(** The peer says hello, the answers are written, and then there is silence. *)
Definition hello_event : Event := mkEvent TOKEN_LINK true true (denv (secs 1) (build (F_HELLO, 0, []))).

Definition shook : Host * DWorld :=
  match on_event opened.1 hello_event opened.2 with Some x => x | None => opened end.

Lemma hello_env : denv_ok (ev_env hello_event).
Proof.
  apply denv_sample; [by vm_compute|]. apply frame_bytes_ok. by destruct (good_nil F_HELLO ltac:(done)).
Qed.

Lemma inv_shook : inv (tokens_of channels0) shook.1 shook.2.
Proof.
  destruct (on_event_ok (tokens_of channels0) opened.1 hello_event opened.2 inv_opened)
    as (d & w & E & Hi & _); [split; [exact hello_env | done]|].
  unfold shook. by rewrite E.
Qed.

(** Silence for long, and silence for [KA_INTERVAL] after the handshake. *)
Lemma keepalive_witness :
  (exists d w, tick_keepalive opened.1 (secs 11) (denv (secs 11) []) opened.2 = Some (d, w) /\
     disconnected d = true /\ link_fd d = None /\ reopen_at d = secs 11 + millis 500) /\
  exists d w, tick_keepalive shook.1 (secs 4) (denv (secs 4) []) shook.2 = Some (d, w) /\
    txq d = build (F_PING, 0, []) /\ last_tx d = Some (secs 4).
Proof.
  split.
  - destruct (DaemonFlow.keepalive (tokens_of channels0) opened.1 (denv (secs 11) []) opened.2 3 0 0)
      as (d & w & E & Hd & Hf & Hr & _).
    + exact inv_opened.
    + apply denv_sample; [done | constructor].
    + reflexivity.
    + reflexivity.
    + reflexivity.
    + exists d, w. split; [exact E|]. split; [exact Hd|]. split; [exact Hf | exact Hr].
  - destruct (DaemonFlow.keepalive (tokens_of channels0) shook.1 (denv (secs 4) []) shook.2 3
      (secs 1) (secs 1)) as (d & w & E & Hping).
    + exact inv_shook.
    + apply denv_sample; [done | constructor].
    + reflexivity.
    + reflexivity.
    + reflexivity.
    + assert (link_up shook.1 && (KA_INTERVAL <=? duration_since (secs 4) (secs 1)) &&
        txq_is_empty (txq shook.1) = true) as Hc by by vm_compute.
      exists d, w. split; [exact E|]. cbn [d_now denv] in Hping. rewrite Hc in Hping.
      destruct Hping as ([Hq _] & Ht & _). by split.
Defined.

(** While [poll] sleeps, and after it: the first look is one nanosecond before its
    timeout, and finds [F_HELLO] still waiting. *)
Lemma poll_timeout_witness :
  run_timers opened.1 (denv (MAX_TICK - 1) []) opened.2 =
    Some (set_last_tx (Some (MAX_TICK - 1)) opened.1, set_link_write_interest opened.1 true opened.2) /\
  exists d w, run_timers opened.1 (denv (secs 11) []) opened.2 = Some (d, w) /\
    next_timeout d (secs 11) <= MAX_TICK /\ 0 < next_timeout d (secs 11).
Proof.
  destruct (DaemonFlow.poll_timeout (tokens_of channels0) opened.1 0 (denv (MAX_TICK - 1) []) opened.2)
    as (_ & Hidle & _); [exact inv_opened | apply denv_sample; [done | constructor] |].
  destruct (DaemonFlow.poll_timeout (tokens_of channels0) opened.1 0 (denv (secs 11) []) opened.2)
    as (_ & _ & d & w & E & Hnext); [exact inv_opened | apply denv_sample; [done | constructor] |].
  split; [apply Hidle; [by vm_compute | reflexivity]|].
  exists d, w. split; [exact E|]. symmetry in E. vm_compute in E. injection E as -> ->. by vm_compute.
Defined.

(** The one exception: before the handshake [poll] is told to sleep for [MAX_TICK] when
    the link is to be given up a nanosecond later. *)
Example late_before_handshake :
  next_timeout opened.1 KA_TIMEOUT = MAX_TICK /\
  DaemonFlow.unheard opened.1 (KA_TIMEOUT + 1) = true /\
  match run_timers opened.1 (denv (KA_TIMEOUT + 1) []) opened.2 with
  | Some (d, _) => disconnected d = true
  | None => False
  end.
Proof. by vm_compute. Qed.

(** No device twice, then one. *)
Definition no_device (now : Z) : DEnv := {|
  d_now := now;
  d_sysfs := no_sysfs;
  d_serial := {| sys_open := Err EIO; sys_tcgetattr := Err EIO; sys_cfsetspeed := Err EIO;
                 sys_tcsetattr := Err EIO; sys_openpty := Err EIO; sys_getfl := Err EIO;
                 sys_setfl := Err EIO; sys_readlink := Err EIO |};
  d_register := Ok tt;
  d_read := Ok [];
  d_write := fun d => Ok (zlen d);
  d_chan := fun _ _ => sample_env now [];
|}.

Lemma reopen_backoff_witness :
  exists d1 w1, DaemonFlow.attempts host0 [no_device 0; no_device (secs 1)] world1 = Some (d1, w1) /\
    reopen_delay d1 = secs 2 /\ reopen_at d1 = secs 2 /\
    exists fd d2 w2, open_link d1 (denv (secs 2) []) w1 = Some (d2, w2) /\ link_fd d2 = Some fd /\
      reopen_delay d2 = millis 500.
Proof.
  destruct (DaemonFlow.reopen_backoff (tokens_of channels0) host0 world1
    [no_device 0; no_device (secs 1)] (denv (secs 2) []))
    as (at' & d1 & w1 & E & Ed & Hat & _ & fd & d2 & w2 & E2 & Hf & _ & Hr & _).
  - exact inv_host0.
  - reflexivity.
  - repeat constructor.
  - reflexivity.
  - exists d1, w1. split; [exact E|]. rewrite Ed. split; [reflexivity|].
    split; [exact (Hat [no_device 0] (no_device (secs 1)) eq_refl)|].
    exists fd, d2, w2. rewrite <- Ed. split; [exact E2|]. split; [exact Hf | exact Hr].
Defined.

Lemma frame_routing_witness :
  exists d w, dispatch_frame opened.1 F_READY 0 [] (denv 0 []) 0 opened.2 = Some (d, w) /\
    get 2 (channels d) = get 2 (channels opened.1) /\ get 0 (channels d) <> None.
Proof.
  destruct (DaemonFlow.frame_routing (tokens_of channels0) opened.1 F_READY 0 [] (denv 0 []) 0
    opened.2 (build hello)) as (d & w & E & Hne & c & fx & _ & Hc & _).
  - exact inv_opened.
  - apply denv_sample; [done | constructor].
  - reflexivity.
  - apply payload_fits_nil.
  - exact opened_queue.
  - reflexivity.
  - right. reflexivity.
  - exists d, w. split; [exact E|]. split; [apply Hne; discriminate|]. rewrite Hc. discriminate.
Defined.

Lemma link_read_refines_witness :
  exists p, FrameParser.ready p [] /\
    link_read opened.1 (denv 5 (build (F_READY, 0, []))) opened.2 =
      dispatch_all [(F_READY, 0, [])] (set_parser p (set_last_rx (Some 5) opened.1))
        (denv 5 (build (F_READY, 0, []))) 0 opened.2.
Proof.
  destruct (DaemonFlow.link_read_refines (tokens_of channels0) opened.1
    (denv 5 (build (F_READY, 0, []))) opened.2 3 [] (build (F_READY, 0, [])))
    as (p & Hp & _ & E).
  - exact inv_opened.
  - apply denv_sample; [done|]. apply frame_bytes_ok. apply (good_nil F_READY). done.
  - reflexivity.
  - apply FrameParser.ready_new.
  - reflexivity.
  - discriminate.
  - exists p. split; [exact Hp | exact E].
Defined.

End DaemonRuns.
