(* ===== verification/LinkSession.v ===== *)
(** * The two ends of the link together

    Two daemons, each with a run of its own under any system and any order of
    events, joined by a link that delivers bytes in order: what one end has read
    since it opened the link is a beginning of what the other has written since it
    did.  Then every channel is handed, in order, a beginning of the frames the
    far side's channel of its id had queued; for an MCU on one side and its PTY on
    the other, Klipper is given an unbroken run of what the MCU sent. *)
From Stdlib Require Import ZArith Lia.
From stdpp Require Import base option numbers list strings.
From S2P Require Import Prelude Protocol Stream Parser TxQueue Serial Chan Mcu McuSession Pty Tcp TcpSource TcpDest Cli Daemon DaemonProofs DaemonFlow Channels Shift DaemonTrace DaemonRuns.

Local Open Scope Z_scope.

Module LinkSession.
Import Daemon DaemonProofs DaemonTrace.

(** A daemon from its creation to the end of a run. *)
Record Life (C : Type) := mkLife {
  l_mode : string;
  l_dev : option string;
  l_usb : option (string * string);
  l_chans : list C;
  l_now : Z;
  l_env : DEnv;
  l_passes : list Pass;
  l_world : DWorld;
}.
Arguments mkLife {C}.
Arguments l_mode {C}.
Arguments l_dev {C}.
Arguments l_usb {C}.
Arguments l_chans {C}.
Arguments l_now {C}.
Arguments l_env {C}.
Arguments l_passes {C}.
Arguments l_world {C}.

Section Ends.
Context `{Crc32} {Q : Type} `{TxQueueLaws Q} {C : Type} `{ChannelLaws C} `{!ChannelShift C}.
Implicit Types l a b : Life C.

Definition born l : t Q C := new (l_mode l) (l_dev l) (l_usb l) (l_chans l) (l_now l).

Definition tokens l : Z -> Z -> Prop := tokens_of (l_chans l).

Record sound l : Prop := {
  so_chans : Forall new_channel (l_chans l);
  so_env : denv_ok (l_env l);
  so_passes : Forall (pass_fits (tokens l)) (l_passes l);
}.

(** The life ends in [d] and [w]; [tr] is a record of it. *)
Definition lived l (d : t Q C) (w : DWorld) : Prop :=
  run (born l) (l_env l) (l_passes l) (l_world l) = Some (d, w).

Definition record_of l (tr : list act) (d : t Q C) (w : DWorld) : Prop :=
  acts (tokens l) (view [] (born l) (l_world l)) tr (view [] d w) /\ link_up d = ups false tr.

Lemma born_starts l : sound l -> starts (tokens l) (view [] (born l) (l_world l)).
Proof.
  intros [Hc _ _]. pose proof (inv_new (tokens l) (l_mode l) (l_dev l) (l_usb l) (l_chans l)
    (l_now l) (l_world l)) as Hi. constructor; cbn; try done.
  - apply txq_holds_new.
  - apply FrameParser.ready_new.
  - destruct Hi as [Hch _ _ _ _ _ _ _ _].
    { apply Forall_forall. intros c Hin. rewrite Forall_forall in Hc.
      destruct (Hc c Hin) as (? & ? & ?). repeat split; try done. intros tok HT. by apply HT. }
    eapply Forall_impl; [exact Hch|]. by intros p (? & ? & _ & _ & ?).
Qed.

(** What the reads of the link return in the course of the life. *)
Definition life_reads l : list (list Z) := run_reads (born l) (l_env l) (l_passes l) (l_world l).

Lemma life_recorded_reads l : sound l ->
  exists d w tr, lived l d w /\ record_of l tr d w /\ receipts tr = life_reads l.
Proof.
  intros Hs. pose proof Hs as [Hc He Hp].
  destruct (daemon_run (Q := Q) (l_mode l) (l_dev l) (l_usb l) (l_chans l) (l_now l) (l_env l)
    (l_passes l) (l_world l) Hc He Hp) as (d & w & E & _).
  assert (inv (tokens l) (born l) (l_world l)) as Hi.
  { apply inv_new. apply Forall_forall. intros c Hin. rewrite Forall_forall in Hc.
    destruct (Hc c Hin) as (? & ? & ?). repeat split; try done. intros tok HT. by apply HT. }
  destruct (run_goes (tokens l) (born l) (l_env l) (l_passes l) (l_world l) Hi He Hp d w E)
    as (tr & Htr & Hup & Hrs). by exists d, w, tr.
Qed.

Lemma life_recorded l : sound l ->
  exists d w tr, lived l d w /\ record_of l tr d w.
Proof. intros (d & w & tr & ? & ? & _)%life_recorded_reads. by exists d, w, tr. Qed.

(** C9: Whatever a daemon puts on the link is a frame the protocol knows: in every run,
    each frame it queues is either one of its own, [F_HELLO], [F_ACK], [F_PING] or
    [F_PONG] with channel 0 and no payload, or of one of the channels' types with
    the id of a channel it has; its payload fits a frame, and type, id and payload
    are bytes. *)
Theorem frames_well_typed l :
  sound l ->
  exists d w tr, lived l d w /\ record_of l tr d w /\
    Forall (well_typed (map fst (channel_map (l_chans l)))) (queued tr).
Proof.
  intros Hs. destruct (life_recorded l Hs) as (d & w & tr & Hl & Hr).
  exists d, w, tr. split; [done|]. split; [done|].
  apply (acts_typed _ _ _ _ (born_starts l Hs) (proj1 Hr)).
Qed.

(** Frames cut from a beginning of the bytes of frames. *)
Lemma scan_prefix (bs w q : list Z) fs :
  Forall good_frame fs -> bs `prefix_of` w -> w ++ q = concat (map build fs) ->
  (Stream.scan bs).1 `prefix_of` fs /\ (bs = w -> q = [] -> (Stream.scan bs).1 = fs).
Proof.
  intros Hg [r ->] Hw.
  assert (Forall frame_fits fs /\ Forall frame_bytes fs) as [Hf Hb].
  { split; (eapply Forall_impl; [exact Hg|]); by intros f []. }
  pose proof (FrameParser.build_all_bytes_ok _ Hb) as Hok. rewrite <- Hw, <- app_assoc in Hok.
  apply Forall_app in Hok as [Hokb _].
  pose proof (Stream.scan_build_all fs [] Hf) as Hscan. rewrite app_nil_r, <- Hw in Hscan.
  rewrite Stream.scan_nil in Hscan. cbn [fst snd] in Hscan. rewrite app_nil_r in Hscan. split.
  - rewrite <- app_assoc, Stream.scan_app in Hscan by done. destruct (Stream.scan bs) as [fs1 v].
    destruct (Stream.scan (v ++ r ++ q)) as [fs2 v2]. injection Hscan as <- _. by apply prefix_app_r.
  - intros Eb ->. rewrite app_nil_r, <- Eb in Hscan. by rewrite Hscan.
Qed.

Lemma filter_prefix id (l k : list frame) :
  l `prefix_of` k -> filter (for_channel id) l `prefix_of` filter (for_channel id) k.
Proof. intros [r ->]. rewrite filter_app. by apply prefix_app_r. Qed.

(** C8: One end of the link, from outside: every run is a sequence of acts whose
    record accounts for what the run leaves.  Each channel is in the state its own
    calls have brought it to.  While the link is open, the bytes written to it
    followed by those queued are the frames queued since it was opened; of these,
    those of a channel are the frames it sent, in order, less those for which the
    queue had no room; and the frames the channel was handed are those with its id
    among the frames cut from the bytes read since the link was opened.  And the
    record is true to the system: what it has as received is, read by read, what the
    system's reads of the link returned. *)
Theorem daemon_refines_endpoint l :
  sound l ->
  exists d w tr, lived l d w /\ record_of l tr d w /\ receipts tr = life_reads l /\
    (forall id c, get id (channels d) = Some c ->
       exists c0 o, get id (channel_map (l_chans l)) = Some c0 /\
         chan_run c0 fx0 (calls id tr) = Some (c, o)) /\
    forall fd, link_fd d = Some fd ->
      (exists q, txq_holds (txq d) q /\
         written (w_link w) fd ++ q = concat (map build (queued (session tr)))) /\
      forall id, is_Some (get id (channels d)) ->
        filter (for_channel id) (queued (session tr)) `sublist_of` offered id (session tr) /\
        filter (for_channel id) (Stream.scan (received (session tr))).1 = handed id (session tr).
Proof.
  intros Hs. destruct (life_recorded_reads l Hs) as (d & w & tr & Hl & Hr & Hrs).
  pose proof (born_starts l Hs) as Hst. exists d, w, tr. split; [done|]. split; [done|]. split; [done|].
  apply proj1 in Hr. split.
  - intros id c Hc. destruct (acts_channel _ _ _ _ _ _ Hst Hr Hc) as (c0 & c1 & o1 & o & Hc0 & Hr1 & Hr2 & _).
    exists c0, o. split; [exact Hc0|]. by rewrite <- (past_session tr), calls_app, chan_run_app, Hr1.
  - intros fd Hfd. destruct (acts_queue _ _ _ _ Hst Hr) as (q & Hq & Hw).
    destruct (acts_parser _ _ _ _ Hst Hr) as (v & _ & _ & Hp). unfold view in Hw, Hp.
    cbn [v_wire v_queue v_pending] in Hw, Hp. rewrite Hfd in Hw, Hp. destruct Hp as [_ Hp]. rewrite app_nil_r in Hp.
    split; [exists q; split; [done | by apply Hw]|]. intros id [c Hc].
    destruct (acts_accepted _ _ _ _ id Hst Hr) as (<- & Hsub & _). split; [done|].
    rewrite Hp. symmetry. apply (acts_handed _ _ _ _ id Hr).
    intros Hn. apply (acts_known _ _ _ _ id Hr) in Hn. cbn in Hn. congruence.
Qed.

(** The frames handed to a channel, among those the far side queued. *)
Lemma handed_prefix a da wa tra fd b db wb trb id :
  sound a -> record_of a tra da wa -> link_fd da = Some fd ->
  sound b -> record_of b trb db wb -> is_Some (link_fd db) ->
  received (session trb) `prefix_of` written (w_link wa) fd ->
  is_Some (get id (channels db)) ->
  handed id (session trb) `prefix_of` accepted id (session tra) /\
  (txq_is_empty (txq da) = true -> received (session trb) = written (w_link wa) fd ->
   handed id (session trb) = accepted id (session tra)).
Proof.
  intros Ha [Hra _] Hfa Hb [Hrb _] [fdb Hfb] Hpre [c Hc].
  pose proof (born_starts a Ha) as Hsa. pose proof (born_starts b Hb) as Hsb.
  destruct (acts_accepted _ _ _ _ id Hsa Hra) as (Hacc & _).
  assert (handed id (session trb) = filter (for_channel id) (Stream.scan (received (session trb))).1)
    as Hhand.
  { destruct (acts_parser _ _ _ _ Hsb Hrb) as (v & _ & _ & Hp). unfold view in Hp.
    cbn [v_wire v_pending] in Hp. rewrite Hfb in Hp. destruct Hp as [_ Hp].
    rewrite app_nil_r in Hp. rewrite Hp. apply (acts_handed _ _ _ _ id Hrb).
    intros Hn. apply (acts_known _ _ _ _ id Hrb) in Hn. cbn in Hn. congruence. }
  destruct (acts_queue _ _ _ _ Hsa Hra) as (q & Hq & Hw). unfold view in Hw, Hq.
  cbn [v_wire v_queue] in Hw, Hq. rewrite Hfa in Hw. specialize (Hw _ eq_refl).
  pose proof (acts_queued_good _ _ _ _ Hsa Hra) as Hgood.
  destruct (scan_prefix (received (session trb)) (written (w_link wa) fd) q
    (queued (session tra)) Hgood Hpre Hw) as [Hfs Hall].
  rewrite Hhand, Hacc. split; [by apply filter_prefix|].
  intros He Hrw. rewrite (txq_holds_is_empty _ _ Hq) in He. apply is_empty_spec in He.
  by rewrite (Hall Hrw He).
Qed.

(** A channel of an open end: where its calls brought it, before the link was last
    opened, when it had nothing to say, and since. *)
Lemma life_channel b (db : t Q C) wb trb id c0 :
  sound b -> record_of b trb db wb -> is_Some (link_fd db) ->
  get id (channel_map (l_chans b)) = Some c0 ->
  exists c c1 o1 o, get id (channels db) = Some c /\
    chan_run c0 fx0 (calls id (past trb)) = Some (c1, o1) /\
    chan_run c1 o1 (calls id (session trb)) = Some (c, o) /\
    ch_quiet c1 /\ Forall hist_ok (calls id trb) /\
    fx_tx o = fx_tx o1 ++ offered id (session trb) /\ ch_inv c1.
Proof.
  intros Hb [Hrb _] [fdb Hfb] Hc0. pose proof (born_starts b Hb) as Hsb.
  destruct (get id (channels db)) as [c|] eqn:Hc.
  2: { apply (acts_known _ _ _ _ id Hrb) in Hc. cbn in Hc. congruence. }
  destruct (acts_channel _ _ _ _ _ _ Hsb Hrb Hc) as (c0' & c1 & o1 & o & Hc0' & Hr1 & Hr2 & Htx & Hq).
  unfold view in Hc0', Hq. cbn [v_chans v_wire born new channels] in Hc0', Hq.
  assert (c0' = c0) as -> by congruence. exists c, c1, o1, o. do 3 (split; [done|]).
  destruct Hq as [Hq Hi]; [done | rewrite Hfb; by eexists |]. split; [done|].
  split; [by apply (acts_good _ _ _ _ Hsb Hrb) | done].
Qed.

(** C3: The two ends: when what one end has read since it opened the link is a
    beginning of what the other has written since it did, each channel has been
    handed a beginning of the frames the far side's channel of its id had queued,
    each frame unchanged, once and in order; those are the frames that channel
    sent less the ones for which the queue had no room; and nothing is missing at
    the end once the queue is empty and everything written has been read. *)
Theorem link_session a da wa tra fd b db wb trb id :
  sound a -> record_of a tra da wa -> link_fd da = Some fd ->
  sound b -> record_of b trb db wb -> is_Some (link_fd db) ->
  received (session trb) `prefix_of` written (w_link wa) fd ->
  is_Some (get id (channels db)) ->
  handed id (session trb) `prefix_of` accepted id (session tra) /\
  accepted id (session tra) `sublist_of` offered id (session tra) /\
  (txq_is_empty (txq da) = true -> received (session trb) = written (w_link wa) fd ->
   handed id (session trb) = accepted id (session tra)).
Proof.
  intros Ha Hra Hfa Hb Hrb Hfb Hpre Hc.
  destruct (handed_prefix a da wa tra fd b db wb trb id) as [Hp Hall]; [done..|].
  split; [done|]. split; [|done].
  apply (acts_accepted _ _ _ _ id (born_starts a Ha) (proj1 Hra)).
Qed.

(** What is cut from a beginning of a frame. *)
Lemma scan_part (bs r : list Z) f :
  good_frame f -> bytes_ok bs -> bs ++ r = build f -> r <> [] -> (Stream.scan bs).1 = [].
Proof.
  intros Hf Hb E Hr. destruct (scan_prefix bs (bs ++ r) [] [f]) as [Hp _].
  - by apply Forall_singleton.
  - by eexists.
  - cbn. by rewrite !app_nil_r.
  - destruct (Stream.scan bs).1 as [|g fs] eqn:Es; [done|]. exfalso.
    pose proof (Stream.scan_sound bs Hb) as Hc. rewrite Es in Hc.
    destruct Hp as [k [= <- _]].
    assert (length (build f) <= length bs)%nat as Hlen.
    { inversion Hc; subst. rewrite !length_app. lia. }
    rewrite <- E, length_app in Hlen. destruct r; [done|]. cbn in Hlen. lia.
Qed.

Lemma first_frame (bs r rest : list Z) :
  bytes_ok bs -> bs ++ r = build hello ++ rest ->
  existsb is_handshake (Stream.scan bs).1 = true <-> zlen (build hello) <= zlen bs.
Proof.
  assert (good_frame hello) as [Hf Hg] by by apply good_nil.
  intros Hb [(k & -> & _)|(k & Ek & _)]%app_eq_inv.
  - rewrite Stream.scan_build by done. split; [|done].
    intros _. rewrite zlen_app. pose proof (zlen_nonneg k). lia.
  - destruct k as [|x k].
    + rewrite app_nil_r in Ek. subst bs. split; [intros _; lia|]. intros _.
      rewrite <- (app_nil_r (build hello)), Stream.scan_build by done. done.
    + rewrite (scan_part bs (x :: k) hello) by done. split; [done|].
      rewrite Ek, zlen_app. pose proof (zlen_nonneg k). rewrite zlen_cons. lia.
Qed.

(** C10: The link comes up, and by itself: when what one end has read since it
    opened the link is a beginning of what the other has written since it did, the
    end considers the link up exactly when it has read the first frame, the hello
    the far side queues on opening, to its last byte.  No later frame, no timer and
    no event of another kind is needed, and nothing shorter is enough. *)
Theorem link_comes_up a da wa tra fd b db wb trb :
  sound a -> record_of a tra da wa -> link_fd da = Some fd ->
  sound b -> record_of b trb db wb -> is_Some (link_fd db) ->
  received (session trb) `prefix_of` written (w_link wa) fd ->
  link_up db = true <-> zlen (build hello) <= zlen (received (session trb)).
Proof.
  intros Ha [Hra _] Hfa Hb [Hrb Hup] [fdb Hfb] Hpre.
  pose proof (born_starts a Ha) as Hsa. pose proof (born_starts b Hb) as Hsb.
  destruct (acts_hello _ _ _ _ Hsa Hra) as [fs Hfs].
  { unfold view. cbn [v_wire]. rewrite Hfa. by eexists. }
  destruct (acts_queue _ _ _ _ Hsa Hra) as (q & _ & Hw). unfold view in Hw. cbn [v_wire v_queue] in Hw.
  rewrite Hfa in Hw. specialize (Hw _ eq_refl). rewrite Hfs in Hw. cbn [map concat] in Hw.
  destruct (acts_parser _ _ _ _ Hsb Hrb) as (v & _ & _ & Hp). unfold view in Hp.
  cbn [v_wire v_pending] in Hp. rewrite Hfb in Hp. destruct Hp as [Hbs Hp]. rewrite app_nil_r in Hp.
  rewrite Hup, (acts_up _ _ _ _ Hsb Hrb). unfold view. cbn [v_wire]. rewrite Hfb. cbn [fmap option_fmap option_map].
  assert (handled (session trb) = (Stream.scan (received (session trb))).1) as -> by by rewrite Hp.
  destruct Hpre as [r Hr]. rewrite Hr, <- app_assoc in Hw. by eapply first_frame.
Qed.

End Ends.
(** ** Klipper and the MCU *)

Section Klipper.
Import Channels ChannelsProofs PtyProofs.

(** The frames from one start of the MCU up to now. *)
Definition one_life (fs : list frame) : Prop :=
  (exists f fs', fs = f :: fs' /\ f.1.1 = F_READY) /\ Forall (fun f => f.1.1 <> F_FLUSH) fs.

Definition payloads (fs : list frame) : list Z :=
  concat (map snd (filter (fun f => f.1.1 = F_DATA) fs)).

Lemma payloads_snoc fs f :
  payloads (fs ++ [f]) = payloads fs ++ (if decide (f.1.1 = F_DATA) then f.2 else []).
Proof.
  unfold payloads. rewrite filter_app, map_app, concat_app, filter_cons, filter_nil.
  destruct (decide _); cbn; by rewrite ?app_nil_r.
Qed.

Lemma one_life_snoc fs f : one_life fs -> f.1.1 <> F_FLUSH -> one_life (fs ++ [f]).
Proof.
  intros [(f0 & fs' & -> & E) Hf] Hne. split; [by exists f0, (fs' ++ [f])|].
  apply Forall_app. split; [done | by apply Forall_singleton].
Qed.

(** An open session is what the frames since the last [F_READY] on a closed PTY
    carry. *)
Lemma session_run_life id h bytes :
  session_run h None = Some bytes ->
  exists fs1 fs2, frames_of id h = fs1 ++ fs2 /\ one_life fs2 /\ bytes = payloads fs2.
Proof.
  revert bytes. induction h as [|[i e] h IH] using rev_ind; intros bytes; [done|].
  unfold session_run. rewrite fold_left_app, frames_of_app. cbn [fold_left fst snd].
  change (fold_left _ h None) with (session_run h None).
  assert (forall o : option (list Z), o = Some bytes -> frames_in id i = [] ->
    (o = session_run h None) -> exists fs1 fs2, frames_of id h ++ frames_of id [(i, e)] = fs1 ++ fs2 /\
      one_life fs2 /\ bytes = payloads fs2) as Hsame.
  { intros o -> E Eo. destruct (IH bytes (eq_sym Eo)) as (fs1 & fs2 & -> & Hl & Hb).
    exists fs1, fs2. cbn. by rewrite E, !app_nil_r. }
  destruct i as [ft pl| | |now|tok r w| | |]; cbn [session_step]; try done;
    try (intros E; by eapply Hsame).
  - change (frames_of id [(InFrame ft pl, e)]) with [(ft, id, pl)].
    assert (forall b, session_run h None = Some b -> ft <> F_FLUSH ->
      exists fs1 fs2, frames_of id h ++ [(ft, id, pl)] = fs1 ++ fs2 /\ one_life fs2 /\
        b ++ (if decide (ft = F_DATA) then pl else []) = payloads fs2) as Hext.
    { intros b Hb Hne. destruct (IH b Hb) as (fs1 & fs2 & -> & Hl & ->).
      exists fs1, (fs2 ++ [(ft, id, pl)]). rewrite app_assoc, payloads_snoc.
      split; [done|]. split; [by apply one_life_snoc | done]. }
    destruct (ft =? F_FLUSH) eqn:E1; [done|]. destruct (ft =? F_READY) eqn:E2; zbool.
    + intros [= <-]. destruct (session_run h None) as [b|] eqn:Eh; cbn.
      * destruct (Hext b eq_refl E1) as (fs1 & fs2 & -> & Hl & Hb). exists fs1, fs2.
        rewrite decide_False, app_nil_r in Hb by by subst ft. done.
      * exists (frames_of id h), [(ft, id, pl)]. split; [done|]. subst ft. split.
        -- split; [by eexists _, _ | by apply Forall_singleton].
        -- done.
    + destruct (session_run h None) as [b|]; [|by destruct (ft =? F_DATA)].
      destruct (ft =? F_DATA) eqn:E3; zbool; cbn; intros [= <-];
        destruct (Hext _ eq_refl E1) as (fs1 & fs2 & -> & Hl & Hb); exists fs1, fs2.
      * by rewrite decide_True in Hb.
      * by rewrite decide_False, app_nil_r in Hb.
  - destruct (r && eio (env_read e)); [done|]. intros E. by eapply Hsame.
Qed.

Context `{Crc32} {Q : Type} `{TxQueueLaws Q}.

(** A PTY channel of the daemon, from what it was called with: [h1] before the
    link was last opened, when the PTY was closed, and [h2] since. *)
Lemma pty_session_since id link baud h1 h2 c1 o1 p o :
  Forall hist_ok (h1 ++ h2) ->
  Forall (fun x => will_open x.2 baud /\ soft_writes x.2) (h1 ++ h2) ->
  chan_run (APty (start id link baud).1) fx0 h1 = Some (c1, o1) -> ch_quiet c1 ->
  chan_run c1 o1 h2 = Some (p, o) ->
  exists s, p = APty s /\ PtyProofs.session s o (session_run h2 None).
Proof.
  intros [Hh1 Hh2]%Forall_app [Hw1 Hw2]%Forall_app Hr1 Hq Hr2.
  assert (forall h, Forall hist_ok h -> Forall (fun x => env_ok x.2) h) as Henv.
  { intros h Hh. eapply Forall_impl; [exact Hh|]. by intros x []. }
  pose proof (start_inv id link baud) as (Hi & _ & Hs). cbn in Hi, Hs.
  set (s0 := (start id link baud).1) in *.
  assert (PtyProofs.inv s0 fx0) as Hi0 by by split; [constructor | intros m].
  destruct (pty_run s0 fx0 h1 None Hi0 (Henv h1 Hh1)) as (s1 & fx1 & E1 & Hi1 & Hid1 & _ & Hs1).
  rewrite any_run_pty, E1 in Hr1. injection Hr1 as <- <-. cbn in Hq.
  assert (session_run h1 None = None) as Hnone.
  { specialize (Hs1 Hw1 eq_refl). destruct (session_run h1 None); [|done].
    destruct Hs1 as (m & Hm & _). congruence. }
  rewrite Hnone in Hs1. assert (PtyChannel.baud s1 = baud) as Hb by apply Hid1.
  destruct (pty_run s1 fx1 h2 None Hi1 (Henv h2 Hh2)) as (s2 & fx2 & E2 & _ & _ & _ & Hs2).
  rewrite any_run_pty, E2 in Hr2. injection Hr2 as <- <-. exists s2. split; [done|].
  apply Hs2; [by rewrite Hb | by apply Hs1].
Qed.

(** C4: Klipper and the MCU: let the far side have any channel [id], this side the
    PTY of [id], with a system that grants PTYs and writes that fail only for want
    of room, and let what this side has read since it opened the link be a
    beginning of what the far side has written since it did.  Then whenever the
    PTY is open, what Klipper was given and what waits for it are the payloads of
    an unbroken run of the frames the far side queued for the channel, from an
    [F_READY] on and with no [F_FLUSH]: bytes of one life of the MCU, none lost in
    the middle, repeated or out of order. *)
Theorem klipper_over_link (a : Life AnyChannel) (da : t Q AnyChannel) wa tra fd
    (b : Life AnyChannel) (db : t Q AnyChannel) wb trb id link baud :
  sound a -> record_of a tra da wa -> link_fd da = Some fd ->
  sound b -> record_of b trb db wb -> is_Some (link_fd db) ->
  received (DaemonTrace.session trb) `prefix_of` written (w_link wa) fd ->
  get id (channel_map (l_chans b)) = Some (APty (start id link baud).1) ->
  Forall (fun x => will_open x.2 baud /\ soft_writes x.2) (calls id trb) ->
  exists p fx, get id (channels db) = Some (APty p) /\
    chan_run (APty (start id link baud).1) fx0 (calls id trb) = Some (APty p, fx) /\
    forall m, PtyChannel.master_fd p = Some m ->
      exists fs1 fs2 fs3, accepted id (DaemonTrace.session tra) = fs1 ++ fs2 ++ fs3 /\
        one_life fs2 /\ written (fx_sys fx) m ++ PtyChannel.txbuf p = payloads fs2.
Proof.
  intros Ha Hra Hfa Hb Hrb Hfb Hpre Hpty Hw.
  destruct (life_channel b db wb trb id _ Hb Hrb Hfb Hpty) as (c & c1 & o1 & o & Hc & Hr1 & Hr2 & Hq & Hh & _).
  destruct (handed_prefix a da wa tra fd b db wb trb id) as [[rest Hp] _];
    [try done..| by rewrite Hc; eexists |].
  rewrite (acts_handed_calls _ _ _ _ id (proj1 Hrb)) in Hp. rewrite Hc.
  rewrite <- (past_session trb), calls_app in Hh, Hw |- *.
  destruct (pty_session_since id link baud (calls id (past trb)) (calls id (DaemonTrace.session trb))
    c1 o1 c o Hh Hw Hr1 Hq Hr2) as (s & -> & Hs).
  exists s, o. split; [done|]. split; [by rewrite chan_run_app, Hr1|]. intros m Hm.
  destruct (session_run _ None) as [bytes|] eqn:Er; [|by rewrite Hs in Hm].
  destruct (session_run_life id _ _ Er) as (fs1 & fs2 & E & Hl & ->).
  exists fs1, fs2, rest. rewrite Hp, E, app_assoc. split; [done|]. split; [done|].
  destruct Hs as (m' & Hm' & Hs). congruence.
Qed.

(** ** The other way *)

Lemma brought_payloads id h : McuSession.brought h = payloads (frames_of id h).
Proof.
  induction h as [|[i e] h IH] using rev_ind; [done|]. rewrite frames_of_app, McuSession.brought_app, IH.
  destruct i as [ft pl| | | | | | |]; cbn; rewrite ?app_nil_r; try done.
  rewrite payloads_snoc. cbn. by destruct (ft =? F_DATA) eqn:E; zbool;
    [rewrite decide_True | rewrite decide_False].
Qed.

(** C5: Klipper's bytes on their way to the MCU: let the far side have any channel
    [id], this side the MCU of [id], with writes that fail only for want of room, and
    let what this side has read since it opened the link be a beginning of what the
    far side has written since it did.  Then while the MCU is active, what its UART
    was given and what waits for it are, from some moment on at which the MCU was not
    active or the link was down and nothing waited, the payloads of an unbroken run
    of the frames the far side queued for the channel: none lost in the middle,
    repeated, out of order or from before that moment. *)
Theorem uart_over_link (a : Life AnyChannel) (da : t Q AnyChannel) wa tra fd
    (b : Life AnyChannel) (db : t Q AnyChannel) wb trb id dev baud e0 :
  sound a -> record_of a tra da wa -> link_fd da = Some fd ->
  sound b -> record_of b trb db wb -> is_Some (link_fd db) ->
  received (DaemonTrace.session trb) `prefix_of` written (w_link wa) fd ->
  get id (channel_map (l_chans b)) = Some (AMcu (McuChannel.new id dev baud e0 fx0).1) ->
  Forall (fun x => soft_writes x.2) (calls id trb) ->
  exists p fx, get id (channels db) = Some (AMcu p) /\
    chan_run (AMcu (McuChannel.new id dev baud e0 fx0).1) fx0 (calls id trb) = Some (AMcu p, fx) /\
    (McuChannel.state p = McuChannel.Active -> exists h1 h2 s1 fx1 f fs1 fs2 fs3,
       calls id trb = h1 ++ h2 /\
       chan_run (AMcu (McuChannel.new id dev baud e0 fx0).1) fx0 h1 = Some (AMcu s1, fx1) /\
       McuSession.at_rest s1 /\ McuChannel.fd s1 = Some f /\ McuChannel.fd p = Some f /\
       accepted id (DaemonTrace.session tra) = fs1 ++ fs2 ++ fs3 /\
       written (fx_sys fx) f ++ McuChannel.txbuf p = written (fx_sys fx1) f ++ payloads fs2).
Proof.
  intros Ha Hra Hfa Hb Hrb Hfb Hpre Hmcu Hw.
  destruct (life_channel b db wb trb id _ Hb Hrb Hfb Hmcu)
    as (c & c1 & o1 & o & Hc & Hr1 & Hr2 & Hq & Hh & _).
  destruct (handed_prefix a da wa tra fd b db wb trb id) as [[rest Hp] _];
    [try done..| by rewrite Hc; eexists |].
  rewrite (acts_handed_calls _ _ _ _ id (proj1 Hrb)) in Hp. rewrite Hc.
  assert (Forall McuSession.undisturbed (calls id trb)) as Hu.
  { pose proof (acts_not_closed _ _ _ _ id (proj1 Hrb)) as Hn.
    rewrite Forall_forall in Hh, Hn, Hw |- *. intros x Hx.
    split; [by apply Hh|]. split; [by apply Hw | by apply Hn]. }
  rewrite <- (past_session trb), calls_app in Hu |- *. apply Forall_app in Hu as [Hu1 Hu2].
  destruct (McuSession.mcu_session _ fx0 _ (McuSession.new_ready id dev baud e0 fx0)
    (McuSession.new_rest id dev baud e0 fx0) Hu1) as (s1 & fx1 & E1 & Hrd & _).
  rewrite any_run_mcu, E1 in Hr1. injection Hr1 as <- <-. destruct Hq as [Hl Ht].
  destruct (McuSession.mcu_session s1 fx1 (calls id (DaemonTrace.session trb)) Hrd)
    as (s2 & fx2 & E2 & _ & Hact); [by split; [|right] | exact Hu2 |].
  rewrite any_run_mcu, E2 in Hr2. injection Hr2 as <- <-. exists s2, fx2. split; [done|].
  assert (forall h, chan_run (AMcu (McuChannel.new id dev baud e0 fx0).1) fx0 (calls id (past trb) ++ h)
    = boxed AMcu (chan_run s1 fx1 h)) as Hrun.
  { intros h. rewrite any_run_mcu, chan_run_app, E1. done. }
  split; [by rewrite Hrun, E2|].
  intros (h1 & h2 & s3 & fx3 & f & Eh & E3 & Hrest & Hf3 & Hf2 & Hwr)%Hact.
  exists (calls id (past trb) ++ h1), h2, s3, fx3, f, (frames_of id h1), (frames_of id h2), rest.
  rewrite Eh, app_assoc. split; [done|]. split; [by rewrite Hrun, E3|].
  do 3 (split; [done|]). split; [by rewrite Hp, Eh, frames_of_app, <- app_assoc|].
  by rewrite Hwr, (brought_payloads id).
Qed.

End Klipper.

End LinkSession.
