(* ===== verification/TcpOverflow.v ===== *)
(** * A connection that delivers more than the queue holds

    The handler of a readable connection reads until the system has nothing more, and
    backpressure is looked at only between events; what the queue does not take
    meanwhile is lost, and the connection stays. *)
From Stdlib Require Import ZArith Lia.
From stdpp Require Import base option numbers list strings.
From S2P Require Import Prelude Protocol TxQueue Serial Chan Tcp TcpSource TcpDest TcpSession TcpClient Daemon DaemonTrace.

Local Open Scope Z_scope.

Module TcpOverflow.
Import Daemon TcpSession DaemonTrace.

Section Overflow.
Context `{Crc32} {Q : Type} `{TxQueueLaws Q}.

(** The data of a slot is a part of the bytes of the frames. *)
Lemma slot_data_bound k fs :
  Forall frame_fits fs -> zlen (slot_data k fs) <= zlen (concat (map build fs)).
Proof.
  induction 1 as [|[[ft ch] pl] fs Hf _ IH]; [done|]. change (?f :: fs) with ([f] ++ fs).
  rewrite slot_data_app. cbn [map concat app]. rewrite !zlen_app. unfold frame_fits in Hf. cbn [snd] in Hf.
  unfold build at 1. rewrite build_frame_length by done. unfold HDR_SIZE, CRC_SIZE.
  assert (zlen (slot_data k [(ft, ch, pl)]) <= zlen pl); [|lia].
  unfold slot_data. cbn. rewrite app_nil_r. pose proof (zlen_nonneg pl).
  destruct (ft =? F_TDATA); [|done]. unfold unpack_cid.
  destruct (zlen pl <? 2); [done|]. destruct pl as [|b0 [|b1 pl]]; [done..|].
  destruct (k =? _); rewrite ?zlen_cons in *; [|done]. lia.
Qed.

Lemma taken_bound q l fs :
  txq_holds q l -> zlen l + zlen (concat (map build (taken q fs))) <= LINK_TXBUF_SIZE - 1.
Proof.
  intros Hq. destruct (enqueue_all q fs) as [q'|] eqn:E.
  - rewrite <- zlen_app. eapply txq_holds_bound, enqueue_all_taken; [exact Hq | exact E].
  - exfalso. revert q l Hq E. induction fs as [|f fs IH]; intros q l Hq; cbn [enqueue_all]; [done|].
    destruct (txq_holds_enqueue q l (build f) Hq) as (q1 & -> & Hq1). by eapply IH.
Qed.

(** C31: Data of a connection can be lost without a trace: when one readable event of a
    client finds more bytes than the transmit queue can hold, the source channel reads
    all of them and frames all of them, but what the queue takes, however little was
    in it, are not the bytes read; and the connection stays as it was, so that the
    bytes that follow are sent behind the gap. *)
Theorem overflow_loses_data q l (s : TcpSourceChannel.t) token slot e wc c data :
  txq_holds q l -> slot_of token = Some slot -> token <> primary_token (TcpSourceChannel.ch_id s) ->
  idx (TcpSourceChannel.conns s) slot = Some (Some c) -> close_pending c = false ->
  read_ends (env_reads e) = (data, false) -> LINK_TXBUF_SIZE <= zlen l + zlen data ->
  exists fx', chan_step s (InEvent token true false) e (mkFx [] wc) = Some (s, fx') /\
    slot_data slot (fx_tx fx') = data /\ slot_data slot (taken q (fx_tx fx')) <> data.
Proof.
  intros Hq Ht Htok Hc Hp Hr Hbig.
  destruct (TcpSourceProofs.source_forwards s token slot e (mkFx [] wc) c Ht Hc) as [_ Hf].
  destruct (Hf Hp) as (fs & Hcar & s' & fx' & E & Hres). rewrite Hr in Hcar, Hres.
  cbn [fst snd fx_tx app] in Hcar, Hres. destruct Hres as [Htx ->]. exists fx'. split.
  { cbn. unfold TcpSourceChannel.handle_event. by rewrite (proj2 (Z.eqb_neq _ _)). }
  pose proof (slot_of_range _ _ Ht) as Hs. rewrite Htx.
  assert (slot_data slot fs = data) as Hd.
  { rewrite (TcpClient.carries_data _ _ _ _ slot Hcar Hs). by rewrite Z.eqb_refl. }
  split; [done|]. intros Heq.
  assert (Forall frame_fits fs) as Hfit.
  { destruct Hcar as (parts & -> & _ & Hparts). apply Forall_map. eapply Forall_impl; [exact Hparts|].
    intros d [_ Hd2]. unfold frame_fits. cbn [snd]. rewrite zlen_app. change (zlen (pack_cid slot)) with 2. lia. }
  pose proof (slot_data_bound slot (taken q fs) (taken_Forall _ _ _ Hfit)) as Hb.
  pose proof (taken_bound q l fs Hq). rewrite Heq in Hb. lia.
Qed.

End Overflow.

(** ** A client that writes nine full reads at once *)

Definition chunk : list Z := replicate (Z.to_nat 65536) 7.

Lemma read_ends_full n :
  read_ends (replicate n (Ok chunk)) = (concat (replicate n chunk), false).
Proof.
  assert (zlen chunk = 65536) as Hl by (by apply zlen_replicate). revert Hl. generalize chunk. intros d Hl.
  induction n as [|n IH]; [done|]. cbn [replicate read_ends concat]. rewrite IH. by destruct d.
Qed.

Definition flooding : Env :=
  let e := sample_env 0 [] in
  {| env_now := 0; env_serial := env_serial e; env_read := env_read e; env_write := env_write e;
     env_symlink := env_symlink e; env_accepts := []; env_reads := replicate 9 (Ok chunk);
     env_register := env_register e; env_parse_addr := env_parse_addr e;
     env_connect := env_connect e; env_peer_addr := env_peer_addr e |}.

Definition one_client : TcpSourceChannel.t :=
  TcpSourceChannel.mk 3 9 (<[0%nat := Some (mkConn 11 [] false true false)]> no_conns) 1 true false.

#[local] Existing Instance crc32_zlib.
#[local] Existing Instance fifo_ops.
#[local] Existing Instance fifo_laws.

Lemma overflow_loses_data_witness :
  exists fx', chan_step one_client (InEvent (tcp_slot_token 3 0) true false) flooding fx0
      = Some (one_client, fx') /\
    slot_data 0 (fx_tx fx') = concat (replicate 9 chunk) /\
    slot_data 0 (taken (Q := list Z) [] (fx_tx fx')) <> concat (replicate 9 chunk).
Proof.
  destruct (overflow_loses_data (Q := list Z) [] [] one_client (tcp_slot_token 3 0) 0 flooding []
    (mkConn 11 [] false true false) (concat (replicate 9 chunk))) as (fx' & E & Hd & Hn).
  - split; [reflexivity | discriminate].
  - reflexivity.
  - discriminate.
  - reflexivity.
  - reflexivity.
  - exact (read_ends_full 9).
  - cbn [replicate concat]. rewrite !zlen_app, !zlen_nil. unfold chunk.
    rewrite zlen_replicate by discriminate. discriminate.
  - exists fx'. split; [exact E|]. split; [exact Hd | exact Hn].
Defined.

End TcpOverflow.
