(* ===== verification/LinkTcp.v ===== *)
(** * A TCP connection through the two daemons

    The two ends joined as in [LinkSession.v]: what the service of a connection is
    given comes from its client, and what a client is given from its services. *)
From Stdlib Require Import ZArith Lia.
From stdpp Require Import base option numbers list strings.
From S2P Require Import Prelude Protocol Stream Parser TxQueue Serial Chan Tcp TcpSource TcpDest TcpSession TcpClient TcpService Cli Daemon DaemonProofs Channels Shift DaemonTrace LinkSession.

Local Open Scope Z_scope.

Module LinkTcp.
Import Daemon DaemonProofs DaemonTrace Channels ChannelsProofs LinkSession TcpSession TcpClient TcpService.

Lemma data_for_frames slot id h : data_for slot h = slot_data slot (frames_of id h).
Proof.
  induction h as [|[i e] h IH]; [done|]. change ((i, e) :: h) with ([(i, e)] ++ h).
  rewrite data_for_app, frames_of_app, IH. unfold slot_data. rewrite bind_app. f_equal.
  by destruct i.
Qed.

Lemma session_env id tr :
  Forall hist_ok (calls id tr) -> Forall (fun x => env_ok x.2) (calls id (DaemonTrace.session tr)).
Proof.
  rewrite <- (past_session tr) at 1. rewrite calls_app. intros [_ Hh]%Forall_app.
  eapply Forall_impl; [exact Hh|]. by intros x [].
Qed.

Section Tcp.
Context `{Crc32} {Q : Type} `{TxQueueLaws Q}.

(** The connections of the host's channel, and the frames that are not yet there. *)
Lemma slots_over_link (a : Life AnyChannel) (da : t Q AnyChannel) wa tra fd
    (b : Life AnyChannel) (db : t Q AnyChannel) wb trb id addr port :
  sound a -> record_of a tra da wa -> link_fd da = Some fd ->
  sound b -> record_of b trb db wb -> is_Some (link_fd db) ->
  received (DaemonTrace.session trb) `prefix_of` written (w_link wa) fd ->
  get id (channel_map (l_chans b)) = Some (ADest (TcpDestChannel.new id addr port)) ->
  fresh_run (TcpDestChannel.new id addr port) fx0 (calls id trb) = true ->
  exists s fx, get id (channels db) = Some (ADest s) /\
    chan_run (ADest (TcpDestChannel.new id addr port)) fx0 (calls id trb) = Some (ADest s, fx) /\
    forall slot c, idx (TcpDestChannel.conns s) slot = Some (Some c) ->
      0 <= slot < MAX_TCP_CONNS /\
      exists fs1 pl rest fs2 fs3,
        accepted id (DaemonTrace.session tra) = fs1 ++ (F_TCONN, id, pl) :: fs2 ++ fs3 /\
        unpack_cid pl = Some (slot, rest) /\
        written (fx_sys fx) (stream c) ++ txbuf c = slot_data slot fs2 /\
        (txq_is_empty (txq da) = true -> received (DaemonTrace.session trb) = written (w_link wa) fd ->
         fs3 = []).
Proof.
  intros Ha Hra Hfa Hb Hrb Hfb Hpre Hdst Hfr.
  destruct (life_channel b db wb trb id _ Hb Hrb Hfb Hdst)
    as (c & c1 & o1 & o & Hc & Hr1 & Hr2 & Hq & Hh & _).
  destruct (handed_prefix a da wa tra fd b db wb trb id) as [[rest Hp] Hall0];
    [try done..| by rewrite Hc; eexists |].
  rewrite (acts_handed_calls _ _ _ _ id (proj1 Hrb)) in Hp, Hall0. rewrite Hc.
  set (s0 := TcpDestChannel.new id addr port) in *.
  assert (Forall (fun x => env_ok x.2) (calls id trb)) as He.
  { eapply Forall_impl; [exact Hh|]. by intros x []. }
  assert (calls id trb = calls id (past trb) ++ calls id (DaemonTrace.session trb)) as Ec.
  { by rewrite <- calls_app, past_session. }
  rewrite Ec in He, Hfr |- *.
  apply Forall_app in He as [He1 He2].
  rewrite any_run_dest in Hr1. destruct (chan_run s0 fx0 _) as [[s1 fx1]|] eqn:E1; [|done].
  injection Hr1 as <- <-. unfold fresh_run in Hfr; rewrite (always_app _ _ _ _ _ _ _ E1) in Hfr.
  apply andb_true_iff in Hfr as [Hf1 Hf2].
  destruct (dest_session s0 fx0 _ s1 fx1 eq_refl no_conns_empty He1 Hf1 E1) as [Hl _].
  rewrite any_run_dest in Hr2. destruct (chan_run s1 fx1 _) as [[s2 fx2]|] eqn:E2; [|done].
  injection Hr2 as <- <-. exists s2, fx2. split; [done|].
  split; [by rewrite any_run_dest, chan_run_app, E1; cbn [mbind option_bind]; rewrite E2|].
  intros slot d Hd. destruct (dest_session s1 fx1 _ s2 fx2 Hl Hq He2 Hf2 E2) as (Hl2 & _ & Hall).
  split; [rewrite <- Hl2; by apply idx_bound in Hd|].
  destruct (Hall slot d Hd) as (h1 & pl & r & e & h2 & Eh & Hu & Hbytes).
  exists (frames_of id h1), pl, r, (frames_of id h2), rest.
  split; [rewrite Hp, Eh, frames_of_app; cbn; by rewrite <- app_assoc|]. split; [done|].
  split; [by rewrite <- (data_for_frames slot id)|].
  intros He Hw. specialize (Hall0 He Hw). rewrite Hp in Hall0.
  by apply app_same_nil in Hall0.
Qed.

(** TCP through both daemons: let the far side have any channel [id], this side
    the destination channel of [id], with a system that never gives a new connection
    a descriptor another connection of the channel holds, and let what this side has
    read since it opened the link be a beginning of what the far side has written
    since it did.  Then for every connection that is there, what its stream was given
    and what waits for it is exactly the data of its slot in an unbroken run of the
    frames the far side queued for the channel, the one after an [F_TCONN] for that
    slot: no byte of another slot, none lost, repeated or out of order. *)
Theorem tcp_over_link (a : Life AnyChannel) (da : t Q AnyChannel) wa tra fd
    (b : Life AnyChannel) (db : t Q AnyChannel) wb trb id addr port :
  sound a -> record_of a tra da wa -> link_fd da = Some fd ->
  sound b -> record_of b trb db wb -> is_Some (link_fd db) ->
  received (DaemonTrace.session trb) `prefix_of` written (w_link wa) fd ->
  get id (channel_map (l_chans b)) = Some (ADest (TcpDestChannel.new id addr port)) ->
  fresh_run (TcpDestChannel.new id addr port) fx0 (calls id trb) = true ->
  exists s fx, get id (channels db) = Some (ADest s) /\
    chan_run (ADest (TcpDestChannel.new id addr port)) fx0 (calls id trb) = Some (ADest s, fx) /\
    forall slot c, idx (TcpDestChannel.conns s) slot = Some (Some c) ->
      exists fs1 pl rest fs2 fs3,
        accepted id (DaemonTrace.session tra) = fs1 ++ (F_TCONN, id, pl) :: fs2 ++ fs3 /\
        unpack_cid pl = Some (slot, rest) /\
        written (fx_sys fx) (stream c) ++ txbuf c = slot_data slot fs2.
Proof.
  intros Ha Hra Hfa Hb Hrb Hfb Hpre Hdst Hfr.
  destruct (slots_over_link a da wa tra fd b db wb trb id addr port) as (s & fx & Hs & Hr & Hall);
    [done..|]. exists s, fx. split; [done|]. split; [done|].
  intros slot c (_ & fs1 & pl & rest & fs2 & fs3 & ? & ? & ? & _)%Hall. by exists fs1, pl, rest, fs2, fs3.
Qed.

(** C6: From a client to its service: one end has the source channel [id], the other
    the destination channel, joined as above, and the queue refused none of the frames
    the source sent in this session.  Then for every connection of a slot there is a
    call in which the source accepted a client for that slot, which was free before,
    such that what the service was given and what waits for it is a beginning of the
    bytes the source has read since that call from the clients of that slot, and all of
    them once the queue is empty and everything written has been read.  It need not be
    the last such call: while the service's side is still being drained, the bytes of a
    new client of the slot follow on the old connection. *)
Theorem client_to_service (a : Life AnyChannel) (da : t Q AnyChannel) wa tra fd
    (b : Life AnyChannel) (db : t Q AnyChannel) wb trb id s0 addr port :
  sound a -> record_of a tra da wa -> link_fd da = Some fd ->
  sound b -> record_of b trb db wb -> is_Some (link_fd db) ->
  received (DaemonTrace.session trb) `prefix_of` written (w_link wa) fd ->
  get id (channel_map (l_chans a)) = Some (ASource s0) ->
  get id (channel_map (l_chans b)) = Some (ADest (TcpDestChannel.new id addr port)) ->
  fresh_run (TcpDestChannel.new id addr port) fx0 (calls id trb) = true ->
  accepted id (DaemonTrace.session tra) = offered id (DaemonTrace.session tra) ->
  exists s fx, get id (channels db) = Some (ADest s) /\
    chan_run (ADest (TcpDestChannel.new id addr port)) fx0 (calls id trb) = Some (ADest s, fx) /\
    forall slot c, idx (TcpDestChannel.conns s) slot = Some (Some c) ->
      exists h1 i e h2 s1 fx1 s2 fx2,
        calls id tra = h1 ++ (i, e) :: h2 /\
        chan_run (ASource s0) fx0 h1 = Some (ASource s1, fx1) /\ accepting s1 i /\
        chan_step s1 i e fx1 = Some (s2, fx2) /\
        idx (TcpSourceChannel.conns s1) slot = Some None /\
        (exists client, idx (TcpSourceChannel.conns s2) slot = Some (Some client)) /\
        written (fx_sys fx) (stream c) ++ txbuf c `prefix_of` client_run slot s2 fx2 h2 /\
        (txq_is_empty (txq da) = true -> received (DaemonTrace.session trb) = written (w_link wa) fd ->
         written (fx_sys fx) (stream c) ++ txbuf c = client_run slot s2 fx2 h2).
Proof.
  intros Ha Hra Hfa Hb Hrb Hfb Hpre Hsrc Hdst Hfr Hacc.
  destruct (slots_over_link a da wa tra fd b db wb trb id addr port) as (s & fx & Hs & Hr & Hall);
    [done..|]. exists s, fx. split; [done|]. split; [done|]. intros slot c Hc.
  destruct (Hall slot c Hc) as (Hslot & fs1 & pl & rest & fs2 & fs3 & Ef & Hu & Hbytes & Hdone). clear Hall.
  destruct (life_channel a da wa tra id _ Ha Hra (ex_intro _ fd Hfa) Hsrc)
    as (ca & c1 & o1 & o & _ & Hr1 & Hr2 & _ & Hh & Htx & _).
  pose proof (session_env _ _ Hh) as He.
  rewrite any_run_source in Hr1. destruct (chan_run s0 fx0 _) as [[sa fa]|] eqn:E1; [|done].
  injection Hr1 as <- <-.
  rewrite any_run_source in Hr2. destruct (chan_run sa fa _) as [[sb fb]|] eqn:E2; [|done].
  injection Hr2 as <- <-.
  destruct (source_run_sends _ _ _ _ _ He E2) as (sent & Hsent & _ & Hsplit).
  rewrite Htx in Hsent. apply app_inv_head in Hsent. rewrite <- Hsent, <- Hacc in Hsplit.
  destruct (Hsplit fs1 _ (fs2 ++ fs3) Ef eq_refl)
    as (h1 & i & e & h2 & s1 & fx1 & s2 & fx2 & Eh & R & Hi & S & Ho & D).
  exists (calls id (past tra) ++ h1), i, e, h2, s1, fx1, s2, fx2.
  split; [by rewrite <- (app_assoc (calls _ _)), <- Eh, <- calls_app, past_session|].
  split; [by rewrite any_run_source, chan_run_app, E1; cbn [mbind option_bind]; rewrite R|].
  destruct Ho as (slot' & client & [= _ ->] & Hs' & Hfree & Htaken).
  rewrite <- (app_nil_r (pack_cid slot')), unpack_pack_cid in Hu by (unfold MAX_TCP_CONNS in *; lia).
  injection Hu as -> _. do 3 (split; [done|]). split; [by exists client|].
  rewrite Hbytes, <- (D slot Hslot), slot_data_app.
  split; [by apply prefix_app_r|]. intros Hq Hw. by rewrite (Hdone Hq Hw), app_nil_r.
Qed.

(** The exporter's channel, its far side any. *)
Lemma clients_over_link (a : Life AnyChannel) (da : t Q AnyChannel) wa tra fd
    (b : Life AnyChannel) (db : t Q AnyChannel) wb trb id s0 :
  sound a -> record_of a tra da wa -> link_fd da = Some fd ->
  sound b -> record_of b trb db wb -> is_Some (link_fd db) ->
  received (DaemonTrace.session trb) `prefix_of` written (w_link wa) fd ->
  get id (channel_map (l_chans b)) = Some (ASource s0) ->
  fresh_accepts s0 fx0 (calls id trb) = true ->
  exists s fx rest, get id (channels db) = Some (ASource s) /\
    chan_run (ASource s0) fx0 (calls id trb) = Some (ASource s, fx) /\
    accepted id (DaemonTrace.session tra) =
      frames_of id (calls id (DaemonTrace.session trb)) ++ rest /\
    (txq_is_empty (txq da) = true -> received (DaemonTrace.session trb) = written (w_link wa) fd ->
     rest = []) /\
    forall slot c, idx (TcpSourceChannel.conns s) slot = Some (Some c) ->
      0 <= slot < MAX_TCP_CONNS /\
      exists h1 i e h2 s1 fx1, calls id (DaemonTrace.session trb) = h1 ++ (i, e) :: h2 /\
        chan_run (ASource s0) fx0 (calls id (past trb) ++ h1) = Some (ASource s1, fx1) /\
        accepting s1 i /\ written (fx_sys fx) (stream c) ++ txbuf c = data_for slot h2.
Proof.
  intros Ha Hra Hfa Hb Hrb Hfb Hpre Hsrc Hfr.
  destruct (life_channel b db wb trb id _ Hb Hrb Hfb Hsrc)
    as (c & c1 & o1 & o & Hc & Hr1 & Hr2 & Hq & Hh & _ & Hi).
  destruct (handed_prefix a da wa tra fd b db wb trb id) as [[rest Hp] Hall0];
    [try done..| by rewrite Hc; eexists |].
  rewrite (acts_handed_calls _ _ _ _ id (proj1 Hrb)) in Hp, Hall0. rewrite Hc.
  assert (calls id trb = calls id (past trb) ++ calls id (DaemonTrace.session trb)) as Ec.
  { by rewrite <- calls_app, past_session. }
  pose proof (session_env _ _ Hh) as He.
  rewrite Ec in Hfr |- *. rewrite any_run_source in Hr1.
  destruct (chan_run s0 fx0 _) as [[s1 fx1]|] eqn:E1; [|done]. injection Hr1 as <- <-.
  unfold fresh_accepts in Hfr. rewrite (always_app _ _ _ _ _ _ _ E1) in Hfr.
  apply andb_true_iff in Hfr as [_ Hf]. rewrite any_run_source in Hr2.
  destruct (chan_run s1 fx1 _) as [[s2 fx2]|] eqn:E2; [|done]. injection Hr2 as <- <-.
  destruct Hi as (_ & Hl & _ & Hno).
  destruct (source_session s1 fx1 _ s2 fx2 Hl (Hno Hq) He Hf E2) as (Hl2 & _ & Hall).
  exists s2, fx2, rest. split; [done|].
  split; [by rewrite any_run_source, chan_run_app, E1; cbn [mbind option_bind]; rewrite E2|].
  split; [done|]. split.
  { intros He0 Hw. specialize (Hall0 He0 Hw). rewrite Hp in Hall0. by apply app_same_nil in Hall0. }
  intros slot d Hd. split; [rewrite <- Hl2; by apply idx_bound in Hd|].
  destruct (Hall slot d Hd) as (h1 & i & e & h2 & s3 & fx3 & Eh & R & Hacc & Hb2).
  exists h1, i, e, h2, s3, fx3. split; [done|]. split; [|by split].
  rewrite any_run_source, chan_run_app, E1. cbn [mbind option_bind]. by rewrite R.
Qed.

(** C7: From a service to its client: one end has the destination channel [id], the
    other the source channel, with a system that accepts no client on a descriptor a
    connection of the channel holds, joined as above, and the queue refused none of the
    frames the destination sent in this session.  Then what it has read from the
    services of a slot since the link was opened is what the source had been handed
    for the slot when it accepted the client that has it now, then what this client
    was given and what waits for it, then what is still under way; and nothing is
    under way once the queue is empty and everything written has been read. *)
Theorem service_to_client (a : Life AnyChannel) (da : t Q AnyChannel) wa tra fd
    (b : Life AnyChannel) (db : t Q AnyChannel) wb trb id s0 addr port :
  sound a -> record_of a tra da wa -> link_fd da = Some fd ->
  sound b -> record_of b trb db wb -> is_Some (link_fd db) ->
  received (DaemonTrace.session trb) `prefix_of` written (w_link wa) fd ->
  get id (channel_map (l_chans a)) = Some (ADest (TcpDestChannel.new id addr port)) ->
  get id (channel_map (l_chans b)) = Some (ASource s0) ->
  fresh_accepts s0 fx0 (calls id trb) = true ->
  accepted id (DaemonTrace.session tra) = offered id (DaemonTrace.session tra) ->
  exists s fx d fxd, get id (channels db) = Some (ASource s) /\
    chan_run (ASource s0) fx0 (calls id trb) = Some (ASource s, fx) /\
    chan_run (ADest (TcpDestChannel.new id addr port)) fx0 (calls id (past tra)) = Some (ADest d, fxd) /\
    forall slot c, idx (TcpSourceChannel.conns s) slot = Some (Some c) ->
      exists h1 i e h2 s1 fx1 after, calls id (DaemonTrace.session trb) = h1 ++ (i, e) :: h2 /\
        chan_run (ASource s0) fx0 (calls id (past trb) ++ h1) = Some (ASource s1, fx1) /\
        accepting s1 i /\
        service_run slot d fxd (calls id (DaemonTrace.session tra)) =
          data_for slot h1 ++ (written (fx_sys fx) (stream c) ++ txbuf c) ++ after /\
        (txq_is_empty (txq da) = true -> received (DaemonTrace.session trb) = written (w_link wa) fd ->
         after = []).
Proof.
  intros Ha Hra Hfa Hb Hrb Hfb Hpre Hdst Hsrc Hfr Hacc.
  destruct (clients_over_link a da wa tra fd b db wb trb id s0)
    as (s & fx & rest & Hs & Hr & Ef & Hdone & Hall); [done..|].
  destruct (life_channel a da wa tra id _ Ha Hra (ex_intro _ fd Hfa) Hdst)
    as (ca & c1 & o1 & o & _ & Hr1 & Hr2 & _ & Hh & Htx & _).
  pose proof (session_env _ _ Hh) as He.
  rewrite any_run_dest in Hr1.
  destruct (chan_run (TcpDestChannel.new id addr port) fx0 _) as [[d fxd]|] eqn:E1; [|done].
  injection Hr1 as <- <-. exists s, fx, d, fxd. split; [done|]. split; [done|].
  split; [by rewrite any_run_dest, E1|]. rewrite any_run_dest in Hr2.
  destruct (chan_run d fxd _) as [[d2 fxd2]|] eqn:E2; [|done]. injection Hr2 as <- <-.
  destruct (dest_run_sends _ _ _ _ _ He E2) as (sent & Hsent & Hdata).
  rewrite Htx in Hsent. apply app_inv_head in Hsent. subst sent. rewrite <- Hacc, Ef in Hdata.
  intros slot c Hc. destruct (Hall slot c Hc) as (Hslot & h1 & i & e & h2 & s1 & fx1 & Eh & R & Hi & ->).
  exists h1, i, e, h2, s1, fx1, (slot_data slot rest). do 3 (split; [done|]). split.
  - rewrite <- (Hdata slot Hslot), slot_data_app, <- (data_for_frames slot id), Eh, data_for_app.
    destruct Hi as [w ->]. by rewrite <- app_assoc.
  - intros Hq Hw. by rewrite (Hdone Hq Hw).
Qed.

End Tcp.
End LinkTcp.
