(* ===== verification/LinkRuns.v ===== *)
(** * A run of two daemons

    An exporter with one MCU and a host with its PTY: the handshake, the MCU's
    first bytes, and Klipper's PTY, on which the theorems of [LinkSession.v] are
    instantiated. *)
From Stdlib Require Import ZArith Lia.
From stdpp Require Import base option numbers list strings.
From S2P Require Import Prelude Protocol Stream Parser TxQueue Serial Chan Discovery Mcu Pty Cli Daemon DaemonProofs DaemonFlow Channels Shift DaemonTrace DaemonRuns LinkSession.

Local Open Scope Z_scope.

Module LinkRuns.
Import Daemon DaemonProofs Channels ChannelsProofs DaemonTrace DaemonRuns LinkSession.

#[local] Existing Instance crc32_zlib.
#[local] Existing Instance fifo_ops.
#[local] Existing Instance fifo_laws.

Definition from_mcu : list Z := [1; 0x7E; 5].

(** The exporter hears the host's hello, the MCU speaks, the link is written. *)
Definition exporter_life : Life AnyChannel :=
  mkLife "exporter" (Some "/dev/ttyGS0"%string) None
    [AMcu (McuChannel.new 0 "/dev/ttyS0" 230400 (sample_env 0 []) fx0).1] 0
    (denv 0 [])
    [mkPass (denv (secs 1) [])
       [mkEvent TOKEN_LINK true false (denv (secs 1) (build hello));
        mkEvent (primary_token 0) true false (denv (secs 1) from_mcu);
        mkEvent TOKEN_LINK false true (denv (secs 1) [])]]
    (mkWorld [] []).

Definition exporter_wrote : list Z :=
  concat (map build [hello; (F_ACK, 0, []); (F_FLUSH, 0, []); (F_READY, 0, []); (F_DATA, 0, [0x7E; 5])]).

(** The host reads all of it at once. *)
Definition host_env : DEnv := denv (secs 2) exporter_wrote.

Definition host_life : Life AnyChannel :=
  mkLife "host" (Some "/dev/ttyACM0"%string) None
    [APty (PtyProofs.start 0 "/tmp/klipper_mcu" 230400).1] 0
    (denv 0 []) [mkPass (denv (secs 1) []) [mkEvent TOKEN_LINK true false host_env]]
    (mkWorld [] []).

Definition last_of (l : Life AnyChannel) : Host * DWorld :=
  default (born l, l_world l) (run (born l) (l_env l) (l_passes l) (l_world l)).

Example exporter_ran :
  written (w_link (last_of exporter_life).2) 3 = exporter_wrote /\
  link_fd (last_of exporter_life).1 = Some 3.
Proof. by vm_compute. Qed.

Example host_ran : link_fd (last_of host_life).1 = Some 3 /\
  txq (last_of host_life).1 = build hello ++ build (F_ACK, 0, []).
Proof. by vm_compute. Qed.

(** The record of the host's run. *)
Definition host_record : list act :=
  let e := d_chan host_env 0 0 in
  [Opened; Called 0 (InTick (secs 1)) (d_chan (denv (secs 1) []) 1 0) [] [];
   Received exporter_wrote; Skipped hello; Control F_ACK [(F_ACK, 0, [])];
   Called 0 InConnect e [] []; Skipped (F_ACK, 0, []);
   Called 0 (InFrame F_FLUSH []) e [] []; Called 0 (InFrame F_READY []) e [] [];
   Called 0 (InFrame F_DATA [0x7E; 5]) e [] []].

(** The acts of a record one after the other, each checked by computation. *)
Section Steps.
Context (T : Z -> Z -> Prop).
Implicit Types x y z : View (Q := list Z) (C := AnyChannel).

Lemma ends_here y z : y = z -> acts T y [] z.
Proof. intros ->. constructor. Qed.

Lemma then_opened x z tr :
  Forall (fun c => ch_quiet c.2) (v_chans x) -> v_wire x = None ->
  acts T (mkView (v_chans x) (build hello) (FrameParser.reset (v_parser x)) (Some []) []) tr z ->
  acts T x (Opened :: tr) z.
Proof. intros Hq Hw. apply acts_cons. destruct x; cbn [v_chans v_queue v_parser v_wire v_pending] in *. subst. by apply opens. Qed.

Lemma then_received x z tr p wr data fs :
  bytes_ok data -> v_wire x = Some wr -> v_pending x = [] ->
  FrameParser.feed_frames (v_parser x) data = Some (p, fs) ->
  acts T (mkView (v_chans x) (v_queue x) p (Some wr) fs) tr z ->
  acts T x (Received data :: tr) z.
Proof. intros Hb Hw Hp E. apply acts_cons. destruct x; cbn [v_chans v_queue v_parser v_wire v_pending] in *. subst. by apply receives. Qed.

Lemma then_wrote x z tr w wr data q' r :
  write_ok w -> v_wire x = Some wr -> txq_drain (v_queue x) w = Some (q', r, data) ->
  acts T (mkView (v_chans x) q' (v_parser x) (Some (wr ++ data)) (v_pending x)) tr z ->
  acts T x (Wrote data :: tr) z.
Proof. intros Hw Hr Hq. apply acts_cons. destruct x; cbn [v_chans v_queue v_parser v_wire v_pending] in *. subst. by eapply writes. Qed.

Lemma then_control x z tr ft tk :
  is_control ft = true -> taken (v_queue x) [(ft, 0, [])] = tk ->
  acts T (mkView (v_chans x) (fifo_push (v_queue x) (build (ft, 0, []))) (v_parser x) (v_wire x)
    (v_pending x)) tr z ->
  acts T x (Control ft tk :: tr) z.
Proof. intros Hc <-. apply acts_cons. destruct x; cbn [v_chans v_queue v_parser v_wire v_pending] in *. by apply queues. Qed.

Lemma then_called x z tr id i e c c' fx q pe sent tk :
  get id (v_chans x) = Some c -> env_ok e -> token_fits T id i -> i <> InClose ->
  chan_step c i e (mkFx [] []) = Some (c', fx) -> v_pending x = frames_in id i ++ pe ->
  Forall (fun f => is_control f.1.1 = false) (frames_in id i) ->
  enqueue_all (v_queue x) (fx_tx fx) = Some q -> fx_tx fx = sent -> taken (v_queue x) (fx_tx fx) = tk ->
  acts T (mkView (replace id c' (v_chans x)) q (v_parser x) (v_wire x) pe) tr z ->
  acts T x (Called id i e sent tk :: tr) z.
Proof.
  intros Hg He Ht Hcl Hs Hp Hc Hq <- <-. apply acts_cons. destruct x; cbn [v_chans v_queue v_parser v_wire v_pending] in *. subst.
  by eapply calls_one.
Qed.

Lemma then_skipped x z tr f pe :
  v_pending x = f :: pe -> is_control f.1.1 = true ->
  acts T (mkView (v_chans x) (v_queue x) (v_parser x) (v_wire x) pe) tr z ->
  acts T x (Skipped f :: tr) z.
Proof. intros Hp Hc. apply acts_cons. destruct x; cbn [v_chans v_queue v_parser v_wire v_pending] in *. subst. apply skips. by left. Qed.

End Steps.

Ltac by_computing := vm_compute; reflexivity.

(** A daemon with one channel. *)
Lemma tokens_single (c : AnyChannel) tok id : ch_token c tok -> tokens_of [c] id tok.
Proof. intros Ht c' Hin _. by apply list_elem_of_singleton in Hin as ->. Qed.

Ltac fits := first [done | apply tokens_single;
  first [by split; [left|] | by split; [left | left] | split; [right|]; by exists 0 | split; right; by exists 0]].

(** A call of channel 0. *)
Ltac called := eapply then_called;
  [ by_computing | | fits | done | by_computing | by_computing | by repeat constructor
  | by_computing | by_computing | by_computing | cbn [v_chans v_queue v_parser v_wire v_pending] ].

Ltac skipped := eapply then_skipped;
  [ by_computing | by_computing | cbn [v_chans v_queue v_parser v_wire v_pending] ].

Lemma wrote_bytes : bytes_ok exporter_wrote.
Proof.
  apply FrameParser.build_all_bytes_ok. repeat apply Forall_cons_2; try apply Forall_nil_2;
    (split; [done|]; split; [done|]; cbn; solve_bytes).
Qed.

Lemma host_env_ok : denv_ok host_env.
Proof. apply denv_sample; [by vm_compute | apply wrote_bytes]. Qed.

Lemma host_recorded : record_of host_life host_record (last_of host_life).1 (last_of host_life).2.
Proof.
  split; [|by_computing].
  apply then_opened; [by repeat constructor | by_computing |].
  called. { apply sample_env_ok; [done | constructor]. }
  eapply then_received; [apply wrote_bytes | by_computing | by_computing | by_computing |].
  cbn [v_chans v_queue v_parser v_wire v_pending].
  skipped. apply then_control; [done | by_computing |].
  called. { apply host_env_ok. } skipped.
  called. { apply host_env_ok. } called. { apply host_env_ok. } called. { apply host_env_ok. }
  apply ends_here. by_computing.
Qed.

(** ** The theorems on this run *)

Lemma quiet_env now : denv_ok (denv now []).
Proof. apply denv_sample; [done | constructor]. Qed.

Lemma sample_event (c : AnyChannel) tok r w now data :
  tok = TOKEN_LINK \/ ch_token c tok -> zlen data <= READ_BUF -> bytes_ok data ->
  event_fits (tokens_of [c]) (mkEvent tok r w (denv now data)).
Proof.
  intros Htok Hl Hb. split; [by apply denv_sample|].
  destruct Htok as [-> | Ht]; [done|]. intros _ id _. by apply tokens_single.
Qed.

(** A life of one channel under the sample system, one pass long. *)
Lemma sample_sound m dev (c : AnyChannel) now e evs w :
  new_channel c -> denv_ok e -> Forall (event_fits (tokens_of [c])) evs ->
  sound (mkLife m dev None [c] now e [mkPass (denv (secs 1) []) evs] w).
Proof.
  intros Hc He Hev. constructor; [by apply Forall_singleton | done |].
  apply Forall_singleton. split; [apply quiet_env | done].
Qed.

(** The events of a sample life, their bytes given. *)
Ltac sample_events :=
  apply sample_sound; [by vm_compute | apply quiet_env |];
  repeat apply Forall_cons_2; try apply Forall_nil_2;
  (apply sample_event; [first [by left | right; by split; [left|]] | by vm_compute |]).

Lemma built_bytes ft : u8 ft -> bytes_ok (build (ft, 0, [])).
Proof. intros Hf. by apply frame_bytes_ok, good_nil. Qed.

Lemma exporter_sound : sound exporter_life.
Proof. sample_events; [by apply built_bytes | unfold from_mcu; solve_bytes | constructor]. Qed.

Lemma host_sound : sound host_life.
Proof. sample_events. apply wrote_bytes. Qed.

Lemma exporter_recorded :
  exists tr, record_of exporter_life tr (last_of exporter_life).1 (last_of exporter_life).2.
Proof.
  destruct (life_recorded (Q := list Z) exporter_life exporter_sound) as (d & w & tr & Hl & Hr).
  exists tr. unfold last_of. unfold lived in Hl. by rewrite Hl.
Qed.

Lemma daemon_refines_endpoint_witness :
  exists (d : Host) w tr, lived host_life d w /\ record_of host_life tr d w /\
    receipts tr = [exporter_wrote].
Proof.
  destruct (daemon_refines_endpoint (Q := list Z) host_life host_sound)
    as (d & w & tr & Hl & Hr & Hrs & _).
  exists d, w, tr. split; [exact Hl|]. split; [exact Hr|]. rewrite Hrs. by_computing.
Defined.

Lemma frames_well_typed_witness :
  exists (d : Host) w tr, lived host_life d w /\ record_of host_life tr d w /\
    Forall (well_typed [0]) (queued tr).
Proof.
  destruct (frames_well_typed (Q := list Z) host_life host_sound) as (d & w & tr & Hl & Hr & Ht).
  exists d, w, tr. split; [exact Hl|]. split; [exact Hr | exact Ht].
Defined.

(** Everything the exporter's channel had queued has been handed over. *)
Lemma link_session_witness :
  exists tr, record_of exporter_life tr (last_of exporter_life).1 (last_of exporter_life).2 /\
    accepted 0 (session tr) = [(F_FLUSH, 0, []); (F_READY, 0, []); (F_DATA, 0, [0x7E; 5])].
Proof.
  destruct exporter_recorded as [tr Hr]. exists tr. split; [exact Hr|].
  destruct (link_session exporter_life (last_of exporter_life).1 (last_of exporter_life).2 tr 3
    host_life (last_of host_life).1 (last_of host_life).2 host_record 0) as (_ & _ & Hall).
  - exact exporter_sound.
  - exact Hr.
  - by apply exporter_ran.
  - exact host_sound.
  - exact host_recorded.
  - rewrite (proj1 host_ran). by eexists.
  - rewrite (proj1 exporter_ran). reflexivity.
  - eexists. by_computing.
  - symmetry. rewrite <- Hall; [reflexivity | by vm_compute |]. by rewrite (proj1 exporter_ran).
Defined.

(** The host, which has read the exporter's hello, considers the link up. *)
Lemma link_comes_up_witness :
  link_up (last_of host_life).1 = true.
Proof.
  destruct exporter_recorded as [tr Hr].
  apply (link_comes_up exporter_life (last_of exporter_life).1 (last_of exporter_life).2 tr 3
    host_life (last_of host_life).1 (last_of host_life).2 host_record).
  - exact exporter_sound.
  - exact Hr.
  - by apply exporter_ran.
  - exact host_sound.
  - exact host_recorded.
  - rewrite (proj1 host_ran). by eexists.
  - rewrite (proj1 exporter_ran). reflexivity.
  - by vm_compute.
Defined.

(** Klipper was given the bytes of the MCU from its sync byte on. *)
Lemma klipper_over_link_witness :
  exists tr p fx fs1 fs2 fs3,
    record_of exporter_life tr (last_of exporter_life).1 (last_of exporter_life).2 /\
    get 0 (channels (last_of host_life).1) = Some (APty p) /\
    accepted 0 (session tr) = fs1 ++ fs2 ++ fs3 /\ one_life fs2 /\
    written (fx_sys fx) 7 ++ PtyChannel.txbuf p = payloads fs2.
Proof.
  destruct exporter_recorded as [tr Hr].
  destruct (klipper_over_link exporter_life (last_of exporter_life).1 (last_of exporter_life).2 tr 3
    host_life (last_of host_life).1 (last_of host_life).2 host_record 0 "/tmp/klipper_mcu" 230400)
    as (p & fx & Hp & _ & Hm).
  - exact exporter_sound.
  - exact Hr.
  - by apply exporter_ran.
  - exact host_sound.
  - exact host_recorded.
  - rewrite (proj1 host_ran). by eexists.
  - rewrite (proj1 exporter_ran). reflexivity.
  - reflexivity.
  - cbn [calls host_record mbind list_bind app Z.eqb]. repeat apply Forall_cons_2; try apply Forall_nil_2;
      (split; [by apply PtyProofs.sample_will_open | apply PtyProofs.sample_soft]).
  - destruct (Hm 7) as (fs1 & fs2 & fs3 & Ha & Hl & Hw).
    { assert (Some (APty p) = get 0 (channels (last_of host_life).1)) as E by by rewrite Hp.
      vm_compute in E. by injection E as ->. }
    exists tr, p, fx, fs1, fs2, fs3. split; [exact Hr|]. split; [exact Hp|]. split; [exact Ha|].
    split; [exact Hl | exact Hw].
Defined.

(** ** The way back: Klipper writes two bytes to its PTY *)

Definition klipper_wrote : list Z := [8; 9].

Definition typing_life : Life AnyChannel :=
  mkLife "host" (Some "/dev/ttyACM0"%string) None
    [APty (PtyProofs.start 0 "/tmp/klipper_mcu" 230400).1] 0
    (denv 0 [])
    [mkPass (denv (secs 1) [])
       [mkEvent TOKEN_LINK true false host_env;
        mkEvent (primary_token 0) true false (denv (secs 2) klipper_wrote);
        mkEvent TOKEN_LINK false true (denv (secs 2) [])]]
    (mkWorld [] []).

Definition rest_wrote : list Z := build (F_ACK, 0, []) ++ build (F_DATA, 0, klipper_wrote).

Definition listening_life : Life AnyChannel :=
  mkLife "exporter" (Some "/dev/ttyGS0"%string) None
    [AMcu (McuChannel.new 0 "/dev/ttyS0" 230400 (sample_env 0 []) fx0).1] 0
    (denv 0 [])
    [mkPass (denv (secs 1) [])
       [mkEvent TOKEN_LINK true false (denv (secs 1) (build hello));
        mkEvent (primary_token 0) true false (denv (secs 1) from_mcu);
        mkEvent TOKEN_LINK true false (denv (secs 2) rest_wrote)]]
    (mkWorld [] []).

Example typing_ran :
  written (w_link (last_of typing_life).2) 3 = build hello ++ rest_wrote /\
  link_fd (last_of typing_life).1 = Some 3.
Proof. by vm_compute. Qed.

Definition listening_record : list act :=
  let e k := d_chan (denv (secs k) []) 0 0 in
  [Opened; Called 0 (InTick (secs 1)) (d_chan (denv (secs 1) []) 1 0) [] [];
   Received (build hello); Skipped hello; Control F_ACK [(F_ACK, 0, [])];
   Called 0 InConnect (d_chan (denv (secs 1) (build hello)) 0 0) [(F_FLUSH, 0, [])] [(F_FLUSH, 0, [])];
   Called 0 (InEvent (primary_token 0) true false) (d_chan (denv (secs 1) from_mcu) 0 0)
     [(F_READY, 0, []); (F_DATA, 0, [0x7E; 5])] [(F_READY, 0, []); (F_DATA, 0, [0x7E; 5])];
   Received rest_wrote; Skipped (F_ACK, 0, []);
   Called 0 (InFrame F_DATA klipper_wrote) (d_chan (denv (secs 2) rest_wrote) 0 0) [] []].

Lemma rest_bytes : bytes_ok rest_wrote.
Proof.
  apply Forall_app. split; [by apply built_bytes|]. apply frame_bytes_ok.
  split; [done|]. split; [done|]. cbn. unfold klipper_wrote. solve_bytes.
Qed.

Lemma typing_sound : sound typing_life.
Proof. sample_events; [apply wrote_bytes | unfold klipper_wrote; solve_bytes | constructor]. Qed.

Lemma listening_sound : sound listening_life.
Proof. sample_events; [by apply built_bytes | unfold from_mcu; solve_bytes | apply rest_bytes]. Qed.

Lemma listening_recorded :
  record_of listening_life listening_record (last_of listening_life).1 (last_of listening_life).2.
Proof.
  assert (denv_ok (denv (secs 1) (build hello))) as He1.
  { apply denv_sample; [by vm_compute | by apply built_bytes]. }
  assert (denv_ok (denv (secs 1) from_mcu)) as He2.
  { apply denv_sample; [done | unfold from_mcu; solve_bytes]. }
  assert (denv_ok (denv (secs 2) rest_wrote)) as He3.
  { apply denv_sample; [by vm_compute | apply rest_bytes]. }
  split; [|by_computing].
  apply then_opened; [by repeat constructor | by_computing |].
  called. { apply quiet_env. }
  eapply then_received; [by apply built_bytes | by_computing | by_computing | by_computing |].
  cbn [v_chans v_queue v_parser v_wire v_pending].
  skipped. apply then_control; [done | by_computing |].
  called. { apply He1. } called. { apply He2. }
  eapply then_received; [apply rest_bytes | by_computing | by_computing | by_computing |].
  cbn [v_chans v_queue v_parser v_wire v_pending].
  skipped. called. { apply He3. }
  apply ends_here. by_computing.
Qed.

Lemma typing_recorded :
  exists tr, record_of typing_life tr (last_of typing_life).1 (last_of typing_life).2.
Proof.
  destruct (life_recorded (Q := list Z) typing_life typing_sound) as (d & w & tr & Hl & Hr).
  exists tr. unfold last_of. unfold lived in Hl. by rewrite Hl.
Qed.

(** Klipper's two bytes reach the UART of the MCU. *)
Lemma uart_over_link_witness :
  exists tr p fx fx1 f fs1 fs2 fs3,
    record_of typing_life tr (last_of typing_life).1 (last_of typing_life).2 /\
    get 0 (channels (last_of listening_life).1) = Some (AMcu p) /\
    McuChannel.fd p = Some f /\ accepted 0 (session tr) = fs1 ++ fs2 ++ fs3 /\
    written (fx_sys fx) f ++ McuChannel.txbuf p = written (fx_sys fx1) f ++ payloads fs2.
Proof.
  destruct typing_recorded as [tr Hr].
  destruct (uart_over_link typing_life (last_of typing_life).1 (last_of typing_life).2 tr 3
    listening_life (last_of listening_life).1 (last_of listening_life).2 listening_record 0
    "/dev/ttyS0" 230400 (sample_env 0 [])) as (p & fx & Hp & _ & Hact).
  - exact typing_sound.
  - exact Hr.
  - by apply typing_ran.
  - exact listening_sound.
  - exact listening_recorded.
  - eexists. by_computing.
  - rewrite (proj1 typing_ran). reflexivity.
  - reflexivity.
  - cbn [calls listening_record mbind list_bind app Z.eqb]. repeat apply Forall_cons_2; try apply Forall_nil_2;
      apply PtyProofs.sample_soft.
  - destruct Hact as (h1 & h2 & s1 & fx1 & f & fs1 & fs2 & fs3 & _ & _ & _ & _ & Hf & Ha & Hw).
    { assert (Some (AMcu p) = get 0 (channels (last_of listening_life).1)) as E by by rewrite Hp.
      vm_compute in E. by injection E as ->. }
    exists tr, p, fx, fx1, f, fs1, fs2, fs3. split; [exact Hr|]. split; [exact Hp|].
    split; [exact Hf|]. split; [exact Ha | exact Hw].
Defined.

End LinkRuns.
