(* ===== verification/TcpRuns.v ===== *)
(** * TCP connections through two daemons, concretely

    A client at the exporter, its service at the host, and what they write to each
    other, on which the theorems of [LinkTcp.v] are instantiated. *)
From Stdlib Require Import ZArith Lia.
From stdpp Require Import base option numbers list strings.
From S2P Require Import Prelude Protocol Stream Parser TxQueue Serial Chan Discovery Mcu Pty Tcp TcpSource TcpDest TcpSession TcpClient TcpService Cli Daemon DaemonProofs DaemonFlow Channels Shift DaemonTrace DaemonRuns LinkSession LinkTcp LinkRuns.

Local Open Scope Z_scope.

Module TcpRuns.
Import Daemon DaemonProofs Channels ChannelsProofs DaemonTrace DaemonRuns LinkSession LinkRuns.

#[local] Existing Instance crc32_zlib.
#[local] Existing Instance fifo_ops.
#[local] Existing Instance fifo_laws.

Definition client_wrote : list Z := [1; 2; 3].

(** A client connects at the exporter and writes. *)
Definition client_life : Life AnyChannel :=
  mkLife "exporter" (Some "/dev/ttyGS0"%string) None
    [ASource TcpSourceProofs.example_start] 0 (denv 0 [])
    [mkPass (denv (secs 1) [])
       [mkEvent TOKEN_LINK true false (denv (secs 1) (build hello));
        mkEvent (primary_token 3) true false (denv (secs 1) []);
        mkEvent (tcp_slot_token 3 0) true false (denv (secs 1) client_wrote);
        mkEvent TOKEN_LINK false true (denv (secs 1) [])]]
    (mkWorld [] []).

Definition client_sent : list Z :=
  concat (map build [hello; (F_ACK, 0, []); (F_TCONN, 3, pack_cid 0);
    (F_TDATA, 3, pack_cid 0 ++ client_wrote)]).

Example client_ran :
  written (w_link (last_of client_life).2) 3 = client_sent /\
  link_fd (last_of client_life).1 = Some 3.
Proof. by vm_compute. Qed.

(** The host connects to its service and hands the bytes over. *)
Definition service_life : Life AnyChannel :=
  mkLife "host" (Some "/dev/ttyACM0"%string) None
    [ADest TcpDestProofs.example_dest] 0 (denv 0 [])
    [mkPass (denv (secs 1) []) [mkEvent TOKEN_LINK true false (denv (secs 2) client_sent)]]
    (mkWorld [] []).

Definition service_record : list act :=
  let e := d_chan (denv (secs 2) client_sent) 0 3 in
  [Opened; Called 3 (InTick (secs 1)) (d_chan (denv (secs 1) []) 1 3) [] [];
   Received client_sent; Skipped hello; Control F_ACK [(F_ACK, 0, [])];
   Called 3 InConnect e [] []; Skipped (F_ACK, 0, []);
   Called 3 (InFrame F_TCONN (pack_cid 0)) e [] [];
   Called 3 (InFrame F_TDATA (pack_cid 0 ++ client_wrote)) e [] []].

Lemma source_new : new_channel (ASource TcpSourceProofs.example_start).
Proof.
  split; [|done]. split; [done|]. split; [done|]. split.
  - apply conns_ok_empty, no_conns_empty.
  - intros _. apply no_conns_empty.
Qed.

Lemma dest_new : new_channel (ADest TcpDestProofs.example_dest).
Proof. split; [by apply TcpDestProofs.dst_inv_new | split; [apply no_conns_empty | done]]. Qed.

Lemma client_sound : sound client_life.
Proof.
  apply sample_sound; [| apply quiet_env |].
  { apply source_new. }
  repeat apply Forall_cons_2; try apply Forall_nil_2;
    (apply sample_event; [|by vm_compute|]).
  - by left.
  - by apply built_bytes.
  - right. split; [by left | by left].
  - constructor.
  - right. split; right; by exists 0.
  - unfold client_wrote. solve_bytes.
  - by left.
  - constructor.
Qed.

Lemma client_bytes : bytes_ok client_sent.
Proof.
  apply FrameParser.build_all_bytes_ok. repeat apply Forall_cons_2; try apply Forall_nil_2;
    (split; [done|]; split; [done|]).
  1, 2: by apply Forall_nil_2.
  - change (bytes_ok [0; 0]). solve_bytes.
  - change (bytes_ok [0; 0; 1; 2; 3]). solve_bytes.
Qed.

Lemma service_sound : sound service_life.
Proof.
  apply sample_sound; [| apply quiet_env |].
  { apply dest_new. }
  apply Forall_singleton, sample_event; [by left | by vm_compute | apply client_bytes].
Qed.

Lemma service_recorded :
  record_of service_life service_record (last_of service_life).1 (last_of service_life).2.
Proof.
  assert (denv_ok (denv (secs 2) client_sent)) as He.
  { apply denv_sample; [by vm_compute | apply client_bytes]. }
  split; [|by_computing].
  apply then_opened; [apply Forall_singleton, no_conns_empty | by_computing |].
  called. { apply quiet_env. }
  eapply then_received; [apply client_bytes | by_computing | by_computing | by_computing |].
  cbn [v_chans v_queue v_parser v_wire v_pending].
  skipped. apply then_control; [done | by_computing |].
  called. { apply He. } skipped.
  called. { apply He. } called. { apply He. }
  apply ends_here. by_computing.
Qed.

Lemma client_recorded :
  exists tr, record_of client_life tr (last_of client_life).1 (last_of client_life).2.
Proof.
  destruct (life_recorded (Q := list Z) client_life client_sound) as (d & w & tr & Hl & Hr).
  exists tr. unfold last_of. unfold lived in Hl. by rewrite Hl.
Qed.

(** What the exporter's channel queued for connection 0 after its [F_TCONN] is what
    the client wrote, for that is what the service was given. *)
Lemma tcp_over_link_witness :
  exists tr fs1 pl fs2 fs3,
    record_of client_life tr (last_of client_life).1 (last_of client_life).2 /\
    accepted 3 (session tr) = fs1 ++ (F_TCONN, 3, pl) :: fs2 ++ fs3 /\
    TcpSession.slot_data 0 fs2 = client_wrote.
Proof.
  destruct client_recorded as [tr Hr].
  destruct (LinkTcp.tcp_over_link client_life (last_of client_life).1 (last_of client_life).2 tr 3
    service_life (last_of service_life).1 (last_of service_life).2 service_record 3
    "127.0.0.1" 7125) as (s & fx & Hs & Hrun & Hall).
  - exact client_sound.
  - exact Hr.
  - by apply client_ran.
  - exact service_sound.
  - exact service_recorded.
  - eexists. by_computing.
  - rewrite (proj1 client_ran). reflexivity.
  - reflexivity.
  - by_computing.
  - symmetry in Hrun. vm_compute in Hrun. injection Hrun as -> ->.
    edestruct (Hall 0) as (fs1 & pl & rest & fs2 & fs3 & Ha & _ & Hw); [reflexivity|].
    exists tr, fs1, pl, fs2, fs3. split; [exact Hr|]. split; [exact Ha|].
    rewrite <- Hw. by_computing.
Defined.

(** The record of the exporter's run: nothing its channel sent was refused. *)
Definition client_record : list act :=
  let e data := d_chan (denv (secs 1) data) 0 3 in
  [Opened; Called 3 (InTick (secs 1)) (e []) [] [];
   Received (build hello); Skipped hello; Control F_ACK [(F_ACK, 0, [])];
   Called 3 InConnect (e (build hello)) [] [];
   Called 3 (InEvent (primary_token 3) true false) (e [])
     [(F_TCONN, 3, pack_cid 0)] [(F_TCONN, 3, pack_cid 0)];
   Called 3 (InEvent (tcp_slot_token 3 0) true false) (e client_wrote)
     [(F_TDATA, 3, pack_cid 0 ++ client_wrote)] [(F_TDATA, 3, pack_cid 0 ++ client_wrote)];
   Wrote client_sent].

Lemma client_acts :
  record_of client_life client_record (last_of client_life).1 (last_of client_life).2.
Proof.
  assert (denv_ok (denv (secs 1) (build hello))) as He1.
  { apply denv_sample; [by vm_compute | by apply built_bytes]. }
  assert (denv_ok (denv (secs 1) client_wrote)) as He2.
  { apply denv_sample; [done | unfold client_wrote; solve_bytes]. }
  split; [|by_computing].
  apply then_opened; [by apply Forall_singleton | by_computing |].
  called. { apply quiet_env. }
  eapply then_received; [by apply built_bytes | by_computing | by_computing | by_computing |].
  cbn [v_chans v_queue v_parser v_wire v_pending].
  skipped. apply then_control; [done | by_computing |].
  called. { apply He1. } called. { apply quiet_env. } called. { apply He2. }
  eapply then_wrote; [apply (de_write _ He2) | by_computing | by_computing |].
  apply ends_here. by_computing.
Qed.

(** The service is given what the client wrote. *)
Lemma client_to_service_witness :
  exists s fx c,
    get 3 (channels (last_of service_life).1) = Some (ADest s) /\
    idx (TcpDestChannel.conns s) 0 = Some (Some c) /\
    written (fx_sys fx) (stream c) ++ txbuf c = client_wrote /\
    exists h1 i e h2 s1 fx1 s2 fx2,
      calls 3 client_record = h1 ++ (i, e) :: h2 /\
      chan_run (ASource TcpSourceProofs.example_start) fx0 h1 = Some (ASource s1, fx1) /\
      TcpClient.accepting s1 i /\ chan_step s1 i e fx1 = Some (s2, fx2) /\
      idx (TcpSourceChannel.conns s1) 0 = Some None /\
      written (fx_sys fx) (stream c) ++ txbuf c = TcpClient.client_run 0 s2 fx2 h2.
Proof.
  destruct (LinkTcp.client_to_service client_life (last_of client_life).1 (last_of client_life).2
    client_record 3 service_life (last_of service_life).1 (last_of service_life).2 service_record 3
    TcpSourceProofs.example_start "127.0.0.1" 7125) as (s & fx & Hs & Hrun & Hall).
  - exact client_sound.
  - exact client_acts.
  - by apply client_ran.
  - exact service_sound.
  - exact service_recorded.
  - eexists. by_computing.
  - rewrite (proj1 client_ran). reflexivity.
  - reflexivity.
  - reflexivity.
  - by_computing.
  - by_computing.
  - symmetry in Hrun. vm_compute in Hrun. injection Hrun as -> ->.
    edestruct (Hall 0) as (h1 & i & e & h2 & s1 & fx1 & s2 & fx2 & Hh & Hr & Ha & Hst & Hfree & _ & _ & Hfull);
      [reflexivity|].
    eexists _, _, _. split; [exact Hs|]. split; [reflexivity|].
    apply and_comm. split.
    { exists h1, i, e, h2, s1, fx1, s2, fx2. split; [exact Hh|]. split; [exact Hr|].
      split; [exact Ha|]. split; [exact Hst|]. split; [exact Hfree|]. apply Hfull; [by_computing|].
      rewrite (proj1 client_ran). reflexivity. }
    by_computing.
Defined.

(** ** The way back: the service answers *)

Definition served : list Z := [4; 5].

Definition answer_sent : list Z := build (F_ACK, 0, []) ++ build (F_TDATA, 3, pack_cid 0 ++ served).

(** The host connects to the service, which answers at once. *)
Definition answering_life : Life AnyChannel :=
  mkLife "host" (Some "/dev/ttyACM0"%string) None
    [ADest TcpDestProofs.example_dest] 0 (denv 0 [])
    [mkPass (denv (secs 1) [])
       [mkEvent TOKEN_LINK true false (denv (secs 2) client_sent);
        mkEvent (tcp_slot_token 3 0) true true (denv (secs 2) served);
        mkEvent TOKEN_LINK false true (denv (secs 2) [])]]
    (mkWorld [] []).

Definition answering_record : list act :=
  let e data := d_chan (denv (secs 2) data) 0 3 in
  [Opened; Called 3 (InTick (secs 1)) (d_chan (denv (secs 1) []) 1 3) [] [];
   Received client_sent; Skipped hello; Control F_ACK [(F_ACK, 0, [])];
   Called 3 InConnect (e client_sent) [] []; Skipped (F_ACK, 0, []);
   Called 3 (InFrame F_TCONN (pack_cid 0)) (e client_sent) [] [];
   Called 3 (InFrame F_TDATA (pack_cid 0 ++ client_wrote)) (e client_sent) [] [];
   Called 3 (InEvent (tcp_slot_token 3 0) true true) (e served)
     [(F_TDATA, 3, pack_cid 0 ++ served)] [(F_TDATA, 3, pack_cid 0 ++ served)];
   Wrote (build hello ++ answer_sent)].

(** The exporter's client is given the answer. *)
Definition hearing_life : Life AnyChannel :=
  mkLife "exporter" (Some "/dev/ttyGS0"%string) None
    [ASource TcpSourceProofs.example_start] 0 (denv 0 [])
    [mkPass (denv (secs 1) [])
       [mkEvent TOKEN_LINK true false (denv (secs 1) (build hello));
        mkEvent (primary_token 3) true false (denv (secs 1) []);
        mkEvent (tcp_slot_token 3 0) true false (denv (secs 1) client_wrote);
        mkEvent TOKEN_LINK false true (denv (secs 1) []);
        mkEvent TOKEN_LINK true false (denv (secs 2) answer_sent)]]
    (mkWorld [] []).

Definition hearing_record : list act :=
  let e := d_chan (denv (secs 2) answer_sent) 0 3 in
  client_record ++
  [Received answer_sent; Skipped (F_ACK, 0, []);
   Called 3 (InFrame F_TDATA (pack_cid 0 ++ served)) e [] []].

Example answering_ran :
  written (w_link (last_of answering_life).2) 3 = build hello ++ answer_sent /\
  link_fd (last_of answering_life).1 = Some 3.
Proof. by vm_compute. Qed.

Lemma answer_bytes : bytes_ok answer_sent.
Proof.
  apply Forall_app. split; [by apply built_bytes|]. apply frame_bytes_ok.
  split; [done|]. split; [done|]. change (bytes_ok [0; 0; 4; 5]). solve_bytes.
Qed.

Lemma answering_sound : sound answering_life.
Proof.
  apply sample_sound; [| apply quiet_env |].
  { apply dest_new. }
  repeat apply Forall_cons_2; try apply Forall_nil_2;
    (apply sample_event; [|by vm_compute|]).
  - by left.
  - apply client_bytes.
  - right. split; [by right; exists 0 | by exists 0].
  - unfold served. solve_bytes.
  - by left.
  - constructor.
Qed.

Lemma hearing_sound : sound hearing_life.
Proof.
  apply sample_sound; [| apply quiet_env |].
  { apply source_new. }
  repeat apply Forall_cons_2; try apply Forall_nil_2;
    (apply sample_event; [|by vm_compute|]).
  - by left.
  - by apply built_bytes.
  - right. split; [by left | by left].
  - constructor.
  - right. split; right; by exists 0.
  - unfold client_wrote. solve_bytes.
  - by left.
  - constructor.
  - by left.
  - apply answer_bytes.
Qed.

Lemma answering_acts :
  record_of answering_life answering_record (last_of answering_life).1 (last_of answering_life).2.
Proof.
  assert (denv_ok (denv (secs 2) client_sent)) as He1.
  { apply denv_sample; [by vm_compute | apply client_bytes]. }
  assert (denv_ok (denv (secs 2) served)) as He2.
  { apply denv_sample; [done | unfold served; solve_bytes]. }
  split; [|by_computing].
  apply then_opened; [apply Forall_singleton, no_conns_empty | by_computing |].
  called. { apply quiet_env. }
  eapply then_received; [apply client_bytes | by_computing | by_computing | by_computing |].
  cbn [v_chans v_queue v_parser v_wire v_pending].
  skipped. apply then_control; [done | by_computing |].
  called. { apply He1. } skipped.
  called. { apply He1. } called. { apply He1. } called. { apply He2. }
  eapply then_wrote; [apply (de_write _ He2) | by_computing | by_computing |].
  apply ends_here. by_computing.
Qed.

Lemma hearing_acts :
  record_of hearing_life hearing_record (last_of hearing_life).1 (last_of hearing_life).2.
Proof.
  assert (denv_ok (denv (secs 2) answer_sent)) as He.
  { apply denv_sample; [by vm_compute | apply answer_bytes]. }
  split; [|by_computing]. unfold hearing_record.
  eapply acts_trans; [apply client_acts|].
  eapply then_received; [apply answer_bytes | by_computing | by_computing | by_computing |].
  cbn [v_chans v_queue v_parser v_wire v_pending].
  skipped. called. { apply He. }
  apply ends_here. by_computing.
Qed.

(** The client is given the answer. *)
Lemma service_to_client_witness :
  exists s fx c d fxd,
    get 3 (channels (last_of hearing_life).1) = Some (ASource s) /\
    idx (TcpSourceChannel.conns s) 0 = Some (Some c) /\
    exists h1 i e h2 s1 fx1,
      calls 3 (session hearing_record) = h1 ++ (i, e) :: h2 /\
      chan_run (ASource TcpSourceProofs.example_start) fx0 (calls 3 (past hearing_record) ++ h1)
        = Some (ASource s1, fx1) /\
      TcpClient.accepting s1 i /\
      TcpService.service_run 0 d fxd (calls 3 (session answering_record)) =
        TcpSession.data_for 0 h1 ++ (written (fx_sys fx) (stream c) ++ txbuf c) ++ [].
Proof.
  destruct (LinkTcp.service_to_client answering_life (last_of answering_life).1
    (last_of answering_life).2 answering_record 3 hearing_life (last_of hearing_life).1
    (last_of hearing_life).2 hearing_record 3
    TcpSourceProofs.example_start "127.0.0.1" 7125) as (s & fx & d & fxd & Hs & Hrun & _ & Hall).
  - exact answering_sound.
  - exact answering_acts.
  - by apply answering_ran.
  - exact hearing_sound.
  - exact hearing_acts.
  - eexists. by_computing.
  - rewrite (proj1 answering_ran). reflexivity.
  - reflexivity.
  - reflexivity.
  - by_computing.
  - by_computing.
  - symmetry in Hrun. vm_compute in Hrun. injection Hrun as -> ->.
    edestruct (Hall 0) as (h1 & i & e & h2 & s1 & fx1 & after & Hh & Hr & Ha & Hd & Hfull);
      [reflexivity|].
    eexists _, _, _, d, fxd. split; [exact Hs|]. split; [reflexivity|].
    exists h1, i, e, h2, s1, fx1. split; [exact Hh|]. split; [exact Hr|]. split; [exact Ha|].
    rewrite Hd, Hfull; [reflexivity | by_computing |].
    rewrite (proj1 answering_ran). reflexivity.
Defined.

End TcpRuns.
