(* ===== verification/Mpsc.v ===== *)
(** * Unbounded queues between tasks

    The tasks of the bridge talk through the unbounded queues of a third-party
    runtime.  The class [Mpsc] is what the code uses of them, [MpscLaws] what it
    relies on: a queue hands over what was sent, in order; sending never blocks and
    fails only when the receiver is gone.  [queue] and [rx_open] are the state of a
    queue as its documentation describes it. *)
From Stdlib Require Import ZArith Lia.
From stdpp Require Import base option numbers list.
From S2P Require Import Prelude.

Class Mpsc := {
  mpsc : Type -> Type;
  mpsc_new {A} : mpsc A;
  (** [tx.send(x)]; [false] is the error. *)
  send {A} : mpsc A -> A -> mpsc A * bool;
  (** [rx.recv()], when there is something to receive. *)
  recv {A} : mpsc A -> option (A * mpsc A);
  (** The receiver is dropped. *)
  close {A} : mpsc A -> mpsc A;
  queue {A} : mpsc A -> list A;
  rx_open {A} : mpsc A -> bool;
}.

Class MpscLaws `{Mpsc} := {
  new_queue {A} : queue (@mpsc_new _ A) = [];
  new_open {A} : rx_open (@mpsc_new _ A) = true;
  send_ok {A} (q : mpsc A) x : (send q x).2 = rx_open q;
  send_rx_open {A} (q : mpsc A) x : rx_open (send q x).1 = rx_open q;
  send_queue {A} (q : mpsc A) x : rx_open q = true -> queue (send q x).1 = queue q ++ [x];
  recv_some {A} (q : mpsc A) x q' : recv q = Some (x, q') ->
    rx_open q = true /\ queue q = x :: queue q' /\ rx_open q' = true;
  close_closed {A} (q : mpsc A) : rx_open (close q) = false;
}.

(** The queues used to run the model. *)
Record fifo (A : Type) := mkFifo { fifo_queue : list A; fifo_open : bool }.
Arguments mkFifo {A}.
Arguments fifo_queue {A}.
Arguments fifo_open {A}.

#[export] Instance fifo_mpsc : Mpsc := {
  mpsc := fifo;
  mpsc_new A := mkFifo [] true;
  send A q x := if fifo_open q then (mkFifo (fifo_queue q ++ [x]) true, true) else (q, false);
  recv A q :=
    match fifo_queue q with
    | x :: l => if fifo_open q then Some (x, mkFifo l true) else None
    | [] => None
    end;
  close A q := mkFifo [] false;
  queue A q := fifo_queue q;
  rx_open A q := fifo_open q;
}.

#[export] Instance fifo_mpsc_laws : MpscLaws.
Proof.
  split; cbn; try done; intros A [l []]; cbn; try done.
  - destruct l as [|y l]; [done|]. intros x q' [= <- <-]. by cbn.
  - by destruct l.
Qed.
