(* ===== verification/Framing.v ===== *)
(** * The framing codecs of the windlass bridge ([windlass/framing.rs])

    Three incremental decoders over a byte buffer, and the two encoders.  A
    decoder consumes bytes from the front of [src] (a [BytesMut]) and returns a
    frame or asks for more; the runtime calls it until it asks for more, then
    appends what it has read.  The class [Decoder] is that interface, and
    [DecoderLaws] what makes the way the bytes are cut into reads irrelevant. *)
From Stdlib Require Import ZArith Lia.
From stdpp Require Import base option numbers list.
From S2P Require Import Prelude.

Local Open Scope Z_scope.

Definition MESSAGE_LENGTH_MIN : Z := 5.
Definition MESSAGE_LENGTH_MAX : Z := 64.
Definition MESSAGE_VALUE_SYNC : Z := 0x7E.

(** [src.advance(n)] and [src.split_to(n)] panic beyond the end. *)
Definition advance (src : list Z) (n : Z) : option (list Z) :=
  if (0 <=? n) && (n <=? zlen src) then Some (zdrop n src) else None.

Definition split_to (src : list Z) (n : Z) : option (list Z * list Z) :=
  if (0 <=? n) && (n <=? zlen src) then Some (ztake n src, zdrop n src) else None.

(** ** The codecs *)

Module TunnelCodec.

Record TunnelFrame := mkFrame { ch_id : Z; frame : list Z }.

Fixpoint decode_loop (fuel : nat) (src : list Z) : option (option TunnelFrame * list Z) :=
  match fuel with
  | O => None
  | S fuel =>
      if zlen src <? 2 then Some (None, src)
      else
        ch_id ← idx src 0;
        frame_len ← idx src 1;
        if (frame_len <? MESSAGE_LENGTH_MIN) || (MESSAGE_LENGTH_MAX <? frame_len) then
          src ← advance src 1;
          decode_loop fuel src
        else
          let total := 1 + frame_len in
          if zlen src <? total then Some (None, src)
          else
            last ← idx src (total - 1);
            if negb (last =? MESSAGE_VALUE_SYNC) then
              src ← advance src 1;
              decode_loop fuel src
            else
              src ← advance src 1;
              '(frame, src) ← split_to src frame_len;
              Some (Some (mkFrame ch_id frame), src)
  end.

(** Every iteration that does not return consumes a byte. *)
Definition decode (src : list Z) : option (option TunnelFrame * list Z) :=
  decode_loop (S (length src)) src.

Definition encode (item : TunnelFrame) (dst : list Z) : list Z :=
  dst ++ [ch_id item] ++ frame item.

End TunnelCodec.

Definition CTRL_CH : Z := 0xFF.
Definition CTRL_DICT_FRAG : Z := 0x01.
Definition CTRL_DICT_DONE : Z := 0x02.
Definition DICT_FRAG_MAX : Z := 253.

Module PayloadTunnelCodec.

Record PayloadTunnelFrame := mkFrame { ch_id : Z; payload : list Z }.

Definition decode (src : list Z) : option (option PayloadTunnelFrame * list Z) :=
  if zlen src <? 2 then Some (None, src)
  else
    ch_id ← idx src 0;
    payload_len ← idx src 1;
    let total := 2 + payload_len in
    if zlen src <? total then Some (None, src)
    else
      src ← advance src 2;
      '(payload, src) ← split_to src payload_len;
      Some (Some (mkFrame ch_id payload), src).

(** [None] is the error for a payload of more than 255 bytes. *)
Definition encode (item : PayloadTunnelFrame) (dst : list Z) : option (list Z) :=
  let len := zlen (payload item) in
  if 255 <? len then None
  else Some (dst ++ [ch_id item] ++ [len] ++ payload item).

End PayloadTunnelCodec.

Module KlipperFramer.

Record t := mk { synced : bool }.

Definition new : t := mk false.

(** [src.iter().position(|&b| b == MESSAGE_VALUE_SYNC)] *)
Fixpoint position_sync (src : list Z) : option Z :=
  match src with
  | [] => None
  | b :: src => if b =? MESSAGE_VALUE_SYNC then Some 0 else Z.succ <$> position_sync src
  end.

Fixpoint decode_loop (fuel : nat) (self : t) (src : list Z)
  : option (option (list Z) * t * list Z) :=
  match fuel with
  | O => None
  | S fuel =>
      if is_empty src then Some (None, self, src)
      else if negb (synced self) then
        match position_sync src with
        | Some pos => src ← advance src (pos + 1); decode_loop fuel (mk true) src
        | None => Some (None, self, [])
        end
      else
        first ← idx src 0;
        if first =? MESSAGE_VALUE_SYNC then src ← advance src 1; decode_loop fuel self src
        else
          let frame_len := first in
          if (frame_len <? MESSAGE_LENGTH_MIN) || (MESSAGE_LENGTH_MAX <? frame_len) then
            src ← advance src 1; decode_loop fuel (mk false) src
          else if zlen src <? frame_len then Some (None, self, src)
          else
            last ← idx src (frame_len - 1);
            if negb (last =? MESSAGE_VALUE_SYNC) then
              src ← advance src 1; decode_loop fuel (mk false) src
            else
              '(frame, src) ← split_to src frame_len;
              Some (Some frame, self, src)
  end.

Definition decode (self : t) (src : list Z) : option (option (list Z) * t * list Z) :=
  decode_loop (S (length src)) self src.

End KlipperFramer.

(** ** The interface *)

Class Decoder (D Item : Type) := {
  dec : D -> list Z -> option (option Item * D * list Z);
}.

#[export] Instance tunnel_decoder : Decoder unit TunnelCodec.TunnelFrame := {
  dec _ src := '(r, src) ← TunnelCodec.decode src; Some (r, tt, src);
}.

#[export] Instance payload_decoder : Decoder unit PayloadTunnelCodec.PayloadTunnelFrame := {
  dec _ src := '(r, src) ← PayloadTunnelCodec.decode src; Some (r, tt, src);
}.

#[export] Instance framer_decoder : Decoder KlipperFramer.t (list Z) := {
  dec := KlipperFramer.decode;
}.

(** What the runtime relies on: a decoder never panics, eats from the front,
    and, when it returns a frame, eats something; bytes that come later change
    neither a frame it returned nor what it does when it asks for more. *)
Class DecoderLaws (D Item : Type) `{Decoder D Item} := {
  dec_total d src : bytes_ok src ->
    exists r d' src', dec d src = Some (r, d', src') /\ src' `suffix_of` src /\
      (r <> None -> (length src' < length src)%nat);
  dec_frame d src x d' src' more : bytes_ok src -> bytes_ok more ->
    dec d src = Some (Some x, d', src') -> dec d (src ++ more) = Some (Some x, d', src' ++ more);
  dec_wait d src d' src' more : bytes_ok src -> bytes_ok more ->
    dec d src = Some (None, d', src') -> dec d (src ++ more) = dec d' (src' ++ more);
}.

(** The runtime's loop: decode until the decoder asks for more. *)
Section Framed.
Context {D Item : Type} `{Decoder D Item}.

Fixpoint frames_loop (fuel : nat) (d : D) (src : list Z) : option (list Item * D * list Z) :=
  match fuel with
  | O => None
  | S fuel =>
      '(r, d, src) ← dec d src;
      match r with
      | None => Some ([], d, src)
      | Some x => '(xs, d, src) ← frames_loop fuel d src; Some (x :: xs, d, src)
      end
  end.

Definition frames (d : D) (src : list Z) : option (list Item * D * list Z) :=
  frames_loop (S (length src)) d src.

(** The same after each read. *)
Fixpoint framed (d : D) (src : list Z) (reads : list (list Z)) : option (list Item * D * list Z) :=
  match reads with
  | [] => Some ([], d, src)
  | r :: reads =>
      '(xs, d, src) ← frames d (src ++ r);
      '(ys, d, src) ← framed d src reads;
      Some (xs ++ ys, d, src)
  end.

End Framed.

Module FramingProofs.

(** ** Any decoder that obeys the laws *)

Section Laws.
Context {D Item : Type} `{DecoderLaws D Item}.

Lemma frames_loop_fuel n m d src :
  bytes_ok src -> (length src < n)%nat -> (length src < m)%nat ->
  frames_loop n d src = frames_loop m d src.
Proof.
  revert m d src. induction n as [|n IH]; intros m d src Hb Hn Hm; [lia|].
  destruct m as [|m]; [lia|]. cbn [frames_loop].
  destruct (dec_total d src Hb) as (r & d' & src' & -> & Hsuf & Hlt). cbn [mbind option_bind].
  destruct r as [x|]; [|done]. specialize (Hlt ltac:(done)).
  rewrite (IH m d' src'); [done | | lia | lia].
  destruct Hsuf as [p ->]. by apply Forall_app in Hb as [_ ?].
Qed.

Lemma frames_unfold d src :
  bytes_ok src ->
  frames d src =
    '(r, d, src) ← dec d src;
    match r with
    | None => Some ([], d, src)
    | Some x => '(xs, d, src) ← frames d src; Some (x :: xs, d, src)
    end.
Proof.
  intros Hb. unfold frames. cbn [frames_loop].
  destruct (dec_total d src Hb) as (r & d' & src' & -> & Hsuf & Hlt). cbn [mbind option_bind].
  destruct r as [x|]; [|done]. specialize (Hlt ltac:(done)).
  rewrite (frames_loop_fuel (length src) (S (length src')) d' src'); [done | | lia | lia].
  destruct Hsuf as [p ->]. by apply Forall_app in Hb as [_ ?].
Qed.

(** The decoder has nothing more to say about the bytes it keeps. *)
Definition idle (d : D) (src : list Z) : Prop := dec d src = Some (None, d, src).

Lemma frames_app d src more :
  bytes_ok src -> bytes_ok more ->
  exists xs d' src', frames d src = Some (xs, d', src') /\ bytes_ok src' /\ idle d' src' /\
    frames d (src ++ more) = ('(ys, d, src) ← frames d' (src' ++ more); Some (xs ++ ys, d, src)).
Proof.
  intros Hb Hm. remember (length src) as n eqn:En. revert d src Hb En.
  induction n as [n IH] using lt_wf_ind. intros d src Hb ->.
  destruct (dec_total d src Hb) as (r & d1 & src1 & E & Hsuf & Hlt).
  assert (bytes_ok src1) as Hb1 by (destruct Hsuf as [p ->]; by apply Forall_app in Hb as [_ ?]).
  assert (bytes_ok (src ++ more)) as Hbm by by apply Forall_app.
  rewrite (frames_unfold d src Hb), E. cbn [mbind option_bind]. destruct r as [x|].
  - destruct (IH (length src1) (Hlt ltac:(done)) d1 src1 Hb1 eq_refl)
      as (xs & d' & src' & -> & Hb' & Hi & Ef).
    cbn [mbind option_bind]. exists (x :: xs), d', src'. split; [done|]. split; [done|].
    split; [done|]. rewrite frames_unfold by done.
    rewrite (dec_frame d src x d1 src1 more Hb Hm E). cbn [mbind option_bind]. rewrite Ef.
    by destruct (frames d' (src' ++ more)) as [[[ys d2] src2]|].
  - exists [], d1, src1. split; [done|]. split; [done|]. split.
    + pose proof (dec_wait d src d1 src1 [] Hb ltac:(constructor) E) as Hw.
      rewrite !app_nil_r, E in Hw. by unfold idle.
    + rewrite (frames_unfold d) by done. rewrite (dec_wait d src d1 src1 more Hb Hm E).
      rewrite <- frames_unfold by by apply Forall_app.
      by destruct (frames d1 (src1 ++ more)) as [[[ys d2] src2]|].
Qed.

(** Reading in pieces is reading at once. *)
Lemma framed_frames d src reads :
  bytes_ok src -> Forall bytes_ok reads -> idle d src ->
  framed d src reads = frames d (src ++ concat reads).
Proof.
  intros Hb Hr. revert d src Hb. induction Hr as [|r reads Hr Hrs IH]; intros d src Hb Hi;
    cbn [framed concat].
  - rewrite app_nil_r, frames_unfold by done. unfold idle in Hi. by rewrite Hi.
  - assert (bytes_ok (concat reads)) as Hc by by apply bytes_ok_concat.
    destruct (frames_app d (src ++ r) (concat reads)) as (xs & d' & src' & -> & Hb' & Hi' & E);
      [by apply Forall_app | done|].
    cbn [mbind option_bind]. rewrite app_assoc, E, IH by done. done.
Qed.

End Laws.

(** ** The tunnel codec *)

Lemma advance_1 b l : advance (b :: l) 1 = Some l.
Proof. unfold advance. rewrite zlen_cons. pose proof (zlen_nonneg l). by zdecide. Qed.

Lemma split_to_eq n src : 0 <= n <= zlen src -> split_to src n = Some (ztake n src, zdrop n src).
Proof. intros. unfold split_to. by zdecide. Qed.

Lemma zdrop_suffix n (l : list Z) : zdrop n l `suffix_of` l.
Proof. exists (ztake n l). by rewrite ztake_zdrop. Qed.

Lemma zdrop_shorter n (l : list Z) : 0 < n -> l <> [] -> (length (zdrop n l) < length l)%nat.
Proof. intros ? Hl. unfold zdrop. rewrite length_drop. destruct l; [done|]. cbn. lia. Qed.

Definition bad_len (n : Z) : bool := (n <? MESSAGE_LENGTH_MIN) || (MESSAGE_LENGTH_MAX <? n).

Lemma bad_len_false n : bad_len n = false <-> 5 <= n <= 64.
Proof.
  unfold bad_len, MESSAGE_LENGTH_MIN, MESSAGE_LENGTH_MAX. split.
  - intros. zbool. lia.
  - intros. by zdecide.
Qed.

Section Tunnel.
Import TunnelCodec.

(** What one iteration does to a buffer of at least two bytes. *)
Lemma tunnel_loop_step n c l rest :
  decode_loop (S n) (c :: l :: rest) =
    if bad_len l then decode_loop n (l :: rest)
    else if zlen (l :: rest) <? l then Some (None, c :: l :: rest)
    else
      last ← idx (l :: rest) (l - 1);
      if negb (last =? MESSAGE_VALUE_SYNC) then decode_loop n (l :: rest)
      else Some (Some (mkFrame c (ztake l (l :: rest))), zdrop l (l :: rest)).
Proof.
  cbn [decode_loop]. rewrite (zlen_cons c), (zlen_cons l). pose proof (zlen_nonneg rest).
  replace (1 + (1 + zlen rest) <? 2) with false by (symmetry; apply Z.ltb_ge; lia).
  rewrite idx_cons_0, (idx_cons_S c _ 1) by lia. cbn [mbind option_bind].
  change (idx (l :: rest) (1 - 1)) with (Some l). cbn [mbind option_bind].
  rewrite advance_1. cbn [mbind option_bind]. fold (bad_len l).
  destruct (bad_len l) eqn:Eb; [done|]. apply bad_len_false in Eb.
  replace (1 + (1 + zlen rest) <? 1 + l) with (1 + zlen rest <? l)
    by (destruct (1 + zlen rest <? l) eqn:E; zbool; by zdecide).
  destruct (1 + zlen rest <? l) eqn:El; [done|]. zbool.
  rewrite idx_cons_S by lia. replace (1 + l - 1 - 1) with (l - 1) by lia.
  destruct (idx (l :: rest) (l - 1)); [|done]. cbn [mbind option_bind].
  rewrite split_to_eq by (rewrite zlen_cons; lia). done.
Qed.

Lemma tunnel_loop_short n src : (length src < 2)%nat -> decode_loop (S n) src = Some (None, src).
Proof. intros. cbn [decode_loop]. replace (zlen src <? 2) with true; [done|]. symmetry. apply Z.ltb_lt. unfold zlen. lia. Qed.

Lemma tunnel_loop_fuel n m src :
  (length src < n)%nat -> (length src < m)%nat -> decode_loop n src = decode_loop m src.
Proof.
  revert m src. induction n as [|n IH]; intros [|m] src Hn Hm; [lia..|].
  destruct src as [|c [|l rest]]; [done | by rewrite !tunnel_loop_short by (cbn; lia)|].
  rewrite !tunnel_loop_step, (IH m (l :: rest)); cbn [length] in *; [done|lia..].
Qed.

Lemma tunnel_short src : (length src < 2)%nat -> decode src = Some (None, src).
Proof. apply tunnel_loop_short. Qed.

Lemma tunnel_step c l rest :
  decode (c :: l :: rest) =
    if bad_len l then decode (l :: rest)
    else if zlen (l :: rest) <? l then Some (None, c :: l :: rest)
    else
      last ← idx (l :: rest) (l - 1);
      if negb (last =? MESSAGE_VALUE_SYNC) then decode (l :: rest)
      else Some (Some (mkFrame c (ztake l (l :: rest))), zdrop l (l :: rest)).
Proof. apply tunnel_loop_step. Qed.

Lemma tunnel_total src :
  exists r src', decode src = Some (r, src') /\ src' `suffix_of` src /\
    (r <> None -> (length src' < length src)%nat).
Proof.
  remember (length src) as n eqn:En. revert src En.
  induction n as [n IH] using lt_wf_ind. intros src ->.
  destruct src as [|c [|l rest]].
  - exists None, []. by split_and!.
  - exists None, [c]. by split_and!.
  - rewrite tunnel_step.
    destruct (IH (length (l :: rest)) ltac:(cbn; lia) (l :: rest) eq_refl)
      as (r & src' & E & Hs & Hl).
    assert (exists r0 src0, decode (l :: rest) = Some (r0, src0) /\ src0 `suffix_of` c :: l :: rest /\
      (r0 <> None -> (length src0 < length (c :: l :: rest))%nat)) as Hskip.
    { exists r, src'. split; [done|]. split; [by apply suffix_cons_r|].
      intros Hr%Hl. cbn [length] in *. lia. }
    destruct (bad_len l) eqn:Eb; [done|]. apply bad_len_false in Eb.
    destruct (zlen (l :: rest) <? l) eqn:El; [by exists None, (c :: l :: rest)|]. zbool.
    destruct (idx_Some (l :: rest) (l - 1)) as [x ->]; [lia|]. cbn [mbind option_bind].
    destruct (negb (x =? MESSAGE_VALUE_SYNC)); [done|].
    eexists _, _. split; [done|]. split; [apply suffix_cons_r, zdrop_suffix|].
    intros _. pose proof (zdrop_shorter l (l :: rest) ltac:(lia) ltac:(done)). cbn [length] in *. lia.
Qed.

(** Later bytes change neither a decoded frame nor the bytes given up so far. *)
Lemma tunnel_more src more r src' :
  decode src = Some (r, src') ->
  decode (src ++ more) =
    match r with Some x => Some (Some x, src' ++ more) | None => decode (src' ++ more) end.
Proof.
  remember (length src) as n eqn:En. revert src En.
  induction n as [n IH] using lt_wf_ind. intros src ->.
  destruct src as [|c [|l rest]].
  - by intros [= <- <-].
  - by intros [= <- <-].
  - rewrite <- !app_comm_cons, !tunnel_step.
    pose proof (IH (length (l :: rest)) ltac:(cbn; lia) (l :: rest) eq_refl) as Hskip.
    rewrite <- !app_comm_cons in Hskip.
    destruct (bad_len l) eqn:Eb; [done|]. apply bad_len_false in Eb.
    destruct (zlen (l :: rest) <? l) eqn:El.
    + intros [= <- <-]. rewrite <- !app_comm_cons, tunnel_step.
      by rewrite (proj2 (bad_len_false l)).
    + zbool. rewrite (app_comm_cons rest more l).
      replace (zlen ((l :: rest) ++ more) <? l) with false
        by (symmetry; apply Z.ltb_ge; zl).
      rewrite idx_app_l by lia.
      destruct (idx (l :: rest) (l - 1)); [|done]. cbn [mbind option_bind].
      destruct (negb _); [done|]. intros [= <- <-].
      by rewrite ztake_app_le, zdrop_app_le by lia.
Qed.

(** A frame of the wire format: the length byte first, the sync byte last. *)
Definition klipper_frame (f : list Z) : Prop :=
  5 <= zlen f <= 64 /\ idx f 0 = Some (zlen f) /\ idx f (zlen f - 1) = Some MESSAGE_VALUE_SYNC.

Lemma tunnel_decode_frame c f more :
  klipper_frame f -> decode (encode (mkFrame c f) [] ++ more) = Some (Some (mkFrame c f), more).
Proof.
  intros (Hlen & H0 & Hlast). unfold encode. cbn [app ch_id frame].
  destruct f as [|l rest]; [done|]. injection H0 as Hl. cbn [app].
  rewrite tunnel_step, (app_comm_cons rest more l).
  rewrite (proj2 (bad_len_false l)) by lia.
  replace (zlen ((l :: rest) ++ more) <? l) with false by (symmetry; apply Z.ltb_ge; zl).
  rewrite <- Hl in Hlast. rewrite idx_app_l, Hlast by lia. cbn [mbind option_bind].
  rewrite ztake_app, zdrop_app by done. done.
Qed.

End Tunnel.

#[global] Instance tunnel_laws : DecoderLaws unit TunnelCodec.TunnelFrame.
Proof.
  split; unfold dec; cbn [tunnel_decoder].
  - intros [] src _. destruct (tunnel_total src) as (r & src' & -> & ? & ?).
    by exists r, tt, src'.
  - intros [] src x [] src' more _ _. destruct (TunnelCodec.decode src) as [[r s]|] eqn:E; [|done].
    intros [= -> ->]. by rewrite (tunnel_more _ more _ _ E).
  - intros [] src [] src' more _ _. destruct (TunnelCodec.decode src) as [[r s]|] eqn:E; [|done].
    intros [= -> ->]. by rewrite (tunnel_more _ more _ _ E).
Qed.

(** ** The payload codec *)

Section Payload.
Import PayloadTunnelCodec.

Lemma payload_step c n rest :
  0 <= n ->
  decode (c :: n :: rest) =
    if zlen rest <? n then Some (None, c :: n :: rest)
    else Some (Some (mkFrame c (ztake n rest)), zdrop n rest).
Proof.
  intros Hn. unfold decode. rewrite !zlen_cons. pose proof (zlen_nonneg rest).
  replace (1 + (1 + zlen rest) <? 2) with false by (symmetry; apply Z.ltb_ge; lia).
  rewrite idx_cons_0, (idx_cons_S c _ 1) by lia. cbn [mbind option_bind].
  change (idx (n :: rest) (1 - 1)) with (Some n). cbn [mbind option_bind].
  replace (1 + (1 + zlen rest) <? 2 + n) with (zlen rest <? n)
    by (destruct (zlen rest <? n) eqn:E; zbool; by zdecide).
  destruct (zlen rest <? n) eqn:El; [done|]. zbool.
  unfold advance. rewrite !zlen_cons. zdecide. cbn [mbind option_bind].
  change (zdrop 2 (c :: n :: rest)) with rest. by rewrite split_to_eq by lia.
Qed.

Lemma payload_short src : (length src < 2)%nat -> decode src = Some (None, src).
Proof.
  intros. unfold decode. replace (zlen src <? 2) with true; [done|].
  symmetry. apply Z.ltb_lt. unfold zlen. lia.
Qed.

Lemma payload_total src :
  bytes_ok src ->
  exists r src', decode src = Some (r, src') /\ src' `suffix_of` src /\
    (r <> None -> (length src' < length src)%nat).
Proof.
  intros Hb. destruct src as [|c [|n rest]].
  - exists None, []. by split_and!.
  - exists None, [c]. by split_and!.
  - apply bytes_ok_cons in Hb as [_ Hb]. apply bytes_ok_cons in Hb as [[Hn _] _].
    rewrite payload_step by done. destruct (zlen rest <? n) eqn:E.
    + by exists None, (c :: n :: rest).
    + eexists _, _. split; [done|]. split; [apply suffix_cons_r, suffix_cons_r, zdrop_suffix|].
      intros _. unfold zdrop. rewrite length_drop. cbn. lia.
Qed.

Lemma payload_more src more r src' :
  bytes_ok src -> decode src = Some (r, src') ->
  decode (src ++ more) =
    match r with Some x => Some (Some x, src' ++ more) | None => decode (src' ++ more) end.
Proof.
  intros Hb. destruct src as [|c [|n rest]].
  - by intros [= <- <-].
  - by intros [= <- <-].
  - apply bytes_ok_cons in Hb as [_ Hb]. apply bytes_ok_cons in Hb as [[Hn _] _].
    rewrite payload_step by done. destruct (zlen rest <? n) eqn:E; intros [= <- <-]; [done|].
    zbool. rewrite <- !app_comm_cons, payload_step by done.
    replace (zlen (rest ++ more) <? n) with false by (symmetry; apply Z.ltb_ge; zl).
    by rewrite ztake_app_le, zdrop_app_le by lia.
Qed.

Lemma payload_encode item dst :
  encode item dst =
    if 255 <? zlen (payload item) then None
    else Some (dst ++ [ch_id item] ++ [zlen (payload item)] ++ payload item).
Proof. done. Qed.

Lemma payload_decode_frame c p more :
  decode (([c] ++ [zlen p] ++ p) ++ more) = Some (Some (mkFrame c p), more).
Proof.
  cbn [app]. rewrite payload_step by zl.
  replace (zlen (p ++ more) <? zlen p) with false by (symmetry; apply Z.ltb_ge; zl).
  by rewrite ztake_app, zdrop_app by done.
Qed.

End Payload.

#[global] Instance payload_laws : DecoderLaws unit PayloadTunnelCodec.PayloadTunnelFrame.
Proof.
  split; unfold dec; cbn [payload_decoder].
  - intros [] src Hb. destruct (payload_total src Hb) as (r & src' & -> & ? & ?).
    by exists r, tt, src'.
  - intros [] src x [] src' more Hb _.
    destruct (PayloadTunnelCodec.decode src) as [[r s]|] eqn:E; [|done].
    intros [= -> ->]. by rewrite (payload_more _ more _ _ Hb E).
  - intros [] src [] src' more Hb _.
    destruct (PayloadTunnelCodec.decode src) as [[r s]|] eqn:E; [|done].
    intros [= -> ->]. by rewrite (payload_more _ more _ _ Hb E).
Qed.

(** ** The Klipper framer *)

Section Framer.
Import KlipperFramer.

Lemma position_sync_bound src p : position_sync src = Some p -> 0 <= p < zlen src.
Proof.
  revert p. induction src as [|b src IH]; intros p; [done|]. cbn [position_sync].
  rewrite zlen_cons. pose proof (zlen_nonneg src). destruct (b =? MESSAGE_VALUE_SYNC).
  - intros [= <-]. lia.
  - destruct (position_sync src) as [q|]; [|done]. intros [= <-].
    specialize (IH q eq_refl). lia.
Qed.

Lemma advance_cons b l n : 0 < n -> advance (b :: l) n = advance l (n - 1).
Proof.
  intros. unfold advance. rewrite zlen_cons.
  replace ((0 <=? n) && (n <=? 1 + zlen l)) with ((0 <=? n - 1) && (n - 1 <=? zlen l)).
  2:{ destruct (n - 1 <=? zlen l) eqn:E; zbool; by zdecide. }
  destruct (_ && _); [|done]. unfold zdrop.
  by replace (Z.to_nat n) with (S (Z.to_nat (n - 1))) by lia.
Qed.

Lemma framer_loop_unsynced n b src :
  decode_loop (S n) (mk false) (b :: src) =
    if b =? MESSAGE_VALUE_SYNC then decode_loop n (mk true) src
    else match position_sync src with
         | Some pos => src ← advance src (pos + 1); decode_loop n (mk true) src
         | None => Some (None, mk false, [])
         end.
Proof.
  cbn [decode_loop is_empty synced negb position_sync].
  destruct (b =? MESSAGE_VALUE_SYNC).
  - change (0 + 1) with 1. by rewrite advance_1.
  - destruct (position_sync src) as [p|] eqn:E; [|done]. cbn [fmap option_fmap option_map].
    apply position_sync_bound in E. rewrite advance_cons by lia.
    by replace (Z.succ p + 1 - 1) with (p + 1) by lia.
Qed.

Lemma framer_loop_synced n b rest :
  decode_loop (S n) (mk true) (b :: rest) =
    if b =? MESSAGE_VALUE_SYNC then decode_loop n (mk true) rest
    else if bad_len b then decode_loop n (mk false) rest
    else if zlen (b :: rest) <? b then Some (None, mk true, b :: rest)
    else
      last ← idx (b :: rest) (b - 1);
      if negb (last =? MESSAGE_VALUE_SYNC) then decode_loop n (mk false) rest
      else Some (Some (ztake b (b :: rest)), mk true, zdrop b (b :: rest)).
Proof.
  cbn [decode_loop is_empty synced negb]. rewrite idx_cons_0, advance_1.
  cbn [mbind option_bind]. fold (bad_len b).
  destruct (b =? MESSAGE_VALUE_SYNC); [done|].
  destruct (bad_len b) eqn:Eb; [done|]. apply bad_len_false in Eb.
  destruct (zlen (b :: rest) <? b) eqn:El; [done|]. zbool.
  destruct (idx (b :: rest) (b - 1)); [|done]. cbn [mbind option_bind].
  by rewrite split_to_eq by lia.
Qed.

Lemma framer_loop_nil n d : decode_loop (S n) d [] = Some (None, d, []).
Proof. done. Qed.

Lemma framer_loop_fuel n m d src :
  (length src < n)%nat -> (length src < m)%nat -> decode_loop n d src = decode_loop m d src.
Proof.
  revert m d src. induction n as [|n IH]; intros [|m] d src Hn Hm; [lia..|].
  destruct src as [|b rest]; [done|]. cbn [length] in *. destruct d as [[]].
  - rewrite !framer_loop_synced. by rewrite !(IH m _ rest) by lia.
  - rewrite !framer_loop_unsynced. rewrite !(IH m _ rest) by lia.
    destruct (position_sync rest) as [p|] eqn:E; [|done]. apply position_sync_bound in E.
    unfold advance. destruct (_ && _); [|done]. cbn [mbind option_bind].
    rewrite (IH m); [done|..]; unfold zdrop; rewrite length_drop; lia.
Qed.

Lemma framer_nil d : decode d [] = Some (None, d, []).
Proof. done. Qed.

(** Out of sync, one byte at a time. *)
Lemma framer_unsynced b src :
  decode (mk false) (b :: src) = decode (mk (b =? MESSAGE_VALUE_SYNC)) src.
Proof.
  unfold decode. rewrite framer_loop_unsynced. destruct (b =? MESSAGE_VALUE_SYNC); [done|].
  destruct src as [|b' src]; [done|]. cbn [decode_loop is_empty synced negb].
  destruct (position_sync (b' :: src)) as [p|] eqn:E; [|done].
  apply position_sync_bound in E. unfold advance. destruct (_ && _); [|done].
  cbn [mbind option_bind length] in *. unfold zlen in E. cbn [length] in E.
  apply framer_loop_fuel; unfold zdrop; rewrite length_drop; cbn [length]; lia.
Qed.

Lemma framer_synced b rest :
  decode (mk true) (b :: rest) =
    if b =? MESSAGE_VALUE_SYNC then decode (mk true) rest
    else if bad_len b then decode (mk false) rest
    else if zlen (b :: rest) <? b then Some (None, mk true, b :: rest)
    else
      last ← idx (b :: rest) (b - 1);
      if negb (last =? MESSAGE_VALUE_SYNC) then decode (mk false) rest
      else Some (Some (ztake b (b :: rest)), mk true, zdrop b (b :: rest)).
Proof. apply framer_loop_synced. Qed.

Lemma framer_total d src :
  exists r d' src', decode d src = Some (r, d', src') /\ src' `suffix_of` src /\
    (r <> None -> (length src' < length src)%nat).
Proof.
  revert d. induction src as [|b rest IH]; intros d.
  { exists None, d, []. by rewrite framer_nil. }
  assert (forall d, exists r d' src', decode d rest = Some (r, d', src') /\
    src' `suffix_of` b :: rest /\ (r <> None -> (length src' < length (b :: rest))%nat)) as Hskip.
  { intros d0. destruct (IH d0) as (r & d' & src' & -> & ? & Hl). exists r, d', src'.
    split; [done|]. split; [by apply suffix_cons_r|]. intros ?%Hl. cbn. lia. }
  destruct d as [[]].
  - rewrite framer_synced. destruct (b =? MESSAGE_VALUE_SYNC); [done|].
    destruct (bad_len b) eqn:Eb; [done|]. apply bad_len_false in Eb.
    destruct (zlen (b :: rest) <? b) eqn:El; [by exists None, (mk true), (b :: rest)|]. zbool.
    destruct (idx_Some (b :: rest) (b - 1)) as [x ->]; [lia|]. cbn [mbind option_bind].
    destruct (negb _); [done|]. eexists _, _, _. split; [done|].
    split; [apply zdrop_suffix|]. intros _. apply zdrop_shorter; [lia|done].
  - by rewrite framer_unsynced.
Qed.

Lemma framer_more d src more r d' src' :
  decode d src = Some (r, d', src') ->
  decode d (src ++ more) =
    match r with Some x => Some (Some x, d', src' ++ more) | None => decode d' (src' ++ more) end.
Proof.
  revert d. induction src as [|b rest IH]; intros d.
  { rewrite framer_nil. by intros [= <- <- <-]. }
  rewrite <- app_comm_cons. destruct d as [[]]; [|rewrite !framer_unsynced; apply IH].
  rewrite !framer_synced. destruct (b =? MESSAGE_VALUE_SYNC) eqn:Es; [apply IH|].
  destruct (bad_len b) eqn:Eb; [apply IH|]. pose proof (proj1 (bad_len_false b) Eb).
  destruct (zlen (b :: rest) <? b) eqn:El.
  - intros [= <- <- <-]. rewrite <- app_comm_cons, framer_synced. by rewrite Es, Eb.
  - zbool. rewrite (app_comm_cons rest more b).
    replace (zlen ((b :: rest) ++ more) <? b) with false by (symmetry; apply Z.ltb_ge; zl).
    rewrite idx_app_l by lia.
    destruct (idx (b :: rest) (b - 1)); [|done]. cbn [mbind option_bind].
    destruct (negb _); [apply IH|]. intros [= <- <- <-].
    by rewrite ztake_app_le, zdrop_app_le by lia.
Qed.

End Framer.

#[global] Instance framer_laws : DecoderLaws KlipperFramer.t (list Z).
Proof.
  split; unfold dec; cbn [framer_decoder].
  - intros d src _. apply framer_total.
  - intros d src x d' src' more _ _ E. by rewrite (framer_more _ _ more _ _ _ E).
  - intros d src d' src' more _ _ E. by rewrite (framer_more _ _ more _ _ _ E).
Qed.

(** ** Streams of frames *)

(** On the wire [ws], one item after the other. *)
Lemma framed_stream {D Item} `{DecoderLaws D Item} d ws xs reads :
  dec d [] = Some (None, d, []) ->
  Forall2 (fun w x => bytes_ok w /\ forall more, dec d (w ++ more) = Some (Some x, d, more)) ws xs ->
  concat reads = concat ws ->
  framed d [] reads = Some (xs, d, []).
Proof.
  intros Hnil Hws Hreads.
  assert (bytes_ok (concat ws)) as Hb.
  { apply bytes_ok_concat. clear Hreads. by induction Hws as [|w x ws xs [? _] _ IH]; constructor. }
  rewrite framed_frames; [|constructor| |done].
  2:{ apply bytes_ok_concat. by rewrite Hreads. }
  cbn [app]. rewrite Hreads. clear Hreads reads. revert Hb.
  induction Hws as [|w x ws xs [Hw E] _ IH]; intros Hb; cbn [concat].
  - rewrite frames_unfold by constructor. by rewrite Hnil.
  - cbn [concat] in Hb. rewrite frames_unfold by done. rewrite E. cbn [mbind option_bind].
    apply Forall_app in Hb as [_ Hb]. by rewrite IH.
Qed.

Definition tunnel_item (item : TunnelCodec.TunnelFrame) : Prop :=
  u8 (TunnelCodec.ch_id item) /\ bytes_ok (TunnelCodec.frame item) /\
  klipper_frame (TunnelCodec.frame item).

(** the tunnel round trip: the Klipper frames encoded on the link are decoded
    with their channels, in order, whatever the sizes of the reads. *)
Theorem tunnel_stream items reads :
  Forall tunnel_item items ->
  concat reads = foldl (fun dst item => TunnelCodec.encode item dst) [] items ->
  framed tt [] reads = Some (items, tt, []).
Proof.
  intros Hi Hreads.
  assert (forall dst, foldl (fun dst item => TunnelCodec.encode item dst) dst items =
    dst ++ concat (map (fun item => TunnelCodec.encode item []) items)) as Hw.
  { clear. induction items as [|i items IH]; intros dst; cbn [foldl map concat].
    - by rewrite app_nil_r.
    - rewrite IH. unfold TunnelCodec.encode. by rewrite <- !app_assoc. }
  rewrite Hw in Hreads. clear Hw.
  eapply framed_stream; [done | | exact Hreads]. clear Hreads reads.
  induction Hi as [|[c f] items (Hc & Hb & Hf) _ IH]; constructor; [|done]. split.
  - apply Forall_app. split; [constructor|]. apply Forall_app. split; [|done].
    constructor; [done|constructor].
  - intros more. unfold dec. cbn [tunnel_decoder]. by rewrite tunnel_decode_frame.
Qed.

(** The sink: each item encoded behind the others, up to the first error. *)
Definition payload_wire (items : list PayloadTunnelCodec.PayloadTunnelFrame) (dst : list Z)
  : option (list Z) :=
  foldl (fun dst item => d ← dst; PayloadTunnelCodec.encode item d) (Some dst) items.

Lemma payload_wire_none items :
  foldl (fun dst item => d ← dst; PayloadTunnelCodec.encode item d) None items = None.
Proof. by induction items. Qed.

Lemma payload_wire_cons item items dst :
  payload_wire (item :: items) dst =
    (dst ← PayloadTunnelCodec.encode item dst; payload_wire items dst).
Proof.
  unfold payload_wire. cbn [foldl mbind option_bind].
  destruct (PayloadTunnelCodec.encode item dst); [done | apply payload_wire_none].
Qed.

Definition payload_item (item : PayloadTunnelCodec.PayloadTunnelFrame) : Prop :=
  u8 (PayloadTunnelCodec.ch_id item) /\ bytes_ok (PayloadTunnelCodec.payload item).

Lemma payload_wire_spec items dst :
  Forall payload_item items ->
  match payload_wire items dst with
  | None => Exists (fun item => 255 < zlen (PayloadTunnelCodec.payload item)) items
  | Some wire => Forall (fun item => zlen (PayloadTunnelCodec.payload item) <= 255) items /\
      exists ws, wire = dst ++ concat ws /\
      Forall2 (fun w x => bytes_ok w /\
        forall more, dec tt (w ++ more) = Some (Some x, tt, more)) ws items
  end.
Proof.
  intros Hi. revert dst. induction Hi as [|[c p] items [Hc Hp] _ IH]; intros dst.
  { split; [constructor|]. exists []. rewrite app_nil_r. by split. }
  rewrite payload_wire_cons, payload_encode. cbn [PayloadTunnelCodec.payload PayloadTunnelCodec.ch_id] in *.
  destruct (255 <? zlen p) eqn:E; cbn [mbind option_bind]; zbool; [by left|].
  specialize (IH (dst ++ [c] ++ [zlen p] ++ p)).
  destruct (payload_wire items _) as [wire|]; [|by right].
  destruct IH as (Hs & ws & -> & Hws). split; [by constructor|]. exists (([c] ++ [zlen p] ++ p) :: ws).
  split; [cbn [concat]; by rewrite <- !app_assoc|]. constructor; [|done]. split.
  - apply Forall_app. split; [by apply Forall_singleton|]. apply Forall_app. split; [|done].
    constructor; [|constructor]. pose proof (zlen_nonneg p). unfold u8. lia.
  - intros more. unfold dec. cbn [payload_decoder]. by rewrite payload_decode_frame.
Qed.

(** the smart tunnel's round trip: the sink fails exactly when a payload has
    more than 255 bytes, and otherwise the payloads come out of the link with their
    channels, in order, whatever the sizes of the reads. *)
Theorem payload_stream items :
  Forall payload_item items ->
  (payload_wire items [] = None <->
    Exists (fun item => 255 < zlen (PayloadTunnelCodec.payload item)) items) /\
  (forall wire reads, payload_wire items [] = Some wire -> concat reads = wire ->
    framed tt [] reads = Some (items, tt, [])).
Proof.
  intros Hi. pose proof (payload_wire_spec items [] Hi) as Hw. split.
  - destruct (payload_wire items []) as [wire|]; [|done]. split; [done|].
    intros He. destruct Hw as [Hs _]. exfalso. revert He. apply Forall_not_Exists.
    eapply Forall_impl; [exact Hs|]. cbn. lia.
  - intros wire reads E Hreads. rewrite E in Hw. destruct Hw as (_ & ws & -> & Hws).
    by eapply framed_stream.
Qed.

Section FramerStream.
Import KlipperFramer.

Lemma framer_skip k more :
  decode (mk true) (replicate k MESSAGE_VALUE_SYNC ++ more) = decode (mk true) more.
Proof. induction k as [|k IH]; [done|]. cbn [replicate app]. by rewrite framer_synced. Qed.

Lemma framer_frame f more :
  klipper_frame f -> decode (mk true) (f ++ more) = Some (Some f, mk true, more).
Proof.
  intros (Hlen & H0 & Hlast). destruct f as [|b rest]; [done|]. injection H0 as Hb.
  rewrite <- app_comm_cons, framer_synced, (app_comm_cons rest more b).
  rewrite (proj2 (bad_len_false b)) by lia.
  replace (b =? MESSAGE_VALUE_SYNC) with false
    by (symmetry; apply Z.eqb_neq; unfold MESSAGE_VALUE_SYNC; lia).
  replace (zlen ((b :: rest) ++ more) <? b) with false by (symmetry; apply Z.ltb_ge; zl).
  rewrite <- Hb in Hlast. rewrite idx_app_l, Hlast by lia. cbn [mbind option_bind].
  rewrite ztake_app, zdrop_app by done. done.
Qed.

(** What the framer can be holding when it asks for more bytes. *)
Lemma framer_idle d src :
  idle d src ->
  src = [] \/
  (d = mk true /\ exists b rest, src = b :: rest /\ 5 <= b <= 64 /\ zlen src < b).
Proof.
  unfold idle, dec. cbn [framer_decoder]. destruct src as [|b rest]; [by left|].
  intros E. right. destruct d as [[]].
  - split; [done|]. exists b, rest. split; [done|]. revert E. rewrite framer_synced.
    assert (forall d, decode d rest <> Some (None, mk true, b :: rest)) as Hno.
    { intros d0 E. destruct (framer_total d0 rest) as (r & d' & src' & E' & Hs & _).
      rewrite E in E'. simplify_eq. apply suffix_length in Hs. cbn in Hs. lia. }
    destruct (b =? MESSAGE_VALUE_SYNC); [by intros ?%Hno|].
    destruct (bad_len b) eqn:Eb; [by intros ?%Hno|]. apply bad_len_false in Eb.
    destruct (zlen (b :: rest) <? b) eqn:El; [by zbool|].
    destruct (idx _ _) as [x|]; [|done]. cbn [mbind option_bind].
    destruct (negb _); [by intros ?%Hno | done].
  - rewrite framer_unsynced in E.
    destruct (framer_total (mk (b =? MESSAGE_VALUE_SYNC)) rest) as (r & d' & src' & E' & Hs & _).
    rewrite E in E'. simplify_eq. apply suffix_length in Hs. cbn in Hs. lia.
Qed.

End FramerStream.

(** ** The framer on a serial line *)

Definition framer_item (kf : nat * list Z) : Prop := bytes_ok kf.2 /\ klipper_frame kf.2.

(** Frames on a serial line, with idle sync bytes before each. *)
Definition serial_line (items : list (nat * list Z)) : list Z :=
  concat (map (fun '(k, f) => replicate k MESSAGE_VALUE_SYNC ++ f) items).

Lemma sync_ok k : bytes_ok (replicate k MESSAGE_VALUE_SYNC).
Proof. apply Forall_replicate. unfold u8, MESSAGE_VALUE_SYNC. lia. Qed.

Lemma serial_line_ok items : Forall framer_item items -> bytes_ok (serial_line items).
Proof.
  induction 1 as [|[k f] items [Hf _] _ IH]; cbn; [constructor|].
  apply Forall_app. split; [|done]. apply Forall_app. split; [apply sync_ok | done].
Qed.

Lemma frames_dec_eq {D Item} `{DecoderLaws D Item} d src d' src' :
  bytes_ok src -> bytes_ok src' -> dec d src = dec d' src' -> frames d src = frames d' src'.
Proof. intros Hb Hb' E. rewrite !frames_unfold by done. by rewrite E. Qed.

Lemma frames_serial_line items :
  Forall framer_item items ->
  frames (KlipperFramer.mk true) (serial_line items) =
    Some (map snd items, KlipperFramer.mk true, []).
Proof.
  intros Hi. induction Hi as [|[k f] items [Hb Hf] Hi IH]; [done|].
  pose proof (serial_line_ok items Hi) as Hok. cbn [snd] in *.
  change (serial_line ((k, f) :: items)) with
    ((replicate k MESSAGE_VALUE_SYNC ++ f) ++ serial_line items). rewrite <- app_assoc.
  rewrite frames_unfold by (apply Forall_app; split; [apply sync_ok | by apply Forall_app]).
  unfold dec. cbn [framer_decoder]. rewrite framer_skip, framer_frame by done.
  cbn [mbind option_bind map]. by rewrite IH.
Qed.

Lemma framer_unsynced_skip pre more :
  MESSAGE_VALUE_SYNC ∉ pre ->
  KlipperFramer.decode (KlipperFramer.mk false) (pre ++ MESSAGE_VALUE_SYNC :: more) =
    KlipperFramer.decode (KlipperFramer.mk true) more.
Proof.
  induction pre as [|b pre IH]; intros Hpre; cbn [app]; rewrite framer_unsynced; [done|].
  apply not_elem_of_cons in Hpre as [Hb Hpre].
  replace (b =? MESSAGE_VALUE_SYNC) with false by (symmetry; apply Z.eqb_neq; congruence).
  by apply IH.
Qed.

(** C35: the Klipper framer, opened in the middle of a line, drops the tail of the
    frame it came in on and returns every frame after it, idle sync bytes skipped,
    whatever the sizes of the reads, provided the last byte of that tail is its only
    sync byte: the first sync byte is taken for the end of a frame, so that with one
    inside the tail what follows may be lost ([sync_in_tail]). *)
Theorem framer_stream tail items reads :
  bytes_ok tail -> MESSAGE_VALUE_SYNC ∉ tail -> Forall framer_item items ->
  concat reads = tail ++ MESSAGE_VALUE_SYNC :: serial_line items ->
  framed KlipperFramer.new [] reads = Some (map snd items, KlipperFramer.mk true, []).
Proof.
  intros Ht Htail Hi Hreads. pose proof (serial_line_ok items Hi) as Hok.
  assert (bytes_ok (tail ++ MESSAGE_VALUE_SYNC :: serial_line items)) as Hb.
  { apply Forall_app. split; [done|]. constructor; [|done]. unfold u8, MESSAGE_VALUE_SYNC. lia. }
  rewrite framed_frames; [|constructor| |done].
  2:{ apply bytes_ok_concat. by rewrite Hreads. }
  cbn [app]. rewrite Hreads, <- (frames_serial_line items Hi).
  apply frames_dec_eq; [done..|]. by apply framer_unsynced_skip.
Qed.

(** Sixty-four sync bytes bring the framer back from whatever it was holding. *)
Lemma framer_flush d src more :
  bytes_ok src -> bytes_ok more -> idle d src ->
  exists junk, frames d (src ++ replicate 64 MESSAGE_VALUE_SYNC ++ more) =
    ('(xs, d, src) ← frames (KlipperFramer.mk true) more; Some (junk ++ xs, d, src)).
Proof.
  intros Hs Hm Hidle.
  assert (forall k, bytes_ok (replicate k MESSAGE_VALUE_SYNC ++ more)) as Hk.
  { intros k. apply Forall_app. split; [apply sync_ok | done]. }
  assert (forall k, frames (KlipperFramer.mk true) (replicate k MESSAGE_VALUE_SYNC ++ more) =
    frames (KlipperFramer.mk true) more) as Hskip.
  { intros k. apply frames_dec_eq; [done..|]. apply framer_skip. }
  apply framer_idle in Hidle as [->|(-> & b & rest & -> & Hb & Hlen)].
  - exists []. cbn [app]. transitivity (frames (KlipperFramer.mk true) more).
    2:{ by destruct (frames _ more) as [[[xs ?] ?]|]. }
    destruct d as [[]]; [apply Hskip|].
    rewrite <- (Hskip 63%nat). apply frames_dec_eq; [apply (Hk 64%nat) | done|].
    apply (framer_unsynced_skip []), not_elem_of_nil.
  - set (n := Z.to_nat (b - zlen (b :: rest))).
    set (f := (b :: rest) ++ replicate n MESSAGE_VALUE_SYNC).
    pose proof (zlen_nonneg rest). rewrite zlen_cons in Hlen.
    assert (zlen f = b) as Hf.
    { unfold f. rewrite zlen_app, zlen_cons. unfold n. rewrite zlen_replicate; rewrite zlen_cons; lia. }
    assert (klipper_frame f) as Hkf.
    { split; [lia|]. rewrite Hf. split; [done|]. unfold f.
      rewrite idx_app_r by (rewrite zlen_cons; lia). rewrite idx_lookup by (rewrite zlen_cons; lia).
      rewrite lookup_replicate_2; [done|]. unfold n. rewrite zlen_cons. lia. }
    exists [f]. replace 64%nat with (n + (64 - n))%nat by (unfold n; rewrite zlen_cons; lia).
    rewrite replicate_add, <- app_assoc, app_assoc. fold f.
    rewrite frames_unfold.
    2:{ apply Forall_app. split; [apply Forall_app; split; [done | apply sync_ok] | apply Hk]. }
    unfold dec. cbn [framer_decoder]. rewrite framer_frame by done. cbn [mbind option_bind].
    rewrite Hskip. by destruct (frames _ more) as [[[xs ?] ?]|].
Qed.

(** C36: resynchronisation: after any noise, sixty-four sync bytes are enough for the
    framer to return every frame that follows, whatever it held before. *)
Theorem framer_resync d src noise items reads :
  bytes_ok src -> idle d src -> bytes_ok noise -> Forall framer_item items ->
  concat reads = noise ++ replicate 64 MESSAGE_VALUE_SYNC ++ serial_line items ->
  exists junk, framed d src reads = Some (junk ++ map snd items, KlipperFramer.mk true, []).
Proof.
  intros Hs Hidle Hn Hi Hreads. pose proof (serial_line_ok items Hi) as Hok.
  set (rest := replicate 64 MESSAGE_VALUE_SYNC ++ serial_line items) in *.
  assert (bytes_ok rest) as Hr by (apply Forall_app; split; [apply sync_ok | done]).
  rewrite framed_frames; [|done| |done].
  2:{ apply bytes_ok_concat. rewrite Hreads. by apply Forall_app. }
  rewrite Hreads, app_assoc.
  destruct (frames_app d (src ++ noise) rest) as (xs & d' & src' & _ & Hs' & Hidle' & ->);
    [by apply Forall_app | done|].
  destruct (framer_flush d' src' (serial_line items) Hs' Hok Hidle') as [junk E].
  unfold rest. rewrite E, frames_serial_line by done. cbn [mbind option_bind].
  exists (xs ++ junk). by rewrite app_assoc.
Qed.

(** ** Nothing is invented *)

(** [bs] is the [ws], each in one piece and one after the other, with other bytes before
    each of them and after the last, and then [rest]. *)
Inductive pieces : list (list Z) -> list Z -> list Z -> Prop :=
  | pieces_nil gap rest : pieces [] (gap ++ rest) rest
  | pieces_cons gap w ws bs rest : pieces ws bs rest -> pieces (w :: ws) (gap ++ w ++ bs) rest.

Lemma pieces_gap gap ws bs rest : pieces ws bs rest -> pieces ws (gap ++ bs) rest.
Proof. destruct 1; rewrite app_assoc; by constructor. Qed.

Lemma pieces_app ws1 bs1 rest1 ws2 more rest2 :
  pieces ws1 bs1 rest1 -> pieces ws2 (rest1 ++ more) rest2 -> pieces (ws1 ++ ws2) (bs1 ++ more) rest2.
Proof.
  induction 1 as [gap rest|gap w ws bs rest _ IH]; intros Hp; cbn [app]; rewrite <- !app_assoc.
  - by apply pieces_gap.
  - constructor. by apply IH.
Qed.

Section Sound.
Context {D Item : Type} `{DecoderLaws D Item}.
Variables (good : Item -> Prop) (wire : Item -> list Z).
Hypothesis dec_sound : forall d src x d' src',
  dec d src = Some (Some x, d', src') -> good x /\ exists pre, src = pre ++ wire x ++ src'.

Lemma frames_sound d src :
  bytes_ok src ->
  exists xs d' src', frames d src = Some (xs, d', src') /\ bytes_ok src' /\ Forall good xs /\
    pieces (map wire xs) src src'.
Proof.
  remember (length src) as n eqn:En. revert d src En.
  induction n as [n IH] using lt_wf_ind. intros d src -> Hb. rewrite frames_unfold by done.
  destruct (dec_total d src Hb) as (r & d1 & src1 & E & Hsuf & Hlt). rewrite E.
  assert (bytes_ok src1) as Hb1 by (destruct Hsuf as [p ->]; by apply Forall_app in Hb as [_ ?]).
  cbn [mbind option_bind]. destruct r as [x|].
  - destruct (IH _ (Hlt ltac:(done)) d1 src1 eq_refl Hb1) as (ys & d2 & src2 & -> & Hb2 & Hg & Hp).
    destruct (dec_sound _ _ _ _ _ E) as [Hx [pre ->]]. exists (x :: ys), d2, src2.
    split; [done|]. split; [done|]. split; by constructor.
  - exists [], d1, src1. split; [done|]. split; [done|]. split; [done|].
    destruct Hsuf as [pre ->]. constructor.
Qed.

Lemma framed_sound d src reads :
  bytes_ok src -> Forall bytes_ok reads ->
  exists xs d' src', framed d src reads = Some (xs, d', src') /\ Forall good xs /\
    pieces (map wire xs) (src ++ concat reads) src'.
Proof.
  intros Hb Hr. revert d src Hb. induction Hr as [|r reads Hr _ IH]; intros d src Hb;
    cbn [framed concat].
  - exists [], d, src. rewrite app_nil_r. split; [done|]. split; [done|]. apply (pieces_nil []).
  - destruct (frames_sound d (src ++ r)) as (xs & d1 & src1 & -> & Hb1 & Hg1 & Hp1);
      [by apply Forall_app|].
    destruct (IH d1 src1 Hb1) as (ys & d2 & src2 & E2 & Hg2 & Hp2).
    cbn [mbind option_bind]. rewrite E2. exists (xs ++ ys), d2, src2. split; [done|].
    split; [by apply Forall_app|]. rewrite map_app, app_assoc. by eapply pieces_app.
Qed.

End Sound.

Lemma framer_dec_sound d src x d' src' :
  KlipperFramer.decode d src = Some (Some x, d', src') ->
  klipper_frame x /\ exists pre, src = pre ++ x ++ src'.
Proof.
  revert d. induction src as [|b rest IH]; intros d; [by rewrite framer_nil|].
  assert (forall d, KlipperFramer.decode d rest = Some (Some x, d', src') ->
    klipper_frame x /\ exists pre, b :: rest = pre ++ x ++ src') as Hskip.
  { intros d0 E. destruct (IH d0 E) as [Hx [pre ->]]. split; [done|]. by exists (b :: pre). }
  destruct d as [[]]; [|rewrite framer_unsynced; apply Hskip]. rewrite framer_synced.
  destruct (b =? MESSAGE_VALUE_SYNC); [apply Hskip|].
  destruct (bad_len b) eqn:Eb; [apply Hskip|]. apply bad_len_false in Eb.
  destruct (zlen (b :: rest) <? b) eqn:El; [done|]. zbool.
  destruct (idx (b :: rest) (b - 1)) as [l|] eqn:Ei; [|done]. cbn [mbind option_bind].
  destruct (negb _) eqn:En; [apply Hskip|]. zbool. intros [= <- <- <-]. subst l.
  split; [|exists []; cbn [app]; by rewrite ztake_zdrop].
  unfold klipper_frame. rewrite zlen_ztake by lia. split; [done|]. rewrite !idx_ztake by lia. done.
Qed.

Lemma tunnel_dec_sound src x src' :
  TunnelCodec.decode src = Some (Some x, src') ->
  klipper_frame (TunnelCodec.frame x) /\ exists pre, src = pre ++ TunnelCodec.encode x [] ++ src'.
Proof.
  remember (length src) as n eqn:En. revert src En.
  induction n as [n IH] using lt_wf_ind. intros src ->. destruct src as [|c [|l rest]]; [done..|].
  rewrite tunnel_step.
  assert (TunnelCodec.decode (l :: rest) = Some (Some x, src') ->
    klipper_frame (TunnelCodec.frame x) /\
    exists pre, c :: l :: rest = pre ++ TunnelCodec.encode x [] ++ src') as Hskip.
  { intros E. destruct (IH (length (l :: rest)) ltac:(cbn; lia) _ eq_refl E) as [Hx [pre Hp]].
    split; [done|]. exists (c :: pre). cbn [app]. by rewrite <- Hp. }
  destruct (bad_len l) eqn:Eb; [apply Hskip|]. apply bad_len_false in Eb.
  destruct (zlen (l :: rest) <? l) eqn:El; [done|]. zbool.
  destruct (idx (l :: rest) (l - 1)) as [b|] eqn:Ei; [|done]. cbn [mbind option_bind].
  destruct (negb _) eqn:En; [apply Hskip|]. zbool. intros [= <- <-]. subst b.
  cbn [TunnelCodec.frame]. split.
  - unfold klipper_frame. rewrite zlen_ztake by lia. split; [done|]. by rewrite !idx_ztake by lia.
  - exists []. unfold TunnelCodec.encode. cbn [TunnelCodec.ch_id TunnelCodec.frame app].
    by rewrite ztake_zdrop.
Qed.

(** C37: soundness on arbitrary bytes: whatever arrives, in whatever pieces, both
    resynchronising decoders deal with all of it and neither panics nor loops; they
    return only well-formed Klipper frames, the length byte first and the sync byte
    last; each of them, with its channel's byte in front in the case of the tunnel, is
    an unbroken piece of the input, they do not overlap, they are in order, and the
    bytes the decoder keeps are the end of the input. *)
Theorem decoders_sound src reads :
  bytes_ok src -> Forall bytes_ok reads ->
  (forall d, exists fs d' rest, framed d src reads = Some (fs, d', rest) /\
    Forall klipper_frame fs /\ pieces fs (src ++ concat reads) rest) /\
  (exists items rest, framed tt src reads = Some (items, tt, rest) /\
    Forall klipper_frame (map TunnelCodec.frame items) /\
    pieces (map (fun item => TunnelCodec.encode item []) items) (src ++ concat reads) rest).
Proof.
  intros Hs Hr. split.
  - intros d. destruct (framed_sound klipper_frame id) with (d := d) (src := src) (reads := reads)
      as (fs & d' & rest & E & Hg & Hp); [exact framer_dec_sound | done | done |].
    exists fs, d', rest. split; [done|]. split; [done|]. by rewrite map_id in Hp.
  - destruct (framed_sound (fun x => klipper_frame (TunnelCodec.frame x))
      (fun x => TunnelCodec.encode x [])) with (d := tt) (src := src) (reads := reads)
      as (items & [] & rest & E & Hg & Hp); [|done|done|].
    + clear. intros [] src x [] src' E. apply tunnel_dec_sound. unfold dec in E. cbn [tunnel_decoder] in E.
      by destruct (TunnelCodec.decode src) as [[r s]|]; simplify_option_eq.
    + exists items, rest. split; [done|]. split; [by apply Forall_map | done].
Qed.

(** ** Concrete runs *)

Definition frame_a : list Z := [5; 0x10; 0; 0; 0x7E].
Definition frame_b : list Z := [7; 0x11; 0x7E; 0x42; 0; 0; 0x7E].

Lemma frame_a_item : framer_item (2%nat, frame_a).
Proof. split; [unfold frame_a; cbn [snd]; solve_bytes | split; [unfold zlen; cbn; lia | by split]]. Qed.

Lemma frame_b_item : framer_item (0%nat, frame_b).
Proof. split; [unfold frame_b; cbn [snd]; solve_bytes | split; [unfold zlen; cbn; lia | by split]]. Qed.

Lemma tunnel_stream_witness :
  framed tt [] [[3; 5; 0x10; 0]; [0; 0x7E; 9]; 7 :: drop 1 frame_b] =
    Some ([TunnelCodec.mkFrame 3 frame_a; TunnelCodec.mkFrame 9 frame_b], tt, []).
Proof.
  apply tunnel_stream; [|reflexivity].
  repeat apply Forall_cons_2; [..|apply Forall_nil_2];
    (split; [cbn; unfold u8; lia | apply frame_a_item || apply frame_b_item]).
Defined.

Lemma payload_stream_witness :
  framed tt [] [[3; 2; 7]; [8; 0xFF]; [0]] =
    Some ([PayloadTunnelCodec.mkFrame 3 [7; 8]; PayloadTunnelCodec.mkFrame 0xFF []], tt, []).
Proof.
  apply (payload_stream [PayloadTunnelCodec.mkFrame 3 [7; 8]; PayloadTunnelCodec.mkFrame 0xFF []])
    with (wire := [3; 2; 7; 8; 0xFF; 0]); [|reflexivity|reflexivity].
  repeat apply Forall_cons_2; [..|apply Forall_nil_2]; split; cbn; solve_bytes.
Defined.

Lemma framer_stream_witness :
  framed KlipperFramer.new [] [[1; 2; 0x7E; 0x7E]; [0x7E; 5; 0x10; 0]; [0; 0x7E] ++ frame_b] =
    Some ([frame_a; frame_b], KlipperFramer.mk true, []).
Proof.
  apply (framer_stream [1; 2] [(2%nat, frame_a); (0%nat, frame_b)]);
    [solve_bytes | by apply (bool_decide_unpack _) |  | reflexivity].
  repeat apply Forall_cons_2; [apply frame_a_item | apply frame_b_item | apply Forall_nil_2].
Defined.

(** The tail of the frame [7; 10; 0x7E; 9; 1; 2; 0x7E]: the sync byte inside it makes
    the framer wait for nine bytes, in which [frame_a] is lost. *)
Example sync_in_tail :
  framed KlipperFramer.new [] [[10; 0x7E; 9; 1; 2; 0x7E] ++ frame_a ++ frame_b] =
    Some ([[9; 1; 2; 0x7E] ++ frame_a; frame_b], KlipperFramer.mk true, []) /\
  klipper_frame [7; 10; 0x7E; 9; 1; 2; 0x7E].
Proof. split; [reflexivity|]. split; [unfold zlen; cbn; lia | by split]. Qed.

Lemma framer_resync_witness :
  exists junk, framed (KlipperFramer.mk true) [9; 1]
    ([[1; 2; 3]; replicate 64 MESSAGE_VALUE_SYNC ++ [0x7E; 0x7E]; frame_a ++ frame_b]) =
    Some (junk ++ [frame_a; frame_b], KlipperFramer.mk true, []).
Proof.
  apply (framer_resync (KlipperFramer.mk true) [9; 1] [1; 2; 3]
    [(2%nat, frame_a); (0%nat, frame_b)]);
    [solve_bytes | reflexivity | solve_bytes | | reflexivity].
  repeat apply Forall_cons_2; [apply frame_a_item | apply frame_b_item | apply Forall_nil_2].
Defined.

Lemma decoders_sound_witness :
  exists fs rest, framed KlipperFramer.new [] [[0x7E; 5; 0x10]; [0; 0; 0x7E; 7]; [0x11]] =
      Some (fs, KlipperFramer.mk true, rest) /\
    fs = [frame_a] /\ rest = [7; 0x11] /\
    pieces fs ([0x7E] ++ frame_a ++ [7; 0x11]) rest.
Proof.
  destruct (decoders_sound [] [[0x7E; 5; 0x10]; [0; 0; 0x7E; 7]; [0x11]]
    ltac:(solve_bytes) ltac:(repeat constructor; unfold u8; lia)) as [Hf _].
  destruct (Hf KlipperFramer.new) as (fs & d & rest & E & _ & Hp).
  pose proof E as Ev. symmetry in Ev. vm_compute in Ev. injection Ev as -> -> ->.
  exists [frame_a], [7; 0x11]. split; [exact E|]. split; [reflexivity|]. split; [reflexivity | exact Hp].
Defined.

End FramingProofs.
