(* ===== verification/AsyncPort.v ===== *)
(** * The serial port of the bridge ([windlass/async_serial.rs])

    Opening and configuring the port, and the polls that read and write it.  The
    runtime's [AsyncFd] says whether the descriptor is ready; when it is, a system
    call is made, and readiness is cleared when the call would block or read
    nothing.  The answers are a list, one for each turn of a poll's loop; [None] is
    a panic, or a poll that still loops when the answers run out. *)
From Stdlib Require Import ZArith Lia String.
From stdpp Require Import base option numbers list.
From S2P Require Import Prelude Protocol TxQueue Serial Framing.

Local Open Scope Z_scope.

Module AsyncSerial.

(** ** Opening *)

Definition baud_to_nix (baud : Z) : option BaudRate :=
  match baud with
  | 1200 => Some B1200
  | 2400 => Some B2400
  | 4800 => Some B4800
  | 9600 => Some B9600
  | 19200 => Some B19200
  | 38400 => Some B38400
  | 57600 => Some B57600
  | 115200 => Some B115200
  | 230400 => Some B230400
  | 460800 => Some B460800
  | 921600 => Some B921600
  | _ => None
  end.

Definition apply_termios (s : SerialSys) (fd : RawFd) (baud : Z) (w : World)
  : io unit * World :=
  match s.(sys_tcgetattr) with
  | Err e => (Err e, w)
  | Ok attrs =>
      let attrs := {|
        input_flags := [];
        output_flags := [];
        control_flags := [CREAD; CLOCAL; CS8];
        local_flags := [];
        vmin := 0;
        vtime := 0;
        speed := speed attrs;
      |} in
      let attrs :=
        if baud =? 0 then Ok attrs
        else
          match baud_to_nix baud with
          | None => Err InvalidInput
          | Some sp =>
              match s.(sys_cfsetspeed) with
              | Err e => Err e
              | Ok _ => Ok {|
                  input_flags := input_flags attrs;
                  output_flags := output_flags attrs;
                  control_flags := control_flags attrs;
                  local_flags := local_flags attrs;
                  vmin := vmin attrs;
                  vtime := vtime attrs;
                  speed := Some sp;
                |}
              end
          end in
      match attrs with
      | Err e => (Err e, w)
      | Ok attrs =>
          let w := emit w (TcSetAttr fd attrs) in
          match s.(sys_tcsetattr) with
          | Err e => (Err e, w)
          | Ok _ => (Ok tt, w)
          end
      end
  end.

(** What the system answers to the opening of a port: the system calls and the
    registration with the runtime, whose failure drops the file. *)
Record PortSys := mkPort { port_serial : SerialSys; port_asyncfd : io unit }.

Definition from_raw_fd (p : PortSys) (fd : RawFd) (w : World) : io RawFd * World :=
  match port_asyncfd p with
  | Err e => (Err e, close_raw fd w)
  | Ok _ => (Ok fd, w)
  end.

Definition open_serial (p : PortSys) (device : string) (baud : Z) (w : World)
  : io RawFd * World :=
  if has_nul device then (Err InvalidInput, w)
  else
    match (port_serial p).(sys_open) with
    | Err e => (Err e, w)
    | Ok fd =>
        let w := emit w (OpenFd fd) in
        let '(r, w) := apply_termios (port_serial p) fd baud w in
        match r with
        | Err e => (Err e, close_raw fd w)
        | Ok _ => from_raw_fd p fd w
        end
    end.

(** Whether the port could be opened, for the programs that use it. *)
Definition opens (p : PortSys) (device : string) (baud : Z) : bool :=
  match (open_serial p device baud []).1 with Ok _ => true | Err _ => false end.

(** ** Reading and writing *)

Inductive Poll (A : Type) := Ready (a : A) | Pending.
Arguments Ready {A} a.
Arguments Pending {A}.

(** The answers to one turn: readiness, and the result of the system call. *)
Record Answer (A : Type) := mkAnswer { ready : Poll (io unit); call : A }.
Arguments mkAnswer {A}.
Arguments ready {A}.
Arguments call {A}.

(** The runtime: the buffer a reader lends, with the part of it that is filled and the
    room left ([initialize_unfilled], filled by the system call, and [advance], which
    panics beyond the room), and [guard.try_io], which says whether it has cleared the
    readiness. *)
Class Runtime := {
  ReadBuf : Type;
  new_buf : Z -> ReadBuf;
  filled : ReadBuf -> list Z;
  remaining : ReadBuf -> Z;
  advance : list Z -> ReadBuf -> option ReadBuf;
  try_io {A} : io A -> option (io A) * bool;
}.

Class RuntimeLaws `{Runtime} := {
  new_filled cap : filled (new_buf cap) = [];
  new_remaining cap : remaining (new_buf cap) = cap;
  advance_filled data buf : zlen data <= remaining buf ->
    exists buf', advance data buf = Some buf' /\ filled buf' = filled buf ++ data;
  (** A call that would block clears the readiness; any other is handed back. *)
  try_io_blocks {A} e : would_block e = true -> try_io (Err e : io A) = (None, true);
  try_io_fails {A} e : would_block e = false -> try_io (Err e : io A) = (Some (Err e), false);
  try_io_ok {A} (a : A) : try_io (Ok a) = (Some (Ok a), false);
}.

Inductive FdCall := PollReady | ClearReady.

Definition after_try (cleared : bool) (tr : list FdCall) : list FdCall :=
  if cleared then tr ++ [ClearReady] else tr.

(** How a stream stands: by the contract of a reader a poll that is ready with
    nothing in the buffer is the end of the stream. *)
Inductive Ending := Open | Failed (e : Errno) | Eof.

Section Polls.
Context `{Runtime}.

Fixpoint poll_read (answers : list (Answer (io (list Z)))) (buf : ReadBuf) (tr : list FdCall)
  : option (Poll (io unit) * ReadBuf * list (Answer (io (list Z))) * list FdCall) :=
  match answers with
  | [] => None
  | a :: answers =>
      let tr := tr ++ [PollReady] in
      match ready a with
      | Pending => Some (Pending, buf, answers, tr)
      | Ready (Err e) => Some (Ready (Err e), buf, answers, tr)
      | Ready (Ok _) =>
          let '(r, c) := try_io (call a) in
          let tr := after_try c tr in
          match r with
          | Some (Ok []) => poll_read answers buf (tr ++ [ClearReady])
          | Some (Ok data) =>
              buf ← advance data buf; Some (Ready (Ok tt), buf, answers, tr)
          | Some (Err e) => Some (Ready (Err e), buf, answers, tr)
          | None => poll_read answers buf tr
          end
      end
  end.

Fixpoint poll_write (answers : list (Answer write_oracle)) (data : list Z) (tr : list FdCall)
  : option (Poll (io Z) * list (Answer write_oracle) * list FdCall) :=
  match answers with
  | [] => None
  | a :: answers =>
      let tr := tr ++ [PollReady] in
      match ready a with
      | Pending => Some (Pending, answers, tr)
      | Ready (Err e) => Some (Ready (Err e), answers, tr)
      | Ready (Ok _) =>
          let '(r, c) := try_io (call a data) in
          let tr := after_try c tr in
          match r with
          | Some result => Some (Ready result, answers, tr)
          | None => poll_write answers data tr
          end
      end
  end.

Definition poll_flush : Poll (io unit) := Ready (Ok tt).

Definition poll_shutdown : Poll (io unit) := Ready (Ok tt).

(** ** What a reader of the port sees *)

(** The reader polls with an empty buffer whenever it is woken up. *)
Fixpoint read_loop (fuel : nat) (cap : Z) (answers : list (Answer (io (list Z))))
  : list (list Z) * Ending :=
  match fuel with
  | O => ([], Open)
  | S fuel =>
      match poll_read answers (new_buf cap) [] with
      | None => ([], Open)
      | Some (Pending, _, answers, _) => read_loop fuel cap answers
      | Some (Ready (Err e), _, _, _) => ([], Failed e)
      | Some (Ready (Ok _), buf, answers, _) =>
          if is_empty (filled buf) then ([], Eof)
          else let '(chunks, e) := read_loop fuel cap answers in (filled buf :: chunks, e)
      end
  end.

Definition stream (cap : Z) (answers : list (Answer (io (list Z)))) : list (list Z) * Ending :=
  read_loop (length answers) cap answers.

End Polls.

(** The bytes the system handed over, up to the first error. *)
Fixpoint delivered (answers : list (Answer (io (list Z)))) : list Z * Ending :=
  match answers with
  | [] => ([], Open)
  | a :: answers =>
      match ready a, call a with
      | Pending, _ => delivered answers
      | Ready (Err e), _ => ([], Failed e)
      | Ready (Ok _), Ok data => let '(l, e) := delivered answers in (data ++ l, e)
      | Ready (Ok _), Err e => if would_block e then delivered answers else ([], Failed e)
      end
  end.

(** [read(2)] returns no more than was asked for. *)
Definition reads_fit (cap : Z) (a : Answer (io (list Z))) : Prop :=
  match call a with Ok data => bytes_ok data /\ zlen data <= cap | Err _ => True end.

End AsyncSerial.

Module AsyncSerialProofs.
Import AsyncSerial FramingProofs.

(** ** Opening *)

(** The two programs configure a port alike. *)
Lemma baud_to_nix_speed baud : baud_to_nix baud = baud_to_speed baud.
Proof. done. Qed.

Lemma apply_termios_agrees s fd baud w :
  baud_to_speed baud <> None -> apply_termios s fd baud w = Serial.apply_termios s fd baud w.
Proof.
  intros Hb. unfold apply_termios, Serial.apply_termios. rewrite baud_to_nix_speed.
  destruct (baud =? 0) eqn:E0; [by apply Z.eqb_eq in E0 as ->|].
  destruct (baud_to_speed baud); [|done]. by destruct (sys_tcgetattr s), (sys_cfsetspeed s), (sys_tcsetattr s).
Qed.

(** The attributes of a port: raw, reads that do not wait. *)
Definition raw (baud : Z) (attrs : Termios) : Prop :=
  input_flags attrs = [] /\ output_flags attrs = [] /\ local_flags attrs = [] /\
  control_flags attrs = [CREAD; CLOCAL; CS8] /\ vmin attrs = 0 /\ vtime attrs = 0 /\
  (baud <> 0 -> exists sp, baud_to_speed baud = Some sp /\ speed attrs = Some sp).

(** What makes configuring succeed. *)
Definition configures (s : SerialSys) (baud : Z) : Prop :=
  (exists a, sys_tcgetattr s = Ok a) /\
  (baud <> 0 -> baud_to_speed baud <> None /\ sys_cfsetspeed s = Ok tt) /\
  sys_tcsetattr s = Ok tt.

Lemma apply_termios_spec s fd baud w r w' :
  apply_termios s fd baud w = (r, w') ->
  open_fds w' = open_fds w /\
  match r with
  | Ok _ => configures s baud /\ exists attrs, raw baud attrs /\ w' = emit w (TcSetAttr fd attrs)
  | Err _ => ~ configures s baud
  end.
Proof.
  unfold apply_termios, configures.
  destruct (sys_tcgetattr s) as [a0|e]; [|intros [= <- <-]; split; [done|]; by intros [[] _]].
  destruct (Z.eqb_spec baud 0) as [->|Hb].
  - destruct (sys_tcsetattr s) as [[]|e] eqn:Et; intros [= <- <-]; autorewrite with zlist;
      (split; [done|]); [|by intros (_ & _ & ?)].
    split; [by split; [eexists|]|]. eexists. split; [|done]. by repeat split.
  - rewrite baud_to_nix_speed. destruct (baud_to_speed baud) as [sp|] eqn:Eb.
    2: { intros [= <- <-]. split; [done|]. intros (_ & Hs & _). by destruct (Hs Hb). }
    destruct (sys_cfsetspeed s) as [[]|e] eqn:Ec.
    2: { intros [= <- <-]. split; [done|]. intros (_ & Hs & _). by destruct (Hs Hb). }
    destruct (sys_tcsetattr s) as [[]|e] eqn:Et; intros [= <- <-]; autorewrite with zlist;
      (split; [done|]); [|by intros (_ & _ & ?)].
    split; [by split; [eexists|]|]. eexists. split; [|done].
    repeat split; try done. intros _. by exists sp.
Qed.

(** C39: Opening a port is all or nothing: it succeeds exactly when every step does (the
    name has no NUL, the device opens, the speed is one of the table, the attributes
    are read and written, the runtime takes the descriptor), and then one descriptor is
    open and the port raw, at the speed asked for; when any step fails the result is
    an error and no descriptor stays open. *)
Theorem open_serial_spec p device baud w r w' :
  open_serial p device baud w = (r, w') ->
  match r with
  | Ok fd =>
      has_nul device = false /\ sys_open (port_serial p) = Ok fd /\
      configures (port_serial p) baud /\ port_asyncfd p = Ok tt /\
      open_fds w' = open_fds w ++ [fd] /\
      exists attrs, raw baud attrs /\ w' = w ++ [OpenFd fd; TcSetAttr fd attrs]
  | Err _ =>
      (forall fd, fd ∈ open_fds w' -> fd ∈ open_fds w) /\
      ~ (has_nul device = false /\ (exists fd, sys_open (port_serial p) = Ok fd) /\
         configures (port_serial p) baud /\ port_asyncfd p = Ok tt)
  end.
Proof.
  unfold open_serial. destruct (has_nul device); [intros [= <- <-]; split; [done|]; by intros [? _]|].
  destruct (sys_open (port_serial p)) as [fd|e];
    [|intros [= <- <-]; split; [done|]; by intros (_ & [? ?] & _)].
  destruct (apply_termios _ fd baud (emit w (OpenFd fd))) as [r0 w0] eqn:Ea.
  apply apply_termios_spec in Ea as [Hf Ha]. autorewrite with zlist in Hf. cbn in Hf.
  assert (forall fd0, fd0 ∈ open_fds (close_raw fd w0) -> fd0 ∈ open_fds w) as Hclose.
  { intros fd0. unfold close_raw. autorewrite with zlist. cbn [fd_effect]. rewrite Hf.
    rewrite list_elem_of_filter, elem_of_app, list_elem_of_singleton. tauto. }
  unfold from_raw_fd. destruct r0 as [[]|e].
  - destruct Ha as (Hc & attrs & Hr & ->). destruct (port_asyncfd p) as [[]|e]; intros [= <- <-].
    + split_and!; try done. exists attrs. split; [done|]. unfold emit. by rewrite <- app_assoc.
    + split; [done|]. by intros (_ & _ & _ & ?).
  - intros [= <- <-]. split; [done|]. tauto.
Qed.

(** ** Polling *)

Section Polls.
Context `{RuntimeLaws}.

(** A turn after which the poll goes round its loop again: ready, but nothing read
    or the call would block. *)
Definition retried (a : Answer (io (list Z))) : Prop :=
  ready a = Ready (Ok tt) /\
  match call a with Ok data => data = [] | Err e => would_block e = true end.

#[export] Instance retried_dec a : Decision (retried a).
Proof.
  unfold retried. destruct a as [[[[]|e]|] [[|z l]|e']]; cbn;
    try (by right; intros [? ?]); try (by left).
  destruct (would_block e'); [by left | by right; intros [_ ?]].
Defined.

(** The result of the turn that ends a poll, and what it adds to the buffer. *)
Definition settled (a : Answer (io (list Z))) : Poll (io unit) * list Z :=
  match ready a, call a with
  | Pending, _ => (Pending, [])
  | Ready (Err e), _ => (Ready (Err e), [])
  | Ready (Ok _), Err e => (Ready (Err e), [])
  | Ready (Ok _), Ok data => (Ready (Ok tt), data)
  end.

Definition cleared (n : nat) : list FdCall := concat (replicate n [PollReady; ClearReady]).

Lemma poll_read_retry a answers buf tr :
  retried a -> poll_read (a :: answers) buf tr = poll_read answers buf (tr ++ [PollReady; ClearReady]).
Proof.
  intros [Hr Hc]. cbn [poll_read]. rewrite Hr. destruct (call a) as [data|e].
  - rewrite try_io_ok. cbn [after_try]. by rewrite Hc, <- app_assoc.
  - rewrite try_io_blocks by done. cbn [after_try]. by rewrite <- app_assoc.
Qed.

Lemma poll_read_retries answers rest buf tr :
  Forall retried answers ->
  poll_read (answers ++ rest) buf tr = poll_read rest buf (tr ++ cleared (length answers)).
Proof.
  intros Hr. revert tr. induction Hr as [|a answers Ha _ IH]; intros tr; cbn [app length].
  - by rewrite app_nil_r.
  - rewrite poll_read_retry, IH by done. unfold cleared. cbn [replicate concat].
    by rewrite <- app_assoc.
Qed.

Lemma poll_read_settled a rest buf tr :
  ~ retried a -> reads_fit (remaining buf) a ->
  exists buf', poll_read (a :: rest) buf tr = Some ((settled a).1, buf', rest, tr ++ [PollReady]) /\
    filled buf' = filled buf ++ (settled a).2.
Proof.
  unfold retried, reads_fit, settled. intros Hn Hf. cbn [poll_read].
  assert (forall p : Poll (io unit), exists buf',
    Some (p, buf, rest, tr ++ [PollReady]) = Some (p, buf', rest, tr ++ [PollReady]) /\
    filled buf' = filled buf ++ []) as Hsame by (intros; exists buf; by rewrite app_nil_r).
  destruct (ready a) as [[[]|e]|]; [|apply Hsame..].
  destruct (call a) as [[|b data]|e].
  - by destruct Hn.
  - rewrite try_io_ok. cbn [after_try]. destruct Hf as [_ Hf].
    destruct (advance_filled _ _ Hf) as (buf' & -> & E). by exists buf'.
  - destruct (would_block e) eqn:Eb; [by destruct Hn|]. rewrite try_io_fails by done. apply Hsame.
Qed.

(** A poll ends at the first turn that is not retried, with the result of that turn;
    before each retry readiness has been cleared.  While every turn is retried it
    does not end, however often the descriptor is ready with nothing to read. *)
Lemma poll_read_spec retries a rest buf :
  Forall retried retries -> ~ retried a -> reads_fit (remaining buf) a ->
  poll_read retries buf [] = None /\
  exists buf', poll_read (retries ++ a :: rest) buf [] =
      Some ((settled a).1, buf', rest, cleared (length retries) ++ [PollReady]) /\
    filled buf' = filled buf ++ (settled a).2.
Proof.
  intros Hr Ha Hf. split.
  - rewrite <- (app_nil_r retries), poll_read_retries by done. done.
  - rewrite poll_read_retries by done. by apply poll_read_settled.
Qed.

(** The same for writing: a write is retried only while it would block. *)
Definition write_retried (data : list Z) (a : Answer write_oracle) : Prop :=
  ready a = Ready (Ok tt) /\ exists e, call a data = Err e /\ would_block e = true.

Definition write_settled (data : list Z) (a : Answer write_oracle) : Poll (io Z) :=
  match ready a with
  | Pending => Pending
  | Ready (Err e) => Ready (Err e)
  | Ready (Ok _) => Ready (call a data)
  end.

Lemma poll_write_settled data a rest tr :
  ~ write_retried data a ->
  poll_write (a :: rest) data tr = Some (write_settled data a, rest, tr ++ [PollReady]).
Proof.
  unfold write_retried, write_settled. intros Hn. cbn [poll_write].
  destruct (ready a) as [[[]|e]|]; [|done|done].
  destruct (call a data) as [n|e] eqn:Ec; [by rewrite try_io_ok|].
  destruct (would_block e) eqn:Eb; [destruct Hn; by eauto | by rewrite try_io_fails].
Qed.

Lemma poll_write_spec data retries a rest tr :
  Forall (write_retried data) retries -> ~ write_retried data a ->
  poll_write (retries ++ a :: rest) data tr =
    Some (write_settled data a, rest, tr ++ cleared (length retries) ++ [PollReady]).
Proof.
  intros Hr Ha. revert tr. induction Hr as [|b retries [Hb (e & Hc & He)] _ IH]; intros tr.
  - by apply poll_write_settled.
  - cbn [app poll_write length]. rewrite Hb, Hc, try_io_blocks, IH by done.
    unfold cleared. cbn [replicate concat after_try]. by rewrite <- !app_assoc.
Qed.

(** ** The port as a stream *)

Lemma first_settled answers :
  Forall retried answers \/
  exists retries a rest, answers = retries ++ a :: rest /\ Forall retried retries /\ ~ retried a.
Proof.
  induction answers as [|a answers [IH|(retries & b & rest & -> & Hr & Hb)]]; [by left| |];
    destruct (decide (retried a)) as [Ha|Ha].
  - left. by constructor.
  - right. by exists [], a, answers.
  - right. exists (a :: retries), b, rest. split; [done|]. by split; [constructor|].
  - right. by exists [], a, (retries ++ b :: rest).
Qed.

Lemma delivered_retries retries rest :
  Forall retried retries -> delivered (retries ++ rest) = delivered rest.
Proof.
  induction 1 as [|a retries [Hr Hc] _ IH]; [done|]. cbn [app delivered]. rewrite Hr.
  destruct (call a) as [data|e]; rewrite Hc, IH; [|done]. by destruct (delivered rest).
Qed.

Lemma read_loop_delivered fuel cap answers :
  (length answers <= fuel)%nat -> Forall (reads_fit cap) answers ->
  concat (read_loop fuel cap answers).1 = (delivered answers).1 /\
  (read_loop fuel cap answers).2 = (delivered answers).2 /\
  Forall (fun c => c <> [] /\ bytes_ok c) (read_loop fuel cap answers).1 /\
  (read_loop fuel cap answers).2 <> Eof.
Proof.
  revert answers. induction fuel as [|fuel IH]; intros answers Hl Hf.
  { destruct answers; [|cbn in Hl; lia]. by repeat split. }
  cbn [read_loop]. destruct (first_settled answers) as [Hr|(retries & a & rest & -> & Hr & Ha)].
  - rewrite <- (app_nil_r answers), delivered_retries, poll_read_retries by done. by repeat split.
  - apply Forall_app in Hf as [_ Hf]. apply Forall_cons in Hf as [Hfa Hf].
    rewrite length_app in Hl. cbn [length] in Hl.
    specialize (IH rest ltac:(lia) Hf).
    rewrite poll_read_retries, delivered_retries by done.
    destruct (poll_read_settled a rest (new_buf cap) ([] ++ cleared (length retries)) Ha)
      as (buf & -> & Eb); [by rewrite new_remaining|].
    rewrite new_filled in Eb. cbn [app] in Eb. rewrite Eb. clear Eb.
    unfold settled. cbn [delivered fst snd].
    destruct (ready a) as [[[]|e]|] eqn:Er; [|by repeat split|done].
    unfold reads_fit in Hfa. destruct (call a) as [data|e] eqn:Ec.
    + assert (data <> []) as Hd by by intros ->; destruct Ha; split; [|rewrite Ec].
      cbn [fst snd]. destruct (is_empty data) eqn:Ee; [by apply is_empty_spec in Ee|].
      destruct (read_loop fuel cap rest) as [chunks en], (delivered rest) as [l en'].
      destruct IH as (Hc & He & Hn & Ho). cbn [fst snd concat] in *. rewrite Hc.
      split_and!; [done..| |done]. constructor; [|done]. by split; [|apply Hfa].
    + destruct (would_block e) eqn:Eb; [|by repeat split].
      destruct Ha. split; [done|]. by rewrite Ec.
Qed.

Context {D Item : Type} `{DecoderLaws D Item}.

(** C38: The port is a stream of exactly the bytes the system handed over, in order,
    however often the descriptor was ready with nothing to read: a reader gets no
    empty read, which it would take for the end of the stream, so that only an error
    ends it; and a decoder reading the port returns the frames of those bytes. *)
Theorem port_stream d cap answers :
  Forall (reads_fit cap) answers -> idle d [] ->
  exists chunks e, stream cap answers = (chunks, e) /\
    concat chunks = (delivered answers).1 /\ e = (delivered answers).2 /\
    Forall (fun c => c <> []) chunks /\ e <> Eof /\
    framed d [] chunks = frames d (delivered answers).1.
Proof.
  intros Hf Hi. unfold stream.
  destruct (read_loop_delivered (length answers) cap answers (le_n _) Hf) as (Hc & He & Hn & Ho).
  destruct (read_loop (length answers) cap answers) as [chunks e]. cbn [fst snd] in *.
  exists chunks, e. apply Forall_and in Hn as [Hn Hb]. split_and!; try done.
  rewrite framed_frames; [by rewrite Hc | by constructor | done | done].
Qed.

(** A device that hangs up is ready and reads nothing, for ever: no poll ends. *)
Lemma hangup_never_ends n buf :
  poll_read (replicate n (mkAnswer (Ready (Ok tt)) (Ok []))) buf [] = None.
Proof.
  rewrite <- (app_nil_r (replicate n _)), poll_read_retries; [done|].
  apply Forall_replicate. by split.
Qed.

End Polls.

(** ** Runs *)

#[export] Instance plain_runtime : Runtime := {
  ReadBuf := list Z * Z;
  new_buf cap := ([], cap);
  filled buf := buf.1;
  remaining buf := buf.2 - zlen buf.1;
  advance data buf := if zlen data <=? buf.2 - zlen buf.1 then Some (buf.1 ++ data, buf.2) else None;
  try_io A r :=
    match r with
    | Err e => if would_block e then (None, true) else (Some r, false)
    | Ok _ => (Some r, false)
    end;
}.

#[export] Instance plain_runtime_laws : RuntimeLaws.
Proof.
  split; cbn; try done.
  - intros cap. unfold zlen. cbn. lia.
  - intros data [l cap] Hl. cbn in *. zdecide. by eexists.
  - by intros A e ->.
  - by intros A e ->.
Qed.

Definition ready_read (r : io (list Z)) : Answer (io (list Z)) := mkAnswer (Ready (Ok tt)) r.

(** Two reads give a frame between turns that give nothing; then the device fails. *)
Definition some_answers : list (Answer (io (list Z))) :=
  [ready_read (Ok [5; 0x10]); mkAnswer Pending (Ok []); ready_read (Ok []);
   ready_read (Err EAGAIN); ready_read (Ok [0; 0; 0x7E]); ready_read (Ok []);
   ready_read (Err EIO); ready_read (Ok [1])].

Lemma port_stream_witness :
  exists chunks e, stream 16 some_answers = (chunks, e) /\
    concat chunks = [5; 0x10; 0; 0; 0x7E] /\ e = Failed EIO /\
    Forall (fun c => c <> []) chunks /\ e <> Eof /\
    framed (Item := list Z) KlipperFramer.new [] chunks =
      frames KlipperFramer.new [5; 0x10; 0; 0; 0x7E].
Proof.
  apply (port_stream (Item := list Z) KlipperFramer.new 16 some_answers).
  - repeat apply Forall_cons_2; try done; split; try (cbn; lia); by repeat constructor.
  - reflexivity.
Defined.

(** A port that grants everything. *)
Definition granting_port (fd : RawFd) : PortSys := mkPort (granting fd) (Ok tt).

(** The runtime refuses the descriptor, after everything else has succeeded. *)
Definition refusing_port (fd : RawFd) : PortSys := mkPort (granting fd) (Err EIO).

Lemma open_serial_spec_witness :
  open_fds (snd (open_serial (granting_port 3) "/dev/ttyS7" 230400 [])) = [3] /\
  fst (open_serial (refusing_port 3) "/dev/ttyS7" 230400 []) = Err EIO /\
  ~ 3 ∈ open_fds (snd (open_serial (refusing_port 3) "/dev/ttyS7" 230400 [])).
Proof.
  split; [|split; [reflexivity|]].
  - apply (open_serial_spec (granting_port 3) "/dev/ttyS7" 230400 [] (Ok 3) _ eq_refl).
  - pose proof (open_serial_spec (refusing_port 3) "/dev/ttyS7" 230400 [] (Err EIO) _ eq_refl) as [Hf _].
    intros Hin. apply Hf in Hin. by apply not_elem_of_nil in Hin.
Defined.

Example granting_opens :
  opens (granting_port 3) "/dev/ttyS7" 230400 = true /\
  opens (granting_port 3) "/dev/ttyGS0" 0 = true /\
  opens (granting_port 3) "/dev/ttyS7" 12345 = false.
Proof. by vm_compute. Qed.

End AsyncSerialProofs.
