(* ===== verification/Dictionary.v ===== *)
(** * The smart proxy's dictionary ([windlass/smart_exporter.rs], [windlass/smart_host.rs])

    The exporter sends the dictionary of each MCU over the control channel of the
    link in fragments, the host collects the fragments, publishes the dictionary,
    and from then on answers Klipper's [identify] itself; every other command it
    forwards. *)
From Stdlib Require Import ZArith Lia.
From stdpp Require Import base option numbers list gmap.
From S2P Require Import Prelude Mpsc Framing.

Local Open Scope Z_scope.

(** [l.chunks(n)]: at most [length l] of them, none empty. *)
Fixpoint chunks_loop (fuel : nat) (n : Z) (l : list Z) : list (list Z) :=
  match fuel, l with
  | S fuel, _ :: _ => ztake n l :: chunks_loop fuel n (zdrop n l)
  | _, _ => []
  end.

Definition chunks (n : Z) (l : list Z) : list (list Z) := chunks_loop (length l) n l.

Module SmartExporter.
Import PayloadTunnelCodec.

Section SendDictionary.
Context `{Mpsc}.

(** The loop over the chunks, left at the first error. *)
Fixpoint send_fragments (usb_tx : mpsc PayloadTunnelFrame) (ch_id : Z) (cs : list (list Z))
  : mpsc PayloadTunnelFrame * bool :=
  match cs with
  | [] => (usb_tx, true)
  | chunk :: cs =>
      let payload := [CTRL_DICT_FRAG; ch_id] ++ chunk in
      let '(usb_tx, ok) := send usb_tx (mkFrame CTRL_CH payload) in
      if ok then send_fragments usb_tx ch_id cs else (usb_tx, false)
  end.

Definition send_dictionary (usb_tx : mpsc PayloadTunnelFrame) (ch_id : Z) (dictionary : list Z)
  : mpsc PayloadTunnelFrame * bool :=
  let '(usb_tx, ok) := send_fragments usb_tx ch_id (chunks DICT_FRAG_MAX dictionary) in
  if ok then send usb_tx (mkFrame CTRL_CH [CTRL_DICT_DONE; ch_id]) else (usb_tx, false).

End SendDictionary.

End SmartExporter.

Module SmartHost.

(** ** The dictionary gatherer *)

(** [watch_txs] has an entry per channel, [Some None] until one is published. *)
Record Gatherer := mkGatherer {
  dicts : gmap Z (list Z);
  watch_txs : gmap Z (option (list Z));
}.

Definition gatherer_new (watch_txs : gmap Z (option (list Z))) : Gatherer :=
  mkGatherer ∅ watch_txs.

(** The body of the loop for one control payload. *)
Definition gather_payload (self : Gatherer) (payload : list Z) : option Gatherer :=
  if zlen payload <? 2 then Some self
  else
    ctrl_type ← idx payload 0;
    mcu_ch_id ← idx payload 1;
    if ctrl_type =? CTRL_DICT_FRAG then
      bytes ← slice payload 2 (zlen payload);
      let buf := default [] (dicts self !! mcu_ch_id) in
      Some (mkGatherer (<[mcu_ch_id := buf ++ bytes]> (dicts self)) (watch_txs self))
    else if ctrl_type =? CTRL_DICT_DONE then
      let dict := default [] (dicts self !! mcu_ch_id) in
      let dicts := delete mcu_ch_id (dicts self) in
      match watch_txs self !! mcu_ch_id with
      | Some _ => Some (mkGatherer dicts (<[mcu_ch_id := Some dict]> (watch_txs self)))
      | None => Some (mkGatherer dicts (watch_txs self))
      end
    else Some self.

Fixpoint gather_dictionary (self : Gatherer) (ctrl_rx : list (list Z)) : option Gatherer :=
  match ctrl_rx with
  | [] => Some self
  | payload :: ctrl_rx => self ← gather_payload self payload; gather_dictionary self ctrl_rx
  end.

(** ** The command dispatch of the virtual MCU *)

(** The integer encoding of the protocol library: reading takes the bytes to
    read from and returns the value or an error, and the bytes left. *)
Class Vlq := {
  ReadError : Type;
  read_u8 : list Z -> (Z + ReadError) * list Z;
  read_u16 : list Z -> (Z + ReadError) * list Z;
  read_u32 : list Z -> (Z + ReadError) * list Z;
  write_u32 : Z -> list Z;
}.

(** One encoding for all widths, self-delimiting; the values read are unsigned, and
    what is left to read are bytes of the input. *)
Class VlqLaws `{Vlq} := {
  read_write_u8 v rest : 0 <= v < 2 ^ 8 -> read_u8 (write_u32 v ++ rest) = (inl v, rest);
  read_write_u16 v rest : 0 <= v < 2 ^ 16 -> read_u16 (write_u32 v ++ rest) = (inl v, rest);
  read_write_u32 v rest : 0 <= v < 2 ^ 32 -> read_u32 (write_u32 v ++ rest) = (inl v, rest);
  read_u8_range l v rest : bytes_ok l -> read_u8 l = (inl v, rest) -> 0 <= v;
  read_u16_rest l r rest : bytes_ok l -> read_u16 l = (r, rest) -> bytes_ok rest;
  read_u32_range l v rest : bytes_ok l -> read_u32 l = (inl v, rest) -> 0 <= v /\ bytes_ok rest;
}.

Section Dispatch.
Context `{Mpsc} `{Vlq}.

Record ProxyContext := mkCtx {
  dictionary : list Z;
  to_exporter : mpsc (list Z);
  pending_responses : list (list Z);
}.

Definition CMD_IDENTIFY : Z := 1.

(** The result ([None] is [Ok]), the rest of the frame, the context; the
    outermost [None] is a panic of the slice. *)
Definition dispatch (cmd : Z) (frame : list Z) (ctx : ProxyContext)
  : option (option ReadError * list Z * ProxyContext) :=
  if negb (cmd =? CMD_IDENTIFY) then Some (None, frame, ctx)
  else
    match read_u32 frame with
    | (inr e, frame) => Some (Some e, frame, ctx)
    | (inl offset, frame) =>
        match read_u8 frame with
        | (inr e, frame) => Some (Some e, frame, ctx)
        | (inl count, frame) =>
            let dict := dictionary ctx in
            let start := offset in
            let e := (start + count) `min` zlen dict in
            chunk ← (if start <=? zlen dict then slice dict start e else Some []);
            let resp := write_u32 0 ++ write_u32 offset ++ write_u32 (zlen chunk) ++ chunk in
            Some (None, frame, mkCtx dict (to_exporter ctx) (pending_responses ctx ++ [resp]))
        end
    end.

Definition dispatch_raw (frame : list Z) (ctx : ProxyContext)
  : option (option ReadError * list Z * ProxyContext) :=
  match read_u16 frame with
  | (inr e, _) => Some (Some e, frame, ctx)
  | (inl cmd, _) =>
      if cmd =? CMD_IDENTIFY then
        match read_u16 frame with
        | (inr e, frame) => Some (Some e, frame, ctx)
        | (inl cmd, frame) => dispatch cmd frame ctx
        end
      else
        let '(to_exporter, _) := send (to_exporter ctx) frame in
        Some (None, [], mkCtx (dictionary ctx) to_exporter (pending_responses ctx))
  end.

End Dispatch.

End SmartHost.

Module DictionaryProofs.
Import SmartHost.

(** ** Fragments *)

Lemma chunks_fuel n m k l :
  0 < k -> (length l <= n)%nat -> (length l <= m)%nat -> chunks_loop n k l = chunks_loop m k l.
Proof.
  intros Hk. revert m l. induction n as [|n IH]; intros [|m] [|x l] Hn Hm; cbn in *; try done; try lia.
  f_equal. apply IH; unfold zdrop; rewrite length_drop; cbn; lia.
Qed.

Lemma chunks_cons k l : 0 < k -> l <> [] -> chunks k l = ztake k l :: chunks k (zdrop k l).
Proof.
  intros Hk Hl. unfold chunks. destruct l as [|x l]; [done|]. cbn [chunks_loop length]. f_equal.
  apply chunks_fuel; [done | |lia]. unfold zdrop. rewrite length_drop. cbn. lia.
Qed.

(** The chunks are the list, cut. *)
Lemma chunks_spec k l :
  0 < k -> bytes_ok l ->
  concat (chunks k l) = l /\ Forall (fun c => bytes_ok c /\ 0 < zlen c <= k) (chunks k l).
Proof.
  intros Hk. remember (length l) as n eqn:En. revert l En.
  induction n as [n IH] using lt_wf_ind. intros l -> Hb.
  destruct (decide (l = [])) as [->|Hl]; [by split; [|constructor]|].
  rewrite chunks_cons by done.
  assert (bytes_ok (ztake k l) /\ bytes_ok (zdrop k l)) as [Ht Hd].
  { rewrite <- (ztake_zdrop k l) in Hb. by apply Forall_app in Hb. }
  assert (0 < zlen l) by (destruct l; [done | zl]).
  destruct (IH (length (zdrop k l))) with (l := zdrop k l) as [Hc Hf]; [|done|done|].
  { unfold zdrop. rewrite length_drop. unfold zlen in *. lia. }
  split; [cbn [concat]; by rewrite Hc, ztake_zdrop|]. constructor; [|done]. split; [done|].
  unfold ztake, zlen in *. rewrite length_take. lia.
Qed.

(** ** What the exporter sends *)

(** The control payloads that carry a dictionary. *)
Definition dict_messages (c : Z) (dict : list Z) : list (list Z) :=
  map (fun chunk => [CTRL_DICT_FRAG; c] ++ chunk) (chunks DICT_FRAG_MAX dict) ++
  [[CTRL_DICT_DONE; c]].

Definition ctrl_frame (payload : list Z) : PayloadTunnelCodec.PayloadTunnelFrame :=
  PayloadTunnelCodec.mkFrame CTRL_CH payload.

Lemma send_dictionary_open `{MpscLaws} q c dict :
  rx_open q = true ->
  let '(q', ok) := SmartExporter.send_dictionary q c dict in
  ok = true /\ rx_open q' = true /\ queue q' = queue q ++ map ctrl_frame (dict_messages c dict).
Proof.
  intros Hq. unfold SmartExporter.send_dictionary, dict_messages.
  assert (forall cs, let '(q', ok) := SmartExporter.send_fragments q c cs in
    ok = true /\ rx_open q' = true /\
    queue q' = queue q ++ map (fun chunk => ctrl_frame ([CTRL_DICT_FRAG; c] ++ chunk)) cs) as E.
  { intros cs. revert q Hq. induction cs as [|chunk cs IH]; intros q Hq;
      cbn [SmartExporter.send_fragments map]; [by rewrite app_nil_r|].
    set (f := PayloadTunnelCodec.mkFrame _ _).
    pose proof (send_ok q f) as Eo. pose proof (send_rx_open q f) as Er.
    pose proof (send_queue q f Hq) as Eq. destruct (send q f) as [q1 ok]. cbn [fst snd] in *.
    rewrite Hq in *. subst ok. specialize (IH q1 Er).
    destruct (SmartExporter.send_fragments q1 c cs) as [q2 ok2]. destruct IH as (? & ? & E2).
    split; [done|]. split; [done|]. rewrite E2, Eq, <- app_assoc. done. }
  specialize (E (chunks DICT_FRAG_MAX dict)).
  destruct (SmartExporter.send_fragments q c _) as [q1 ok]. destruct E as (-> & Ho & Eq).
  set (f := PayloadTunnelCodec.mkFrame _ _).
  pose proof (send_ok q1 f) as Eo. pose proof (send_rx_open q1 f) as Er.
  pose proof (send_queue q1 f Ho) as Eq1. destruct (send q1 f) as [q2 ok]. cbn [fst snd] in *.
  split; [congruence|]. split; [congruence|].
  rewrite Eq1, Eq, <- app_assoc, map_app, map_map. done.
Qed.

Lemma dict_messages_fit c dict :
  u8 c -> bytes_ok dict ->
  Forall (fun m => bytes_ok m /\ zlen m <= 255) (dict_messages c dict).
Proof.
  intros Hc Hb. destruct (chunks_spec DICT_FRAG_MAX dict ltac:(done) Hb) as [_ Hf].
  assert (u8 CTRL_DICT_FRAG /\ u8 CTRL_DICT_DONE) as [H1 H2] by (split; unfold u8, CTRL_DICT_FRAG, CTRL_DICT_DONE; lia).
  apply Forall_app. split.
  - apply Forall_map. eapply Forall_impl; [exact Hf|]. intros chunk [Hok Hl]. cbn [app]. split.
    + by repeat apply Forall_cons_2.
    + unfold DICT_FRAG_MAX in Hl. zl.
  - apply Forall_singleton. split; [by repeat apply Forall_cons_2; try apply Forall_nil_2 | done].
Qed.

Lemma dict_messages_for c dict : Forall (fun m => idx m 1 = Some c) (dict_messages c dict).
Proof.
  apply Forall_app. split; [|by apply Forall_singleton].
  apply Forall_map, Forall_forall. intros chunk _. cbn [app]. by rewrite idx_cons_S by lia.
Qed.

(** ** What the gatherer makes of it *)

(** The control payloads of a channel. *)
Definition for_channel (c : Z) (payload : list Z) : Prop := idx payload 1 = Some c.

#[export] Instance for_channel_dec c payload : Decision (for_channel c payload).
Proof. unfold for_channel. apply _. Defined.

(** One channel on its own: what it has accumulated, and its watch. *)
Definition channel_view (c : Z) (g : Gatherer) : option (list Z) * option (option (list Z)) :=
  (dicts g !! c, watch_txs g !! c).

Lemma slice_from_2 (a b : Z) l : slice (a :: b :: l) 2 (zlen (a :: b :: l)) = Some l.
Proof. apply (slice_suffix [a; b] l); [done | zl]. Qed.

Lemma gather_payload_total g payload :
  exists g', gather_payload g payload = Some g' /\
    forall c, ~ for_channel c payload -> channel_view c g' = channel_view c g.
Proof.
  unfold gather_payload, for_channel. destruct payload as [|t [|c' l]];
    [by exists g | by exists g|].
  replace (zlen (t :: c' :: l) <? 2) with false by (symmetry; apply Z.ltb_ge; zl).
  rewrite idx_cons_0, idx_cons_S by lia. change (idx (c' :: l) (1 - 1)) with (Some c').
  cbn [mbind option_bind]. rewrite slice_from_2. cbn [mbind option_bind].
  destruct (t =? CTRL_DICT_FRAG).
  - eexists. split; [done|]. intros c Hc. unfold channel_view. cbn.
    by rewrite lookup_insert_ne by congruence.
  - destruct (t =? CTRL_DICT_DONE); [|by exists g].
    destruct (watch_txs g !! c') eqn:Ew; (eexists; split; [done|]; intros c Hc;
      unfold channel_view; cbn;
      by rewrite ?lookup_delete_ne, ?lookup_insert_ne by congruence).
Qed.

(** A channel depends on nothing but its own payloads. *)
Lemma gather_channel c g1 g2 ps :
  channel_view c g1 = channel_view c g2 ->
  exists g1' g2', gather_dictionary g1 ps = Some g1' /\
    gather_dictionary g2 (filter (for_channel c) ps) = Some g2' /\
    channel_view c g1' = channel_view c g2'.
Proof.
  revert g1 g2. induction ps as [|p ps IH]; intros g1 g2 E; cbn [gather_dictionary].
  { by exists g1, g2. }
  destruct (gather_payload_total g1 p) as (g1' & E1 & Hne). rewrite E1. cbn [mbind option_bind].
  rewrite filter_cons. case_decide as Hp.
  - cbn [gather_dictionary].
    destruct (gather_payload_total g2 p) as (g2' & E2 & _). rewrite E2. cbn [mbind option_bind].
    apply IH. revert E1 E2 Hp. unfold gather_payload, for_channel.
    destruct p as [|t [|c' l]]; [done..|].
    replace (zlen (t :: c' :: l) <? 2) with false by (symmetry; apply Z.ltb_ge; zl).
    rewrite idx_cons_0, idx_cons_S by lia. change (idx (c' :: l) (1 - 1)) with (Some c').
    cbn [mbind option_bind]. rewrite slice_from_2. cbn [mbind option_bind].
    intros E1 E2 [= ->]. unfold channel_view in *. injection E as Ed Ew.
    destruct (t =? CTRL_DICT_FRAG).
    + injection E1 as <-. injection E2 as <-. cbn. by rewrite !lookup_insert_eq, Ed, Ew.
    + destruct (t =? CTRL_DICT_DONE); [|congruence]. rewrite Ew in E1.
      destruct (watch_txs g2 !! c) eqn:Ew2; injection E1 as <-; injection E2 as <-; cbn;
        by rewrite !lookup_delete_eq, ?lookup_insert_eq, ?Ed, ?Ew, ?Ew2.
  - apply IH. by rewrite Hne.
Qed.

(** The two kinds of control payload. *)
Lemma gather_frag g c chunk :
  gather_payload g ([CTRL_DICT_FRAG; c] ++ chunk) =
    Some (mkGatherer (<[c := default [] (dicts g !! c) ++ chunk]> (dicts g)) (watch_txs g)).
Proof.
  unfold gather_payload. cbn [app].
  replace (zlen (CTRL_DICT_FRAG :: c :: chunk) <? 2) with false by (symmetry; apply Z.ltb_ge; zl).
  rewrite idx_cons_0, idx_cons_S by lia. change (idx (c :: chunk) (1 - 1)) with (Some c).
  cbn [mbind option_bind]. change (CTRL_DICT_FRAG =? CTRL_DICT_FRAG) with true. cbv iota.
  by rewrite slice_from_2.
Qed.

Lemma gather_done g c o :
  watch_txs g !! c = Some o ->
  gather_payload g [CTRL_DICT_DONE; c] =
    Some (mkGatherer (delete c (dicts g))
      (<[c := Some (default [] (dicts g !! c))]> (watch_txs g))).
Proof.
  intros Hw. unfold gather_payload.
  change (zlen [CTRL_DICT_DONE; c] <? 2) with false.
  change (idx [CTRL_DICT_DONE; c] 0) with (Some CTRL_DICT_DONE).
  change (idx [CTRL_DICT_DONE; c] 1) with (Some c). cbn [mbind option_bind].
  change (CTRL_DICT_DONE =? CTRL_DICT_FRAG) with false.
  change (CTRL_DICT_DONE =? CTRL_DICT_DONE) with true. by rewrite Hw.
Qed.

(** One transfer on its own, behind whatever was accumulated before. *)
Lemma gather_messages c dict g o :
  bytes_ok dict -> watch_txs g !! c = Some o ->
  exists g', gather_dictionary g (dict_messages c dict) = Some g' /\
    channel_view c g' = (None, Some (Some (default [] (dicts g !! c) ++ dict))).
Proof.
  intros Hb Hw. unfold dict_messages.
  destruct (chunks_spec DICT_FRAG_MAX dict ltac:(done) Hb) as [Hc _].
  revert Hc Hw. generalize (chunks DICT_FRAG_MAX dict). intros cs <-. clear Hb.
  revert g. induction cs as [|chunk cs IH]; intros g Hw; cbn [map app concat gather_dictionary].
  - rewrite (gather_done _ _ o Hw). eexists. split; [done|]. unfold channel_view. cbn.
    by rewrite lookup_delete_eq, lookup_insert_eq, app_nil_r.
  - rewrite (gather_frag g c chunk : gather_payload g (CTRL_DICT_FRAG :: c :: chunk) = _).
    cbn [mbind option_bind].
    destruct (IH (mkGatherer (<[c := default [] (dicts g !! c) ++ chunk]> (dicts g)) (watch_txs g)) Hw)
      as (g' & E & V).
    exists g'. split; [exact E|]. rewrite V. cbn [dicts]. rewrite lookup_insert_eq. cbn.
    by rewrite app_assoc.
Qed.

Lemma gather_transfer c dict w ps :
  bytes_ok dict -> is_Some (w !! c) ->
  filter (for_channel c) ps = dict_messages c dict ->
  exists g, gather_dictionary (gatherer_new w) ps = Some g /\
    watch_txs g !! c = Some (Some dict) /\ dicts g !! c = None.
Proof.
  intros Hb [o Ho] Hps.
  destruct (gather_channel c (gatherer_new w) (gatherer_new w) ps eq_refl) as (g & g2 & E & E2 & V).
  destruct (gather_messages c dict (gatherer_new w) o Hb Ho) as (g3 & E3 & V3).
  rewrite Hps, E3 in E2. injection E2 as <-. exists g. split; [done|].
  rewrite V3 in V. unfold channel_view in V. cbn in V. rewrite lookup_empty in V. cbn in V.
  by injection V.
Qed.

(** The payloads the USB reader of the host hands to the gatherer. *)
Definition ctrl_payloads (items : list PayloadTunnelCodec.PayloadTunnelFrame) : list (list Z) :=
  map PayloadTunnelCodec.payload
    (filter (fun pf => PayloadTunnelCodec.ch_id pf = CTRL_CH) items).

(** C33: the dictionary transfer, end to end: whatever else crosses the link between
    its fragments (data, the dictionaries of other channels) and whatever the sizes of
    the reads, the host publishes for the channel exactly the dictionary the exporter
    sent for it. *)
Theorem dictionary_over_link `{MpscLaws} c dict items wire reads w :
  bytes_ok dict -> Forall FramingProofs.payload_item items ->
  filter (for_channel c) (ctrl_payloads items) =
    map PayloadTunnelCodec.payload (queue (SmartExporter.send_dictionary mpsc_new c dict).1) ->
  FramingProofs.payload_wire items [] = Some wire -> concat reads = wire ->
  is_Some (w !! c) ->
  exists received g, framed tt [] reads = Some (received, tt, []) /\
    gather_dictionary (gatherer_new w) (ctrl_payloads received) = Some g /\
    watch_txs g !! c = Some (Some dict) /\ dicts g !! c = None.
Proof.
  intros Hb Hi Hc Hwire Hreads Hw.
  pose proof (send_dictionary_open mpsc_new c dict new_open) as Hsd.
  destruct (SmartExporter.send_dictionary mpsc_new c dict) as [q ok]. destruct Hsd as (_ & _ & Eq).
  cbn [fst] in Hc. rewrite Eq, new_queue, app_nil_l, map_map, map_id in Hc.
  pose proof (FramingProofs.payload_wire_spec items [] Hi) as Hs. rewrite Hwire in Hs.
  destruct Hs as (_ & ws & -> & Hws).
  exists items. destruct (gather_transfer c dict w _ Hb Hw Hc) as (g & ? & ? & ?).
  exists g. split_and!; [|done..].
  by apply (FramingProofs.framed_stream tt ws items reads).
Qed.

(** A transfer that was cut short is not forgotten: the fragments of the next one,
    say of an exporter that was restarted, are appended to those of the first. *)
Lemma gather_stale c stale dict w :
  bytes_ok dict -> is_Some (w !! c) ->
  exists g, gather_dictionary (gatherer_new w)
      (([CTRL_DICT_FRAG; c] ++ stale) :: dict_messages c dict) = Some g /\
    watch_txs g !! c = Some (Some (stale ++ dict)).
Proof.
  intros Hb [o Ho]. cbn [gather_dictionary]. rewrite gather_frag. cbn [mbind option_bind].
  destruct (gather_messages c dict (mkGatherer (<[c := [] ++ stale]> ∅) w) o Hb Ho)
    as (g & E & V).
  exists g. split; [exact E|]. unfold channel_view in V. cbn in V.
  rewrite lookup_insert_eq in V. by injection V.
Qed.

(** ** The virtual MCU *)

Section Proxy.
Context `{MpscLaws} `{VlqLaws}.

Definition identify_request (offset count : Z) : list Z :=
  write_u32 CMD_IDENTIFY ++ write_u32 offset ++ write_u32 count.

Definition identify_response (offset : Z) (chunk : list Z) : list Z :=
  write_u32 0 ++ write_u32 offset ++ write_u32 (zlen chunk) ++ chunk.

Lemma dispatch_identify offset count rest ctx :
  0 <= offset < 2 ^ 32 -> 0 <= count < 2 ^ 8 ->
  dispatch_raw (identify_request offset count ++ rest) ctx =
    Some (None, rest, mkCtx (dictionary ctx) (to_exporter ctx)
      (pending_responses ctx ++
        [identify_response offset (ztake count (zdrop offset (dictionary ctx)))])).
Proof.
  intros Ho Hc. unfold dispatch_raw, identify_request. rewrite <- !app_assoc.
  rewrite !read_write_u16 by (unfold CMD_IDENTIFY; lia).
  rewrite Z.eqb_refl. cbv iota. unfold dispatch. rewrite Z.eqb_refl. cbn [negb].
  rewrite read_write_u32, read_write_u8 by done.
  set (dict := dictionary ctx). pose proof (zlen_nonneg dict).
  assert ((if offset <=? zlen dict then slice dict offset ((offset + count) `min` zlen dict)
    else Some []) = Some (ztake count (zdrop offset dict))) as ->.
  { destruct (offset <=? zlen dict) eqn:E; zbool.
    - rewrite slice_eq by lia. f_equal.
      destruct (Z.le_ge_cases (offset + count) (zlen dict)).
      + f_equal. lia.
      + rewrite !ztake_all; [done | rewrite zlen_zdrop; lia..].
    - rewrite (zdrop_all offset) by lia. unfold ztake. by rewrite take_nil. }
  done.
Qed.

(** Whatever bytes it is handed, the dispatch does not panic. *)
Lemma dispatch_raw_total frame ctx :
  bytes_ok frame -> exists r, dispatch_raw frame ctx = Some r.
Proof.
  intros Hb. unfold dispatch_raw. destruct (read_u16 frame) as [[cmd|e] rest] eqn:E; [|by eexists].
  apply read_u16_rest in E; [|done].
  destruct (cmd =? CMD_IDENTIFY); [|by destruct (send (to_exporter ctx) frame); eexists].
  unfold dispatch. destruct (negb _); [by eexists|].
  destruct (read_u32 rest) as [[offset|e] rest1] eqn:E1; [|by eexists].
  apply read_u32_range in E1 as [Ho Hb1]; [|done].
  destruct (read_u8 rest1) as [[count|e] rest2] eqn:E2; [|by eexists].
  apply read_u8_range in E2; [|done].
  destruct (offset <=? zlen (dictionary ctx)) eqn:El; [|by eexists]. zbool.
  rewrite slice_eq by lia. by eexists.
Qed.

(** The dispatch of the virtual MCU: [identify] is answered with the piece of the
    dictionary asked for, cut at its end, and nothing is forwarded; any other command
    is forwarded unchanged with everything behind it; a command that cannot be read
    changes nothing. *)
Theorem proxy_dispatch frame ctx :
  (forall offset count rest, 0 <= offset < 2 ^ 32 -> 0 <= count < 2 ^ 8 ->
    frame = identify_request offset count ++ rest ->
    dispatch_raw frame ctx = Some (None, rest, mkCtx (dictionary ctx) (to_exporter ctx)
      (pending_responses ctx ++
        [identify_response offset (ztake count (zdrop offset (dictionary ctx)))]))) /\
  (forall cmd rest, read_u16 frame = (inl cmd, rest) -> cmd <> CMD_IDENTIFY ->
    dispatch_raw frame ctx =
      Some (None, [], mkCtx (dictionary ctx) (send (to_exporter ctx) frame).1
        (pending_responses ctx))) /\
  (forall e rest, read_u16 frame = (inr e, rest) ->
    dispatch_raw frame ctx = Some (Some e, frame, ctx)).
Proof.
  split_and!.
  - intros offset count rest Ho Hc ->. by apply dispatch_identify.
  - intros cmd rest E Hcmd. unfold dispatch_raw. rewrite E.
    rewrite (proj2 (Z.eqb_neq cmd CMD_IDENTIFY)) by done.
    by destruct (send (to_exporter ctx) frame).
  - intros e rest E. unfold dispatch_raw. by rewrite E.
Qed.

(** Klipper's side: ask for [count] bytes at a time, from the start, until none come. *)
Fixpoint identify_client (fuel : nat) (count : Z) (dict : list Z) (offset : Z)
  : option (list Z) :=
  match fuel with
  | O => None
  | S fuel =>
      '(err, rest, ctx) ← dispatch_raw (identify_request offset count) (mkCtx dict mpsc_new []);
      match err, pending_responses ctx with
      | None, [resp] =>
          match read_u32 resp with
          | (inl 0, resp) =>
              match read_u32 resp with
              | (inl o, resp) =>
                  match read_u32 resp with
                  | (inl n, chunk) =>
                      if negb (o =? offset) || negb (zlen chunk =? n) then None
                      else if n =? 0 then Some []
                      else more ← identify_client fuel count dict (offset + n); Some (chunk ++ more)
                  | _ => None
                  end
              | _ => None
              end
          | _ => None
          end
      | _, _ => None
      end
  end.

Lemma identify_client_from fuel count dict offset :
  0 < count < 2 ^ 8 -> 0 <= offset <= zlen dict -> zlen dict < 2 ^ 32 ->
  zlen dict - offset < Z.of_nat fuel ->
  identify_client fuel count dict offset = Some (zdrop offset dict).
Proof.
  intros Hc. revert offset. induction fuel as [|fuel IH]; intros offset Ho Hd Hf; [lia|].
  cbn [identify_client].
  rewrite <- (app_nil_r (identify_request offset count)), dispatch_identify by lia.
  cbn [mbind option_bind pending_responses app dictionary].
  set (chunk := ztake count (zdrop offset dict)).
  assert (zlen chunk = count `min` (zlen dict - offset)) as Hl.
  { unfold chunk, ztake, zdrop, zlen in *. rewrite length_take, length_drop. lia. }
  unfold identify_response.
  rewrite !read_write_u32 by lia. rewrite !Z.eqb_refl. cbn [negb orb].
  destruct (zlen chunk =? 0) eqn:E; zbool.
  - rewrite zdrop_all by lia. done.
  - rewrite IH by lia. cbn [mbind option_bind]. f_equal. rewrite Hl.
    rewrite <- (ztake_zdrop count (zdrop offset dict)) at 1. fold chunk. f_equal.
    destruct (Z.le_ge_cases count (zlen dict - offset)).
    + rewrite Z.min_l by lia. by rewrite zdrop_zdrop by lia.
    + rewrite Z.min_r by lia. replace (offset + (zlen dict - offset)) with (zlen dict) by lia.
      rewrite (zdrop_all (zlen dict)), (zdrop_all count); [done| |lia].
      rewrite zlen_zdrop; lia.
Qed.

(** C34: Klipper gets the whole dictionary: asking the virtual MCU for any number of
    bytes at a time, from the start until no more come, terminates and yields exactly
    the dictionary. *)
Theorem identify_whole_dictionary count dict :
  0 < count < 2 ^ 8 -> zlen dict < 2 ^ 32 ->
  identify_client (S (length dict)) count dict 0 = Some dict.
Proof.
  intros Hc Hd. rewrite identify_client_from; [done | done | |done|]; unfold zlen; lia.
Qed.

End Proxy.

(** ** Concrete runs *)

(** An encoding that obeys the laws: four bytes, the least significant first. *)
#[global] Instance fixed_vlq : Vlq := {
  ReadError := unit;
  read_u8 l := if zlen l <? 4 then (inr tt, l) else (inl (from_le_bytes (ztake 4 l)), zdrop 4 l);
  read_u16 l := if zlen l <? 4 then (inr tt, l) else (inl (from_le_bytes (ztake 4 l)), zdrop 4 l);
  read_u32 l := if zlen l <? 4 then (inr tt, l) else (inl (from_le_bytes (ztake 4 l)), zdrop 4 l);
  write_u32 v := to_le_bytes 4 v;
}.

Lemma fixed_read v rest :
  0 <= v < 2 ^ 32 ->
  (if zlen (to_le_bytes 4 v ++ rest) <? 4 then (inr tt, to_le_bytes 4 v ++ rest)
   else (inl (from_le_bytes (ztake 4 (to_le_bytes 4 v ++ rest))),
     zdrop 4 (to_le_bytes 4 v ++ rest))) = (inl v, rest) :> (Z + unit) * list Z.
Proof.
  intros Hv. rewrite zlen_app, zlen_to_le_bytes. pose proof (zlen_nonneg rest).
  replace (Z.of_nat 4 + zlen rest <? 4) with false by (symmetry; apply Z.ltb_ge; lia).
  rewrite ztake_app, zdrop_app by apply zlen_to_le_bytes. by rewrite from_to_le_bytes.
Qed.

#[global] Instance fixed_vlq_laws : VlqLaws.
Proof.
  assert (forall l, bytes_ok l -> 0 <= from_le_bytes (ztake 4 l) /\ bytes_ok (zdrop 4 l)) as Hl.
  { intros l Hb. rewrite <- (ztake_zdrop 4 l) in Hb. apply Forall_app in Hb as [Ht Hd].
    split; [by apply from_le_bytes_nonneg | done]. }
  split; [intros v rest Hv; apply fixed_read; lia..| | |]; intros l v rest Hb;
    cbn [read_u8 read_u16 read_u32 fixed_vlq]; destruct (Hl l Hb);
    destruct (zlen l <? 4); try done; intros E; by simplify_eq.
Qed.

Lemma proxy_dispatch_witness :
  dispatch_raw (identify_request 2 3 ++ [7]) (mkCtx [1; 2; 3; 4] mpsc_new []) =
    Some (None, [7], mkCtx [1; 2; 3; 4] mpsc_new [identify_response 2 [3; 4]]).
Proof.
  rewrite (proj1 (proxy_dispatch _ _) 2 3 [7]); [reflexivity | lia | lia | reflexivity].
Defined.

Lemma identify_whole_dictionary_witness :
  identify_client 101 40 (replicate 100 7) 0 = Some (replicate 100 7).
Proof. apply (identify_whole_dictionary 40 (replicate 100 7)); [lia | reflexivity]. Defined.

Definition sample_items : list PayloadTunnelCodec.PayloadTunnelFrame :=
  [ctrl_frame [CTRL_DICT_FRAG; 1; 10; 20]; PayloadTunnelCodec.mkFrame 0 [9];
   ctrl_frame [CTRL_DICT_FRAG; 2; 5]; ctrl_frame [CTRL_DICT_DONE; 1];
   ctrl_frame [CTRL_DICT_DONE; 2]].

Lemma dictionary_over_link_witness :
  exists received g,
    framed tt [] [[255; 4; 1; 1; 10]; [20; 0; 1; 9; 255; 3; 1; 2]; [5; 255; 2; 2; 1; 255; 2; 2; 2]] =
      Some (received, tt, []) /\
    gather_dictionary (gatherer_new {[1 := None; 2 := None]}) (ctrl_payloads received) = Some g /\
    watch_txs g !! 1 = Some (Some [10; 20]) /\ dicts g !! 1 = None.
Proof.
  apply (dictionary_over_link (H := fifo_mpsc) 1 [10; 20] sample_items
    [255; 4; 1; 1; 10; 20; 0; 1; 9; 255; 3; 1; 2; 5; 255; 2; 2; 1; 255; 2; 2; 2]);
    [solve_bytes | | reflexivity | reflexivity | reflexivity | by eexists].
  unfold sample_items, ctrl_frame, CTRL_CH, CTRL_DICT_FRAG, CTRL_DICT_DONE.
  repeat apply Forall_cons_2; [..|apply Forall_nil_2]; split; cbn; solve_bytes.
Defined.

End DictionaryProofs.
