(* ===== verification/WindlassCli.v ===== *)
(** * The command line of the bridge ([bin/windlass_bridge.rs])

    The value parsers, the check of the channel ids and the choice of the program
    to run.  The helpers on strings and numbers are those of [Cli]. *)
From Stdlib Require Import ZArith Lia Ascii String.
From stdpp Require Import base option numbers list strings.
From S2P Require Import Prelude Serial Chan Cli Framing.

Local Open Scope string_scope.
Local Open Scope Z_scope.

Module WindlassCli.
Import Cli.

Record McuSpec := mkSpec { ch_id : Z; path : string; baud : Z }.

Definition parse_usb_id (val : string) : res (string * string) :=
  '(vid, pid) ← or_err (split_once ":"%char val) ENotUsbId;
  if String.eqb vid EmptyString || negb (all_chars is_ascii_hexdigit vid) then Bad (ENotHex "VID")
  else if String.eqb pid EmptyString || negb (all_chars is_ascii_hexdigit pid) then Bad (ENotHex "PID")
  else Good (to_lowercase vid, to_lowercase pid).

Definition parse_standard_baud (raw : string) (valid_bauds : list Z) : res Z :=
  baud ← or_err (parse_uint U32_MAX raw) EBaudNumber;
  if negb (bool_decide (baud ∈ valid_bauds)) then Bad (EBaudStandard baud) else Good baud.

Definition parse_channel_spec (mode : Mode) (spec : string) : res McuSpec :=
  let parts := split ":"%char spec in
  match parts with
  | kind :: raw_id :: arg :: rest =>
      if negb (String.eqb kind "mcu") then Bad EUnknownKind
      else
        ch_id ← or_err (parse_uint U8_MAX raw_id) EIdRange;
        if ch_id =? 0xFF then Bad EIdReserved
        else
          match mode, rest with
          | exporter, [raw_baud] =>
              baud ← parse_standard_baud raw_baud valid_bauds;
              Good (mkSpec ch_id arg baud)
          | exporter, _ => Bad EMcuParts
          | host, [] => Good (mkSpec ch_id arg 0)
          | host, _ => Bad EMcuParts
          end
  | _ => Bad ETooShort
  end.

Definition parse_exporter_channel_spec (spec : string) : res McuSpec :=
  parse_channel_spec exporter spec.

Definition parse_host_channel_spec (spec : string) : res McuSpec :=
  parse_channel_spec host spec.

(** The loop over [seen_ids]; [false] is the exit with an error. *)
Fixpoint unique_from (seen_ids : list Z) (channels : list McuSpec) : bool :=
  match channels with
  | [] => true
  | channel :: channels =>
      if bool_decide (ch_id channel ∈ seen_ids) then false
      else unique_from (ch_id channel :: seen_ids) channels
  end.

Definition validate_unique_channel_ids (channels : list McuSpec) : bool :=
  unique_from [] channels.

(** What the argument parser returns, and what the program makes of it; [None] is
    the exit of the check. *)
Record ModeArgs := mkModeArgs {
  a_smart : bool;
  a_link_dev : option string;
  a_usb_id : option (string * string);
  a_channels : list McuSpec;
}.

Inductive Command := Exporter (args : ModeArgs) | Host (args : ModeArgs).

Record Args := mkArgs {
  mode : string;
  smart : bool;
  link_dev : option string;
  usb_id : option (string * string);
  channels : list McuSpec;
}.

Definition mode_args (parser : string -> res McuSpec) (smart : bool) (raw : RawArgs) : res ModeArgs :=
  if usage raw then
    usb ← parse_option parse_usb_id (raw_usb raw);
    channels ← parse_values parser (raw_channels raw);
    Good (mkModeArgs smart (raw_link_dev raw) usb channels)
  else Bad EUsage.

(** [Cli::parse()], with the subcommand and the flag that were given. *)
Definition cli_parse (subcommand : Mode) (smart : bool) (raw : RawArgs) : res Command :=
  match subcommand with
  | exporter => a ← mode_args parse_exporter_channel_spec smart raw; Good (Exporter a)
  | host => a ← mode_args parse_host_channel_spec smart raw; Good (Host a)
  end.

Definition parse_args (command : Command) : option Args :=
  match command with
  | Exporter a =>
      if validate_unique_channel_ids (a_channels a)
      then Some (mkArgs "exporter" (a_smart a) (a_link_dev a) (a_usb_id a) (a_channels a)) else None
  | Host a =>
      if validate_unique_channel_ids (a_channels a)
      then Some (mkArgs "host" (a_smart a) (a_link_dev a) (a_usb_id a) (a_channels a)) else None
  end.

Inductive Program := run_smart_exporter | run_exporter | run_smart_host | run_host.

(** The choice [main] makes. *)
Definition program (args : Args) : Program :=
  if String.eqb (mode args) "exporter" then
    if smart args then run_smart_exporter else run_exporter
  else if smart args then run_smart_host else run_host.

(** ** Specifications of the arguments *)

Definition print_spec (m : Mode) (c : McuSpec) : string :=
  match m with
  | exporter => Cli.join ":"%char ["mcu"; print_dec 10 (ch_id c); path c; print_dec 10 (baud c)]
  | host => Cli.join ":"%char ["mcu"; print_dec 10 (ch_id c); path c]
  end.

(** What the rest of the program may rely on: an id that is not the control
    channel's, and a baud rate for the UART of an exporter. *)
Definition valid_spec (m : Mode) (c : McuSpec) : Prop :=
  0 <= ch_id c < CTRL_CH /\ no_colon (path c) /\
  match m with
  | exporter => baud c ∈ valid_bauds /\ baud_to_speed (baud c) <> None
  | host => baud c = 0
  end.

End WindlassCli.

Module WindlassCliProofs.
Import Cli CliProofs.

Lemma split_join3 a b c :
  no_colon a -> no_colon b -> no_colon c ->
  split ":"%char (join ":"%char [a; b; c]) = [a; b; c].
Proof.
  intros Ha Hb Hc. cbn [join fold_left]. rewrite !append_assoc, !append_cons.
  rewrite !split_sep by done. by rewrite split_last.
Qed.

Lemma same_parsers :
  (forall s, WindlassCli.parse_usb_id s = parse_usb_id s) /\
  (forall s l, WindlassCli.parse_standard_baud s l = parse_standard_baud s l).
Proof. done. Qed.

Lemma windlass_parse_sound m s c :
  WindlassCli.parse_channel_spec m s = Good c -> WindlassCli.valid_spec m c.
Proof.
  unfold WindlassCli.parse_channel_spec, WindlassCli.valid_spec, CTRL_CH.
  pose proof (split_no_colon s) as Hs.
  destruct (split ":"%char s) as [|kind [|raw_id [|arg rest]]]; try done.
  assert (no_colon arg) as Harg by (by repeat (apply Forall_cons in Hs as [? Hs])).
  destruct (negb _); [done|].
  destruct (parse_uint U8_MAX raw_id) as [id|] eqn:Eid; [|done]. cbn [or_err mbind res_bind].
  apply parse_uint_bound in Eid; [|done]. unfold U8_MAX in Eid.
  destruct (id =? 0xFF) eqn:E255; [done|]. zbool.
  destruct m, rest as [|raw [|? ?]]; try done.
  - rewrite (proj2 same_parsers).
    destruct (parse_standard_baud raw valid_bauds) as [baud|] eqn:E; [|done].
    intros [= <-]. cbn [WindlassCli.ch_id WindlassCli.path WindlassCli.baud].
    apply parse_baud_valid in E. split_and!; [lia..|done|done|]. by apply valid_baud_supported.
  - intros [= <-]. cbn. split_and!; [lia..|done|done].
Qed.

Lemma windlass_parse_complete m c :
  WindlassCli.valid_spec m c ->
  WindlassCli.parse_channel_spec m (WindlassCli.print_spec m c) = Good c.
Proof.
  destruct c as [id arg baud]. unfold WindlassCli.valid_spec, CTRL_CH.
  cbn [WindlassCli.ch_id WindlassCli.path WindlassCli.baud]. intros (Hid & Harg & Hm).
  assert (parse_uint U8_MAX (print_dec 10 id) = Some id) as Epid.
  { apply parse_print_dec; unfold U8_MAX; lia. }
  assert (no_colon (print_dec 10 id)) as Hnid by (apply print_dec_no_colon; lia).
  unfold WindlassCli.parse_channel_spec, WindlassCli.print_spec.
  cbn [WindlassCli.ch_id WindlassCli.path WindlassCli.baud].
  destruct m.
  - destruct Hm as [Hb _]. rewrite split_join4; [|done..|].
    2:{ apply print_dec_no_colon. pose proof (valid_baud_range _ Hb). lia. }
    rewrite Epid. cbn [negb String.eqb Ascii.eqb Bool.eqb or_err mbind res_bind].
    rewrite (proj2 (Z.eqb_neq id 0xFF)) by lia.
    rewrite (proj2 same_parsers), parse_print_baud by done. done.
  - subst baud. rewrite split_join3 by done.
    rewrite Epid. cbn [negb String.eqb Ascii.eqb Bool.eqb or_err mbind res_bind].
    by rewrite (proj2 (Z.eqb_neq id 0xFF)) by lia.
Qed.

Lemma windlass_unique_spec l :
  WindlassCli.validate_unique_channel_ids l = true <-> NoDup (map WindlassCli.ch_id l).
Proof.
  assert (forall seen, WindlassCli.unique_from seen l = true <->
    NoDup (map WindlassCli.ch_id l) /\ Forall (fun c => WindlassCli.ch_id c ∉ seen) l) as H.
  { induction l as [|c l IH]; intros seen; cbn [WindlassCli.unique_from map].
    - split; [|done]. intros _. split; constructor.
    - rewrite NoDup_cons, Forall_cons. case_bool_decide as Hin; [by split; [|intros (? & ? & ?)]|].
      rewrite IH, !Forall_forall. split.
      + intros [Hd Hf]. split; [split; [|done]|split; [done|]].
        * intros (x & Ex & Hx)%list_elem_of_fmap. apply (Hf x Hx). rewrite <- Ex. by left.
        * intros x Hx Hs. apply (Hf x Hx). by right.
      + intros ([Hn Hd] & Hc & Hf). split; [done|]. intros x Hx [E|Hs]%elem_of_cons.
        * apply Hn. rewrite <- E. apply list_elem_of_fmap. by exists x.
        * by apply (Hf x Hx). }
  unfold WindlassCli.validate_unique_channel_ids. rewrite H. split; [by intros [? _]|].
  intros Hd. split; [done|]. apply Forall_forall. intros x _. by apply not_elem_of_nil.
Qed.

(** What the programs may rely on. *)
Lemma windlass_args_sound subcommand flag raw command args :
  WindlassCli.cli_parse subcommand flag raw = Good command ->
  WindlassCli.parse_args command = Some args ->
  Forall (WindlassCli.valid_spec subcommand) (WindlassCli.channels args) /\
  NoDup (map WindlassCli.ch_id (WindlassCli.channels args)) /\
  (WindlassCli.link_dev args = None <-> WindlassCli.usb_id args <> None) /\
  WindlassCli.program args = match subcommand, flag with
    | exporter, true => WindlassCli.run_smart_exporter
    | exporter, false => WindlassCli.run_exporter
    | host, true => WindlassCli.run_smart_host
    | host, false => WindlassCli.run_host
    end.
Proof.
  assert (forall parser a,
    (forall v c, parser v = Good c -> WindlassCli.valid_spec subcommand c) ->
    WindlassCli.mode_args parser flag raw = Good a ->
    Forall (WindlassCli.valid_spec subcommand) (WindlassCli.a_channels a) /\
    (WindlassCli.a_link_dev a = None <-> WindlassCli.a_usb_id a <> None) /\
    WindlassCli.a_smart a = flag) as Hargs.
  { intros parser a Hp. unfold WindlassCli.mode_args, usage.
    destruct (is_empty (raw_channels raw)); [by rewrite andb_false_r|]. rewrite andb_true_r.
    destruct (parse_option WindlassCli.parse_usb_id (raw_usb raw)) as [usb|] eqn:Eu;
      [|by destruct (raw_link_dev raw), (raw_usb raw)].
    destruct (parse_values parser (raw_channels raw)) as [chs|] eqn:Ec;
      [|by destruct (raw_link_dev raw), (raw_usb raw)].
    apply (parse_values_sound parser (WindlassCli.valid_spec subcommand)) in Ec as [Hv _]; [|done].
    destruct (raw_link_dev raw), (raw_usb raw) as [u|]; intros [= <-]; cbn in *.
    - injection Eu as <-. by split_and!.
    - destruct (WindlassCli.parse_usb_id u); [|done]. injection Eu as <-. by split_and!. }
  destruct subcommand; cbn [WindlassCli.cli_parse];
    destruct (WindlassCli.mode_args _ _ raw) as [a|] eqn:Ea; try done; intros [= <-];
    cbn [WindlassCli.parse_args];
    destruct (WindlassCli.validate_unique_channel_ids _) eqn:Eq; try done; intros [= <-];
    apply windlass_unique_spec in Eq;
    (apply Hargs in Ea as (Hv & Hl & <-);
      [by split_and!; destruct (WindlassCli.a_smart a) | intros v c; apply windlass_parse_sound]).
Qed.

(** C40: the bridge's command line admits exactly the meaningful channels: every
    specification that is accepted has an id below that of the control channel and
    fits the mode, with a baud rate the serial layer supports on the exporter; every
    such channel is what its printed form is parsed to; and the program runs only
    with channels whose ids differ. *)
Theorem windlass_spec_roundtrip m c :
  (forall s, WindlassCli.parse_channel_spec m s = Good c -> WindlassCli.valid_spec m c) /\
  (WindlassCli.valid_spec m c ->
    WindlassCli.parse_channel_spec m (WindlassCli.print_spec m c) = Good c) /\
  (forall command args, WindlassCli.parse_args command = Some args ->
    NoDup (map WindlassCli.ch_id (WindlassCli.channels args))).
Proof.
  split_and!; [intros s; apply windlass_parse_sound | apply windlass_parse_complete |].
  intros command args. unfold WindlassCli.parse_args.
  destruct command as [a|a];
    (destruct (WindlassCli.validate_unique_channel_ids (WindlassCli.a_channels a)) eqn:E; [|done];
     intros [= <-]; by apply windlass_unique_spec).
Qed.

Lemma windlass_spec_roundtrip_witness :
  WindlassCli.valid_spec exporter (WindlassCli.mkSpec 0 "/dev/ttyS7" 230400) /\
  WindlassCli.parse_channel_spec exporter "mcu:0:/dev/ttyS7:230400" =
    Good (WindlassCli.mkSpec 0 "/dev/ttyS7" 230400).
Proof.
  assert (WindlassCli.valid_spec exporter (WindlassCli.mkSpec 0 "/dev/ttyS7" 230400)) as Hv.
  { apply (proj1 (windlass_spec_roundtrip exporter _) "mcu:0:/dev/ttyS7:230400"). reflexivity. }
  split; [exact Hv|]. exact (proj1 (proj2 (windlass_spec_roundtrip exporter _)) Hv).
Defined.

(** The id of the control channel is refused, by name. *)
Example reserved_id :
  WindlassCli.parse_channel_spec host "mcu:255:/tmp/klipper_mcu0" = Bad EIdReserved.
Proof. reflexivity. Qed.

End WindlassCliProofs.
