(* ===== verification/Relay.v ===== *)
(** * The tasks of the bridge ([windlass/exporter.rs], [windlass/host.rs])

    The bridge's programs are tasks that exchange frames through unbounded queues.
    This file has the two kinds of end they share: the USB link, with its one writer
    task and its one reader, and the end of a channel (a UART or a Klipper client)
    with its reader task and its writer task.  One operation is one turn of a task's
    loop, so that tasks interleave between turns.  The fields that say what an end
    has read and written so far are only looked at by the statements. *)
From Stdlib Require Import ZArith Lia.
From stdpp Require Import base option numbers list.
From S2P Require Import Prelude Mpsc Framing.

Local Open Scope Z_scope.

(** [write_all]: everything is written, or an error after the first [k] bytes. *)
Inductive WriteRes := Written | Failed (k : Z).

Definition written_part (r : WriteRes) (bytes : list Z) : list Z :=
  match r with Written => bytes | Failed k => ztake k bytes end.

(** The receiver goes with its task, which ends at the first error. *)
Definition after_write `{Mpsc} {A} (r : WriteRes) (q : mpsc A) : mpsc A :=
  match r with Written => q | Failed _ => close q end.

(** ** The USB link *)

Class LinkCodec (Item : Type) := {
  lc_decoder :: Decoder unit Item;
  lc_encode : Item -> option (list Z);
  lc_ch : Item -> Z;
  lc_body : Item -> list Z;
}.

#[export] Instance tunnel_link : LinkCodec TunnelCodec.TunnelFrame := {
  lc_decoder := tunnel_decoder;
  lc_encode item := Some (TunnelCodec.encode item []);
  lc_ch := TunnelCodec.ch_id;
  lc_body := TunnelCodec.frame;
}.

#[export] Instance payload_link : LinkCodec PayloadTunnelCodec.PayloadTunnelFrame := {
  lc_decoder := payload_decoder;
  lc_encode item := PayloadTunnelCodec.encode item [];
  lc_ch := PayloadTunnelCodec.ch_id;
  lc_body := PayloadTunnelCodec.payload;
}.

Section Usb.
Context `{Mpsc} {Item : Type} `{LinkCodec Item}.

Record Usb := mkUsb {
  usb_tx : mpsc Item;
  usb_buf : list Z;
  usb_in : list Z;
  usb_out : list Z;
}.

Definition usb_new : Usb := mkUsb mpsc_new [] [] [].

(** [usb_tx.send(item)] *)
Definition usb_send (item : Item) (u : Usb) : Usb * bool :=
  let '(q, ok) := send (usb_tx u) item in (mkUsb q (usb_buf u) (usb_in u) (usb_out u), ok).

(** A turn of the writer: an item of the queue, encoded and written. *)
Definition usb_write (r : WriteRes) (u : Usb) : option Usb :=
  '(item, q) ← recv (usb_tx u);
  match lc_encode item with
  | None => Some (mkUsb (close q) (usb_buf u) (usb_in u) (usb_out u))
  | Some bytes =>
      Some (mkUsb (after_write r q) (usb_buf u) (usb_in u) (usb_out u ++ written_part r bytes))
  end.

(** A turn of the reader, in two parts: bytes arrive, an item is decoded. *)
Definition usb_read (bytes : list Z) (u : Usb) : Usb :=
  mkUsb (usb_tx u) (usb_buf u ++ bytes) (usb_in u ++ bytes) (usb_out u).

Definition usb_next (u : Usb) : option (option Item * Usb) :=
  '(r, _, buf) ← dec tt (usb_buf u);
  Some (r, mkUsb (usb_tx u) buf (usb_in u) (usb_out u)).

End Usb.
Arguments Usb {_} Item.

(** ** One end of a channel *)

Section Endpoint.
Context `{Mpsc}.

Record Endpoint := mkEnd {
  framer : KlipperFramer.t;
  rd_buf : list Z;
  reading : bool;
  tx : mpsc (list Z);
  input : list Z;
  output : list Z;
}.

Definition endpoint_new : Endpoint := mkEnd KlipperFramer.new [] true mpsc_new [] [].

Definition end_read (bytes : list Z) (e : Endpoint) : option Endpoint :=
  if reading e
  then Some (mkEnd (framer e) (rd_buf e ++ bytes) true (tx e) (input e ++ bytes) (output e))
  else None.

(** A turn of the reader: the next frame of the channel goes to the link. *)
Definition end_next (ch_id : Z) (e : Endpoint) (u : Usb TunnelCodec.TunnelFrame)
  : option (Endpoint * Usb TunnelCodec.TunnelFrame) :=
  if reading e then
    '(r, d, buf) ← KlipperFramer.decode (framer e) (rd_buf e);
    match r with
    | None => Some (mkEnd d buf true (tx e) (input e) (output e), u)
    | Some frame =>
        let '(u, ok) := usb_send (TunnelCodec.mkFrame ch_id frame) u in
        Some (mkEnd d buf ok (tx e) (input e) (output e), u)
    end
  else None.

(** The reader sees an error or the end of the stream. *)
Definition end_eof (e : Endpoint) : option Endpoint :=
  if reading e
  then Some (mkEnd (framer e) (rd_buf e) false (tx e) (input e) (output e)) else None.

(** [tx.send(frame)], whose result the callers ignore. *)
Definition end_send (frame : list Z) (e : Endpoint) : Endpoint :=
  mkEnd (framer e) (rd_buf e) (reading e) (send (tx e) frame).1 (input e) (output e).

(** A turn of the writer. *)
Definition end_write (r : WriteRes) (e : Endpoint) : option Endpoint :=
  '(frame, q) ← recv (tx e);
  Some (mkEnd (framer e) (rd_buf e) (reading e) (after_write r q) (input e)
    (output e ++ written_part r frame)).

(** The writer finds its queue empty and the sender gone. *)
Definition end_drop (e : Endpoint) : Endpoint :=
  mkEnd (framer e) (rd_buf e) (reading e) (close (tx e)) (input e) (output e).

End Endpoint.

Module RelayProofs.
Import FramingProofs.

(** What the tasks rely on: the items they send come out of the decoder again. *)
Class LinkLaws (Item : Type) `{LinkCodec Item} := {
  lc_laws :: DecoderLaws unit Item;
  lc_good : Item -> Prop;
  lc_empty : dec (Item := Item) tt [] = Some (None, tt, []);
  lc_roundtrip x : lc_good x -> exists w, lc_encode x = Some w /\ bytes_ok w /\
    forall more, dec tt (w ++ more) = Some (Some x, tt, more);
}.

#[global] Instance tunnel_link_laws : LinkLaws TunnelCodec.TunnelFrame.
Proof.
  apply (Build_LinkLaws _ tunnel_link tunnel_laws tunnel_item); [done|].
  intros [c f] (Hc & Hb & Hf). eexists. split; [reflexivity|]. split.
  - cbn. by apply Forall_cons_2.
  - intros more. unfold dec. cbn [lc_decoder tunnel_link tunnel_decoder].
    by rewrite tunnel_decode_frame.
Defined.

#[global] Instance payload_link_laws : LinkLaws PayloadTunnelCodec.PayloadTunnelFrame.
Proof.
  apply (Build_LinkLaws _ payload_link payload_laws
    (fun x => payload_item x /\ zlen (PayloadTunnelCodec.payload x) <= 255)); [done|].
  intros [c p] [(Hc & Hb) Hl]. cbn [PayloadTunnelCodec.payload PayloadTunnelCodec.ch_id] in *.
  exists ([c] ++ [zlen p] ++ p). split; [|split].
  - cbn [lc_encode payload_link]. rewrite payload_encode. cbn [PayloadTunnelCodec.payload].
    by rewrite (proj2 (Z.ltb_ge 255 (zlen p))) by lia.
  - pose proof (zlen_nonneg p). repeat apply Forall_cons_2; [done|unfold u8; lia|done].
  - intros more. unfold dec. cbn [lc_decoder payload_link payload_decoder].
    by rewrite payload_decode_frame.
Defined.

(** ** A queue and its writer

    [items] is everything that was sent to the queue of a writer; [enc] is what it
    writes for one. *)
Section Writer.
Context `{MpscLaws} {A B : Type} (enc : A -> list B).

Definition writes (q : mpsc A) (out : list B) (items : list A) : Prop :=
  out `prefix_of` concat (map enc items) /\
  (rx_open q = true -> out ++ concat (map enc (queue q)) = concat (map enc items)).

Lemma writes_new : writes mpsc_new [] [].
Proof. split; [apply prefix_nil|]. intros _. by rewrite new_queue. Qed.

Lemma writes_send q out items x :
  writes q out items -> writes (send q x).1 out (items ++ [x]).
Proof.
  intros [Hp Ho]. unfold writes. rewrite map_app, concat_app, send_rx_open.
  split; [by apply prefix_app_r|]. intros E.
  rewrite send_queue, map_app, concat_app, app_assoc by done. by rewrite Ho.
Qed.

(** A send that failed sent nothing. *)
Lemma writes_send_ok q out items x :
  writes q out items -> writes (send q x).1 out (items ++ if (send q x).2 then [x] else []).
Proof.
  intros Hw. rewrite send_ok. destruct (rx_open q) eqn:E; [by apply writes_send|].
  rewrite app_nil_r. destruct Hw as [Hp _]. split; [done|]. rewrite send_rx_open. congruence.
Qed.

(** One item is taken, and a beginning of what it stands for written; the queue is
    closed unless it was all of it. *)
Lemma writes_take q out items x q' part q'' :
  writes q out items -> recv q = Some (x, q') -> part `prefix_of` enc x ->
  (rx_open q'' = true -> part = enc x /\ q'' = q') -> writes q'' (out ++ part) items.
Proof.
  intros [_ Ho] (Eo & Eq & _)%recv_some Hp Hq. specialize (Ho Eo).
  rewrite Eq in Ho. cbn [map concat] in Ho. rewrite app_assoc in Ho. split.
  - rewrite <- Ho, <- app_assoc. by apply prefix_app, prefix_app_r.
  - intros [-> ->]%Hq. exact Ho.
Qed.

Lemma writes_close q q' out items : writes q out items -> writes (close q') out items.
Proof. intros [? _]. split; [done|]. by rewrite close_closed. Qed.

End Writer.

Lemma written_part_prefix r bytes : written_part r bytes `prefix_of` bytes.
Proof.
  destruct r as [|k]; [done|]. cbn. unfold ztake. exists (drop (Z.to_nat k) bytes).
  by rewrite take_drop.
Qed.

Lemma writes_recv {MQ : Mpsc} {ML : MpscLaws} {A} (enc : A -> list Z) q out items x q' r :
  writes enc q out items -> recv q = Some (x, q') ->
  writes enc (after_write r q') (out ++ written_part r (enc x)) items.
Proof.
  intros Hw E. eapply writes_take; [done..|apply written_part_prefix|].
  destruct r; cbn [after_write]; [done|]. by rewrite close_closed.
Qed.

(** A queue whose items are taken as they are. *)
Definition one {A} (x : A) : list A := [x].

Lemma concat_one {A} (l : list A) : concat (map one l) = l.
Proof. induction l as [|x l IH]; [done|]. cbn [map concat one app]. by rewrite IH. Qed.

(** ** Decoding as the bytes arrive

    [xs] are the items already taken out of what has arrived in [inp], the decoder
    being in state [d] with [buf] left. *)
Section Reader.
Context {D Item : Type} `{DecoderLaws D Item}.

Definition decoding (d0 : D) (inp : list Z) (d : D) (buf : list Z) (xs : list Item) : Prop :=
  bytes_ok inp /\ bytes_ok buf /\
  exists rest d' src', frames d0 inp = Some (xs ++ rest, d', src') /\
    frames d buf = Some (rest, d', src').

Lemma decoding_new d0 : decoding d0 [] d0 [] [].
Proof.
  split; [constructor|]. split; [constructor|].
  destruct (frames_app d0 [] [] ltac:(constructor) ltac:(constructor))
    as (xs & d' & src' & E & _). by exists xs, d', src'.
Qed.

Lemma decoding_read d0 inp d buf xs bytes :
  bytes_ok bytes -> decoding d0 inp d buf xs ->
  decoding d0 (inp ++ bytes) d (buf ++ bytes) xs.
Proof.
  intros Hb (Hi & Hbuf & rest & d' & src' & E1 & E2). split; [by apply Forall_app|].
  split; [by apply Forall_app|].
  destruct (frames_app d0 inp bytes Hi Hb) as (ys & d1 & s1 & F1 & Hs1 & _ & G1).
  destruct (frames_app d buf bytes Hbuf Hb) as (zs & d2 & s2 & F2 & _ & _ & G2).
  rewrite E1 in F1. rewrite E2 in F2. simplify_eq.
  destruct (frames_app d1 (s1 ++ bytes) [] ltac:(by apply Forall_app) ltac:(constructor))
    as (ws & d3 & s3 & F3 & _).
  rewrite F3 in G1, G2. cbn [mbind option_bind] in G1, G2.
  exists (zs ++ ws), d3, s3. by rewrite app_assoc.
Qed.

Lemma decoding_next d0 inp d buf xs r d1 buf1 :
  decoding d0 inp d buf xs -> dec d buf = Some (r, d1, buf1) ->
  decoding d0 inp d1 buf1 (xs ++ match r with Some x => [x] | None => [] end).
Proof.
  intros (Hi & Hbuf & rest & d' & src' & E1 & E2) E.
  destruct (dec_total d buf Hbuf) as (r0 & d0' & b0 & E' & Hsuf & _).
  rewrite E in E'. injection E' as <- <- <-.
  assert (bytes_ok buf1) as Hb1 by (destruct Hsuf as [p ->]; by apply Forall_app in Hbuf as [_ ?]).
  split; [done|]. split; [done|].
  rewrite frames_unfold in E2 by done. rewrite E in E2. cbn [mbind option_bind] in E2.
  destruct r as [x|].
  - destruct (frames d1 buf1) as [[[ys d2] s2]|] eqn:F; [|done]. cbn [mbind option_bind] in E2.
    injection E2 as <- <- <-. exists ys, d2, s2. by rewrite <- app_assoc.
  - injection E2 as <- <- <-. exists [], d1, buf1. rewrite !app_nil_r in *. split; [done|].
    rewrite frames_unfold by done.
    pose proof (dec_wait d buf d1 buf1 [] Hbuf ltac:(constructor) E) as Hw.
    rewrite !app_nil_r, E in Hw. by rewrite <- Hw.
Qed.

(** What was taken out so far is a beginning of what the input holds. *)
Lemma decoding_prefix d0 inp d buf xs :
  decoding d0 inp d buf xs -> exists ys d' src', frames d0 inp = Some (ys, d', src') /\ xs `prefix_of` ys.
Proof.
  intros (_ & _ & rest & d' & src' & E & _). exists (xs ++ rest), d', src'.
  split; [done|]. by apply prefix_app_r.
Qed.

(** Once the decoder asks for more, it is all of it. *)
Lemma decoding_done d0 inp d buf xs :
  decoding d0 inp d buf xs -> idle d buf -> frames d0 inp = Some (xs, d, buf).
Proof.
  intros (_ & Hb & rest & d' & src' & E & E2) Hidle.
  rewrite frames_unfold in E2 by done. unfold idle in Hidle. rewrite Hidle in E2.
  cbn [mbind option_bind] in E2. injection E2 as <- <- <-. by rewrite app_nil_r in E.
Qed.

(** More input only adds to what was decoded. *)
Lemma frames_prefix d0 inp1 inp2 xs1 d1 s1 xs2 d2 s2 :
  bytes_ok inp2 -> inp1 `prefix_of` inp2 ->
  frames d0 inp1 = Some (xs1, d1, s1) -> frames d0 inp2 = Some (xs2, d2, s2) ->
  xs1 `prefix_of` xs2.
Proof.
  intros Hb [more ->] E1 E2. apply Forall_app in Hb as [Hb1 Hb2].
  destruct (frames_app d0 inp1 more Hb1 Hb2) as (xs & d' & src' & F & _ & _ & G).
  rewrite E1 in F. simplify_eq. rewrite E2 in G.
  destruct (frames d' (src' ++ more)) as [[[ys ?] ?]|]; [|done]. cbn [mbind option_bind] in G.
  injection G as -> _ _. by apply prefix_app_r.
Qed.

End Reader.

(** ** The link of a program *)

Section Link.
Context {MQ : Mpsc} {ML : MpscLaws} {Item : Type} {LC : LinkCodec Item} {LL : LinkLaws Item}.

Definition enc (x : Item) : list Z := default [] (lc_encode x).

(** [log] is what was sent to the writer, [items] what the reader decoded. *)
Definition link_inv (u : Usb Item) (log items : list Item) : Prop :=
  writes enc (usb_tx u) (usb_out u) log /\ Forall lc_good log /\
  decoding tt (usb_in u) tt (usb_buf u) items.

Lemma link_new : link_inv usb_new [] [].
Proof. split; [apply writes_new|]. split; [constructor | apply decoding_new]. Qed.

Lemma link_write r u log items u' :
  link_inv u log items -> usb_write r u = Some u' ->
  link_inv u' log items /\ (rx_open (usb_tx u') = true -> rx_open (usb_tx u) = true).
Proof.
  intros (Hw & Hl & Hd). unfold usb_write.
  destruct (recv (usb_tx u)) as [[x q]|] eqn:E; [|done]. cbn [mbind option_bind].
  pose proof (writes_recv enc (usb_tx u) _ _ x q r Hw E) as Hr. unfold enc in Hr.
  apply recv_some in E as (Eo & _ & _).
  destruct (lc_encode x) as [bytes|]; intros [= <-].
  - by split.
  - split; [|by cbn; rewrite close_closed]. split; [|done]. cbn [usb_tx usb_out].
    destruct Hw as [Hp _]. split; [done|]. by rewrite close_closed.
Qed.

Lemma link_read bytes u log items :
  bytes_ok bytes -> link_inv u log items -> link_inv (usb_read bytes u) log items.
Proof.
  intros Hb (Hw & Hl & Hd). split; [done|]. split; [done|]. by apply decoding_read.
Qed.

Lemma link_next u log items r u' :
  link_inv u log items -> usb_next u = Some (r, u') ->
  link_inv u' log (items ++ match r with Some x => [x] | None => [] end) /\
  usb_tx u' = usb_tx u.
Proof.
  intros (Hw & Hl & Hd). unfold usb_next.
  destruct (dec tt (usb_buf u)) as [[[r0 []] buf]|] eqn:E; [|done]. cbn [mbind option_bind].
  intros [= <- <-]. split; [|done]. split; [done|]. split; [done|]. by eapply decoding_next.
Qed.

Lemma link_send x u log items u' ok :
  lc_good x -> link_inv u log items -> usb_send x u = (u', ok) ->
  link_inv u' (log ++ if ok then [x] else []) items /\
  ok = rx_open (usb_tx u) /\ rx_open (usb_tx u') = rx_open (usb_tx u).
Proof.
  intros Ht (Hw & Hl & Hd). unfold usb_send.
  pose proof (writes_send_ok enc _ _ _ x Hw) as Hs.
  pose proof (send_ok (usb_tx u) x) as Eo. pose proof (send_rx_open (usb_tx u) x) as Er.
  destruct (send (usb_tx u) x) as [q o]. intros [= <- <-]. cbn [fst snd usb_tx] in *. subst o.
  split; [|done]. split; [done|]. split; [|done]. apply Forall_app. split; [done|].
  destruct (rx_open (usb_tx u)); [by apply Forall_singleton | constructor].
Qed.

Lemma frames_wire log :
  Forall lc_good log ->
  bytes_ok (concat (map enc log)) /\ frames tt (concat (map enc log)) = Some (log, tt, []).
Proof.
  intros Hl.
  assert (Forall2 (fun w x => bytes_ok w /\ forall more, dec tt (w ++ more) = Some (Some x, tt, more))
    (map enc log) log) as Hws.
  { induction Hl as [|x log Hx _ IH]; constructor; [|done].
    destruct (lc_roundtrip x Hx) as (w & Ew & Hw). unfold enc. by rewrite Ew. }
  assert (bytes_ok (concat (map enc log))) as Hb.
  { apply bytes_ok_concat. clear Hl. induction Hws as [|w x ws xs [? _] _ IH]; constructor; auto. }
  split; [done|].
  pose proof (framed_stream tt (map enc log) log [concat (map enc log)] (lc_empty (Item := Item)) Hws) as H.
  rewrite framed_frames in H; [|constructor|by apply Forall_singleton|exact (lc_empty (Item := Item))].
  cbn [concat app] in H. rewrite app_nil_r in H. by apply H.
Qed.

(** Bytes of one program's writer on their way to the other's reader. *)
Lemma link_transfer u1 u2 log items items1 log2 :
  link_inv u1 log items1 -> link_inv u2 log2 items -> usb_in u2 `prefix_of` usb_out u1 ->
  items `prefix_of` log /\
  (usb_in u2 = usb_out u1 -> rx_open (usb_tx u1) = true -> queue (usb_tx u1) = [] ->
    idle (Item := Item) tt (usb_buf u2) -> items = log).
Proof.
  intros (Hw & Hl & _) (_ & _ & Hd) Hin. destruct (frames_wire log Hl) as [Hb E].
  destruct Hw as [Hp Ho].
  destruct (decoding_prefix _ _ _ _ _ Hd) as (ys & d & src & Ey & Hpre). split.
  - etransitivity; [exact Hpre|]. eapply frames_prefix; [exact Hb| |exact Ey|exact E].
    by etransitivity.
  - intros Eq Hopen Hq Hidle. specialize (Ho Hopen). rewrite Hq in Ho. cbn in Ho.
    rewrite app_nil_r in Ho. pose proof (decoding_done _ _ _ _ _ Hd Hidle) as Ed.
    rewrite Eq, Ho, E in Ed. by injection Ed.
Qed.

End Link.

(** ** The items of a channel *)

Section Channels.
Context {Item : Type} {LC : LinkCodec Item}.

Definition of_ch (ch : Z) (l : list Item) : list (list Z) :=
  map lc_body (filter (fun x => lc_ch x = ch) l).

Lemma of_ch_app ch l1 l2 : of_ch ch (l1 ++ l2) = of_ch ch l1 ++ of_ch ch l2.
Proof. unfold of_ch. by rewrite filter_app, map_app. Qed.

Lemma of_ch_one ch x : of_ch ch [x] = if bool_decide (lc_ch x = ch) then [lc_body x] else [].
Proof.
  unfold of_ch. case_bool_decide as E; [by rewrite filter_cons_True | by rewrite filter_cons_False].
Qed.

Lemma of_ch_same ch ch' l :
  Forall (fun x => lc_ch x = ch) l ->
  of_ch ch' l = if bool_decide (ch = ch') then map lc_body l else [].
Proof.
  unfold of_ch. intros Hl. case_bool_decide as E; induction Hl as [|x l Hx _ IH]; try done.
  - rewrite filter_cons_True by congruence. cbn [map]. by rewrite IH.
  - by rewrite filter_cons_False by congruence.
Qed.

Lemma of_ch_prefix ch l1 l2 : l1 `prefix_of` l2 -> of_ch ch l1 `prefix_of` of_ch ch l2.
Proof. intros [l ->]. rewrite of_ch_app. by apply prefix_app_r. Qed.

(** The same of tagged items. *)
Definition on_ch {T} (ch : Z) (l : list (T * Item)) : list (T * list Z) :=
  map (fun x => (x.1, lc_body x.2)) (filter (fun x => lc_ch x.2 = ch) l).

Lemma on_ch_app {T} ch (l1 l2 : list (T * Item)) : on_ch ch (l1 ++ l2) = on_ch ch l1 ++ on_ch ch l2.
Proof. unfold on_ch. by rewrite filter_app, map_app. Qed.

Lemma on_ch_one {T} ch (t : T) x :
  on_ch ch [(t, x)] = if bool_decide (lc_ch x = ch) then [(t, lc_body x)] else [].
Proof.
  unfold on_ch. case_bool_decide as E; [by rewrite filter_cons_True | by rewrite filter_cons_False].
Qed.

Lemma on_ch_same {T} ch ch' (t : T) l :
  Forall (fun x => lc_ch x = ch) l ->
  on_ch ch' (map (pair t) l) = if bool_decide (ch = ch') then map (pair t) (map lc_body l) else [].
Proof.
  unfold on_ch. intros Hl. case_bool_decide as E; induction Hl as [|x l Hx _ IH]; try done.
  - cbn [map]. rewrite filter_cons_True by (cbn; congruence). cbn [map fst snd]. by rewrite IH.
  - cbn [map]. by rewrite filter_cons_False by (cbn; congruence).
Qed.

Lemma of_ch_on_ch {T} ch (l : list (T * Item)) : of_ch ch (map snd l) = map snd (on_ch ch l).
Proof.
  unfold of_ch, on_ch. induction l as [|[t x] l IH]; [done|]. cbn [map snd].
  destruct (decide (lc_ch x = ch)).
  - rewrite !filter_cons_True by done. cbn [map]. by rewrite IH.
  - by rewrite !filter_cons_False.
Qed.

Lemma map_snd_pair {T A} (t : T) (l : list A) : map snd (map (pair t) l) = l.
Proof. rewrite map_map. apply map_id. Qed.

End Channels.

Lemma concat_prefix {A} (l1 l2 : list (list A)) :
  l1 `prefix_of` l2 -> concat l1 `prefix_of` concat l2.
Proof. intros [l ->]. rewrite concat_app. by apply prefix_app_r. Qed.

End RelayProofs.
