(* ===== verification/Slots.v ===== *)
(** * A channel's clients on the host ([windlass/host.rs], [windlass/smart_host.rs])

    Both hosts keep, for each channel, a slot with the sender of the client that is
    connected, if any; the tasks of earlier clients may still be running.  Here are
    the clients in the order they connected, the index of the one in the slot, and
    what the two hosts do with them, for any type of client. *)
From Stdlib Require Import ZArith Lia.
From stdpp Require Import base option numbers list.
From S2P Require Import Prelude.

Record Slots (C : Type) := mkSlots { clients : list C; slot : option nat }.
Arguments mkSlots {C}.
Arguments clients {C}.
Arguments slot {C}.

Section Slots.
Context {C : Type}.
Implicit Types s : Slots C.

Definition no_clients : Slots C := mkSlots [] None.

(** [*guard = Some(tx)] for a new client; one connection is handled at a time. *)
Definition connect (new : C) s : option (Slots C) :=
  match slot s with
  | Some _ => None
  | None => Some (mkSlots (clients s ++ [new]) (Some (length (clients s))))
  end.

(** [*guard = None] *)
Definition vacate s : Slots C := mkSlots (clients s) None.

(** A task of a client has taken a turn. *)
Definition set_client (i : nat) (c : C) s : Slots C := mkSlots (<[i := c]> (clients s)) (slot s).

(** A send to the client in the slot, if any. *)
Definition deliver (f : C -> C) s : Slots C :=
  match slot s with Some i => mkSlots (alter f i (clients s)) (slot s) | None => s end.

End Slots.

Module SlotsProofs.

(** On the way up items are tagged with the client they came from, on the way down
    with the client that was in the slot. *)
Section Tagged.
Context {A : Type}.

Definition sent_by (i : nat) (log : list (nat * A)) : list A :=
  map snd (filter (fun x => x.1 = i) log).

(** What client [i] was given is an unbroken run of the channel's items, that of the
    time it was connected; [now] says that it still is. *)
Definition given_to (i : nat) (now : bool) (down : list A -> Prop) (routed : list (option nat * A))
  : Prop :=
  exists before mine after, routed = before ++ mine ++ after /\
    Forall (fun x => x.1 = Some i) mine /\ Forall (fun x => x.1 <> Some i) (before ++ after) /\
    (now = true -> after = []) /\ down (map snd mine).

Lemma sent_by_app i l1 l2 : sent_by i (l1 ++ l2) = sent_by i l1 ++ sent_by i l2.
Proof. unfold sent_by. by rewrite filter_app, map_app. Qed.

Lemma sent_by_tag i j (more : list A) :
  sent_by j (map (pair i) more) = if bool_decide (i = j) then more else [].
Proof.
  unfold sent_by. case_bool_decide as E; induction more as [|x more IH]; try done.
  - cbn [map]. rewrite filter_cons_True by done. cbn [map snd]. by rewrite IH.
  - cbn [map]. by rewrite filter_cons_False.
Qed.

Lemma sent_by_none i (log : list (nat * A)) :
  Forall (fun x => (x.1 < i)%nat) log -> sent_by i log = [].
Proof.
  unfold sent_by. induction 1 as [|x log Hx _ IH]; [done|]. by rewrite filter_cons_False by lia.
Qed.

Lemma given_impl i now (down down' : list A -> Prop) routed :
  (forall given, down given -> down' given) ->
  given_to i now down routed -> given_to i now down' routed.
Proof. intros H (b & m & a & ? & ? & ? & ? & ?). exists b, m, a. split_and!; auto. Qed.

End Tagged.

(** [up c sent] and [down c given] are what holds of a client that has sent and was
    given these items. *)
Section Invariant.
Context {C A : Type} (up down : C -> list A -> Prop).

Record slots_inv (s : Slots C) (log : list (nat * A)) (routed : list (option nat * A)) : Prop := {
  s_slot : forall i, slot s = Some i -> (i < length (clients s))%nat;
  s_log : Forall (fun x => (x.1 < length (clients s))%nat) log;
  s_routed : Forall (fun x => forall i, x.1 = Some i -> (i < length (clients s))%nat) routed;
  s_clients : forall i c, clients s !! i = Some c ->
    up c (sent_by i log) /\ given_to i (bool_decide (slot s = Some i)) (down c) routed;
}.

Lemma slots_new : slots_inv no_clients [] [].
Proof. split; cbn; [done|constructor|constructor|by intros i c]. Qed.

(** A turn of a client's task, which sends [more]. *)
Lemma slots_turn s log routed i c c' more :
  slots_inv s log routed -> clients s !! i = Some c ->
  (forall sent, up c sent -> up c' (sent ++ more)) ->
  (forall given, down c given -> down c' given) ->
  slots_inv (set_client i c' s) (log ++ map (pair i) more) routed.
Proof.
  intros [Hs Hl Hr Hc] E Hup Hdown.
  split; cbn [set_client clients slot]; rewrite ?length_insert; try done.
  - apply Forall_app. split; [done|]. apply Forall_map, Forall_forall. intros x _. cbn.
    by eapply lookup_lt_Some.
  - intros j c1. rewrite list_lookup_insert, sent_by_app, sent_by_tag. case_decide as Ej.
    + destruct Ej as [<- _]. intros [= <-]. rewrite bool_decide_true by done.
      destruct (Hc i c E) as [Hu Hg]. split; [by apply Hup|]. by eapply given_impl.
    + intros E1. rewrite (bool_decide_false (i = j)), app_nil_r; [by apply Hc|].
      intros ->. apply Ej. split; [done|]. by eapply lookup_lt_Some.
Qed.

Lemma slots_quiet s log routed i c c' :
  slots_inv s log routed -> clients s !! i = Some c ->
  (forall sent, up c sent -> up c' sent) -> (forall given, down c given -> down c' given) ->
  slots_inv (set_client i c' s) log routed.
Proof.
  intros I E Hup Hdown. rewrite <- (app_nil_r log). apply (slots_turn s log routed i c c' []); [done..| |done].
  intros sent. rewrite app_nil_r. apply Hup.
Qed.

Lemma slots_connect s log routed new s' :
  slots_inv s log routed -> up new [] -> down new [] -> connect new s = Some s' ->
  slots_inv s' log routed.
Proof.
  intros [Hs Hl Hr Hc] Hup Hdown. unfold connect. destruct (slot s) as [i|] eqn:Es; [done|].
  intros [= <-]. split; cbn [clients slot]; rewrite ?length_app; cbn [length].
  - intros i [= <-]. lia.
  - eapply Forall_impl; [exact Hl|]. cbn. lia.
  - eapply Forall_impl; [exact Hr|]. cbn. intros x Hx i Hi. specialize (Hx i Hi). lia.
  - intros i c Hi. rewrite lookup_app in Hi. destruct (clients s !! i) as [c1|] eqn:E1.
    + injection Hi as <-. destruct (Hc i c1 E1) as [Hu Hg]. split; [done|].
      destruct Hg as (b & m & a & ? & ? & ? & _ & ?). exists b, m, a. split_and!; try done.
      apply lookup_lt_Some in E1. case_bool_decide as Ei; [injection Ei; lia | done].
    + apply lookup_ge_None in E1. apply list_lookup_singleton_Some in Hi as [Hi <-].
      assert (i = length (clients s)) as -> by lia.
      rewrite sent_by_none by done. split; [done|].
      exists routed, [], []. rewrite !app_nil_r. split_and!; try done.
      eapply Forall_impl; [exact Hr|]. cbn. intros x Hx E. specialize (Hx _ E). lia.
Qed.

Lemma slots_vacate s log routed : slots_inv s log routed -> slots_inv (vacate s) log routed.
Proof.
  intros [Hs Hl Hr Hc]. split; cbn [vacate clients slot]; try done.
  intros j c E. destruct (Hc j c E) as [Hu (b & m & a & ? & ? & ? & _ & ?)]. split; [done|].
  by exists b, m, a.
Qed.

(** An item arrives for the channel. *)
Lemma slots_deliver s log routed f x :
  slots_inv s log routed ->
  (forall c sent, up c sent -> up (f c) sent) ->
  (forall c given, down c given -> down (f c) (given ++ [x])) ->
  slots_inv (deliver f s) log (routed ++ [(slot s, x)]).
Proof.
  intros [Hs Hl Hr Hc] Hup Hdown. unfold deliver.
  assert (forall i now d, (now = true -> slot s = Some i) -> slot s <> Some i ->
    given_to i now d routed -> given_to i now d (routed ++ [(slot s, x)])) as Hother.
  { intros i now d Hn Hne (b & m & a & -> & Hm & Hba & Hnow & Hd).
    exists b, m, (a ++ [(slot s, x)]). rewrite <- !app_assoc. split_and!; try done.
    - apply Forall_app in Hba as [Hb Ha]. apply Forall_app. split; [done|].
      apply Forall_app. split; [done|]. by apply Forall_singleton.
    - intros E. by apply Hn in E. }
  destruct (slot s) as [i|] eqn:Es.
  - split; cbn [clients slot]; rewrite ?length_alter; try done.
    + apply Forall_app. split; [done|]. apply Forall_singleton. cbn. intros j [= <-]. by apply Hs.
    + intros j c1 Hj. destruct (decide (i = j)) as [<-|Hij].
      * rewrite list_lookup_alter_eq in Hj.
        destruct (clients s !! i) as [c|] eqn:E; [|done]. injection Hj as <-.
        destruct (Hc i c E) as [Hu (b & m & a & -> & Hm & Hba & Hnow & Hd)].
        rewrite bool_decide_true in * by done. split; [by apply Hup|].
        rewrite (Hnow eq_refl), app_nil_r in *. exists b, (m ++ [(Some i, x)]), [].
        rewrite !app_nil_r. split_and!; try done.
        -- by rewrite app_assoc.
        -- apply Forall_app. split; [done|]. by apply Forall_singleton.
        -- rewrite map_app. by apply Hdown.
      * rewrite list_lookup_alter_ne in Hj by done. destruct (Hc j c1 Hj) as [Hu Hg].
        split; [done|]. apply Hother; [|congruence|done].
        intros E%bool_decide_eq_true. done.
  - split; rewrite ?Es; try done.
    + apply Forall_app. split; [done|]. by apply Forall_singleton.
    + intros j c1 Hj. destruct (Hc j c1 Hj) as [Hu Hg]. split; [done|].
      apply Hother; [|done|done]. intros E%bool_decide_eq_true. done.
Qed.

End Invariant.

Lemma slots_inv_impl {C A} (up up' down : C -> list A -> Prop) s log routed :
  (forall c sent, up c sent -> up' c sent) ->
  slots_inv up down s log routed -> slots_inv up' down s log routed.
Proof.
  intros H [Hs Hl Hr Hc]. split; try done. intros i c E. destruct (Hc i c E) as [Hu Hg].
  split; [by apply H | done].
Qed.

End SlotsProofs.
