(* ===== verification/Transparent.v ===== *)
(** * The transparent relay ([windlass/exporter.rs], [windlass/host.rs])

    The exporter relays between UARTs and the link, the host between the link and
    the Klipper clients of its sockets.  A program is its start, one operation per
    turn of a task, and runs over any schedule of turns; a turn that is not possible
    is [None]. *)
From Stdlib Require Import ZArith Lia String.
From stdpp Require Import base option numbers list gmap.
From S2P Require Import Prelude Mpsc Framing AsyncPort Discovery Relay Slots WindlassCli.

Local Open Scope Z_scope.

(** A schedule. *)
Section Run.
Context {State Event : Type} (step : State -> Event -> option State).

Fixpoint run (s : State) (evs : list Event) : option State :=
  match evs with
  | [] => Some s
  | ev :: evs => s ← step s ev; run s evs
  end.

Lemma run_invariant (Inv : State -> Prop) (ok : Event -> Prop) s evs s' :
  (forall s ev s', Inv s -> ok ev -> step s ev = Some s' -> Inv s') ->
  Inv s -> Forall ok evs -> run s evs = Some s' -> Inv s'.
Proof.
  intros Hstep Hs Hok. revert s Hs. induction Hok as [|ev evs Hev _ IH]; intros s Hs; cbn [run].
  - by intros [= <-].
  - destruct (step s ev) as [s1|] eqn:E; [|done]. cbn [mbind option_bind].
    apply IH. by eapply Hstep.
Qed.

End Run.

Module Exporter.
Import TunnelCodec AsyncSerial.

Section Exporter.
Context `{Mpsc}.

Record State := mkState {
  uarts : gmap Z Endpoint;
  usb : Usb TunnelFrame;
  running : bool;
}.

Inductive Event :=
  | UartRead (ch : Z) (bytes : list Z)
  | UartNext (ch : Z)
  | UartEnd (ch : Z)
  | UartWrite (ch : Z) (r : WriteRes)
  | UsbWrite (r : WriteRes)
  | UsbRead (bytes : list Z)
  | UsbNext
  | UsbEnd.

(** Opening the UARTs, the [k]-th with the answers [ports k]; [None] is the error that
    ends the program. *)
Fixpoint open_uarts (ports : nat -> PortSys) (channels : list WindlassCli.McuSpec)
    (uarts : gmap Z Endpoint) : option (gmap Z Endpoint) :=
  match channels with
  | [] => Some uarts
  | ch :: channels =>
      if opens (ports O) (WindlassCli.path ch) (WindlassCli.baud ch)
      then open_uarts (fun k => ports (S k)) channels (<[WindlassCli.ch_id ch := endpoint_new]> uarts)
      else None
  end.

Definition start (link_port : PortSys) (ports : nat -> PortSys) (link_device : string)
    (channels : list WindlassCli.McuSpec) : option State :=
  if opens link_port link_device 0 then
    uarts ← open_uarts ports channels ∅;
    Some (mkState uarts usb_new true)
  else None.

(** The demultiplexer: a frame for a channel that is not there is dropped. *)
Definition demux (tf : TunnelFrame) (uarts : gmap Z Endpoint) : gmap Z Endpoint :=
  match uarts !! ch_id tf with
  | Some e => <[ch_id tf := end_send (frame tf) e]> uarts
  | None => uarts
  end.

(** A turn of a task of a UART. *)
Definition uart_step (s : State) (ch : Z) (f : Endpoint -> option Endpoint) : option State :=
  e ← uarts s !! ch; e ← f e;
  Some (mkState (<[ch := e]> (uarts s)) (usb s) true).

Definition step (s : State) (ev : Event) : option State :=
  if negb (running s) then None
  else
    match ev with
    | UartRead ch bytes => uart_step s ch (end_read bytes)
    | UartNext ch =>
        e ← uarts s !! ch; '(e, u) ← end_next ch e (usb s);
        Some (mkState (<[ch := e]> (uarts s)) u true)
    | UartEnd ch => uart_step s ch end_eof
    | UartWrite ch r => uart_step s ch (end_write r)
    | UsbWrite r => u ← usb_write r (usb s); Some (mkState (uarts s) u true)
    | UsbRead bytes => Some (mkState (uarts s) (usb_read bytes (usb s)) true)
    | UsbNext =>
        '(r, u) ← usb_next (usb s);
        match r with
        | Some tf => Some (mkState (demux tf (uarts s)) u true)
        | None => Some (mkState (uarts s) u true)
        end
    | UsbEnd => Some (mkState (uarts s) (usb s) false)
    end.

(** Bytes are bytes. *)
Definition event_ok (ev : Event) : Prop :=
  match ev with UartRead _ bytes | UsbRead bytes => bytes_ok bytes | _ => True end.

(** The states of the program, whatever the devices answer and the schedule. *)
Definition reachable (s : State) : Prop :=
  exists link_port ports link_device channels evs s0,
    Forall (fun c => u8 (WindlassCli.ch_id c)) channels /\
    start link_port ports link_device channels = Some s0 /\
    Forall event_ok evs /\ run step s0 evs = Some s.

End Exporter.

End Exporter.

Module Host.
Import TunnelCodec AsyncSerial Windlass.

Section Host.
Context `{Mpsc}.

Record State := mkState {
  channels : gmap Z (Slots Endpoint);
  usb : Usb TunnelFrame;
  running : bool;
}.

Inductive Event :=
  | Accept (ch : Z)
  | SockRead (ch : Z) (i : nat) (bytes : list Z)
  | SockNext (ch : Z) (i : nat)
  | SockEnd (ch : Z) (i : nat)
  | SockWrite (ch : Z) (i : nat) (r : WriteRes)
  | SockDrained (ch : Z) (i : nat)
  | Disconnect (ch : Z)
  | UsbWrite (r : WriteRes)
  | UsbRead (bytes : list Z)
  | UsbNext
  | UsbEnd.

(** Preparing and binding the sockets; [None] is the error that ends the program. *)
Fixpoint bind_sockets (sockets : nat -> Windlass.SocketSys) (specs : list WindlassCli.McuSpec)
    (channels : gmap Z (Slots Endpoint)) : option (gmap Z (Slots Endpoint)) :=
  match specs with
  | [] => Some channels
  | ch :: specs =>
      if prepares (sockets O) && binds (sockets O)
      then bind_sockets (fun k => sockets (S k)) specs (<[WindlassCli.ch_id ch := no_clients]> channels)
      else None
  end.

Definition start (link_port : PortSys) (sockets : nat -> Windlass.SocketSys)
    (link_device : string) (specs : list WindlassCli.McuSpec) : option State :=
  if opens link_port link_device 0 then
    channels ← bind_sockets sockets specs ∅;
    Some (mkState channels usb_new true)
  else None.

(** One of the two tasks of the client is over: the handler empties the slot and
    returns to accepting.  The other task goes on until it ends by itself. *)
Definition disconnect (c : Slots Endpoint) : option (Slots Endpoint) :=
  i ← slot c; e ← clients c !! i;
  if negb (reading e) || negb (rx_open (tx e)) then Some (vacate c) else None.

(** The sender of a client that is not in the slot any more is gone. *)
Definition drained (i : nat) (c : Slots Endpoint) : option (Slots Endpoint) :=
  if bool_decide (slot c = Some i) then None
  else
    e ← clients c !! i;
    match queue (tx e) with
    | [] => Some (set_client i (end_drop e) c)
    | _ => None
    end.

Definition demux (tf : TunnelFrame) (channels : gmap Z (Slots Endpoint)) : gmap Z (Slots Endpoint) :=
  match channels !! ch_id tf with
  | Some c => <[ch_id tf := deliver (end_send (frame tf)) c]> channels
  | None => channels
  end.

Definition channel_step (s : State) (ch : Z) (f : Slots Endpoint -> option (Slots Endpoint))
  : option State :=
  c ← channels s !! ch; c ← f c;
  Some (mkState (<[ch := c]> (channels s)) (usb s) true).

(** A turn of a task of a client. *)
Definition client_step (s : State) (ch : Z) (i : nat) (f : Endpoint -> option Endpoint)
  : option State :=
  channel_step s ch (fun c => e ← clients c !! i; e ← f e; Some (set_client i e c)).

Definition step (s : State) (ev : Event) : option State :=
  if negb (running s) then None
  else
    match ev with
    | Accept ch => channel_step s ch (connect endpoint_new)
    | SockRead ch i bytes => client_step s ch i (end_read bytes)
    | SockNext ch i =>
        c ← channels s !! ch; e ← clients c !! i; '(e, u) ← end_next ch e (usb s);
        Some (mkState (<[ch := set_client i e c]> (channels s)) u true)
    | SockEnd ch i => client_step s ch i end_eof
    | SockWrite ch i r => client_step s ch i (end_write r)
    | SockDrained ch i => channel_step s ch (drained i)
    | Disconnect ch => channel_step s ch disconnect
    | UsbWrite r => u ← usb_write r (usb s); Some (mkState (channels s) u true)
    | UsbRead bytes => Some (mkState (channels s) (usb_read bytes (usb s)) true)
    | UsbNext =>
        '(r, u) ← usb_next (usb s);
        match r with
        | Some tf => Some (mkState (demux tf (channels s)) u true)
        | None => Some (mkState (channels s) u true)
        end
    | UsbEnd => Some (mkState (channels s) (usb s) false)
    end.

Definition event_ok (ev : Event) : Prop :=
  match ev with SockRead _ _ bytes | UsbRead bytes => bytes_ok bytes | _ => True end.

Definition reachable (s : State) : Prop :=
  exists link_port sockets link_device specs evs s0,
    Forall (fun c => u8 (WindlassCli.ch_id c)) specs /\
    start link_port sockets link_device specs = Some s0 /\
    Forall event_ok evs /\ run step s0 evs = Some s.

End Host.

End Host.

Module TransparentProofs.
Import FramingProofs RelayProofs SlotsProofs TunnelCodec.

Section Transparent.
Context {MQ : Mpsc} {ML : MpscLaws}.

(** ** An end of a channel *)

(** [sent] is what it sent to the link, [given] what it was given to write; what it
    took out of its input and could not send is [lost]. *)
Definition up_inv (alive : bool) (e : Endpoint) (sent : list (list Z)) : Prop :=
  exists lost, decoding (D := KlipperFramer.t) (Item := list Z)
    KlipperFramer.new (input e) (framer e) (rd_buf e) (sent ++ lost) /\
    (alive = true -> lost = []).

Definition down_inv (e : Endpoint) (given : list (list Z)) : Prop :=
  writes id (tx e) (output e) given.

Lemma end_new_inv alive : up_inv alive endpoint_new [] /\ down_inv endpoint_new [].
Proof.
  split; [|apply (writes_new id)]. exists []. split; [|done]. apply (decoding_new (D := KlipperFramer.t)).
Qed.

Lemma up_weaken (a b : bool) e sent : (b = true -> a = true) -> up_inv a e sent -> up_inv b e sent.
Proof. intros Hab (lost & Hd & Hl). exists lost. split; [done|]. intros ?%Hab. by apply Hl. Qed.

Lemma end_read_inv bytes e e' alive sent given :
  bytes_ok bytes -> up_inv alive e sent -> down_inv e given -> end_read bytes e = Some e' ->
  up_inv alive e' sent /\ down_inv e' given.
Proof.
  intros Hb (lost & Hd & Hl) Hw. unfold end_read. destruct (reading e); [|done]. intros [= <-].
  split; [|done]. exists lost. split; [|done]. by apply decoding_read.
Qed.

Lemma end_eof_inv e e' alive sent given :
  up_inv alive e sent -> down_inv e given -> end_eof e = Some e' ->
  up_inv alive e' sent /\ down_inv e' given.
Proof. unfold end_eof. destruct (reading e); [|done]. by intros ? ? [= <-]. Qed.

Lemma end_send_inv f e alive sent given :
  up_inv alive e sent -> down_inv e given ->
  up_inv alive (end_send f e) sent /\ down_inv (end_send f e) (given ++ [f]).
Proof. intros Hu Hw. split; [done|]. by apply (writes_send id). Qed.

Lemma end_write_inv r e e' alive sent given :
  up_inv alive e sent -> down_inv e given -> end_write r e = Some e' ->
  up_inv alive e' sent /\ down_inv e' given.
Proof.
  intros Hu Hw. unfold end_write. destruct (recv (tx e)) as [[f q]|] eqn:E; [|done].
  cbn [mbind option_bind]. intros [= <-]. split; [done|]. by apply (writes_recv id (tx e) _ _ f q r).
Qed.

Lemma end_drop_inv e alive sent given :
  up_inv alive e sent -> down_inv e given ->
  up_inv alive (end_drop e) sent /\ down_inv (end_drop e) given.
Proof. intros Hu Hw. split; [done|]. by apply (writes_close id (tx e)). Qed.

(** The reader's turn adds to the link what it adds to [sent]. *)
Lemma end_next_inv ch e u e' u' sent log items :
  u8 ch -> up_inv (rx_open (usb_tx u)) e sent -> link_inv u log items ->
  end_next ch e u = Some (e', u') ->
  exists more, link_inv u' (log ++ map (mkFrame ch) more) items /\
    rx_open (usb_tx u') = rx_open (usb_tx u) /\
    (forall sent, up_inv (rx_open (usb_tx u)) e sent -> up_inv (rx_open (usb_tx u)) e' (sent ++ more)) /\
    (forall given, down_inv e given -> down_inv e' given).
Proof.
  intros Hch (lost0 & (_ & Hbuf & _) & _) Hlink. unfold end_next. destruct (reading e); [|done].
  destruct (KlipperFramer.decode (framer e) (rd_buf e)) as [[[r d] buf]|] eqn:E; [|done].
  cbn [mbind option_bind].
  assert (forall xs, decoding KlipperFramer.new (input e) (framer e) (rd_buf e) xs ->
    decoding KlipperFramer.new (input e) d buf (xs ++ match r with Some f => [f] | None => [] end))
    as Hnext by (intros xs Hd; exact (decoding_next _ _ _ _ _ r d buf Hd E)).
  destruct r as [f|].
  - apply framer_dec_sound in E as [Hf [pre Epre]].
    assert (lc_good (mkFrame ch f)) as Hitem.
    { split; [done|]. split; [|done]. rewrite Epre in Hbuf. apply Forall_app in Hbuf as [_ Hb].
      by apply Forall_app in Hb as [? _]. }
    destruct (usb_send (mkFrame ch f) u) as [u1 ok] eqn:Es. intros [= <- <-].
    destruct (link_send _ _ _ _ _ _ Hitem Hlink Es) as (Hlink' & Hok & Ho).
    exists (if ok then [f] else []). split; [by destruct ok|]. split; [done|]. split; [|done].
    intros sent' (lost & Hd & Hl). apply Hnext in Hd. destruct ok.
    + exists []. rewrite (Hl ltac:(congruence)), app_nil_r in Hd. by rewrite app_nil_r.
    + exists (lost ++ [f]). rewrite app_nil_r. rewrite <- app_assoc in Hd. split; [done|]. congruence.
  - intros [= <- <-]. exists []. cbn [map]. rewrite app_nil_r. split_and!; try done.
    intros sent' (lost & Hd & Hl). exists lost. apply Hnext in Hd. by rewrite app_nil_r in *.
Qed.

Lemma of_ch_sent ch ch' more :
  of_ch ch' (map (mkFrame ch) more) = if bool_decide (ch = ch') then more else [].
Proof.
  rewrite (of_ch_same ch), map_map, map_id; [done|]. by apply Forall_map, Forall_forall.
Qed.

Lemma on_ch_sent {T} ch ch' (t : T) more :
  on_ch ch' (map (pair t) (map (mkFrame ch) more)) =
    if bool_decide (ch = ch') then map (pair t) more else [].
Proof.
  rewrite (on_ch_same ch), (map_map (mkFrame ch)), map_id; [done|].
  by apply Forall_map, Forall_forall.
Qed.

(** ** The exporter *)

Record exporter_inv (s : Exporter.State) (log items : list TunnelFrame) : Prop := {
  x_link : link_inv (Exporter.usb s) log items;
  x_ends : forall ch e, Exporter.uarts s !! ch = Some e ->
    up_inv (rx_open (usb_tx (Exporter.usb s))) e (of_ch ch log) /\ down_inv e (of_ch ch items);
  x_ids : forall ch e, Exporter.uarts s !! ch = Some e -> u8 ch;
}.

Lemma exporter_start lp os dev specs s :
  Forall (fun c => u8 (WindlassCli.ch_id c)) specs ->
  Exporter.start lp os dev specs = Some s -> exporter_inv s [] [].
Proof.
  intros Hs. unfold Exporter.start. destruct (AsyncSerial.opens _ _ _); [|done].
  assert (forall os uarts uarts',
    (forall ch e, uarts !! ch = Some e -> e = endpoint_new /\ u8 ch) ->
    Exporter.open_uarts os specs uarts = Some uarts' ->
    forall ch e, uarts' !! ch = Some e -> e = endpoint_new /\ u8 ch) as H.
  { clear os. induction Hs as [|c specs Hc Hs IH]; intros os uarts uarts' Hu; cbn [Exporter.open_uarts];
      [by intros [= <-]|].
    destruct (AsyncSerial.opens _ _ _); [|done]. apply IH. intros ch e.
    rewrite lookup_insert. case_decide as Ech; [intros [= <-]; by subst ch | apply Hu]. }
  destruct (Exporter.open_uarts os specs ∅) as [uarts|] eqn:E; [|done]. cbn [mbind option_bind].
  intros [= <-]. specialize (H os ∅ uarts ltac:(intros ch e; by rewrite lookup_empty) E).
  split; cbn [Exporter.usb Exporter.uarts].
  - apply link_new.
  - intros ch e He. destruct (H ch e He) as [-> _]. apply end_new_inv.
  - intros ch e He. by apply (H ch e He).
Qed.

(** A turn of an end that leaves the link alone. *)
Lemma exporter_uart_step s log items ch f s' :
  exporter_inv s log items ->
  (forall e e' alive sent given, f e = Some e' -> up_inv alive e sent -> down_inv e given ->
    up_inv alive e' sent /\ down_inv e' given) ->
  Exporter.uart_step s ch f = Some s' -> exporter_inv s' log items.
Proof.
  intros [Hl He Hi] H. unfold Exporter.uart_step.
  destruct (Exporter.uarts s !! ch) as [e|] eqn:E; [|done]. cbn [mbind option_bind].
  destruct (f e) as [e'|] eqn:Ef; [|done]. intros [= <-].
  split; cbn [Exporter.usb Exporter.uarts]; [done| |];
    intros ch' e1; rewrite lookup_insert; case_decide as Ech; subst.
  - intros [= <-]. destruct (He _ _ E). by eapply H.
  - apply He.
  - intros _. by apply (Hi ch' e).
  - apply Hi.
Qed.

(** A UART's frame goes to the link. *)
Lemma exporter_uart_next s log items ch s' :
  exporter_inv s log items -> Exporter.running s = true ->
  Exporter.step s (Exporter.UartNext ch) = Some s' -> exists log', exporter_inv s' log' items.
Proof.
  intros [Hl He Hi] Hrun. unfold Exporter.step. rewrite Hrun. cbn [negb].
  destruct (Exporter.uarts s !! ch) as [e|] eqn:E; [|done]. cbn [mbind option_bind].
  destruct (end_next ch e (Exporter.usb s)) as [[e' u']|] eqn:Ee; [|done]. intros [= <-].
  destruct (He ch e E) as [Hu Hd].
  destruct (end_next_inv _ _ _ _ _ _ _ _ (Hi ch e E) Hu Hl Ee) as (more & Hl' & Ho & Hup & Hdown).
  exists (log ++ map (mkFrame ch) more). split; cbn [Exporter.usb Exporter.uarts]; [done| |].
  - intros ch' e1. rewrite lookup_insert, of_ch_app, of_ch_sent. case_decide as Ech.
    + subst ch'. intros [= <-]. rewrite bool_decide_true, Ho by done. auto.
    + intros E1. rewrite bool_decide_false, app_nil_r, Ho by done. by apply He.
  - intros ch' e1. rewrite lookup_insert. case_decide as Ech; [subst ch'; intros _; by apply (Hi ch e)|].
    apply Hi.
Qed.

(** A frame of the link goes to the UART of its channel. *)
Lemma exporter_usb_next s log items s' :
  exporter_inv s log items -> Exporter.running s = true ->
  Exporter.step s Exporter.UsbNext = Some s' -> exists items', exporter_inv s' log items'.
Proof.
  intros [Hl He Hi] Hrun. unfold Exporter.step. rewrite Hrun. cbn [negb].
  destruct (usb_next (Exporter.usb s)) as [[r u']|] eqn:E; [|done]. cbn [mbind option_bind].
  destruct (link_next _ _ _ _ _ Hl E) as [Hl' Eq]. destruct r as [tf|]; intros [= <-].
  - exists (items ++ [tf]). split; cbn [Exporter.usb Exporter.uarts]; [done| |];
      unfold Exporter.demux; intros ch e.
    + rewrite Eq, of_ch_app, of_ch_one. change (lc_ch tf) with (ch_id tf).
      destruct (Exporter.uarts s !! ch_id tf) as [e1|] eqn:E1.
      * rewrite lookup_insert. case_decide as Ech.
        -- subst ch. intros [= <-]. rewrite bool_decide_true by done.
           destruct (He _ _ E1). by apply end_send_inv.
        -- rewrite bool_decide_false, app_nil_r by done. apply He.
      * intros E2. rewrite bool_decide_false, app_nil_r by congruence. by apply He.
    + destruct (Exporter.uarts s !! ch_id tf) as [e1|] eqn:E1; [|apply Hi].
      rewrite lookup_insert. case_decide as Ech; [subst ch; intros _; by apply (Hi _ e1) | apply Hi].
  - exists items. rewrite app_nil_r in Hl'. split; cbn [Exporter.usb Exporter.uarts]; [done| |done].
    rewrite Eq. apply He.
Qed.

Lemma exporter_step s ev s' :
  (exists log items, exporter_inv s log items) -> Exporter.event_ok ev ->
  Exporter.step s ev = Some s' -> exists log items, exporter_inv s' log items.
Proof.
  intros (log & items & I) Hev E.
  assert (Exporter.running s = true) as Hrun.
  { unfold Exporter.step in E. by destruct (Exporter.running s). }
  destruct ev as [ch bytes|ch|ch|ch r|r|bytes| |];
    [..|destruct (exporter_usb_next _ _ _ _ I Hrun E) as [items' ?]; by exists log, items'|].
  2: destruct (exporter_uart_next _ _ _ _ _ I Hrun E) as [log' ?]; by exists log', items.
  all: unfold Exporter.step in E; rewrite Hrun in E; cbn [negb] in E; exists log, items.
  - eapply exporter_uart_step; [done| |exact E]. intros. by eapply end_read_inv.
  - eapply exporter_uart_step; [done| |exact E]. intros. by eapply end_eof_inv.
  - eapply exporter_uart_step; [done| |exact E]. intros. by eapply end_write_inv.
  - destruct (usb_write r (Exporter.usb s)) as [u'|] eqn:Eu; [|done]. injection E as <-.
    destruct I as [Hl He Hi]. destruct (link_write _ _ _ _ _ Hl Eu) as [Hl' Ho].
    split; cbn [Exporter.usb Exporter.uarts]; [done| |done].
    intros ch e E1. destruct (He ch e E1) as [Hu Hd]. split; [|done]. by eapply up_weaken.
  - injection E as <-. destruct I as [Hl He Hi].
    split; cbn [Exporter.usb Exporter.uarts]; [by apply link_read | done..].
  - injection E as <-. destruct I as [Hl He Hi]. by split.
Qed.

(** A task that fails stops nothing but itself: the program ends with the reader of
    the link only. *)
Lemma exporter_stops s ev s' :
  Exporter.step s ev = Some s' -> Exporter.running s' = false -> ev = Exporter.UsbEnd.
Proof.
  unfold Exporter.step. destruct (negb _); [done|].
  assert (forall ch f, Exporter.uart_step s ch f = Some s' -> Exporter.running s' = true) as Hu.
  { intros ch f. unfold Exporter.uart_step. destruct (Exporter.uarts s !! ch) as [e|]; [|done].
    cbn [mbind option_bind]. destruct (f e); [|done]. by intros [= <-]. }
  destruct ev as [ch bytes|ch|ch|ch r|r|bytes| |]; [..|done].
  1,3,4: intros E; apply Hu in E; congruence.
  - destruct (Exporter.uarts s !! ch) as [e|]; [|done]. cbn [mbind option_bind].
    destruct (end_next ch e (Exporter.usb s)) as [[e' u']|]; [|done]. by intros [= <-].
  - destruct (usb_write r (Exporter.usb s)); [|done]. by intros [= <-].
  - by intros [= <-].
  - destruct (usb_next (Exporter.usb s)) as [[[tf|] u']|]; [..|done]; by intros [= <-].
Qed.

Lemma exporter_run lp os dev specs evs s0 s :
  Forall (fun c => u8 (WindlassCli.ch_id c)) specs -> Forall Exporter.event_ok evs ->
  Exporter.start lp os dev specs = Some s0 -> run Exporter.step s0 evs = Some s ->
  exists log items, exporter_inv s log items.
Proof.
  intros Hs Hev E0 E.
  apply (run_invariant Exporter.step (fun s => exists log items, exporter_inv s log items)
    Exporter.event_ok s0 evs s); [|by eexists _, _; eapply exporter_start|done|done].
  intros ? ? ?. apply exporter_step.
Qed.

(** ** The host *)

Definition channel_inv (alive : bool) : Slots Endpoint -> list (nat * list Z) ->
    list (option nat * list Z) -> Prop := slots_inv (up_inv alive) down_inv.

Lemma channel_weaken (a b : bool) c log routed :
  (b = true -> a = true) -> channel_inv a c log routed -> channel_inv b c log routed.
Proof. intros Hab. apply slots_inv_impl. intros e sent. by apply up_weaken. Qed.

Lemma disconnect_inv alive c c' log routed :
  channel_inv alive c log routed -> Host.disconnect c = Some c' -> channel_inv alive c' log routed.
Proof.
  intros I. unfold Host.disconnect. destruct (slot c) as [i|]; [|done]. cbn [mbind option_bind].
  destruct (clients c !! i) as [e|]; [|done]. cbn [mbind option_bind].
  destruct (_ || _); [|done]. intros [= <-]. by apply slots_vacate.
Qed.

Lemma sock_drained_inv alive c c' log routed i :
  channel_inv alive c log routed -> Host.drained i c = Some c' -> channel_inv alive c' log routed.
Proof.
  intros I. unfold Host.drained. case_bool_decide; [done|].
  destruct (clients c !! i) as [e|] eqn:E; [|done]. cbn [mbind option_bind].
  destruct (queue (tx e)); [|done]. intros [= <-].
  eapply slots_quiet; [done..| |]; intros l Hl.
  - exact Hl.
  - by apply (writes_close id (tx e)).
Qed.

Record host_inv (s : Host.State) (log : list (nat * TunnelFrame))
    (routed : list (option nat * TunnelFrame)) : Prop := {
  h_link : link_inv (Host.usb s) (map snd log) (map snd routed);
  h_ids : forall ch c, Host.channels s !! ch = Some c -> u8 ch;
  h_channels : forall ch c, Host.channels s !! ch = Some c ->
    channel_inv (rx_open (usb_tx (Host.usb s))) c (on_ch ch log) (on_ch ch routed);
}.

Lemma host_start os bind dev specs s :
  Forall (fun c => u8 (WindlassCli.ch_id c)) specs ->
  Host.start os bind dev specs = Some s -> host_inv s [] [].
Proof.
  intros Hs. unfold Host.start. destruct (AsyncSerial.opens _ _ _); [|done].
  assert (forall bind chs chs',
    (forall ch c, chs !! ch = Some c -> c = no_clients /\ u8 ch) ->
    Host.bind_sockets bind specs chs = Some chs' ->
    forall ch c, chs' !! ch = Some c -> c = no_clients /\ u8 ch) as H.
  { clear bind. induction Hs as [|c specs Hc Hs IH]; intros bind chs chs' Hu; cbn [Host.bind_sockets];
      [by intros [= <-]|].
    destruct (Windlass.prepares _ && Windlass.binds _); [|done]. apply IH. intros ch c'.
    rewrite lookup_insert. case_decide as Ech; [intros [= <-]; by subst ch | apply Hu]. }
  destruct (Host.bind_sockets bind specs ∅) as [chs|] eqn:E; [|done]. cbn [mbind option_bind].
  intros [= <-]. specialize (H bind ∅ chs ltac:(intros ch c; by rewrite lookup_empty) E).
  split; cbn [Host.usb Host.channels map].
  - apply link_new.
  - intros ch c Hc. by apply (H ch c Hc).
  - intros ch c Hc. destruct (H ch c Hc) as [-> _].
    apply slots_new.
Qed.

(** A turn that changes one channel and leaves the link alone. *)
Lemma host_channel_step s log routed ch f s' :
  host_inv s log routed ->
  (forall c c' alive l r, f c = Some c' -> channel_inv alive c l r -> channel_inv alive c' l r) ->
  Host.channel_step s ch f = Some s' -> host_inv s' log routed.
Proof.
  intros [Hl Hi Hc] H. unfold Host.channel_step.
  destruct (Host.channels s !! ch) as [c|] eqn:E; [|done]. cbn [mbind option_bind].
  destruct (f c) as [c'|] eqn:Ef; [|done]. intros [= <-].
  split; cbn [Host.usb Host.channels]; [done| |];
    intros ch' c1; rewrite lookup_insert; case_decide as Ech; subst.
  - intros _. by apply (Hi _ c).
  - apply Hi.
  - intros [= <-]. by eapply H, Hc.
  - apply Hc.
Qed.

Lemma host_client_step s log routed ch i f s' :
  host_inv s log routed ->
  (forall e e' alive sent given, f e = Some e' -> up_inv alive e sent -> down_inv e given ->
    up_inv alive e' sent /\ down_inv e' given) ->
  Host.client_step s ch i f = Some s' -> host_inv s' log routed.
Proof.
  intros I H. apply host_channel_step; [done|]. intros c c' alive l r Ef Ic.
  destruct (clients c !! i) as [e|] eqn:Ei; [|done]. cbn [mbind option_bind] in Ef.
  destruct (f e) as [e'|] eqn:Ee; [|done]. injection Ef as <-.
  destruct (s_clients _ _ _ _ _ Ic i e Ei) as [Hu (_ & m & _ & _ & _ & _ & _ & Hd)].
  eapply slots_quiet; [done..| |]; intros l' Hl'; by eapply H.
Qed.

(** A client's frame goes to the link. *)
Lemma host_sock_next s log routed ch i s' :
  host_inv s log routed -> Host.running s = true ->
  Host.step s (Host.SockNext ch i) = Some s' -> exists log', host_inv s' log' routed.
Proof.
  intros [Hl Hi Hc] Hrun. unfold Host.step. rewrite Hrun. cbn [negb].
  destruct (Host.channels s !! ch) as [c|] eqn:E; [|done]. cbn [mbind option_bind].
  destruct (clients c !! i) as [e|] eqn:Ei; [|done]. cbn [mbind option_bind].
  destruct (end_next ch e (Host.usb s)) as [[e' u']|] eqn:Ee; [|done]. intros [= <-].
  pose proof (Hc ch c E) as Ic.
  destruct (s_clients _ _ _ _ _ Ic i e Ei) as [Hu (_ & m & _ & _ & _ & _ & _ & Hd)].
  destruct (end_next_inv _ _ _ _ _ _ _ _ (Hi ch c E) Hu Hl Ee)
    as (more & Hl' & Ho & Hup & Hdown).
  exists (log ++ map (pair i) (map (mkFrame ch) more)).
  split; cbn [Host.usb Host.channels].
  - by rewrite map_app, map_snd_pair.
  - intros ch' c1. rewrite lookup_insert. case_decide as Ech; [subst ch'; intros _; by apply (Hi ch c)|].
    apply Hi.
  - intros ch' c1. rewrite lookup_insert, on_ch_app, on_ch_sent, Ho. case_decide as Ech.
    + subst ch'. intros [= <-]. rewrite bool_decide_true by done.
      eapply slots_turn; [done..| |done]. exact Hup.
    + intros E1. rewrite bool_decide_false, app_nil_r by done. by apply Hc.
Qed.

(** A frame of the link goes to the client in the slot. *)
Lemma host_usb_next s log routed s' :
  host_inv s log routed -> Host.running s = true ->
  Host.step s Host.UsbNext = Some s' -> exists routed', host_inv s' log routed'.
Proof.
  intros [Hl Hi Hc] Hrun. unfold Host.step. rewrite Hrun. cbn [negb].
  destruct (usb_next (Host.usb s)) as [[r u']|] eqn:E; [|done]. cbn [mbind option_bind].
  destruct (link_next _ _ _ _ _ Hl E) as [Hl' Eq].
  destruct r as [tf|]; intros [= <-].
  - exists (routed ++ [(c ← Host.channels s !! ch_id tf; slot c, tf)]).
    split; cbn [Host.usb Host.channels].
    + by rewrite map_app.
    + intros ch c. unfold Host.demux.
      destruct (Host.channels s !! ch_id tf) as [c1|] eqn:E1; [|apply Hi].
      rewrite lookup_insert. case_decide as Ech; [subst ch; intros _; by apply (Hi _ c1) | apply Hi].
    + intros ch c. rewrite Eq, on_ch_app, on_ch_one. change (lc_ch tf) with (ch_id tf).
      unfold Host.demux. destruct (Host.channels s !! ch_id tf) as [c1|] eqn:E1.
      * cbn [mbind option_bind]. rewrite lookup_insert. case_decide as Ech.
        -- subst ch. intros [= <-]. rewrite bool_decide_true by done.
           apply slots_deliver; [by apply Hc | done|]. intros e given. apply (writes_send id).
        -- rewrite bool_decide_false, app_nil_r by done. apply Hc.
      * intros E2. rewrite bool_decide_false, app_nil_r by congruence. by apply Hc.
  - exists routed. rewrite app_nil_r in Hl'. split; cbn [Host.usb Host.channels]; [done|done|].
    rewrite Eq. apply Hc.
Qed.

Lemma host_step s ev s' :
  (exists log routed, host_inv s log routed) -> Host.event_ok ev ->
  Host.step s ev = Some s' -> exists log routed, host_inv s' log routed.
Proof.
  intros (log & routed & I) Hev E.
  assert (Host.running s = true) as Hrun.
  { unfold Host.step in E. by destruct (Host.running s). }
  destruct ev as [ch|ch i bytes|ch i|ch i|ch i r|ch i|ch|r|bytes| |];
    [..|destruct (host_usb_next _ _ _ _ I Hrun E) as [routed' ?]; by exists log, routed'|].
  3: destruct (host_sock_next _ _ _ _ _ _ I Hrun E) as [log' ?]; by exists log', routed.
  all: unfold Host.step in E; rewrite Hrun in E; cbn [negb] in E; exists log, routed.
  - eapply host_channel_step; [done| |exact E]. intros c c' alive l r Ec Ic.
    eapply slots_connect; [exact Ic | apply end_new_inv | apply (end_new_inv alive) | exact Ec].
  - eapply host_client_step; [done| |exact E]. intros. by eapply end_read_inv.
  - eapply host_client_step; [done| |exact E]. intros. by eapply end_eof_inv.
  - eapply host_client_step; [done| |exact E]. intros. by eapply end_write_inv.
  - eapply host_channel_step; [done| |exact E]. intros. by eapply sock_drained_inv.
  - eapply host_channel_step; [done| |exact E]. intros. by eapply disconnect_inv.
  - destruct (usb_write r (Host.usb s)) as [u'|] eqn:Eu; [|done]. injection E as <-.
    destruct I as [Hl Hi Hc]. destruct (link_write _ _ _ _ _ Hl Eu) as [Hl' Ho].
    split; cbn [Host.usb Host.channels]; [done..|]. intros ch c Ec.
    eapply channel_weaken; [exact Ho | by apply Hc].
  - injection E as <-. destruct I as [Hl Hi Hc].
    split; cbn [Host.usb Host.channels]; [by apply link_read | done..].
  - injection E as <-. destruct I as [Hl Hi Hc]. by split.
Qed.

Lemma host_states os bind dev specs evs s0 s :
  Forall (fun c => u8 (WindlassCli.ch_id c)) specs -> Forall Host.event_ok evs ->
  Host.start os bind dev specs = Some s0 -> run Host.step s0 evs = Some s ->
  exists log routed, host_inv s log routed.
Proof.
  intros Hs Hev E0 E.
  apply (run_invariant Host.step (fun s => exists log routed, host_inv s log routed)
    Host.event_ok s0 evs s); [|by eexists _, _; eapply host_start|done|done].
  intros ? ? ?. apply host_step.
Qed.

(** ** The two programs together *)

(** What an end has sent of what it has read. *)
Lemma up_prefix alive e sent :
  up_inv alive e sent ->
  exists fs d src, frames KlipperFramer.new (input e) = Some (fs, d, src) /\ sent `prefix_of` fs /\
    (alive = true -> idle (framer e) (rd_buf e) -> sent = fs).
Proof.
  intros (lost & Hd & Hl). destruct (decoding_prefix _ _ _ _ _ Hd) as (fs & d & src & E & Hp).
  exists fs, d, src. split; [done|]. split.
  - etransitivity; [|exact Hp]. by apply prefix_app_r.
  - intros Ha Hidle. rewrite (Hl Ha), app_nil_r in Hd.
    rewrite (decoding_done _ _ _ _ _ Hd Hidle) in E. by injection E.
Qed.

Lemma down_prefix e given given' :
  down_inv e given -> given `prefix_of` given' ->
  output e `prefix_of` concat given' /\
  (rx_open (tx e) = true -> queue (tx e) = [] -> output e = concat given).
Proof.
  intros [Hp Ho] Hg. rewrite !map_id in *. split.
  - etransitivity; [exact Hp|]. by apply concat_prefix.
  - intros Hopen Hq. specialize (Ho Hopen). rewrite Hq in Ho. cbn in Ho. by rewrite app_nil_r in Ho.
Qed.

(** C13: from Klipper to the MCU, over any interleaving of the tasks of both programs: a
    UART is written a beginning of the frames the clients of its channel sent, each
    client's frames unchanged and in order; and all of them once everything has been
    read and written and no task has failed. *)
Theorem klipper_to_mcu h x ch c e :
  Host.reachable h -> Exporter.reachable x ->
  usb_in (Exporter.usb x) `prefix_of` usb_out (Host.usb h) ->
  Host.channels h !! ch = Some c -> Exporter.uarts x !! ch = Some e ->
  exists log : list (nat * list Z),
    Forall (fun m => (m.1 < length (clients c))%nat) log /\
    output e `prefix_of` concat (map snd log) /\
    (forall i k, clients c !! i = Some k -> exists fs d src,
      frames KlipperFramer.new (input k) = Some (fs, d, src) /\ sent_by i log `prefix_of` fs /\
      (rx_open (usb_tx (Host.usb h)) = true -> idle (framer k) (rd_buf k) -> sent_by i log = fs)) /\
    (usb_in (Exporter.usb x) = usb_out (Host.usb h) ->
      rx_open (usb_tx (Host.usb h)) = true -> queue (usb_tx (Host.usb h)) = [] ->
      idle (D := unit) (Item := TunnelFrame) tt (usb_buf (Exporter.usb x)) ->
      rx_open (tx e) = true -> queue (tx e) = [] -> output e = concat (map snd log)).
Proof.
  intros (os & bind & dev & specs & evs & h0 & Hs & Eh0 & Hev & Eh)
    (lp' & os' & dev' & specs' & evs' & x0 & Hs' & Ex0 & Hev' & Ex) Hlink Ec Ee.
  destruct (host_states _ _ _ _ _ _ _ Hs Hev Eh0 Eh) as (log & routed & [Hl Hi Hc]).
  destruct (exporter_run _ _ _ _ _ _ _ Hs' Hev' Ex0 Ex) as (xlog & items & [Xl Xe Xi]).
  destruct (link_transfer _ _ _ _ _ _ Hl Xl Hlink) as [Hpre Heq].
  destruct (Xe ch e Ee) as [_ Hd]. destruct (Hc ch c Ec) as [_ Hlog _ Hends].
  exists (on_ch ch log). split_and!.
  - done.
  - rewrite <- of_ch_on_ch. eapply proj1, down_prefix; [exact Hd | by apply of_ch_prefix].
  - intros i k Ek. by apply (up_prefix _ k), (Hends i k Ek).
  - intros Hin Ho Hq Hidle Hto Htq. rewrite <- of_ch_on_ch, <- (Heq Hin Ho Hq Hidle).
    by eapply (proj2 (down_prefix e _ _ Hd ltac:(reflexivity))).
Qed.

(** C14: from the MCU to Klipper, over any interleaving of the tasks of both programs:
    every frame of a UART is given to one client of its channel at most, a client is
    given an unbroken run of them, up to the present while it is connected, and is
    written a beginning of that run, unchanged and in order, all of it once its queue
    is empty and its writer has not failed. *)
Theorem mcu_to_klipper h x ch c e :
  Host.reachable h -> Exporter.reachable x ->
  usb_in (Host.usb h) `prefix_of` usb_out (Exporter.usb x) ->
  Host.channels h !! ch = Some c -> Exporter.uarts x !! ch = Some e ->
  exists fs d src routed,
    frames KlipperFramer.new (input e) = Some (fs, d, src) /\
    map snd routed `prefix_of` fs /\
    (forall i k, clients c !! i = Some k -> exists before mine after,
      routed = before ++ mine ++ after /\
      Forall (fun m => m.1 = Some i) mine /\ Forall (fun m => m.1 <> Some i) (before ++ after) /\
      (slot c = Some i -> after = []) /\
      output k `prefix_of` concat (map snd mine) /\
      (rx_open (tx k) = true -> queue (tx k) = [] -> output k = concat (map snd mine))) /\
    (usb_in (Host.usb h) = usb_out (Exporter.usb x) ->
      rx_open (usb_tx (Exporter.usb x)) = true -> queue (usb_tx (Exporter.usb x)) = [] ->
      idle (D := unit) (Item := TunnelFrame) tt (usb_buf (Host.usb h)) ->
      idle (framer e) (rd_buf e) -> map snd routed = fs).
Proof.
  intros (os & bind & dev & specs & evs & h0 & Hs & Eh0 & Hev & Eh)
    (lp' & os' & dev' & specs' & evs' & x0 & Hs' & Ex0 & Hev' & Ex) Hlink Ec Ee.
  destruct (host_states _ _ _ _ _ _ _ Hs Hev Eh0 Eh) as (log & routed & [Hl Hi Hc]).
  destruct (exporter_run _ _ _ _ _ _ _ Hs' Hev' Ex0 Ex) as (xlog & items & [Xl Xe Xi]).
  destruct (link_transfer _ _ _ _ _ _ Xl Hl Hlink) as [Hpre Heq].
  destruct (Xe ch e Ee) as [Hu _]. destruct (Hc ch c Ec) as [_ _ _ Hends].
  destruct (up_prefix _ e _ Hu) as (fs & d & src & Ef & Hfs & Hall).
  exists fs, d, src, (on_ch ch routed). split_and!.
  - done.
  - rewrite <- of_ch_on_ch. etransitivity; [by apply of_ch_prefix | done].
  - intros i k Ek. destruct (Hends i k Ek) as [_ (b & m & a & E & Hm & Hba & Hnow & Hd)].
    destruct (down_prefix k (map snd m) (map snd m) Hd) as [Hp Ho]; [done|].
    exists b, m, a. split_and!; try done. intros Es. apply Hnow. by apply bool_decide_eq_true.
  - intros Hin Ho Hq Hidle Hie. rewrite <- of_ch_on_ch, (Heq Hin Ho Hq Hidle). by apply Hall.
Qed.

End Transparent.

(** ** A concrete run of both *)

Definition no_host : Host.State := Host.mkState ∅ usb_new false.
Definition no_exporter : Exporter.State := Exporter.mkState ∅ usb_new false.

Definition specs : list WindlassCli.McuSpec := [WindlassCli.mkSpec 3 "/dev/ttyS7" 230400].

(** A client connects, sends a frame and is given one; a second frame finds no
    client. *)
Definition host_events : list Host.Event :=
  [Host.Accept 3; Host.SockRead 3 0 (0x7E :: frame_a); Host.SockNext 3 0; Host.SockNext 3 0;
   Host.UsbWrite Written; Host.UsbRead (3 :: frame_b ++ 3 :: frame_a); Host.UsbNext;
   Host.SockWrite 3 0 Written; Host.SockEnd 3 0; Host.Disconnect 3; Host.UsbNext; Host.UsbNext].

Definition exporter_events : list Exporter.Event :=
  [Exporter.UartRead 3 (0x7E :: frame_b); Exporter.UartNext 3;
   Exporter.UartRead 3 frame_a; Exporter.UartNext 3; Exporter.UartNext 3;
   Exporter.UsbWrite Written; Exporter.UsbWrite Written;
   Exporter.UsbRead (3 :: frame_a); Exporter.UsbNext; Exporter.UsbNext;
   Exporter.UartWrite 3 Written].

Definition port : AsyncSerial.PortSys := AsyncSerialProofs.granting_port 3.

(** A stale socket of a previous run is in the way. *)
Definition socket : Windlass.SocketSys :=
  Windlass.mkSocket true (Windlass.mkSocketFs (Some Windlass.Socket) None None None) (Ok tt).

Definition host_end : Host.State :=
  default no_host (s ← Host.start port (fun _ => socket) "/dev/ttyGS0" specs; run Host.step s host_events).

Definition exporter_end : Exporter.State :=
  default no_exporter (s ← Exporter.start port (fun _ => port) "/dev/ttyACM0" specs; run Exporter.step s exporter_events).

Lemma specs_ok : Forall (fun c => u8 (WindlassCli.ch_id c)) specs.
Proof. apply Forall_singleton. unfold u8. cbn. lia. Qed.

Lemma host_end_reachable : Host.reachable host_end.
Proof.
  exists port, (fun _ => socket), "/dev/ttyGS0"%string, specs, host_events.
  eexists. split; [exact specs_ok|]. split; [reflexivity|]. split; [|reflexivity].
  repeat apply Forall_cons_2; try apply Forall_nil_2; try done;
    unfold Host.event_ok, frame_a, frame_b; cbn [app]; solve_bytes.
Qed.

Lemma exporter_end_reachable : Exporter.reachable exporter_end.
Proof.
  exists port, (fun _ => port), "/dev/ttyACM0"%string, specs, exporter_events.
  eexists. split; [exact specs_ok|]. split; [reflexivity|]. split; [|reflexivity].
  repeat apply Forall_cons_2; try apply Forall_nil_2; try done;
    unfold Exporter.event_ok, frame_a, frame_b; cbn [app]; solve_bytes.
Qed.

Definition channel_end : Slots Endpoint := default no_clients (Host.channels host_end !! 3).
Definition uart_end : Endpoint := default endpoint_new (Exporter.uarts exporter_end !! 3).

Lemma klipper_to_mcu_witness :
  exists log, frame_a = concat (map snd log) /\ sent_by 0 log = [frame_a].
Proof.
  destruct (klipper_to_mcu host_end exporter_end 3 channel_end uart_end) as (log & _ & _ & Hs & Ha);
    [exact host_end_reachable | exact exporter_end_reachable | exists []; vm_compute; reflexivity
    | vm_compute; reflexivity | vm_compute; reflexivity|].
  exists log. split; [apply Ha; vm_compute; reflexivity|].
  destruct (clients channel_end !! 0%nat) as [k|] eqn:Ek; [|vm_compute in Ek; discriminate].
  destruct (Hs 0%nat k Ek) as (fs & d & src & Ef & _ & Hall).
  vm_compute in Ek. injection Ek as <-. rewrite Hall by (vm_compute; reflexivity).
  vm_compute in Ef. by injection Ef as <- _ _.
Defined.

Lemma mcu_to_klipper_witness :
  exists routed : list (option nat * list Z), map snd routed = [frame_b; frame_a].
Proof.
  destruct (mcu_to_klipper host_end exporter_end 3 channel_end uart_end)
    as (fs & d & src & routed & Ef & _ & _ & Ha);
    [exact host_end_reachable | exact exporter_end_reachable | exists []; vm_compute; reflexivity
    | vm_compute; reflexivity | vm_compute; reflexivity|].
  exists routed. rewrite Ha by (vm_compute; reflexivity). vm_compute in Ef. by injection Ef as <- _ _.
Defined.

End TransparentProofs.
