(* ===== verification/SmartRelay.v ===== *)
(** * The smart proxy ([windlass/smart_exporter.rs], [windlass/smart_host.rs])

    The exporter ends Klipper's transport session with each MCU and the host plays
    the MCU towards Klipper; payloads cross the link.  The transport of the exporter
    is a third party, of which the schedule says what it delivers and accepts; that
    of the host is the class [Anchor]. *)
From Stdlib Require Import ZArith Lia String.
From stdpp Require Import base option numbers list gmap.
From S2P Require Import Prelude Mpsc Framing AsyncPort Discovery Dictionary Relay Slots WindlassCli Transparent.

Local Open Scope Z_scope.

Module SmartExporterTasks.
Import PayloadTunnelCodec AsyncSerial.

Section Exporter.
Context `{Mpsc}.

(** An MCU: the task that forwards its payloads, the queue of the task that sends it
    commands, and, for the statements, what it has sent and was sent so far. *)
Record Mcu := mkMcu {
  forwarding : bool;
  cmd_tx : mpsc (list Z);
  from_mcu : list (list Z);
  to_mcu : list (list Z);
}.

Definition mcu_new : Mcu := mkMcu true mpsc_new [] [].

(** [waiting] are the channels still to be started, one after the other; [fetched]
    the dictionaries of the others. *)
Record State := mkState {
  waiting : list WindlassCli.McuSpec;
  mcus : gmap Z Mcu;
  fetched : gmap Z (list Z);
  usb : Usb PayloadTunnelFrame;
  running : bool;
}.

Inductive Event :=
  | StartChannel (opened : PortSys) (dictionary : option (list Z)) (reopened : PortSys)
  | McuPayload (ch : Z) (payload : list Z)
  | McuClosed (ch : Z)
  | McuSend (ch : Z) (ok : bool)
  | UsbWrite (r : WriteRes)
  | UsbRead (bytes : list Z)
  | UsbNext
  | UsbEnd.

Definition start (link_port : PortSys) (link_device : string)
    (channels : list WindlassCli.McuSpec) : option State :=
  if opens link_port link_device 0 then Some (mkState channels ∅ ∅ usb_new true) else None.

(** The error that ends the program. *)
Definition fail (s : State) : State := mkState (waiting s) (mcus s) (fetched s) (usb s) false.

(** The UART is opened, the dictionary fetched, the UART opened again, the dictionary
    sent to the host, and the tasks of the channel started. *)
Definition start_channel (opened : PortSys) (dictionary : option (list Z)) (reopened : PortSys) (s : State)
  : option State :=
  match waiting s with
  | [] => None
  | ch :: rest =>
      if negb (opens opened (WindlassCli.path ch) (WindlassCli.baud ch)) then Some (fail s)
      else
        match dictionary with
        | None => Some (fail s)
        | Some dictionary =>
            if negb (opens reopened (WindlassCli.path ch) (WindlassCli.baud ch)) then Some (fail s)
            else
              let u := usb s in
              let ch_id := WindlassCli.ch_id ch in
              let '(q, ok) := SmartExporter.send_dictionary (usb_tx u) ch_id dictionary in
              let u := mkUsb q (usb_buf u) (usb_in u) (usb_out u) in
              if ok
              then Some (mkState rest (<[ch_id := mcu_new]> (mcus s))
                           (<[ch_id := dictionary]> (fetched s)) u true)
              else Some (fail (mkState (waiting s) (mcus s) (fetched s) u true))
        end
  end.

(** A turn of the task from the MCU to the link. *)
Definition mcu_payload (ch : Z) (payload : list Z) (m : Mcu) (u : Usb PayloadTunnelFrame)
  : option (Mcu * Usb PayloadTunnelFrame) :=
  if forwarding m then
    let '(u, ok) := usb_send (mkFrame ch payload) u in
    Some (mkMcu ok (cmd_tx m) (from_mcu m ++ [payload]) (to_mcu m), u)
  else None.

(** The transport reports an error, or that it is closed. *)
Definition mcu_closed (m : Mcu) : option Mcu :=
  if forwarding m then Some (mkMcu false (cmd_tx m) (from_mcu m) (to_mcu m)) else None.

(** A turn of the task from the link to the MCU, which ends when the transport fails. *)
Definition mcu_send (ok : bool) (m : Mcu) : option Mcu :=
  '(payload, q) ← recv (cmd_tx m);
  if ok then Some (mkMcu (forwarding m) q (from_mcu m) (to_mcu m ++ [payload]))
  else Some (mkMcu (forwarding m) (close q) (from_mcu m) (to_mcu m)).

(** The demultiplexer: control frames and frames for channels that are not there are
    dropped. *)
Definition demux (pf : PayloadTunnelFrame) (mcus : gmap Z Mcu) : gmap Z Mcu :=
  if ch_id pf =? CTRL_CH then mcus
  else
    match mcus !! ch_id pf with
    | Some m =>
        <[ch_id pf := mkMcu (forwarding m) (send (cmd_tx m) (payload pf)).1 (from_mcu m) (to_mcu m)]> mcus
    | None => mcus
    end.

Definition mcu_step (s : State) (ch : Z) (f : Mcu -> option Mcu) : option State :=
  m ← mcus s !! ch; m ← f m;
  Some (mkState (waiting s) (<[ch := m]> (mcus s)) (fetched s) (usb s) true).

(** The tasks of the link are started after the channels. *)
Definition link_step (s : State) (f : State -> option State) : option State :=
  match waiting s with [] => f s | _ => None end.

Definition step (s : State) (ev : Event) : option State :=
  if negb (running s) then None
  else
    match ev with
    | StartChannel opened dictionary reopened => start_channel opened dictionary reopened s
    | McuPayload ch payload =>
        m ← mcus s !! ch; '(m, u) ← mcu_payload ch payload m (usb s);
        Some (mkState (waiting s) (<[ch := m]> (mcus s)) (fetched s) u true)
    | McuClosed ch => mcu_step s ch mcu_closed
    | McuSend ch ok => mcu_step s ch (mcu_send ok)
    | UsbWrite r =>
        link_step s (fun s => u ← usb_write r (usb s);
          Some (mkState (waiting s) (mcus s) (fetched s) u true))
    | UsbRead bytes =>
        link_step s (fun s =>
          Some (mkState (waiting s) (mcus s) (fetched s) (usb_read bytes (usb s)) true))
    | UsbNext =>
        link_step s (fun s => '(r, u) ← usb_next (usb s);
          match r with
          | Some pf => Some (mkState (waiting s) (demux pf (mcus s)) (fetched s) u true)
          | None => Some (mkState (waiting s) (mcus s) (fetched s) u true)
          end)
    | UsbEnd => link_step s (fun s => Some (fail s))
    end.

(** Bytes are bytes, and a Klipper message has at most [MESSAGE_PAYLOAD_MAX] bytes
    between its header and its trailer. *)
Definition MESSAGE_PAYLOAD_MAX : Z := MESSAGE_LENGTH_MAX - MESSAGE_LENGTH_MIN.

Definition message (payload : list Z) : Prop :=
  bytes_ok payload /\ zlen payload <= MESSAGE_PAYLOAD_MAX.

Definition event_ok (ev : Event) : Prop :=
  match ev with
  | StartChannel _ (Some dictionary) _ => bytes_ok dictionary
  | McuPayload _ payload => message payload
  | UsbRead bytes => bytes_ok bytes
  | _ => True
  end.

(** The channels are those the command line admits. *)
Definition reachable (s : State) : Prop :=
  exists link_port link_device channels evs s0,
    Forall (fun c => 0 <= WindlassCli.ch_id c < CTRL_CH) channels /\
    NoDup (map WindlassCli.ch_id channels) /\
    start link_port link_device channels = Some s0 /\
    Forall event_ok evs /\ run step s0 evs = Some s.

End Exporter.

End SmartExporterTasks.

Module SmartHostTasks.
Import PayloadTunnelCodec SmartHost AsyncSerial.

(** The virtual MCU's transport: [receive] gives the new state, the bytes it leaves,
    the frames it hands to [dispatch_raw] and what it outputs; [encode_frame] wraps a
    payload for Klipper. *)
Class Anchor := {
  VTransport : Type;
  anchor_new : VTransport;
  receive : VTransport -> list Z -> VTransport * list Z * list (list Z) * list (list Z);
  encode_frame : VTransport -> list Z -> VTransport * list (list Z);
}.

(** The frames it hands over are the contents of Klipper messages. *)
Class AnchorLaws `{Anchor} := {
  receive_messages t buf : bytes_ok buf ->
    let '(_, buf', calls, _) := receive t buf in
    bytes_ok buf' /\ Forall SmartExporterTasks.message calls;
}.

Section Host.
Context `{Mpsc} `{Vlq} `{Anchor}.

(** A connection: its transport and input buffer, whether its relay loop runs, the
    queues of its tasks, what Klipper was written, and, for the statements, the frames
    dispatched and the payloads relayed so far. *)
Record Client := mkClient {
  transport : VTransport;
  input_buf : list Z;
  relaying : bool;
  to_klipper : mpsc (list Z);
  from_mcu : mpsc (list Z);
  to_exporter : mpsc (list Z);
  sock_out : list Z;
  calls : list (list Z);
  relayed : list (list Z);
  sent : list (list Z);
}.

Definition client_new : Client :=
  mkClient anchor_new [] true mpsc_new mpsc_new mpsc_new [] [] [] [].

(** [dict] is what the accept task waits for. *)
Record Channel := mkChannel { dict : option (list Z); conns : Slots Client }.

Record State := mkState {
  channels : gmap Z Channel;
  ctrl_tx : mpsc (list Z);
  gatherer : Gatherer;
  usb : Usb PayloadTunnelFrame;
  running : bool;
}.

Inductive Event :=
  | DictReady (ch : Z)
  | Accept (ch : Z)
  | KlipperBytes (ch : Z) (i : nat) (bytes : list Z)
  | McuPayload (ch : Z) (i : nat)
  | KlipperWrite (ch : Z) (i : nat) (r : WriteRes)
  | Forward (ch : Z) (i : nat)
  | Disconnect (ch : Z)
  | Gather
  | UsbWrite (r : WriteRes)
  | UsbRead (bytes : list Z)
  | UsbNext
  | UsbEnd.

(** Every socket's path is prepared, the [k]-th with the answers [sockets k], before
    any is bound. *)
Fixpoint prepare_sockets (sockets : nat -> Windlass.SocketSys) (specs : list WindlassCli.McuSpec)
  : bool :=
  match specs with
  | [] => true
  | _ :: specs =>
      Windlass.prepares (sockets O) && prepare_sockets (fun k => sockets (S k)) specs
  end.

(** A watch per channel, nothing published yet. *)
Definition watches (specs : list WindlassCli.McuSpec) : gmap Z (option (list Z)) :=
  foldl (fun w ch => <[WindlassCli.ch_id ch := None]> w) ∅ specs.

(** [None] is the error of a [bind], or the panic of a channel without its receiver. *)
Fixpoint bind_sockets (sockets : nat -> Windlass.SocketSys) (dict_rxs : gmap Z (option (list Z)))
    (specs : list WindlassCli.McuSpec) (channels : gmap Z Channel) : option (gmap Z Channel) :=
  match specs with
  | [] => Some channels
  | ch :: specs =>
      let id := WindlassCli.ch_id ch in
      if Windlass.binds (sockets O) then
        _ ← dict_rxs !! id;
        bind_sockets (fun k => sockets (S k)) (delete id dict_rxs) specs
          (<[id := mkChannel None no_clients]> channels)
      else None
  end.

Definition start (link_port : PortSys) (sockets : nat -> Windlass.SocketSys)
    (link_device : string) (specs : list WindlassCli.McuSpec) : option State :=
  if opens link_port link_device 0 && prepare_sockets sockets specs then
    channels ← bind_sockets sockets (watches specs) specs ∅;
    Some (mkState channels mpsc_new (gatherer_new (watches specs)) usb_new true)
  else None.

(** [ChannelOutput::output]: empty buffers are not sent, errors are ignored. *)
Definition channel_output (bufs : list (list Z)) (q : mpsc (list Z)) : mpsc (list Z) :=
  foldl (fun q buf => if is_empty buf then q else (send q buf).1) q bufs.

Fixpoint encode_all (ps : list (list Z)) (t : VTransport) (q : mpsc (list Z))
  : VTransport * mpsc (list Z) :=
  match ps with
  | [] => (t, q)
  | p :: ps => let '(t, outs) := encode_frame t p in encode_all ps t (channel_output outs q)
  end.

Fixpoint dispatch_calls (fs : list (list Z)) (ctx : ProxyContext) : option ProxyContext :=
  match fs with
  | [] => Some ctx
  | f :: fs => '(_, _, ctx) ← dispatch_raw f ctx; dispatch_calls fs ctx
  end.

(** Bytes from the Klipper socket, in the relay loop. *)
Definition klipper_bytes (dictionary bytes : list Z) (c : Client) : option Client :=
  if relaying c && negb (is_empty bytes) then
    let '(t, buf, fs, outs) := receive (transport c) (input_buf c ++ bytes) in
    ctx ← dispatch_calls fs (mkCtx dictionary (to_exporter c) []);
    let '(t, q) := encode_all (pending_responses ctx) t (channel_output outs (to_klipper c)) in
    Some (mkClient t buf true q (from_mcu c) (SmartHost.to_exporter ctx) (sock_out c)
            (calls c ++ fs) (relayed c) (sent c))
  else None.

(** A payload of the MCU, in the relay loop. *)
Definition mcu_payload (c : Client) : option Client :=
  if relaying c then
    '(p, q) ← recv (from_mcu c);
    let '(t, out) := encode_all [p] (transport c) (to_klipper c) in
    Some (mkClient t (input_buf c) true out q (to_exporter c) (sock_out c)
            (calls c) (relayed c ++ [p]) (sent c))
  else None.

(** A turn of the task that writes to Klipper. *)
Definition klipper_write (r : WriteRes) (c : Client) : option Client :=
  '(bytes, q) ← recv (to_klipper c);
  Some (mkClient (transport c) (input_buf c) (relaying c) (after_write r q) (from_mcu c)
          (to_exporter c) (sock_out c ++ written_part r bytes) (calls c) (relayed c) (sent c)).

(** A turn of the task that forwards commands to the link. *)
Definition forward (ch : Z) (c : Client) (u : Usb PayloadTunnelFrame)
  : option (Client * Usb PayloadTunnelFrame) :=
  '(p, q) ← recv (to_exporter c);
  let '(u, ok) := usb_send (mkFrame ch p) u in
  Some (mkClient (transport c) (input_buf c) (relaying c) (to_klipper c) (from_mcu c)
          (if ok then q else close q) (sock_out c) (calls c) (relayed c)
          (sent c ++ if ok then [p] else []), u).

(** The relay loop ends: the tasks are aborted, the queues go. *)
Definition client_end (c : Client) : Client :=
  mkClient (transport c) (input_buf c) false (close (to_klipper c)) (close (from_mcu c))
    (close (to_exporter c)) (sock_out c) (calls c) (relayed c) (sent c).

Definition disconnect (s : Slots Client) : option (Slots Client) :=
  i ← slot s; c ← clients s !! i;
  if relaying c then Some (vacate (set_client i (client_end c) s)) else None.

(** The send of the demultiplexer to the client in the slot. *)
Definition client_deliver (p : list Z) (c : Client) : Client :=
  mkClient (transport c) (input_buf c) (relaying c) (to_klipper c) (send (from_mcu c) p).1
    (to_exporter c) (sock_out c) (calls c) (relayed c) (sent c).

Definition demux (pf : PayloadTunnelFrame) (s : State) : State :=
  if ch_id pf =? CTRL_CH then
    mkState (channels s) (send (ctrl_tx s) (payload pf)).1 (gatherer s) (usb s) true
  else
    match channels s !! ch_id pf with
    | Some c =>
        mkState (<[ch_id pf := mkChannel (dict c) (deliver (client_deliver (payload pf)) (conns c))]>
                   (channels s)) (ctrl_tx s) (gatherer s) (usb s) true
    | None => s
    end.

Definition channel_step (s : State) (ch : Z) (f : Channel -> option Channel) : option State :=
  c ← channels s !! ch; c ← f c;
  Some (mkState (<[ch := c]> (channels s)) (ctrl_tx s) (gatherer s) (usb s) true).

Definition conns_step (s : State) (ch : Z) (f : Slots Client -> option (Slots Client)) : option State :=
  channel_step s ch (fun c => k ← f (conns c); Some (mkChannel (dict c) k)).

Definition client_step (s : State) (ch : Z) (i : nat) (f : Client -> option Client) : option State :=
  conns_step s ch (fun k => c ← clients k !! i; c ← f c; Some (set_client i c k)).

Definition step (s : State) (ev : Event) : option State :=
  if negb (running s) then None
  else
    match ev with
    | DictReady ch =>
        channel_step s ch (fun c =>
          match dict c, watch_txs (gatherer s) !! ch with
          | None, Some (Some d) => Some (mkChannel (Some d) (conns c))
          | _, _ => None
          end)
    | Accept ch =>
        channel_step s ch (fun c =>
          _ ← dict c; k ← connect client_new (conns c); Some (mkChannel (dict c) k))
    | KlipperBytes ch i bytes =>
        channel_step s ch (fun c =>
          d ← dict c; cl ← clients (conns c) !! i; cl ← klipper_bytes d bytes cl;
          Some (mkChannel (dict c) (set_client i cl (conns c))))
    | McuPayload ch i => client_step s ch i mcu_payload
    | KlipperWrite ch i r => client_step s ch i (klipper_write r)
    | Forward ch i =>
        c ← channels s !! ch; cl ← clients (conns c) !! i; '(cl, u) ← forward ch cl (usb s);
        Some (mkState (<[ch := mkChannel (dict c) (set_client i cl (conns c))]> (channels s))
                (ctrl_tx s) (gatherer s) u true)
    | Disconnect ch => conns_step s ch disconnect
    | Gather =>
        '(p, q) ← recv (ctrl_tx s); g ← gather_payload (gatherer s) p;
        Some (mkState (channels s) q g (usb s) true)
    | UsbWrite r =>
        u ← usb_write r (usb s); Some (mkState (channels s) (ctrl_tx s) (gatherer s) u true)
    | UsbRead bytes =>
        Some (mkState (channels s) (ctrl_tx s) (gatherer s) (usb_read bytes (usb s)) true)
    | UsbNext =>
        '(r, u) ← usb_next (usb s);
        let s := mkState (channels s) (ctrl_tx s) (gatherer s) u true in
        match r with Some pf => Some (demux pf s) | None => Some s end
    | UsbEnd => Some (mkState (channels s) (ctrl_tx s) (gatherer s) (usb s) false)
    end.

Definition event_ok (ev : Event) : Prop :=
  match ev with KlipperBytes _ _ bytes | UsbRead bytes => bytes_ok bytes | _ => True end.

Definition reachable (s : State) : Prop :=
  exists link_port sockets link_device specs evs s0,
    Forall (fun c => 0 <= WindlassCli.ch_id c < CTRL_CH) specs /\
    start link_port sockets link_device specs = Some s0 /\
    Forall event_ok evs /\ run step s0 evs = Some s.

End Host.

End SmartHostTasks.

Module SmartProofs.
Import FramingProofs RelayProofs SlotsProofs DictionaryProofs PayloadTunnelCodec SmartHost.

Section Smart.
Context {MQ : Mpsc} {ML : MpscLaws}.

(** ** The control frames among the others *)

Lemma ctrl_payloads_app l1 l2 : ctrl_payloads (l1 ++ l2) = ctrl_payloads l1 ++ ctrl_payloads l2.
Proof. unfold ctrl_payloads. by rewrite filter_app, map_app. Qed.

Lemma ctrl_payloads_frames ms : ctrl_payloads (map ctrl_frame ms) = ms.
Proof.
  unfold ctrl_payloads. induction ms as [|m ms IH]; [done|]. cbn [map].
  rewrite filter_cons_True by done. cbn [map payload ctrl_frame]. by rewrite IH.
Qed.

Lemma ctrl_payloads_one pf :
  ctrl_payloads [pf] = if bool_decide (ch_id pf = CTRL_CH) then [payload pf] else [].
Proof.
  unfold ctrl_payloads. case_bool_decide as E; [by rewrite filter_cons_True | by rewrite filter_cons_False].
Qed.

Lemma ctrl_payloads_prefix l1 l2 :
  l1 `prefix_of` l2 -> ctrl_payloads l1 `prefix_of` ctrl_payloads l2.
Proof. intros [l ->]. rewrite ctrl_payloads_app. by apply prefix_app_r. Qed.

Lemma u8_ctrl : u8 CTRL_CH.
Proof. unfold u8, CTRL_CH. lia. Qed.

Lemma of_ch_ctrl ch ms : ch <> CTRL_CH -> of_ch ch (map ctrl_frame ms) = [].
Proof.
  intros Hch. rewrite (of_ch_same CTRL_CH); [by rewrite bool_decide_false|].
  by apply Forall_map, Forall_forall.
Qed.

Lemma filter_messages c c' d :
  filter (for_channel c) (dict_messages c' d) = if bool_decide (c' = c) then dict_messages c' d else [].
Proof.
  pose proof (dict_messages_for c' d) as Hf. revert Hf. generalize (dict_messages c' d) as ms.
  intros ms Hf. case_bool_decide as E; induction Hf as [|m ms Hm _ IH]; try done; unfold for_channel in *.
  - rewrite filter_cons_True by congruence. by rewrite IH.
  - by rewrite filter_cons_False by congruence.
Qed.

(** ** The exporter *)

(** What an MCU's tasks have done: [up] with what the link has of its payloads,
    [down] with what the link gave it. *)
Definition mcu_up (alive : bool) (m : SmartExporterTasks.Mcu) (up : list (list Z)) : Prop :=
  exists lost, SmartExporterTasks.from_mcu m = up ++ lost /\ (alive = true -> lost = []).

Definition mcu_down (m : SmartExporterTasks.Mcu) (down : list (list Z)) : Prop :=
  writes one (SmartExporterTasks.cmd_tx m) (SmartExporterTasks.to_mcu m) down.

Record sx_inv (s : SmartExporterTasks.State) (log items : list PayloadTunnelFrame) : Prop := {
  sx_link : link_inv (SmartExporterTasks.usb s) log items;
  sx_mcus : forall ch m, SmartExporterTasks.mcus s !! ch = Some m -> 0 <= ch < CTRL_CH /\
    mcu_up (rx_open (usb_tx (SmartExporterTasks.usb s))) m (of_ch ch log) /\
    mcu_down m (of_ch ch items);
  sx_rest : forall ch, ch <> CTRL_CH -> SmartExporterTasks.mcus s !! ch = None -> of_ch ch log = [];
  sx_ctrl : forall c, filter (for_channel c) (ctrl_payloads log) =
    match SmartExporterTasks.fetched s !! c with Some d => dict_messages c d | None => [] end;
  sx_fetched : forall c d, SmartExporterTasks.fetched s !! c = Some d -> bytes_ok d;
  sx_ids : Forall (fun c => 0 <= WindlassCli.ch_id c < CTRL_CH /\
    SmartExporterTasks.mcus s !! WindlassCli.ch_id c = None /\
    SmartExporterTasks.fetched s !! WindlassCli.ch_id c = None) (SmartExporterTasks.waiting s) /\
    NoDup (map WindlassCli.ch_id (SmartExporterTasks.waiting s));
  sx_waiting : SmartExporterTasks.waiting s <> [] ->
    items = [] /\ rx_open (usb_tx (SmartExporterTasks.usb s)) = true;
}.

(** Several items sent at once. *)
Lemma link_send_many (q' : mpsc PayloadTunnelFrame) u log items more :
  Forall lc_good more -> link_inv u log items ->
  rx_open (usb_tx u) = true -> queue q' = queue (usb_tx u) ++ more ->
  link_inv (mkUsb q' (usb_buf u) (usb_in u) (usb_out u)) (log ++ more) items.
Proof.
  intros Hm ([Hp Ho] & Hl & Hd) Hopen Eq. split; [|split; [by apply Forall_app | done]].
  cbn [usb_tx usb_out]. split.
  - rewrite map_app, concat_app. by apply prefix_app_r.
  - intros _. rewrite Eq, !map_app, !concat_app, app_assoc. by rewrite Ho.
Qed.

Lemma message_good ch p :
  0 <= ch < CTRL_CH -> SmartExporterTasks.message p -> lc_good (mkFrame ch p).
Proof.
  unfold CTRL_CH, SmartExporterTasks.message, SmartExporterTasks.MESSAGE_PAYLOAD_MAX,
    MESSAGE_LENGTH_MAX, MESSAGE_LENGTH_MIN.
  intros Hch [Hb Hl]. split; [split; [unfold u8; cbn; lia | done] | cbn; lia].
Qed.

Lemma sx_start_channel s log items opened dict reopened s' :
  sx_inv s log items -> SmartExporterTasks.event_ok (SmartExporterTasks.StartChannel opened dict reopened) ->
  SmartExporterTasks.start_channel opened dict reopened s = Some s' ->
  exists log', sx_inv s' log' items.
Proof.
  intros I Hev. unfold SmartExporterTasks.start_channel.
  assert (forall s0, sx_inv s0 log items -> exists log', sx_inv (SmartExporterTasks.fail s0) log' items)
    as Hfail.
  { intros s0 [? ? ? ? ? ? ?]. exists log. by split. }
  destruct (SmartExporterTasks.waiting s) as [|c rest] eqn:Ew; [done|].
  destruct (negb (AsyncSerial.opens opened _ _)); [intros [= <-]; by apply Hfail|].
  destruct dict as [d|]; [|intros [= <-]; by apply Hfail].
  destruct (negb (AsyncSerial.opens reopened _ _)); [intros [= <-]; by apply Hfail|]. cbn in Hev.
  destruct I as [Hl Hm Hr Hc Hf [Hi Hn] Hw]. rewrite Ew in *.
  destruct (Hw ltac:(done)) as [-> Hopen].
  apply Forall_cons in Hi as [(Hid & Hnm & Hnf) Hi]. cbn [map] in Hn. apply NoDup_cons in Hn as [Hnot Hn].
  set (id := WindlassCli.ch_id c) in *.
  pose proof (send_dictionary_open _ id d Hopen) as Hsd.
  destruct (SmartExporter.send_dictionary _ id d) as [q ok]. destruct Hsd as (-> & Ho & Eq).
  intros [= <-]. exists (log ++ map ctrl_frame (dict_messages id d)).
  assert (u8 id) as Hu8 by (unfold u8, CTRL_CH in *; lia).
  assert (forall c', WindlassCli.ch_id c' = id -> c' ∈ rest -> False) as Hrest.
  { intros c' E Hin. apply Hnot. rewrite <- E. by apply list_elem_of_fmap_2. }
  split; cbn [SmartExporterTasks.usb SmartExporterTasks.mcus SmartExporterTasks.fetched
    SmartExporterTasks.waiting usb_tx].
  - apply link_send_many; [|done..]. apply Forall_map. eapply Forall_impl; [by apply dict_messages_fit|].
    intros m [Hb Hlen]. split; [split; [exact u8_ctrl | done] | done].
  - intros ch m. rewrite lookup_insert. case_decide as E.
    + intros [= <-]. subst ch. split; [done|].
      rewrite of_ch_app, of_ch_ctrl by lia. rewrite (Hr id) by (done || lia). split.
      * by exists [].
      * apply (writes_new one).
    + intros Em. destruct (Hm ch m Em) as (Hch & Hu & Hd). split; [done|].
      rewrite of_ch_app, of_ch_ctrl, app_nil_r by lia. rewrite Ho, <- Hopen. done.
  - intros ch Hch. rewrite lookup_insert. case_decide; [done|]. intros En.
    rewrite of_ch_app, of_ch_ctrl, app_nil_r by done. by apply Hr.
  - intros c'. rewrite ctrl_payloads_app, ctrl_payloads_frames, filter_app, Hc, filter_messages, lookup_insert.
    case_decide as E.
    + rewrite bool_decide_true by done. subst c'. by rewrite Hnf.
    + by rewrite bool_decide_false, app_nil_r.
  - intros c' d'. rewrite lookup_insert. case_decide; [by intros [= <-] | apply Hf].
  - split; [|done]. rewrite Forall_forall in Hi |- *. intros c' Hin. destruct (Hi c' Hin) as (? & ? & ?).
    rewrite !lookup_insert_ne; [done | |]; intros E; by eapply Hrest.
  - done.
Qed.

(** A turn of an MCU's task that leaves the link alone. *)
Lemma sx_mcu_step s log items ch f s' :
  sx_inv s log items ->
  (forall m m', f m = Some m' -> SmartExporterTasks.from_mcu m' = SmartExporterTasks.from_mcu m /\
    forall given, mcu_down m given -> mcu_down m' given) ->
  SmartExporterTasks.mcu_step s ch f = Some s' -> sx_inv s' log items.
Proof.
  intros [Hl Hm Hr Hc Hf [Hi Hn] Hw] H. unfold SmartExporterTasks.mcu_step.
  destruct (SmartExporterTasks.mcus s !! ch) as [m|] eqn:E; [|done]. cbn [mbind option_bind].
  destruct (f m) as [m'|] eqn:Ef; [|done]. intros [= <-]. destruct (H m m' Ef) as [Efrom Hdown].
  split; cbn [SmartExporterTasks.usb SmartExporterTasks.mcus SmartExporterTasks.fetched
    SmartExporterTasks.waiting]; try done.
  - intros ch' m1. rewrite lookup_insert. case_decide as Ech; [|apply Hm].
    intros [= <-]. subst ch'. destruct (Hm ch m E) as (Hch & Hu & Hd). split; [done|].
    unfold mcu_up. rewrite Efrom. auto.
  - intros ch' Hch. rewrite lookup_insert. case_decide; [done | by apply Hr].
  - split; [|done]. rewrite Forall_forall in Hi |- *. intros c Hin. destruct (Hi c Hin) as (? & En & ?).
    rewrite lookup_insert_ne; [done|]. intros ->. by rewrite E in En.
Qed.

Lemma sx_mcu_payload s log items ch p s' :
  sx_inv s log items -> SmartExporterTasks.running s = true -> SmartExporterTasks.message p ->
  SmartExporterTasks.step s (SmartExporterTasks.McuPayload ch p) = Some s' ->
  exists log', sx_inv s' log' items.
Proof.
  intros [Hl Hm Hr Hc Hf [Hi Hn] Hw] Hrun Hmsg. unfold SmartExporterTasks.step. rewrite Hrun. cbn [negb].
  destruct (SmartExporterTasks.mcus s !! ch) as [m|] eqn:E; [|done]. cbn [mbind option_bind].
  unfold SmartExporterTasks.mcu_payload. destruct (SmartExporterTasks.forwarding m); [|done].
  destruct (usb_send (mkFrame ch p) (SmartExporterTasks.usb s)) as [u ok] eqn:Es.
  cbn [mbind option_bind]. intros [= <-].
  destruct (Hm ch m E) as (Hch & (lost & Efrom & Hlost) & Hd).
  destruct (link_send _ _ _ _ _ _ (message_good ch p Hch Hmsg) Hl Es) as (Hl' & Hok & Ho).
  set (more := if ok then [mkFrame ch p] else []) in *.
  assert (forall ch', of_ch ch' more = if bool_decide (ch = ch') then map lc_body more else []) as Hof.
  { intros ch'. apply of_ch_same. unfold more. destruct ok; [by apply Forall_singleton | constructor]. }
  assert (ctrl_payloads more = []) as Hcm.
  { unfold more. destruct ok; [|done]. rewrite ctrl_payloads_one, bool_decide_false; [done|]. cbn. lia. }
  exists (log ++ more). split; cbn [SmartExporterTasks.usb SmartExporterTasks.mcus
    SmartExporterTasks.fetched SmartExporterTasks.waiting]; try done.
  - intros ch' m1. rewrite lookup_insert, of_ch_app, Hof. case_decide as Ech.
    + subst ch'. intros [= <-]. rewrite bool_decide_true by done. split; [done|]. split; [|done].
      unfold mcu_up. cbn [SmartExporterTasks.from_mcu]. rewrite Efrom, Ho. unfold more. destruct ok.
      * exists []. rewrite Hlost by congruence. by rewrite !app_nil_r.
      * exists (lost ++ [p]). cbn [map]. rewrite app_nil_r, <- app_assoc. split; [done|]. congruence.
    + intros E1. rewrite bool_decide_false, app_nil_r, Ho by done. by apply Hm.
  - intros ch' Hne. rewrite lookup_insert. case_decide as Ech; [done|]. intros En.
    rewrite of_ch_app, Hof, bool_decide_false, app_nil_r by done. by apply Hr.
  - intros c. rewrite ctrl_payloads_app, Hcm, app_nil_r. apply Hc.
  - split; [|done]. rewrite Forall_forall in Hi |- *. intros c Hin. destruct (Hi c Hin) as (? & En & ?).
    rewrite lookup_insert_ne; [done|]. intros ->. by rewrite E in En.
  - intros Hne. rewrite Ho. by apply Hw.
Qed.

Lemma sx_usb_next s log items s' :
  sx_inv s log items -> SmartExporterTasks.running s = true ->
  SmartExporterTasks.step s SmartExporterTasks.UsbNext = Some s' -> exists items', sx_inv s' log items'.
Proof.
  intros [Hl Hm Hr Hc Hf [Hi Hn] Hw] Hrun. unfold SmartExporterTasks.step, SmartExporterTasks.link_step.
  rewrite Hrun. cbn [negb]. destruct (SmartExporterTasks.waiting s) eqn:Ew; [|done].
  destruct (usb_next (SmartExporterTasks.usb s)) as [[r u']|] eqn:E; [|done]. cbn [mbind option_bind].
  destruct (link_next _ _ _ _ _ Hl E) as [Hl' Eq]. destruct r as [pf|]; intros [= <-].
  - exists (items ++ [pf]). unfold SmartExporterTasks.demux. change (ch_id pf) with (lc_ch pf) in *.
    destruct (lc_ch pf =? CTRL_CH) eqn:Ectrl; zbool;
      [|destruct (SmartExporterTasks.mcus s !! lc_ch pf) as [m|] eqn:Em];
      (split; cbn [SmartExporterTasks.usb SmartExporterTasks.mcus SmartExporterTasks.fetched
         SmartExporterTasks.waiting]; rewrite ?Ew; try done).
    + intros ch m Ech. destruct (Hm ch m Ech) as (Hch & Hu & Hd). rewrite Eq, of_ch_app, of_ch_one.
      rewrite bool_decide_false, app_nil_r by lia. done.
    + intros ch m1. rewrite Eq, of_ch_app, of_ch_one, lookup_insert. case_decide as Ech.
      * intros [= <-]. subst ch. destruct (Hm _ m Em) as (Hch & Hu & Hd).
        rewrite bool_decide_true by done. split; [done|]. split; [done|]. by apply (writes_send one).
      * intros E1. rewrite bool_decide_false, app_nil_r by done. by apply Hm.
    + intros ch Hne. rewrite lookup_insert. case_decide; [done|]. by apply Hr.
    + intros ch m Ech. destruct (Hm ch m Ech) as (Hch & Hu & Hd). rewrite Eq, of_ch_app, of_ch_one.
      rewrite bool_decide_false, app_nil_r by congruence. done.
  - exists items. rewrite app_nil_r in Hl'. split; cbn [SmartExporterTasks.usb SmartExporterTasks.mcus
      SmartExporterTasks.fetched SmartExporterTasks.waiting]; rewrite ?Ew; try done. by rewrite Eq.
Qed.

Lemma sx_step s ev s' :
  (exists log items, sx_inv s log items) -> SmartExporterTasks.event_ok ev ->
  SmartExporterTasks.step s ev = Some s' -> exists log items, sx_inv s' log items.
Proof.
  intros (log & items & I) Hev E.
  assert (SmartExporterTasks.running s = true) as Hrun.
  { unfold SmartExporterTasks.step in E. by destruct (SmartExporterTasks.running s). }
  destruct ev as [o d o2|ch p|ch|ch ok|r|bytes| |];
    [..|destruct (sx_usb_next _ _ _ _ I Hrun E) as [items' ?]; by exists log, items'|].
  2: destruct (sx_mcu_payload _ _ _ _ _ _ I Hrun Hev E) as [log' ?]; by exists log', items.
  all: unfold SmartExporterTasks.step in E; rewrite Hrun in E; cbn [negb] in E.
  1: destruct (sx_start_channel _ _ _ _ _ _ _ I Hev E) as [log' ?]; by exists log', items.
  all: exists log, items.
  - eapply sx_mcu_step; [done| |exact E]. intros m m'. unfold SmartExporterTasks.mcu_closed.
    destruct (SmartExporterTasks.forwarding m); [|done]. by intros [= <-].
  - eapply sx_mcu_step; [done| |exact E]. intros m m'. unfold SmartExporterTasks.mcu_send.
    destruct (recv (SmartExporterTasks.cmd_tx m)) as [[p q]|] eqn:Er; [|done]. cbn [mbind option_bind].
    destruct ok; intros [= <-]; (split; [done|]); intros given Hd; unfold mcu_down in *;
      cbn [SmartExporterTasks.cmd_tx SmartExporterTasks.to_mcu].
    + by apply (writes_take one _ _ _ p q [p] q Hd Er).
    + by apply (writes_close one (SmartExporterTasks.cmd_tx m)).
  - unfold SmartExporterTasks.link_step in E. destruct (SmartExporterTasks.waiting s) eqn:Ew; [|done].
    destruct (usb_write r (SmartExporterTasks.usb s)) as [u'|] eqn:Eu; [|done]. injection E as <-.
    destruct I as [Hl Hm Hr Hc Hf Hi Hw]. destruct (link_write _ _ _ _ _ Hl Eu) as [Hl' Ho].
    split; cbn [SmartExporterTasks.usb SmartExporterTasks.mcus SmartExporterTasks.fetched
      SmartExporterTasks.waiting]; rewrite ?Ew in *; try done.
    intros ch m Em. destruct (Hm ch m Em) as (? & (lost & ? & Hlost) & ?). split; [done|]. split; [|done].
    exists lost. split; [done|]. intros ?%Ho. by apply Hlost.
  - unfold SmartExporterTasks.link_step in E. destruct (SmartExporterTasks.waiting s) eqn:Ew; [|done].
    injection E as <-. destruct I as [Hl Hm Hr Hc Hf Hi Hw].
    split; cbn [SmartExporterTasks.usb SmartExporterTasks.mcus SmartExporterTasks.fetched
      SmartExporterTasks.waiting]; rewrite ?Ew in *; try done. by apply link_read.
  - unfold SmartExporterTasks.link_step in E. destruct (SmartExporterTasks.waiting s) eqn:Ew; [|done].
    injection E as <-. destruct I as [Hl Hm Hr Hc Hf Hi Hw].
    split; cbn [SmartExporterTasks.fail SmartExporterTasks.usb SmartExporterTasks.mcus
      SmartExporterTasks.fetched SmartExporterTasks.waiting]; rewrite ?Ew in *; done.
Qed.

Lemma sx_run s : SmartExporterTasks.reachable s -> exists log items, sx_inv s log items.
Proof.
  intros (os & dev & channels & evs & s0 & Hids & Hnd & E0 & Hev & E).
  apply (run_invariant SmartExporterTasks.step (fun s => exists log items, sx_inv s log items)
    SmartExporterTasks.event_ok s0 evs s); [intros ? ? ?; apply sx_step| |done|done].
  exists [], []. unfold SmartExporterTasks.start in E0. destruct (AsyncSerial.opens _ _ _); [|done]. injection E0 as <-.
  split; cbn [SmartExporterTasks.usb SmartExporterTasks.mcus SmartExporterTasks.fetched
    SmartExporterTasks.waiting]; try done.
  - apply link_new.
  - split; [|done]. eapply Forall_impl; [exact Hids|]. done.
  - intros _. split; [done|]. apply new_open.
Qed.

(** ** Publishing *)

Lemma gather_app g l1 l2 :
  gather_dictionary g (l1 ++ l2) = (g ← gather_dictionary g l1; gather_dictionary g l2).
Proof.
  revert g. induction l1 as [|p l1 IH]; intros g; [done|]. cbn [app gather_dictionary].
  destruct (gather_payload g p); [apply IH | done].
Qed.

Lemma gather_frags c cs g g' :
  gather_dictionary g (map (fun chunk => [CTRL_DICT_FRAG; c] ++ chunk) cs) = Some g' ->
  watch_txs g' = watch_txs g.
Proof.
  revert g. induction cs as [|chunk cs IH]; intros g; cbn [map gather_dictionary]; [by intros [= ->]|].
  rewrite gather_frag. cbn [mbind option_bind]. by intros ->%IH.
Qed.

Lemma prefix_snoc {A} (l k : list A) x : k `prefix_of` l ++ [x] -> k = l ++ [x] \/ k `prefix_of` l.
Proof.
  intros [r E]. destruct (decide (r = [])) as [->|Hr]; [left; by rewrite app_nil_r in E|]. right.
  destruct (exists_last Hr) as (r' & y & ->). rewrite app_assoc in E.
  apply app_inj_tail in E as [-> _]. by apply prefix_app_r.
Qed.

(** Nothing is published for a channel but the whole of its dictionary. *)
Lemma gather_published c w msgs ps g d :
  w !! c = Some None -> (forall d, msgs = Some d -> bytes_ok d) ->
  filter (for_channel c) ps `prefix_of` match msgs with Some d => dict_messages c d | None => [] end ->
  gather_dictionary (gatherer_new w) ps = Some g -> watch_txs g !! c = Some (Some d) -> msgs = Some d.
Proof.
  intros Hw Hb Hp E Hg.
  destruct (gather_channel c (gatherer_new w) (gatherer_new w) ps eq_refl) as (g1 & g2 & E1 & E2 & V).
  rewrite E in E1. injection E1 as <-. unfold channel_view in V. injection V as _ Ew. rewrite Hg in Ew.
  destruct msgs as [d0|].
  - apply prefix_snoc in Hp as [Hp|[r Hp]].
    + destruct (gather_messages c d0 (gatherer_new w) None (Hb d0 eq_refl) Hw) as (g3 & E3 & V3).
      unfold dict_messages in E3. rewrite <- Hp, E2 in E3. injection E3 as <-.
      unfold channel_view in V3. injection V3 as _ V3. rewrite V3 in Ew.
      cbn in Ew. rewrite lookup_empty in Ew. cbn in Ew. by injection Ew as ->.
    + assert (exists cs, filter (for_channel c) ps = map (fun chunk => [CTRL_DICT_FRAG; c] ++ chunk) cs)
        as [cs Ecs].
      { apply map_eq_app in Hp as (cs & cs' & _ & Ecs & _). by exists cs. }
      rewrite Ecs in E2. apply gather_frags in E2. rewrite E2 in Ew. cbn in Ew. congruence.
  - apply prefix_nil_inv in Hp. rewrite Hp in E2. injection E2 as <-. cbn in Ew. congruence.
Qed.

(** ** The host *)

Section Host.
Context {VQ : Vlq} {VL : VlqLaws} {AQ : SmartHostTasks.Anchor} {AL : SmartHostTasks.AnchorLaws}.

(** The commands that are not answered on the host. *)
Definition forwarded (f : list Z) : bool :=
  match (read_u16 f).1 with inl cmd => negb (cmd =? CMD_IDENTIFY) | inr _ => false end.

Definition commands (fs : list (list Z)) : list (list Z) := filter (fun f => forwarded f = true) fs.

Lemma dispatch_raw_forwards f ctx :
  bytes_ok f -> exists r rest ctx', dispatch_raw f ctx = Some (r, rest, ctx') /\
    to_exporter ctx' = if forwarded f then (send (to_exporter ctx) f).1 else to_exporter ctx.
Proof.
  intros Hb. destruct (dispatch_raw_total f ctx Hb) as [[[r rest] ctx'] E]. exists r, rest, ctx'.
  split; [done|]. revert E. unfold dispatch_raw, forwarded.
  destruct (read_u16 f) as [[cmd|e] rest1]; cbn [fst].
  - destruct (cmd =? CMD_IDENTIFY) eqn:Ec; zbool.
    + cbn [negb]. unfold dispatch.
      destruct (negb _); [by intros [= _ _ <-]|].
      destruct (read_u32 rest1) as [[offset|e] rest2]; [|by intros [= _ _ <-]].
      destruct (read_u8 rest2) as [[count|e] rest3]; [|by intros [= _ _ <-]].
      destruct (if offset <=? zlen (dictionary ctx) then _ else _) as [chunk|]; [|done].
      by intros [= _ _ <-].
    + cbn [negb]. destruct (send (to_exporter ctx) f). by intros [= _ _ <-].
  - by intros [= _ _ <-].
Qed.

Lemma dispatch_calls_forward fs ctx :
  Forall bytes_ok fs -> exists ctx', SmartHostTasks.dispatch_calls fs ctx = Some ctx' /\
    forall out items, writes one (to_exporter ctx) out items ->
      writes one (to_exporter ctx') out (items ++ commands fs).
Proof.
  intros Hb. revert ctx. induction Hb as [|f fs Hf _ IH]; intros ctx;
    cbn [SmartHostTasks.dispatch_calls].
  - exists ctx. split; [done|]. intros out items. by rewrite app_nil_r.
  - destruct (dispatch_raw_forwards f ctx Hf) as (r & rest & ctx1 & -> & Eq). cbn [mbind option_bind].
    destruct (IH ctx1) as (ctx' & -> & Hw). exists ctx'. split; [done|]. intros out items Ho.
    unfold commands in *. rewrite Eq in Hw. rewrite filter_cons. destruct (forwarded f).
    + rewrite decide_True by done. rewrite cons_middle, app_assoc. apply Hw. by apply writes_send.
    + rewrite decide_False by done. by apply Hw.
Qed.

(** What a client's tasks have done: [up] is what it sent to the link, [down] what it
    was given. *)
Definition client_up (c : SmartHostTasks.Client) (up : list (list Z)) : Prop :=
  SmartHostTasks.sent c = up /\
  writes one (SmartHostTasks.to_exporter c) up (commands (SmartHostTasks.calls c)) /\
  Forall SmartExporterTasks.message (SmartHostTasks.calls c) /\ bytes_ok (SmartHostTasks.input_buf c).

Definition client_down (c : SmartHostTasks.Client) (down : list (list Z)) : Prop :=
  writes one (SmartHostTasks.from_mcu c) (SmartHostTasks.relayed c) down.

Definition conns_inv := slots_inv client_up client_down.

Lemma client_new_inv :
  client_up SmartHostTasks.client_new [] /\ client_down SmartHostTasks.client_new [].
Proof.
  split; [|apply (writes_new one)]. split; [done|]. split; [apply (writes_new one)|].
  split; constructor.
Qed.

Lemma klipper_bytes_inv d bytes c c' :
  bytes_ok bytes -> SmartHostTasks.klipper_bytes d bytes c = Some c' ->
  (forall up, client_up c up -> client_up c' up) /\ (forall down, client_down c down -> client_down c' down).
Proof.
  intros Hb. unfold SmartHostTasks.klipper_bytes. destruct (_ && _); [|done].
  destruct (SmartHostTasks.receive _ _) as [[[t buf] fs] outs] eqn:Er.
  destruct (SmartHostTasks.dispatch_calls fs _) as [ctx|] eqn:Ed; [|done]. cbn [mbind option_bind].
  destruct (SmartHostTasks.encode_all _ _ _) as [t' q]. intros [= <-]. split; [|done].
  intros up (Es & Hw & Hm & Hi).
  pose proof (SmartHostTasks.receive_messages (SmartHostTasks.transport c)
    (SmartHostTasks.input_buf c ++ bytes) ltac:(by apply Forall_app)) as Hr.
  rewrite Er in Hr. destruct Hr as [Hbuf Hfs].
  destruct (dispatch_calls_forward fs (mkCtx d (SmartHostTasks.to_exporter c) []))
    as (ctx' & E' & Hf).
  { eapply Forall_impl; [exact Hfs|]. by intros f [? _]. }
  rewrite Ed in E'. injection E' as <-.
  split; [done|]. split; [|split; [by apply Forall_app | done]].
  cbn [SmartHostTasks.to_exporter SmartHostTasks.calls].
  unfold commands in *. rewrite filter_app. by apply Hf.
Qed.

(** The relay loop does not panic. *)
Lemma klipper_bytes_total d bytes c up :
  client_up c up -> bytes_ok bytes -> bytes <> [] -> SmartHostTasks.relaying c = true ->
  exists c', SmartHostTasks.klipper_bytes d bytes c = Some c'.
Proof.
  intros (_ & _ & _ & Hi) Hb Hne Hr. unfold SmartHostTasks.klipper_bytes. rewrite Hr.
  destruct bytes as [|b bytes]; [done|]. cbn [is_empty negb andb].
  pose proof (SmartHostTasks.receive_messages (SmartHostTasks.transport c)
    (SmartHostTasks.input_buf c ++ b :: bytes) ltac:(by apply Forall_app)) as Hm.
  destruct (SmartHostTasks.receive _ _) as [[[t buf] fs] outs]. destruct Hm as [_ Hfs].
  destruct (dispatch_calls_forward fs (mkCtx d (SmartHostTasks.to_exporter c) [])) as (ctx' & -> & _).
  { eapply Forall_impl; [exact Hfs|]. by intros f [? _]. }
  cbn [mbind option_bind]. destruct (SmartHostTasks.encode_all _ _ _). by eexists.
Qed.

Lemma mcu_payload_inv c c' :
  SmartHostTasks.mcu_payload c = Some c' ->
  (forall up, client_up c up -> client_up c' up) /\ (forall down, client_down c down -> client_down c' down).
Proof.
  unfold SmartHostTasks.mcu_payload. destruct (SmartHostTasks.relaying c); [|done].
  destruct (recv (SmartHostTasks.from_mcu c)) as [[p q]|] eqn:E; [|done]. cbn [mbind option_bind].
  destruct (SmartHostTasks.encode_all _ _ _) as [t out]. intros [= <-]. split; [done|].
  intros down Hd. by apply (writes_take one _ _ _ p q [p] q Hd E).
Qed.

Lemma klipper_write_inv r c c' :
  SmartHostTasks.klipper_write r c = Some c' ->
  (forall up, client_up c up -> client_up c' up) /\ (forall down, client_down c down -> client_down c' down).
Proof.
  unfold SmartHostTasks.klipper_write.
  destruct (recv (SmartHostTasks.to_klipper c)) as [[p q]|]; [|done]. cbn [mbind option_bind].
  by intros [= <-].
Qed.

Lemma client_end_inv c :
  (forall up, client_up c up -> client_up (SmartHostTasks.client_end c) up) /\
  (forall down, client_down c down -> client_down (SmartHostTasks.client_end c) down).
Proof.
  split.
  - intros up (Es & Hw & Hm & Hi). split; [done|]. split; [|done].
    by apply (writes_close one (SmartHostTasks.to_exporter c)).
  - intros down Hd. by apply (writes_close one (SmartHostTasks.from_mcu c)).
Qed.

Lemma forward_inv ch c u c' u' log items up :
  0 <= ch < CTRL_CH -> client_up c up -> link_inv u log items ->
  SmartHostTasks.forward ch c u = Some (c', u') ->
  exists more, link_inv u' (log ++ map (mkFrame ch) more) items /\
    (forall up, client_up c up -> client_up c' (up ++ more)) /\
    (forall down, client_down c down -> client_down c' down).
Proof.
  intros Hch Hup Hl. unfold SmartHostTasks.forward.
  destruct (recv (SmartHostTasks.to_exporter c)) as [[p q]|] eqn:E; [|done]. cbn [mbind option_bind].
  destruct (usb_send (mkFrame ch p) u) as [u1 ok] eqn:Es. intros [= <- <-].
  assert (SmartExporterTasks.message p) as Hp.
  { destruct Hup as (_ & [_ Ho] & Hm & _). pose proof (recv_some _ _ _ E) as (Eo & Eq & _).
    specialize (Ho Eo). rewrite Eq, concat_one in Ho. rewrite Forall_forall in Hm. apply Hm.
    assert (p ∈ commands (SmartHostTasks.calls c)) as Hin.
    { rewrite concat_one in Ho. rewrite <- Ho. apply elem_of_app. right. apply list_elem_of_here. }
    by apply list_elem_of_filter in Hin as [_ ?]. }
  destruct (link_send _ _ _ _ _ _ (message_good ch p Hch Hp) Hl Es) as (Hl' & _ & _).
  exists (if ok then [p] else []). split; [by destruct ok|]. split; [|done].
  intros up' (Esent & Hw & Hm & Hi). split; [cbn; by rewrite Esent|]. split; [|done].
  cbn [SmartHostTasks.to_exporter SmartHostTasks.calls]. destruct ok.
  - by apply (writes_take one _ _ _ p q [p] q Hw E).
  - rewrite app_nil_r. by apply (writes_close one (SmartHostTasks.to_exporter c)).
Qed.

Record sh_inv (w0 : gmap Z (option (list Z))) (s : SmartHostTasks.State)
    (log : list (nat * PayloadTunnelFrame)) (routed : list (option nat * PayloadTunnelFrame)) : Prop := {
  sh_link : link_inv (SmartHostTasks.usb s) (map snd log) (map snd routed);
  sh_channels : forall ch c, SmartHostTasks.channels s !! ch = Some c ->
    0 <= ch < CTRL_CH /\ w0 !! ch = Some None /\
    conns_inv (SmartHostTasks.conns c) (on_ch ch log) (on_ch ch routed);
  sh_ctrl : exists taken, gather_dictionary (gatherer_new w0) taken = Some (SmartHostTasks.gatherer s) /\
    rx_open (SmartHostTasks.ctrl_tx s) = true /\
    taken ++ queue (SmartHostTasks.ctrl_tx s) = ctrl_payloads (map snd routed);
  sh_dict : forall ch c d, SmartHostTasks.channels s !! ch = Some c -> SmartHostTasks.dict c = Some d ->
    exists taken g, taken `prefix_of` ctrl_payloads (map snd routed) /\
      gather_dictionary (gatherer_new w0) taken = Some g /\ watch_txs g !! ch = Some (Some d);
}.

Lemma sh_start os bind dev specs s :
  Forall (fun c => 0 <= WindlassCli.ch_id c < CTRL_CH) specs ->
  SmartHostTasks.start os bind dev specs = Some s ->
  sh_inv (SmartHostTasks.watches specs) s [] [].
Proof.
  intros Hs. unfold SmartHostTasks.start. destruct (AsyncSerial.opens _ _ _ && _); [|done].
  assert (forall bind rxs chs chs' (w : gmap Z (option (list Z))),
    (forall ch c, chs !! ch = Some c ->
      c = SmartHostTasks.mkChannel None no_clients /\ 0 <= ch < CTRL_CH /\ w !! ch = Some None) ->
    SmartHostTasks.bind_sockets bind rxs specs chs = Some chs' ->
    forall ch c, chs' !! ch = Some c ->
      c = SmartHostTasks.mkChannel None no_clients /\ 0 <= ch < CTRL_CH /\
      foldl (fun w c => <[WindlassCli.ch_id c := None]> w) w specs !! ch = Some None) as H.
  { clear bind. induction Hs as [|c specs Hc Hs IH]; intros bind rxs chs chs' w Hu;
      cbn [SmartHostTasks.bind_sockets foldl]; [by intros [= <-]|].
    destruct (Windlass.binds _); [|done].
    destruct (rxs !! WindlassCli.ch_id c) as [d|]; [|done]. cbn [mbind option_bind].
    apply IH. intros ch c'. rewrite !lookup_insert.
    case_decide as Ech; [intros [= <-]; by subst ch | apply Hu]. }
  destruct (SmartHostTasks.bind_sockets bind _ specs ∅) as [chs|] eqn:E; [|done]. cbn [mbind option_bind].
  intros [= <-]. specialize (H bind _ ∅ chs ∅ ltac:(intros ch c; by rewrite lookup_empty) E).
  split; cbn [SmartHostTasks.usb SmartHostTasks.channels SmartHostTasks.ctrl_tx SmartHostTasks.gatherer map].
  - apply link_new.
  - intros ch c Hc. destruct (H ch c Hc) as (-> & ? & ?). split; [done|]. split; [done|]. apply slots_new.
  - exists []. split; [done|]. split; [apply new_open | apply new_queue].
  - intros ch c d Hc. destruct (H ch c Hc) as (-> & _). done.
Qed.

(** A turn that changes one channel's connections and leaves the link alone. *)
Lemma sh_channel_step w0 s log routed ch f s' :
  sh_inv w0 s log routed ->
  (forall c c' l r, SmartHostTasks.channels s !! ch = Some c -> f c = Some c' ->
    conns_inv (SmartHostTasks.conns c) l r -> conns_inv (SmartHostTasks.conns c') l r) ->
  (forall c c' d, SmartHostTasks.channels s !! ch = Some c -> f c = Some c' ->
    SmartHostTasks.dict c' = Some d ->
    SmartHostTasks.dict c = Some d \/ watch_txs (SmartHostTasks.gatherer s) !! ch = Some (Some d)) ->
  SmartHostTasks.channel_step s ch f = Some s' -> sh_inv w0 s' log routed.
Proof.
  intros [Hl Hc Hg Hd] H Hdict. unfold SmartHostTasks.channel_step.
  destruct (SmartHostTasks.channels s !! ch) as [c|] eqn:E; [|done]. cbn [mbind option_bind].
  destruct (f c) as [c'|] eqn:Ef; [|done]. intros [= <-].
  split; cbn [SmartHostTasks.usb SmartHostTasks.channels SmartHostTasks.ctrl_tx SmartHostTasks.gatherer];
    [done| |done|].
  - intros ch' c1. rewrite lookup_insert. case_decide as Ech; [|apply Hc].
    intros [= <-]. subst ch'. destruct (Hc ch c E) as (? & ? & ?). split; [done|]. split; [done|].
    by eapply H.
  - intros ch' c1 d. rewrite lookup_insert. case_decide as Ech; [|apply Hd].
    intros [= <-] Ed. subst ch'. destruct (Hdict c c' d eq_refl Ef Ed) as [Ed'|Ew]; [by eapply Hd|].
    destruct Hg as (taken & Egat & _ & Etaken). exists taken, (SmartHostTasks.gatherer s).
    split; [rewrite <- Etaken; by apply prefix_app_r | done].
Qed.

Lemma sh_conns_step w0 s log routed ch f s' :
  sh_inv w0 s log routed ->
  (forall k k' l r, f k = Some k' -> conns_inv k l r -> conns_inv k' l r) ->
  SmartHostTasks.conns_step s ch f = Some s' -> sh_inv w0 s' log routed.
Proof.
  intros I H. apply sh_channel_step; [done| |].
  - intros c c' l r _. destruct (f (SmartHostTasks.conns c)) as [k|] eqn:Ef; [|done].
    cbn [mbind option_bind]. intros [= <-]. by eapply H.
  - intros c c' d _. destruct (f (SmartHostTasks.conns c)) as [k|]; [|done].
    cbn [mbind option_bind]. intros [= <-]. by left.
Qed.

Lemma sh_client_step w0 s log routed ch i f s' :
  sh_inv w0 s log routed ->
  (forall c c', f c = Some c' -> (forall up, client_up c up -> client_up c' up) /\
    (forall down, client_down c down -> client_down c' down)) ->
  SmartHostTasks.client_step s ch i f = Some s' -> sh_inv w0 s' log routed.
Proof.
  intros I H. apply sh_conns_step; [done|]. intros k k' l r Ef Ik.
  destruct (clients k !! i) as [c|] eqn:Ei; [|done]. cbn [mbind option_bind] in Ef.
  destruct (f c) as [c'|] eqn:Ec; [|done]. injection Ef as <-. destruct (H c c' Ec).
  by eapply slots_quiet.
Qed.

Lemma sh_forward w0 s log routed ch i s' :
  sh_inv w0 s log routed -> SmartHostTasks.running s = true ->
  SmartHostTasks.step s (SmartHostTasks.Forward ch i) = Some s' -> exists log', sh_inv w0 s' log' routed.
Proof.
  intros [Hl Hc Hg Hd] Hrun. unfold SmartHostTasks.step. rewrite Hrun. cbn [negb].
  destruct (SmartHostTasks.channels s !! ch) as [c|] eqn:E; [|done]. cbn [mbind option_bind].
  destruct (clients (SmartHostTasks.conns c) !! i) as [cl|] eqn:Ei; [|done]. cbn [mbind option_bind].
  destruct (SmartHostTasks.forward ch cl (SmartHostTasks.usb s)) as [[cl' u']|] eqn:Ef; [|done].
  cbn [mbind option_bind]. intros [= <-]. destruct (Hc ch c E) as (Hch & Hw & Ic).
  destruct (s_clients _ _ _ _ _ Ic i cl Ei) as [Hu _].
  destruct (forward_inv _ _ _ _ _ _ _ _ Hch Hu Hl Ef) as (more & Hl' & Hup & Hdown).
  assert (Forall (fun x => lc_ch x = ch) (map (mkFrame ch) more)) as Hsame.
  { by apply Forall_map, Forall_forall. }
  exists (log ++ map (pair i) (map (mkFrame ch) more)).
  split; cbn [SmartHostTasks.usb SmartHostTasks.channels SmartHostTasks.ctrl_tx SmartHostTasks.gatherer];
    [| |done|].
  - by rewrite map_app, map_snd_pair.
  - intros ch' c1. rewrite lookup_insert, on_ch_app, (on_ch_same ch) by done. case_decide as Ech.
    + subst ch'. intros [= <-]. rewrite bool_decide_true by done. split; [done|]. split; [done|].
      replace (map lc_body (map (mkFrame ch) more)) with more
        by (rewrite map_map; symmetry; apply map_id).
      by eapply slots_turn.
    + intros E1. rewrite bool_decide_false, app_nil_r by done. by apply Hc.
  - intros ch' c1 d. rewrite lookup_insert. case_decide as Ech; [|apply Hd].
    intros [= <-] Ed. subst ch'. by eapply Hd.
Qed.

Lemma sh_usb_next w0 s log routed s' :
  sh_inv w0 s log routed -> SmartHostTasks.running s = true ->
  SmartHostTasks.step s SmartHostTasks.UsbNext = Some s' -> exists routed', sh_inv w0 s' log routed'.
Proof.
  intros [Hl Hc Hg Hd] Hrun. unfold SmartHostTasks.step. rewrite Hrun. cbn [negb].
  destruct (usb_next (SmartHostTasks.usb s)) as [[r u']|] eqn:E; [|done]. cbn [mbind option_bind].
  destruct (link_next _ _ _ _ _ Hl E) as [Hl' _]. destruct r as [pf|]; intros [= <-].
  2:{ exists routed. rewrite app_nil_r in Hl'. by split. }
  set (tag := c ← SmartHostTasks.channels s !! ch_id pf; slot (SmartHostTasks.conns c)).
  exists (routed ++ [(tag, pf)]).
  assert (ctrl_payloads (map snd (routed ++ [(tag, pf)])) = ctrl_payloads (map snd routed) ++
    if bool_decide (ch_id pf = CTRL_CH) then [payload pf] else []) as Ectrl.
  { rewrite map_app, ctrl_payloads_app. cbn [map snd]. by rewrite ctrl_payloads_one. }
  assert (forall ch c d, SmartHostTasks.channels s !! ch = Some c -> SmartHostTasks.dict c = Some d ->
    exists taken g, taken `prefix_of` ctrl_payloads (map snd (routed ++ [(tag, pf)])) /\
      gather_dictionary (gatherer_new w0) taken = Some g /\ watch_txs g !! ch = Some (Some d)) as Hd'.
  { intros ch c d E1 E2. destruct (Hd ch c d E1 E2) as (taken & g & Hp & ? & ?). exists taken, g.
    rewrite Ectrl. split; [by apply prefix_app_r | done]. }
  assert (forall ch c, SmartHostTasks.channels s !! ch = Some c -> ch_id pf <> ch ->
    0 <= ch < CTRL_CH /\ w0 !! ch = Some None /\
    conns_inv (SmartHostTasks.conns c) (on_ch ch log) (on_ch ch (routed ++ [(tag, pf)]))) as Hother.
  { intros ch c Ec Hne. rewrite on_ch_app, on_ch_one. change (lc_ch pf) with (ch_id pf).
    rewrite bool_decide_false, app_nil_r by done. by apply Hc. }
  unfold SmartHostTasks.demux. cbn [SmartHostTasks.usb SmartHostTasks.channels SmartHostTasks.ctrl_tx
    SmartHostTasks.gatherer]. destruct (ch_id pf =? CTRL_CH) eqn:Ech; zbool.
  - rewrite bool_decide_true in Ectrl by done.
    split; cbn [SmartHostTasks.usb SmartHostTasks.channels SmartHostTasks.ctrl_tx SmartHostTasks.gatherer].
    + by rewrite map_app.
    + intros ch c Ec. apply Hother; [done|]. destruct (Hc ch c Ec) as [? _]. lia.
    + destruct Hg as (taken & Eg & Ho & Et). exists taken. split; [done|].
      rewrite send_rx_open, send_queue, Ectrl, <- Et, <- app_assoc by done. done.
    + done.
  - rewrite bool_decide_false, app_nil_r in Ectrl by done.
    destruct (SmartHostTasks.channels s !! ch_id pf) as [c1|] eqn:E1;
      (split; cbn [SmartHostTasks.usb SmartHostTasks.channels SmartHostTasks.ctrl_tx
         SmartHostTasks.gatherer];
       [by rewrite map_app | | destruct Hg as (taken & ? & ? & ?); exists taken; by rewrite Ectrl |]).
    + intros ch c. rewrite lookup_insert. case_decide as E2; [|intros E3; by apply Hother].
      intros [= <-]. subst ch. destruct (Hc _ c1 E1) as (? & ? & Ic). split; [done|]. split; [done|].
      rewrite on_ch_app, on_ch_one. change (lc_ch pf) with (ch_id pf). rewrite bool_decide_true by done.
      unfold tag. cbn [mbind option_bind]. apply slots_deliver; [done|done|].
      intros cl given. apply (writes_send one).
    + intros ch c d. rewrite lookup_insert. case_decide as E2; [|apply Hd'].
      intros [= <-]. subst ch. exact (Hd' _ c1 d E1).
    + intros ch c Ec. apply Hother; [done|]. congruence.
    + done.
Qed.

Lemma sh_gather w0 s log routed s' :
  sh_inv w0 s log routed -> SmartHostTasks.running s = true ->
  SmartHostTasks.step s SmartHostTasks.Gather = Some s' -> sh_inv w0 s' log routed.
Proof.
  intros [Hl Hc (taken & Eg & Ho & Et) Hd] Hrun. unfold SmartHostTasks.step. rewrite Hrun. cbn [negb].
  destruct (recv (SmartHostTasks.ctrl_tx s)) as [[p q]|] eqn:E; [|done]. cbn [mbind option_bind].
  apply recv_some in E as (_ & Eq & Ho').
  destruct (gather_payload (SmartHostTasks.gatherer s) p) as [g|] eqn:Ep; [|done].
  cbn [mbind option_bind]. intros [= <-].
  split; cbn [SmartHostTasks.usb SmartHostTasks.channels SmartHostTasks.ctrl_tx SmartHostTasks.gatherer];
    [done|done| |done].
  exists (taken ++ [p]). rewrite gather_app, Eg. cbn [mbind option_bind gather_dictionary].
  rewrite Ep. split; [done|]. split; [done|]. by rewrite <- app_assoc, <- Et, Eq.
Qed.

Lemma sh_step w0 s ev s' :
  (exists log routed, sh_inv w0 s log routed) -> SmartHostTasks.event_ok ev ->
  SmartHostTasks.step s ev = Some s' -> exists log routed, sh_inv w0 s' log routed.
Proof.
  intros (log & routed & I) Hev E.
  assert (SmartHostTasks.running s = true) as Hrun.
  { unfold SmartHostTasks.step in E. by destruct (SmartHostTasks.running s). }
  destruct ev as [ch|ch|ch i bytes|ch i|ch i r|ch i|ch| |r|bytes| |];
    [..|destruct (sh_usb_next _ _ _ _ _ I Hrun E) as [routed' ?]; by exists log, routed'|].
  8: exists log, routed; by eapply sh_gather.
  6: destruct (sh_forward _ _ _ _ _ _ _ I Hrun E) as [log' ?]; by exists log', routed.
  all: unfold SmartHostTasks.step in E; rewrite Hrun in E; cbn [negb] in E; exists log, routed.
  - eapply sh_channel_step; [done| | |exact E]; intros c c'; cbv beta.
    + intros l r _. destruct (SmartHostTasks.dict c); [done|].
      destruct (watch_txs _ !! ch) as [[d|]|]; [|done..]. by intros [= <-].
    + intros d _. destruct (SmartHostTasks.dict c); [done|].
      destruct (watch_txs _ !! ch) as [[d'|]|]; [|done..]. intros [= <-] [= <-]. by right.
  - eapply sh_channel_step; [done| | |exact E]; intros c c'; cbv beta.
    + intros l r _. destruct (SmartHostTasks.dict c); [|done]. cbn [mbind option_bind].
      destruct (connect _ (SmartHostTasks.conns c)) as [k|] eqn:Ek; [|done]. intros [= <-] Ic.
      destruct client_new_inv. by eapply slots_connect.
    + intros d _. destruct (SmartHostTasks.dict c) as [d'|] eqn:Ed; [|done]. cbn [mbind option_bind].
      destruct (connect _ (SmartHostTasks.conns c)) as [k|] eqn:Ek; [|done]. intros [= <-] [= <-]. by left.
  - eapply sh_channel_step; [done| | |exact E]; intros c c'; cbv beta.
    + intros l r _. destruct (SmartHostTasks.dict c) as [d|]; [|done]. cbn [mbind option_bind].
      destruct (clients (SmartHostTasks.conns c) !! i) as [cl|] eqn:Ei; [|done]. cbn [mbind option_bind].
      destruct (SmartHostTasks.klipper_bytes d bytes cl) as [cl'|] eqn:Eb; [|done]. intros [= <-] Ic.
      destruct (klipper_bytes_inv d bytes cl cl' Hev Eb). by eapply slots_quiet.
    + intros d _. destruct (SmartHostTasks.dict c) as [d'|] eqn:Ed; [|done]. cbn [mbind option_bind].
      destruct (clients _ !! i) as [cl|]; [|done]. cbn [mbind option_bind].
      destruct (SmartHostTasks.klipper_bytes _ _ _); [|done]. intros [= <-] [= <-]. by left.
  - eapply sh_client_step; [done| |exact E]. intros c c'. apply mcu_payload_inv.
  - eapply sh_client_step; [done| |exact E]. intros c c'. apply klipper_write_inv.
  - eapply sh_conns_step; [done| |exact E]. intros k k' l r Ek Ik. unfold SmartHostTasks.disconnect in Ek.
    destruct (slot k) as [i|]; [|done]. cbn [mbind option_bind] in Ek.
    destruct (clients k !! i) as [c|] eqn:Ei; [|done]. cbn [mbind option_bind] in Ek.
    destruct (SmartHostTasks.relaying c); [|done]. injection Ek as <-.
    destruct (client_end_inv c). apply slots_vacate. by eapply slots_quiet.
  - destruct (usb_write r (SmartHostTasks.usb s)) as [u'|] eqn:Eu; [|done]. injection E as <-.
    destruct I as [Hl Hc Hg Hd]. destruct (link_write _ _ _ _ _ Hl Eu) as [Hl' _]. by split.
  - injection E as <-. destruct I as [Hl Hc Hg Hd]. split; try done. by apply link_read.
  - injection E as <-. destruct I as [Hl Hc Hg Hd]. by split.
Qed.

Lemma sh_run s : SmartHostTasks.reachable s -> exists w0 log routed, sh_inv w0 s log routed.
Proof.
  intros (os & bind & dev & specs & evs & s0 & Hids & E0 & Hev & E).
  exists (SmartHostTasks.watches specs).
  apply (run_invariant SmartHostTasks.step
    (fun s => exists log routed, sh_inv (SmartHostTasks.watches specs) s log routed)
    SmartHostTasks.event_ok s0 evs s);
    [intros ? ? ?; apply sh_step | by exists [], []; eapply sh_start | done | done].
Qed.

(** C15: the dictionaries, over any interleaving of the tasks of both programs: what the
    host serves for a channel is exactly the dictionary the exporter fetched from the
    MCU of that channel, whole, and no other. *)
Theorem smart_dictionary h x ch c d :
  SmartHostTasks.reachable h -> SmartExporterTasks.reachable x ->
  usb_in (SmartHostTasks.usb h) `prefix_of` usb_out (SmartExporterTasks.usb x) ->
  SmartHostTasks.channels h !! ch = Some c -> SmartHostTasks.dict c = Some d ->
  SmartExporterTasks.fetched x !! ch = Some d.
Proof.
  intros Hh Hx Hlink Ec Ed.
  destruct (sh_run h Hh) as (w0 & log & routed & [Hl Hc _ Hd]).
  destruct (sx_run x Hx) as (xlog & items & [Xl _ _ Xc Xf _ _]).
  destruct (link_transfer _ _ _ _ _ _ Xl Hl Hlink) as [Hpre _].
  destruct (Hd ch c d Ec Ed) as (taken & g & Ht & Eg & Ew). destruct (Hc ch c Ec) as (_ & Hw & _).
  apply (gather_published ch w0 (SmartExporterTasks.fetched x !! ch) taken g d); [done| | |done|done].
  - intros d'. apply Xf.
  - rewrite <- Xc. assert (taken `prefix_of` ctrl_payloads xlog) as [r ->].
    { etransitivity; [exact Ht|]. by apply ctrl_payloads_prefix. }
    rewrite filter_app. by apply prefix_app_r.
Qed.

(** C17: from the MCU to Klipper through the smart proxy, over any interleaving: every
    payload of an MCU is given to one client of its channel at most, a client is given
    an unbroken run of them, and those wrapped for it are a beginning of that run, in
    order, all of it while it is connected and nothing waits. *)
Theorem smart_mcu_to_klipper h x ch c m :
  SmartHostTasks.reachable h -> SmartExporterTasks.reachable x ->
  usb_in (SmartHostTasks.usb h) `prefix_of` usb_out (SmartExporterTasks.usb x) ->
  SmartHostTasks.channels h !! ch = Some c -> SmartExporterTasks.mcus x !! ch = Some m ->
  exists routed, map snd routed `prefix_of` SmartExporterTasks.from_mcu m /\
    (forall i k, clients (SmartHostTasks.conns c) !! i = Some k -> exists before mine after,
      routed = before ++ mine ++ after /\
      Forall (fun x => x.1 = Some i) mine /\ Forall (fun x => x.1 <> Some i) (before ++ after) /\
      (slot (SmartHostTasks.conns c) = Some i -> after = []) /\
      SmartHostTasks.relayed k `prefix_of` map snd mine /\
      (rx_open (SmartHostTasks.from_mcu k) = true -> queue (SmartHostTasks.from_mcu k) = [] ->
        SmartHostTasks.relayed k = map snd mine)) /\
    (usb_in (SmartHostTasks.usb h) = usb_out (SmartExporterTasks.usb x) ->
      rx_open (usb_tx (SmartExporterTasks.usb x)) = true ->
      queue (usb_tx (SmartExporterTasks.usb x)) = [] ->
      idle (Item := PayloadTunnelFrame) tt (usb_buf (SmartHostTasks.usb h)) ->
      map snd routed = SmartExporterTasks.from_mcu m).
Proof.
  intros Hh Hx Hlink Ec Em.
  destruct (sh_run h Hh) as (w0 & log & routed & [Hl Hc _ _]).
  destruct (sx_run x Hx) as (xlog & items & [Xl Xm _ _ _ _ _]).
  destruct (link_transfer _ _ _ _ _ _ Xl Hl Hlink) as [Hpre Hall].
  destruct (Xm ch m Em) as (_ & (lost & Efrom & Hlost) & _). destruct (Hc ch c Ec) as (_ & _ & Ic).
  exists (on_ch ch routed). split_and!.
  - rewrite <- of_ch_on_ch, Efrom. apply prefix_app_r. by apply of_ch_prefix.
  - intros i k Ek. destruct (s_clients _ _ _ _ _ Ic i k Ek) as [_ (b & mi & a & E & Hm & Hba & Hnow & [Hp Ho])].
    exists b, mi, a. rewrite !concat_one in *. split_and!; try done.
    + intros Es. apply Hnow. by apply bool_decide_eq_true.
    + intros Hopen Hq. specialize (Ho Hopen). rewrite Hq in Ho. cbn in Ho. by rewrite app_nil_r in Ho.
  - intros Hin Hopen Hq Hidle.
    rewrite <- of_ch_on_ch, (Hall Hin Hopen Hq Hidle), Efrom, Hlost, app_nil_r; done.
Qed.

(** C16: from Klipper to the MCU through the smart proxy, over any interleaving: the
    commands sent to an MCU are a beginning of those the clients of its channel sent,
    each client's in order and without those answered on the host; all that were
    handed to the link once everything is through and no task has failed. *)
Theorem smart_klipper_to_mcu h x ch c m :
  SmartHostTasks.reachable h -> SmartExporterTasks.reachable x ->
  usb_in (SmartExporterTasks.usb x) `prefix_of` usb_out (SmartHostTasks.usb h) ->
  SmartHostTasks.channels h !! ch = Some c -> SmartExporterTasks.mcus x !! ch = Some m ->
  exists log : list (nat * list Z),
    Forall (fun s => (s.1 < length (clients (SmartHostTasks.conns c)))%nat) log /\
    SmartExporterTasks.to_mcu m `prefix_of` map snd log /\
    (forall i k, clients (SmartHostTasks.conns c) !! i = Some k ->
      sent_by i log `prefix_of` commands (SmartHostTasks.calls k) /\
      (rx_open (SmartHostTasks.to_exporter k) = true -> queue (SmartHostTasks.to_exporter k) = [] ->
        sent_by i log = commands (SmartHostTasks.calls k))) /\
    (usb_in (SmartExporterTasks.usb x) = usb_out (SmartHostTasks.usb h) ->
      rx_open (usb_tx (SmartHostTasks.usb h)) = true -> queue (usb_tx (SmartHostTasks.usb h)) = [] ->
      idle (Item := PayloadTunnelFrame) tt (usb_buf (SmartExporterTasks.usb x)) ->
      rx_open (SmartExporterTasks.cmd_tx m) = true -> queue (SmartExporterTasks.cmd_tx m) = [] ->
      SmartExporterTasks.to_mcu m = map snd log).
Proof.
  intros Hh Hx Hlink Ec Em.
  destruct (sh_run h Hh) as (w0 & log & routed & [Hl Hc _ _]).
  destruct (sx_run x Hx) as (xlog & items & [Xl Xm _ _ _ _ _]).
  destruct (link_transfer _ _ _ _ _ _ Hl Xl Hlink) as [Hpre Hall].
  destruct (Xm ch m Em) as (_ & _ & [Hp Ho]). destruct (Hc ch c Ec) as (_ & _ & [_ Hlog _ Hcl]).
  rewrite !concat_one in *. exists (on_ch ch log). split_and!.
  - done.
  - rewrite <- of_ch_on_ch. etransitivity; [exact Hp|]. by apply of_ch_prefix.
  - intros i k Ek. destruct (Hcl i k Ek) as [(_ & [Hp1 Ho1] & _) _]. rewrite !concat_one in *.
    split; [done|]. intros Hopen Hq. specialize (Ho1 Hopen). rewrite Hq in Ho1. cbn in Ho1.
    by rewrite app_nil_r in Ho1.
  - intros Hin Hopen Hq Hidle Hmo Hmq. specialize (Ho Hmo). rewrite Hmq in Ho. cbn in Ho.
    rewrite app_nil_r, (Hall Hin Hopen Hq Hidle) in Ho. by rewrite Ho, of_ch_on_ch.
Qed.

End Host.

End Smart.

(** ** A concrete run of both *)

(** A transport that hands over what it is given, in pieces, and wraps nothing. *)
#[local] Instance plain_anchor : SmartHostTasks.Anchor := {
  VTransport := unit;
  anchor_new := tt;
  receive t buf := (t, [], chunks SmartExporterTasks.MESSAGE_PAYLOAD_MAX buf, []);
  encode_frame t p := (t, [p]);
}.

#[local] Instance plain_anchor_laws : SmartHostTasks.AnchorLaws.
Proof.
  split. intros t buf Hb. split; [constructor|].
  destruct (chunks_spec SmartExporterTasks.MESSAGE_PAYLOAD_MAX buf ltac:(done) Hb) as [_ Hf].
  eapply Forall_impl; [exact Hf|]. intros f [? ?]. split; [done | lia].
Qed.

Definition smart_specs : list WindlassCli.McuSpec := [WindlassCli.mkSpec 3 "/dev/ttyS7" 230400].

Definition sample_dict : list Z := [10; 20; 30].

(** A command other than [identify], in the encoding of the concrete runs. *)
Definition sample_command : list Z := [7; 0; 0; 0; 42].

Definition smart_exporter_events : list SmartExporterTasks.Event :=
  [SmartExporterTasks.StartChannel TransparentProofs.port (Some sample_dict) TransparentProofs.port;
   SmartExporterTasks.UsbWrite Written; SmartExporterTasks.UsbWrite Written;
   SmartExporterTasks.McuPayload 3 [1; 2]; SmartExporterTasks.UsbWrite Written;
   SmartExporterTasks.UsbRead (3 :: 5 :: sample_command); SmartExporterTasks.UsbNext;
   SmartExporterTasks.McuSend 3 true].

Definition smart_host_events : list SmartHostTasks.Event :=
  [SmartHostTasks.UsbRead [255; 5; 1; 3; 10; 20; 30; 255; 2; 2; 3];
   SmartHostTasks.UsbNext; SmartHostTasks.UsbNext; SmartHostTasks.Gather; SmartHostTasks.Gather;
   SmartHostTasks.DictReady 3; SmartHostTasks.Accept 3;
   SmartHostTasks.KlipperBytes 3 0 sample_command; SmartHostTasks.Forward 3 0;
   SmartHostTasks.UsbWrite Written;
   SmartHostTasks.UsbRead [3; 2; 1; 2]; SmartHostTasks.UsbNext; SmartHostTasks.McuPayload 3 0;
   SmartHostTasks.KlipperWrite 3 0 Written].

Definition smart_exporter_end : SmartExporterTasks.State :=
  default (SmartExporterTasks.mkState [] ∅ ∅ usb_new false)
    (s ← SmartExporterTasks.start TransparentProofs.port "/dev/ttyACM0" smart_specs;
     run SmartExporterTasks.step s smart_exporter_events).

Definition smart_host_end : SmartHostTasks.State :=
  default (SmartHostTasks.mkState ∅ mpsc_new (gatherer_new ∅) usb_new false)
    (s ← SmartHostTasks.start TransparentProofs.port (fun _ => TransparentProofs.socket) "/dev/ttyGS0" smart_specs;
     run SmartHostTasks.step s smart_host_events).

Lemma smart_specs_ok : Forall (fun c => 0 <= WindlassCli.ch_id c < CTRL_CH) smart_specs.
Proof. apply Forall_singleton. unfold CTRL_CH. cbn. lia. Qed.

Lemma smart_exporter_reachable : SmartExporterTasks.reachable smart_exporter_end.
Proof.
  exists TransparentProofs.port, "/dev/ttyACM0"%string, smart_specs, smart_exporter_events.
  eexists. split; [exact smart_specs_ok|]. split; [apply NoDup_singleton|].
  split; [reflexivity|]. split; [|reflexivity].
  repeat apply Forall_cons_2; try apply Forall_nil_2; try done;
    unfold SmartExporterTasks.event_ok, SmartExporterTasks.message, sample_dict, sample_command;
    try (split; [|done]); solve_bytes.
Qed.

Lemma smart_host_reachable : SmartHostTasks.reachable smart_host_end.
Proof.
  exists TransparentProofs.port, (fun _ => TransparentProofs.socket), "/dev/ttyGS0"%string, smart_specs, smart_host_events.
  eexists. split; [exact smart_specs_ok|]. split; [reflexivity|]. split; [|reflexivity].
  repeat apply Forall_cons_2; try apply Forall_nil_2; try done;
    unfold SmartHostTasks.event_ok, sample_command; solve_bytes.
Qed.

Definition smart_channel_end : SmartHostTasks.Channel :=
  default (SmartHostTasks.mkChannel None no_clients) (SmartHostTasks.channels smart_host_end !! 3).
Definition mcu_end : SmartExporterTasks.Mcu :=
  default SmartExporterTasks.mcu_new (SmartExporterTasks.mcus smart_exporter_end !! 3).

Lemma smart_dictionary_witness :
  SmartExporterTasks.fetched smart_exporter_end !! 3 = Some sample_dict.
Proof.
  apply (smart_dictionary smart_host_end smart_exporter_end 3 smart_channel_end sample_dict);
    [exact smart_host_reachable | exact smart_exporter_reachable
    | exists []; vm_compute; reflexivity | vm_compute; reflexivity | vm_compute; reflexivity].
Defined.

Lemma smart_mcu_to_klipper_witness :
  exists routed : list (option nat * list Z), map snd routed = [[1; 2]].
Proof.
  destruct (smart_mcu_to_klipper smart_host_end smart_exporter_end 3 smart_channel_end mcu_end)
    as (routed & _ & _ & Ha);
    [exact smart_host_reachable | exact smart_exporter_reachable
    | exists []; vm_compute; reflexivity | vm_compute; reflexivity | vm_compute; reflexivity|].
  exists routed. rewrite Ha by (vm_compute; reflexivity). vm_compute. reflexivity.
Defined.

Lemma smart_klipper_to_mcu_witness :
  exists log : list (nat * list Z), map snd log = [sample_command].
Proof.
  destruct (smart_klipper_to_mcu smart_host_end smart_exporter_end 3 smart_channel_end mcu_end)
    as (log & _ & _ & _ & Ha);
    [exact smart_host_reachable | exact smart_exporter_reachable
    | exists []; vm_compute; reflexivity | vm_compute; reflexivity | vm_compute; reflexivity|].
  exists log. rewrite <- Ha by (vm_compute; reflexivity). vm_compute. reflexivity.
Defined.

End SmartProofs.
