(* ===== verification/Bridge.v ===== *)
(** * The bridge program ([bin/windlass_bridge.rs], [main])

    From the strings on the command line to the start of one of the four programs of
    [Transparent.v] and [SmartRelay.v]. *)
From Stdlib Require Import ZArith Lia String.
From stdpp Require Import base option numbers list strings gmap.
From S2P Require Import Prelude Mpsc Framing AsyncPort Discovery Logging Dictionary Relay Slots Cli WindlassCli Transparent SmartRelay.

Local Open Scope Z_scope.

Module Bridge.

Section Main.
Context `{Mpsc} `{SmartHost.Vlq} `{SmartHostTasks.Anchor} {Filter Writer Journal : Type}.

(** The program that was started, in its first state. *)
Inductive Started :=
  | TheExporter (s : Exporter.State)
  | TheHost (s : Host.State)
  | TheSmartExporter (s : SmartExporterTasks.State)
  | TheSmartHost (s : SmartHostTasks.State).

Inductive Outcome := Exited | Waiting | Panicked | Running (s : Started).

Definition started {S} (f : S -> Started) (s : option S) : Outcome :=
  match s with Some s => Running (f s) | None => Exited end.

(** The function of the program that was chosen, with the answers when the link, the
    UARTs and the sockets are opened. *)
Definition launch (program : WindlassCli.Program) (link_device : string)
    (channels : list WindlassCli.McuSpec) (link_port : AsyncSerial.PortSys)
    (ports : nat -> AsyncSerial.PortSys) (sockets : nat -> Windlass.SocketSys) : Outcome :=
  match program with
  | WindlassCli.run_smart_exporter =>
      started TheSmartExporter (SmartExporterTasks.start link_port link_device channels)
  | WindlassCli.run_exporter =>
      started TheExporter (Exporter.start link_port ports link_device channels)
  | WindlassCli.run_smart_host =>
      started TheSmartHost (SmartHostTasks.start link_port sockets link_device channels)
  | WindlassCli.run_host =>
      started TheHost (Host.start link_port sockets link_device channels)
  end.

(** [logs] is what the set-up of the logs meets, [polls] what sysfs shows while the
    program waits for the device. *)
Definition main (logs : Logging.Sys (Filter := Filter) (Writer := Writer) (Journal := Journal))
    (command : WindlassCli.Command) (polls : list Discovery.Sysfs)
    (link_port : AsyncSerial.PortSys) (ports : nat -> AsyncSerial.PortSys)
    (sockets : nat -> Windlass.SocketSys) : Outcome :=
  match Logging.init "windlass-bridge"%string logs None [] with
  | None => Panicked
  | Some _ =>
  match WindlassCli.parse_args command with
  | None => Exited
  | Some args =>
      match Windlass.resolve_link_device polls (WindlassCli.link_dev args) (WindlassCli.usb_id args) with
      | None => Panicked
      | Some None => Waiting
      | Some (Some link_device) =>
          launch (WindlassCli.program args) link_device (WindlassCli.channels args)
            link_port ports sockets
      end
  end
  end.

End Main.

End Bridge.

Module BridgeProofs.
Import Bridge.

Section Start.
Context {MQ : Mpsc} {VQ : SmartHost.Vlq} {AN : SmartHostTasks.Anchor} {Filter Writer Journal : Type}.
Implicit Type logs : Logging.Sys (Filter := Filter) (Writer := Writer) (Journal := Journal).

(** ** What the starts need of the system, and what they make *)

(** [m'] is [m] with [v] under the id of each channel. *)
Definition made {V} (v : V) (specs : list WindlassCli.McuSpec) (m m' : gmap Z V) : Prop :=
  forall id, m' !! id = if bool_decide (id ∈ map WindlassCli.ch_id specs) then Some v else m !! id.

Lemma made_nil {V} (v : V) m : made v [] m m.
Proof. done. Qed.

Lemma made_cons {V} (v : V) c specs m m' :
  made v specs (<[WindlassCli.ch_id c := v]> m) m' -> made v (c :: specs) m m'.
Proof.
  intros Hm id. rewrite Hm. cbn [map]. destruct (decide (id = WindlassCli.ch_id c)) as [->|Hne].
  - rewrite lookup_insert_eq, (bool_decide_eq_true_2 (_ ∈ _ :: _)) by (by left). by case_bool_decide.
  - rewrite lookup_insert_ne by done.
    by rewrite (bool_decide_ext (id ∈ _ :: _) (id ∈ map WindlassCli.ch_id specs))
      by (rewrite elem_of_cons; split; [by intros [?|?] | by right]).
Qed.

Definition uarts_open (ports : nat -> AsyncSerial.PortSys) (channels : list WindlassCli.McuSpec) : Prop :=
  forall k c, channels !! k = Some c ->
    AsyncSerial.opens (ports k) (WindlassCli.path c) (WindlassCli.baud c) = true.

Definition all_sockets (ok : Windlass.SocketSys -> bool) (sockets : nat -> Windlass.SocketSys)
    (n : nat) : Prop :=
  forall k, (k < n)%nat -> ok (sockets k) = true.

Lemma uarts_open_cons ports c channels :
  uarts_open ports (c :: channels) <->
  AsyncSerial.opens (ports O) (WindlassCli.path c) (WindlassCli.baud c) = true /\
  uarts_open (fun k => ports (S k)) channels.
Proof.
  split.
  - intros Ho. split; [by apply (Ho O)|]. intros k c' Hk. by apply (Ho (S k)).
  - intros [Ho Hos] [|k] c'; [by intros [= <-] | by apply Hos].
Qed.

Lemma all_sockets_next ok sockets n :
  all_sockets ok sockets (S n) <->
  ok (sockets O) = true /\ all_sockets ok (fun k => sockets (S k)) n.
Proof.
  split.
  - intros Hg. split; [apply Hg; lia|]. intros k Hk. apply Hg. lia.
  - intros [Hg Hgs] [|k] Hk; [done|]. apply Hgs. lia.
Qed.

Lemma open_uarts_spec ports channels uarts :
  match Exporter.open_uarts ports channels uarts with
  | Some uarts' => uarts_open ports channels /\ made endpoint_new channels uarts uarts'
  | None => ~ uarts_open ports channels
  end.
Proof.
  revert ports uarts. induction channels as [|c channels IH]; intros ports uarts;
    cbn [Exporter.open_uarts]; [by split|].
  destruct (AsyncSerial.opens (ports O) _ _) eqn:E; [|rewrite uarts_open_cons; intros [? _]; congruence].
  specialize (IH (fun k => ports (S k)) (<[WindlassCli.ch_id c := endpoint_new]> uarts)).
  destruct (Exporter.open_uarts _ _ _) as [u|]; rewrite uarts_open_cons; [|by intros [_ ?]].
  destruct IH as [Ho Hm]. split; [done | by apply made_cons].
Qed.

Definition socket_ok (s : Windlass.SocketSys) : bool := Windlass.prepares s && Windlass.binds s.

Lemma bind_sockets_spec sockets specs channels :
  match Host.bind_sockets sockets specs channels with
  | Some channels' => all_sockets socket_ok sockets (length specs) /\ made no_clients specs channels channels'
  | None => ~ all_sockets socket_ok sockets (length specs)
  end.
Proof.
  revert sockets channels. induction specs as [|c specs IH]; intros sockets channels;
    cbn [Host.bind_sockets length]; [by split; [intros k Hk; lia|]|].
  fold (socket_ok (sockets O)).
  destruct (socket_ok (sockets O)) eqn:E; [|rewrite all_sockets_next; intros [? _]; congruence].
  specialize (IH (fun k => sockets (S k)) (<[WindlassCli.ch_id c := no_clients]> channels)).
  destruct (Host.bind_sockets _ _ _) as [m|]; rewrite all_sockets_next; [|by intros [_ ?]].
  destruct IH as [Ho Hm]. split; [done | by apply made_cons].
Qed.

Lemma prepare_sockets_spec sockets specs :
  SmartHostTasks.prepare_sockets sockets specs = true <->
  all_sockets Windlass.prepares sockets (length specs).
Proof.
  revert sockets. induction specs as [|c specs IH]; intros sockets;
    cbn [SmartHostTasks.prepare_sockets length]; [by split; [intros _ k Hk; lia|]|].
  by rewrite all_sockets_next, andb_true_iff, IH.
Qed.

(** Every channel finds its receiver, when the ids differ. *)
Lemma smart_bind_sockets_spec sockets (rxs : gmap Z (option (list Z))) specs channels :
  NoDup (map WindlassCli.ch_id specs) ->
  Forall (fun c => is_Some (rxs !! WindlassCli.ch_id c)) specs ->
  match SmartHostTasks.bind_sockets sockets rxs specs channels with
  | Some channels' => all_sockets Windlass.binds sockets (length specs) /\
      made (SmartHostTasks.mkChannel None no_clients) specs channels channels'
  | None => ~ all_sockets Windlass.binds sockets (length specs)
  end.
Proof.
  revert sockets rxs channels. induction specs as [|c specs IH]; intros sockets rxs channels;
    cbn [SmartHostTasks.bind_sockets length map]; [by split; [intros k Hk; lia|]|].
  intros [Hn Hd]%NoDup_cons [[d Hc] Hr]%Forall_cons.
  destruct (Windlass.binds (sockets O)) eqn:E; [|rewrite all_sockets_next; intros [? _]; congruence].
  rewrite Hc. cbn [mbind option_bind].
  assert (Forall (fun c' => is_Some (delete (WindlassCli.ch_id c) rxs !! WindlassCli.ch_id c')) specs)
    as Hr'.
  { rewrite Forall_forall in Hr |- *. intros c' Hc'. rewrite lookup_delete_ne; [by apply Hr|].
    intros Eid. apply Hn. rewrite Eid. by apply list_elem_of_fmap_2. }
  specialize (IH (fun k => sockets (S k)) _
    (<[WindlassCli.ch_id c := SmartHostTasks.mkChannel None no_clients]> channels) Hd Hr').
  destruct (SmartHostTasks.bind_sockets _ _ _ _) as [m|]; rewrite all_sockets_next; [|by intros [_ ?]].
  destruct IH as [Ho Hm]. split; [done | by apply made_cons].
Qed.

Lemma watches_all specs :
  Forall (fun c => is_Some (SmartHostTasks.watches specs !! WindlassCli.ch_id c)) specs.
Proof.
  unfold SmartHostTasks.watches.
  assert (forall (w : gmap Z (option (list Z))) id,
    is_Some (w !! id) \/ id ∈ map WindlassCli.ch_id specs ->
    is_Some (foldl (fun w c => <[WindlassCli.ch_id c := None]> w) w specs !! id)) as H.
  { induction specs as [|c specs IH]; intros w id; cbn [foldl map].
    - intros [?|Hin]; [done | by apply not_elem_of_nil in Hin].
    - rewrite elem_of_cons. intros [Hw|[->|Hin]]; apply IH; [left|left|by right].
      + rewrite lookup_insert. by case_decide.
      + by rewrite lookup_insert_eq. }
  apply Forall_forall. intros c Hc. apply H. right. by apply list_elem_of_fmap_2.
Qed.

(** ** The program *)

(** The system opens the link, and what else the program needs when it starts. *)
Definition granted (program : WindlassCli.Program) (link_device : string)
    (channels : list WindlassCli.McuSpec) (link_port : AsyncSerial.PortSys)
    (ports : nat -> AsyncSerial.PortSys) (sockets : nat -> Windlass.SocketSys) : Prop :=
  AsyncSerial.opens link_port link_device 0 = true /\
  match program with
  | WindlassCli.run_smart_exporter => True
  | WindlassCli.run_exporter => uarts_open ports channels
  | WindlassCli.run_smart_host | WindlassCli.run_host => all_sockets socket_ok sockets (length channels)
  end.

(** The program that was chosen, with exactly the channels asked for, nothing read,
    queued or written yet. *)
Definition serves (program : WindlassCli.Program) (channels : list WindlassCli.McuSpec) (s : Started)
  : Prop :=
  match program, s with
  | WindlassCli.run_exporter, TheExporter s =>
      exists m, made endpoint_new channels ∅ m /\ s = Exporter.mkState m usb_new true
  | WindlassCli.run_host, TheHost s =>
      exists m, made no_clients channels ∅ m /\ s = Host.mkState m usb_new true
  | WindlassCli.run_smart_exporter, TheSmartExporter s =>
      s = SmartExporterTasks.mkState channels ∅ ∅ usb_new true
  | WindlassCli.run_smart_host, TheSmartHost s =>
      exists m, made (SmartHostTasks.mkChannel None no_clients) channels ∅ m /\
        s = SmartHostTasks.mkState m mpsc_new
              (SmartHost.gatherer_new (SmartHostTasks.watches channels)) usb_new true
  | _, _ => False
  end.

(** Every run of it is one the theorems on the program are about. *)
Definition runs (s : Started) : Prop :=
  match s with
  | TheExporter s => forall evs s',
      Forall Exporter.event_ok evs -> run Exporter.step s evs = Some s' -> Exporter.reachable s'
  | TheHost s => forall evs s',
      Forall Host.event_ok evs -> run Host.step s evs = Some s' -> Host.reachable s'
  | TheSmartExporter s => forall evs s',
      Forall SmartExporterTasks.event_ok evs -> run SmartExporterTasks.step s evs = Some s' ->
      SmartExporterTasks.reachable s'
  | TheSmartHost s => forall evs s',
      Forall SmartHostTasks.event_ok evs -> run SmartHostTasks.step s evs = Some s' ->
      SmartHostTasks.reachable s'
  end.

Lemma sockets_ok sockets n :
  all_sockets socket_ok sockets n <->
  all_sockets Windlass.prepares sockets n /\ all_sockets Windlass.binds sockets n.
Proof.
  unfold all_sockets, socket_ok. setoid_rewrite andb_true_iff.
  split; [intros Hg; split; intros k Hk; apply (Hg k Hk) | intros [Hp Hb] k Hk; by split; auto].
Qed.

Section Launch.
Context (link_device : string) (channels : list WindlassCli.McuSpec)
  (link_port : AsyncSerial.PortSys) (ports : nat -> AsyncSerial.PortSys)
  (sockets : nat -> Windlass.SocketSys).
Hypothesis Hids : Forall (fun c => 0 <= WindlassCli.ch_id c < CTRL_CH) channels.
Hypothesis Hn : NoDup (map WindlassCli.ch_id channels).

(** What [launch] makes of the program [p]. *)
Definition launched (p : WindlassCli.Program) : Prop :=
  match launch p link_device channels link_port ports sockets with
  | Exited => ~ granted p link_device channels link_port ports sockets
  | Running s => granted p link_device channels link_port ports sockets /\
      serves p channels s /\ runs s
  | _ => False
  end.

Lemma ids_u8 : Forall (fun c => u8 (WindlassCli.ch_id c)) channels.
Proof. eapply Forall_impl; [exact Hids|]. unfold u8, CTRL_CH. cbn. lia. Qed.

Lemma launch_exporter : launched WindlassCli.run_exporter.
Proof.
  unfold launched, granted. cbn [launch].
  destruct (Exporter.start link_port ports link_device channels) as [s|] eqn:E; cbn [started];
    pose proof E as Es; unfold Exporter.start in E;
    pose proof (open_uarts_spec ports channels ∅) as Hu;
    (destruct (AsyncSerial.opens link_port link_device 0); [|try done; by intros [? _]]);
    (destruct (Exporter.open_uarts ports channels ∅) as [m|]; [|try done; by intros [_ ?]]); [|done].
  injection E as <-. split; [by destruct Hu|]. split; [exists m; by destruct Hu|].
  intros evs s' Hev Er. exists link_port, ports, link_device, channels, evs.
  eexists. split; [exact ids_u8 | by split].
Qed.

Lemma launch_host : launched WindlassCli.run_host.
Proof.
  unfold launched, granted. cbn [launch].
  destruct (Host.start link_port sockets link_device channels) as [s|] eqn:E; cbn [started];
    pose proof E as Es; unfold Host.start in E;
    pose proof (bind_sockets_spec sockets channels ∅) as Hu;
    (destruct (AsyncSerial.opens link_port link_device 0); [|try done; by intros [? _]]);
    (destruct (Host.bind_sockets sockets channels ∅) as [m|]; [|try done; by intros [_ ?]]); [|done].
  injection E as <-. split; [by destruct Hu|]. split; [exists m; by destruct Hu|].
  intros evs s' Hev Er. exists link_port, sockets, link_device, channels, evs.
  eexists. split; [exact ids_u8 | by split].
Qed.

Lemma launch_smart_exporter : launched WindlassCli.run_smart_exporter.
Proof.
  unfold launched, granted. cbn [launch].
  destruct (SmartExporterTasks.start link_port link_device channels) as [s|] eqn:E; cbn [started];
    pose proof E as Es; unfold SmartExporterTasks.start in E;
    (destruct (AsyncSerial.opens link_port link_device 0); [|try done; by intros [? _]]); [|done].
  injection E as <-. split; [done|]. split; [done|].
  intros evs s' Hev Er. exists link_port, link_device, channels, evs. by eexists.
Qed.

Lemma launch_smart_host : launched WindlassCli.run_smart_host.
Proof.
  unfold launched, granted. cbn [launch].
  destruct (SmartHostTasks.start link_port sockets link_device channels) as [s|] eqn:E; cbn [started];
    pose proof E as Es; unfold SmartHostTasks.start in E; rewrite sockets_ok;
    pose proof (prepare_sockets_spec sockets channels) as Hp;
    pose proof (smart_bind_sockets_spec sockets _ channels ∅ Hn (watches_all channels)) as Hu;
    (destruct (AsyncSerial.opens link_port link_device 0); [|try done; by intros [? _]]);
    (destruct (SmartHostTasks.prepare_sockets sockets channels);
      [|try done; by intros (_ & ?%Hp & _)]); cbn [andb] in E;
    (destruct (SmartHostTasks.bind_sockets _ _ _ _) as [m|]; [|try done; by intros (_ & _ & ?)]); [|done].
  injection E as <-. split; [split; [done|]; split; [by apply Hp | apply Hu]|].
  split; [exists m; by destruct Hu|].
  intros evs s' Hev Er. exists link_port, sockets, link_device, channels, evs. by eexists.
Qed.

Lemma launch_spec p : launched p.
Proof.
  destruct p; [apply launch_smart_exporter|apply launch_exporter|apply launch_smart_host|apply launch_host].
Qed.

End Launch.

(** The program a command line asks for. *)
Definition asked (subcommand : Cli.Mode) (smart : bool) : WindlassCli.Program :=
  match subcommand, smart with
  | Cli.exporter, true => WindlassCli.run_smart_exporter
  | Cli.exporter, false => WindlassCli.run_exporter
  | Cli.host, true => WindlassCli.run_smart_host
  | Cli.host, false => WindlassCli.run_host
  end.

(** [dev] is the device given, or the one found by the first look at sysfs that shows
    a device with the USB id. *)
Definition link_found (polls : list Discovery.Sysfs) (args : WindlassCli.Args) (dev : string) : Prop :=
  WindlassCli.link_dev args = Some dev \/
  WindlassCli.link_dev args = None /\ exists vid pid before fs after,
    WindlassCli.usb_id args = Some (vid, pid) /\ polls = (before ++ fs :: after)%list /\
    Windlass.find_acm_by_usb_id fs vid pid = Some dev /\
    Forall (fun fs => Windlass.find_acm_by_usb_id fs vid pid = None) before.

(** C2: The bridge from the strings on the command line.  It panics exactly when the
    directory of the logs is there and an appender cannot be made in it.  It exits only
    when two channels have one id, or the system refuses the link (the device given, or
    the one the first successful look at sysfs has found), a UART or a socket; it waits
    only for a USB device that no look at sysfs has shown.  Otherwise the system has
    granted all of this for that device, and the program asked for runs, with exactly
    the channels of the command line and nothing read or queued; and every state it
    reaches is one of those the theorems on that program are about. *)
Theorem bridge_starts logs subcommand smart raw command polls link_port ports sockets :
  WindlassCli.cli_parse subcommand smart raw = Cli.Good command ->
  (main logs command polls link_port ports sockets = Panicked <->
     Logging.no_appender "windlass-bridge"%string logs) /\
  match main logs command polls link_port ports sockets with
  | Panicked => Logging.no_appender "windlass-bridge"%string logs
  | Exited =>
      WindlassCli.parse_args command = None \/
      exists args dev, WindlassCli.parse_args command = Some args /\ link_found polls args dev /\
        ~ granted (asked subcommand smart) dev (WindlassCli.channels args) link_port ports sockets
  | Waiting =>
      exists args vid pid, WindlassCli.parse_args command = Some args /\
        WindlassCli.link_dev args = None /\ WindlassCli.usb_id args = Some (vid, pid) /\
        Forall (fun fs => Windlass.find_acm_by_usb_id fs vid pid = None) polls
  | Running s =>
      exists args dev, WindlassCli.parse_args command = Some args /\ link_found polls args dev /\
        granted (asked subcommand smart) dev (WindlassCli.channels args) link_port ports sockets /\
        serves (asked subcommand smart) (WindlassCli.channels args) s /\ runs s
  end.
Proof.
  intros Hc. pose proof (Logging.init_panics "windlass-bridge"%string logs None []) as Hlog.
  unfold main. destruct (Logging.init "windlass-bridge"%string logs None []) as [l|].
  2: { assert (Logging.no_appender "windlass-bridge"%string logs) by by apply Hlog. by split. }
  assert (~ Logging.no_appender "windlass-bridge"%string logs) as Hno by by intros ?%Hlog.
  destruct (WindlassCli.parse_args command) as [args|] eqn:Ea; [|by split; [|left]].
  destruct (WindlassCliProofs.windlass_args_sound _ _ _ _ _ Hc Ea) as (Hv & Hn & Hl & ->).
  fold (asked subcommand smart).
  assert (Forall (fun c => 0 <= WindlassCli.ch_id c < CTRL_CH) (WindlassCli.channels args)) as Hids
    by (eapply Forall_impl; [exact Hv | by intros c [? _]]).
  pose proof (fun dev => launch_spec dev (WindlassCli.channels args) link_port ports sockets Hids Hn
    (asked subcommand smart)) as Hlaunch. unfold launched in Hlaunch.
  destruct (WindlassCli.link_dev args) as [dev|] eqn:El.
  - specialize (Hlaunch dev). cbn [Windlass.resolve_link_device].
    destruct (launch _ _ _ _ _ _) as [| | |s]; [|done..|]; (split; [done|]).
    + right. exists args, dev. split; [done|]. by split; [left|].
    + exists args, dev. split; [done|]. by split; [left|].
  - destruct (WindlassCli.usb_id args) as [[vid pid]|] eqn:Eu; [|by destruct (proj1 Hl)].
    cbn [Windlass.resolve_link_device]. rewrite DiscoveryProofs.windlass_wait.
    pose proof (DiscoveryProofs.wait_for_acm_spec polls vid pid) as Hw.
    destruct (Discovery.wait_for_acm polls vid pid) as [dev|]; [|by split; [|exists args, vid, pid]].
    destruct Hw as (before & fs & after & Ep & Ef & Hb).
    assert (link_found polls args dev) as Hf by (right; split; [done|]; by exists vid, pid, before, fs, after).
    specialize (Hlaunch dev). destruct (launch _ _ _ _ _ _) as [| | |s]; [|done..|]; (split; [done|]).
    + right. by exists args, dev.
    + by exists args, dev.
Qed.

End Start.

(** ** A run *)

#[local] Existing Instance SmartProofs.plain_anchor.

Definition raw_args : Cli.RawArgs :=
  Cli.mkRaw None (Some "1D6B:0104"%string) ["mcu:3:/tmp/klipper_mcu"%string].

Definition command : WindlassCli.Command :=
  WindlassCli.Host (WindlassCli.mkModeArgs true None (Some ("1d6b", "0104")%string)
    [WindlassCli.mkSpec 3 "/tmp/klipper_mcu" 0]).

(** The device is there at the second look. *)
Definition looks : list Discovery.Sysfs :=
  [Discovery.mkSysfs None (fun p => Some p) (fun _ => None);
   Discovery.mkSysfs (Some ["ttyACM0"%string]) (fun p => Some p)
     (fun p => match last p with
               | Some "idVendor"%string => Some "1d6b"%string
               | Some "idProduct"%string => Some "0104"%string
               | _ => None
               end)].

Lemma bridge_starts_witness :
  WindlassCli.cli_parse Cli.host true raw_args = Cli.Good command /\
  exists s, main Logging.no_dir command looks TransparentProofs.port (fun _ => TransparentProofs.port)
    (fun _ => TransparentProofs.socket) = Running s /\
    serves WindlassCli.run_smart_host [WindlassCli.mkSpec 3 "/tmp/klipper_mcu" 0] s /\ runs s.
Proof.
  split; [reflexivity|].
  destruct (bridge_starts Logging.no_dir Cli.host true raw_args command looks TransparentProofs.port
    (fun _ => TransparentProofs.port) (fun _ => TransparentProofs.socket) ltac:(reflexivity)) as [_ Hs].
  destruct (main Logging.no_dir command looks TransparentProofs.port (fun _ => TransparentProofs.port)
    (fun _ => TransparentProofs.socket)) as [| | |s] eqn:E; [exfalso; revert E; by vm_compute..|].
  destruct Hs as (args & dev & Ea & _ & _ & Hs & Hr). injection Ea as <-. by exists s.
Defined.

End BridgeProofs.
